(* ===== verification/_CoqProject ===== *)
-Q . S2P
Prelude.v
Numbers.v
Strings.v
Values.v
Encoding.v
Envelope.v
Digest.v
Cbor.v
CborSpec.v
Attestation.v
Externals.v
State.v
StateFacts.v
StateSpec.v
Config.v
Text.v
Errors.v
Effects.v
Persistence.v
World.v
Cursor.v
Concurrency.v
Upkeep.v
Stringify.v
Doubles.v
Buffers.v
Decimal.v
Aggregate.v
Ssrf.v
SsrfSpec.v
Breaker.v
Capabilities.v
WorkerCore.v
Allowlist.v
Relay.v
RelaySpec.v
FeedPlan.v
Signers.v
WorkerSigning.v
WorkerSigningSpec.v
FeedPolicy.v
FeedRegistry.v
FeedQuote.v
FeedSubmit.v
Feeds.v
FeedsSpec.v
Policy.v
Guards.v
GuardsSpec.v
Samples.v
Queue.v
QueueSpec.v
Signing.v
Prepare.v
EnclaveCore.v
EnclaveFulfill.v
EnclaveFeed.v
EnclaveServer.v
EnclaveSamples.v
EnclaveSpec.v
EnclaveKeys.v
EnclaveAgree.v
EnclaveFeedSpec.v
AutomationStore.v
Automation.v
AutomationSpec.v
AutomationRows.v
AutomationControl.v
PrepareSpec.v
Process.v
ProcessSpec.v
Fate.v
DeliverySpec.v
Processor.v
ProcessorSpec.v
N3Client.v
N3Fulfill.v
N3ClientSpec.v
N3SubmitSpec.v
N3FulfillSpec.v
