(* ===== verification/Prelude.v ===== *)
(** * Morpheus oracle: a verification library

    The repository is an oracle for the Neo N3 and Neo X chains.  A relayer
    ([workers/morpheus-relayer]) scans the chains for requests, has each one
    answered by a worker ([workers/nitro-worker]) or by an enclave
    ([deploy/nitro/enclave-server.mjs]), signs the result and submits it; a durable
    job table makes several relayers share the work.  This library models that
    pipeline, the request path of the worker and the enclave server.  Paths below
    are under [src/]; R is [workers/morpheus-relayer/src], W is
    [workers/nitro-worker/src], P is [packages/shared/src], E is
    [deploy/nitro/enclave-server.mjs].

    ** Files

    - [Prelude], [Numbers], [Text], [Values]: the JavaScript of the
      code: strings, truthiness, numbers, JSON values, regular expressions.
    - [Strings], [Encoding], [Envelope], [Digest]: the pure functions of
      R/lib and R/router.js, and the digest of a fulfillment.
    - [Cbor], [CborSpec], [Attestation]: P/cbor.js, P/cose-verify.js and
      R/attestation.js.
    - [State], [StateFacts], [StateSpec]: R/state.js.  [relayer_state] is the
      state object with a [chain_state] per chain; a function that mutates it is
      a function from state to state.  [Cursor] is R/chain-cursor.js.
    - [Effects]: asynchronous programs.  A [prog] alternates synchronous segments
      over the shared state with awaited calls; [run] executes one against an
      environment, [par_step] interleaves a pool at its awaits.
    - [Config], [Errors], [Persistence], [World], [Externals]: the settings, the
      error classes, the job-store client and the calls the relayer awaits.
    - [Queue], [QueueSpec]: R/queue.js.  [Upkeep]: P/automation-supervisor.js.
    - [Signing], [Prepare], [PrepareSpec], [Process], [ProcessSpec], [Fate],
      [DeliverySpec]: R/fulfillment.js, from preparation to delivery.
    - [Processor], [ProcessorSpec]: R/request-processor.js.  [Concurrency]:
      [mapWithConcurrency] of P/utils.js as a step relation.
    - [Stringify]: [stableStringify] of P/utils.js.
    - [Ssrf], [SsrfSpec]: W/platform/ssrf.js.  [Breaker]:
      W/platform/circuit-breaker.js.  [Capabilities]: W/capabilities.js and
      W/platform/overload-guard.js.  [WorkerCore], [Policy]: W/platform/core.js
      (with its settings) and policy-engine.js.  [Guards], [GuardsSpec]: W/worker.js with
      W/platform/upstash.js, request-guards.js and auth.js.
    - [Doubles]: binary64 numbers.  [Decimal], [Aggregate]: W/oracle/feeds/decimal.js
      and W/oracle/aggregation.js.  [FeedPolicy]: W/oracle/feeds/shared.js and
      sync-policy.js.  [FeedRegistry], [FeedQuote], [FeedSubmit], [Feeds],
      [FeedsSpec]: W/oracle/feed-registry.js, W/oracle/feeds.js,
      W/oracle/feeds/feed-submit.js and feed-state.js.
    - [AutomationStore], [Automation], [AutomationSpec], [AutomationRows],
      [AutomationControl]: R/automation.js over the automation tables of
      R/persistence.js.  A row of a table is its JSON object.
    - [Allowlist]: W/platform/allowlist.js.  [Relay], [RelaySpec]: W/chain/neo-n3.js,
      W/chain/index.js and the replay window of W/chain/signing.js.
    - [Signers]: P/neo-signers-core.js.  [WorkerSigning], [WorkerSigningSpec]:
      W/chain/signing.js and W/platform/nitro-signer.js.  [Buffers]: the byte
      buffers and big integers of a JSON value that the signing code and the
      enclave share.
    - [FeedPlan]: the decision core of deploy/feed-pusher/feed-pusher.mjs.
    - [EnclaveCore], [EnclaveFulfill], [EnclaveFeed], [EnclaveServer]: E, from its
      keys to its requests.  [enclave_state] is the process environment, the cache
      of signers and the outcome of the key service's probe; a handler is a program
      that ends with a value or an error with its HTTP status.  [EnclaveSamples]
      holds sample values and what they show, [EnclaveSpec], [EnclaveKeys],
      [EnclaveAgree] and [EnclaveFeedSpec] the theorems.
    - [N3Client], [N3Fulfill]: R/neo-n3.js and R/nitro.js, from the items of the
      chain's machine to the delivery of a result.
      [rpc_state] is the part of the configuration they change, the URLs of the
      nodes; neon-js is [n3_lib].  Theorems: [N3ClientSpec], [N3SubmitSpec],
      [N3FulfillSpec].

    ** Theorems

    - The relayer loses no request and pays once: [Fate], [DeliverySpec],
      [ProcessSpec].  They quantify over every environment (each reply of each
      call) and, where they speak of a pool, over every interleaving.
    - What is signed is what was asked: [Digest], [PrepareSpec]; when a result is
      labelled attested, exactly: [Attestation].
    - The state stays well formed and within its bounds: [StateSpec],
      [ProcessorSpec], [Capabilities].
    - The job table: [QueueSpec] (hydration, back-pressure; claims exclude each
      other within the stale timeout, the runs of the claim's code against a row
      that the store patches atomically).
    - The worker: authentication, idempotency and the in-flight limit
      ([GuardsSpec]), the addresses it may reach ([SsrfSpec]), its canonical JSON
      ([Stringify]) and its circuit breaker ([Breaker]).
    - The price feed: exact decimal units ([Decimal]), an aggregate a minority
      cannot move ([Aggregate]), the schedule and the timestamps of submissions
      ([FeedPolicy]), the canonical record, the baseline and the signed update
      ([FeedsSpec]).
    - Automation: a tick ends with a report unless the store's rows are malformed,
      a broadcast follows a granted claim, a claim that was not finalized resumes
      under the same request id, and the budget holds ([AutomationSpec]); a
      registered row stays readable in every history of snapshots and merges
      ([AutomationRows]); only its requester cancels it ([AutomationControl]).
    - Transactions: what the worker may call ([Allowlist]), what it relays and how
      often ([RelaySpec]), whose key signs ([Signers], [WorkerSigningSpec]).
    - The enclave: no token, no use of a key, and a signer is that of the live
      keys ([EnclaveSpec]); a signing key is not provisioned in the clear
      ([EnclaveKeys]); what is signed is what was computed, and the relayer's check
      of an honest reply succeeds ([EnclaveAgree]); a signed price update is the
      planned one ([EnclaveFeedSpec]) and never goes back ([FeedPlan]).
    - The Neo N3 client: a call fails over and keeps every URL, a scan that
      returns missed no request of its window, and how texts are read, verbatim or not
      ([N3ClientSpec]); a fee top-up stays within its bounds ([N3SubmitSpec]); only
      the fulfillment asked for is submitted, it counts when the chain executed it,
      and the wait for that ends ([N3FulfillSpec]).
    - Codecs: [CborSpec], [Encoding], [Envelope].

    ** Conventions and bounds

    Strings are sequences of code units below 256.  Numbers are exact integers,
    with [jsnum] where the code can meet NaN or infinity; rational draws and
    delays are [Q]; where the code computes in floating point, [Doubles] has the
    finite binary64 numbers as exact multiples of 2^-1074, with the two zeros
    identified, and whole milliseconds are below 2^52.  The CBOR decoder has fuel
    bounded by the buffer, and [cbor_decoder_total] shows it is enough; the wait
    for a transaction has one poll per millisecond of its timeout and one more,
    and [wait_ends] shows they are enough; the wait for the verdict of a delivery
    has one poll per second of its timeout and two more ([confirmation_ends]), and so
    has the wait for a top-up ([halt_wait_ends]); a bounded repeat of a [regex] unfolds its
    bound, an unbounded one is limited by the length of its input.

    ** Not modelled

    Log lines and durations; the text of an error after its dash where the code
    only forwards a library's message; integers of CBOR above 2^53 lose no
    precision here; base64 is canonical.  Hashing, ABI encoding, signatures,
    X.509, [JSON.parse], the resolver and the collator are parameters, with the
    documented behaviour a theorem needs as a hypothesis.  The Neo X client,
    HTTP requests, the worker's handlers and the Redis and PostgREST services
    are awaited calls; in the feed handler the concurrent provider requests of one
    symbol are made in input order, and the on-chain records, the signing and the
    relaying of transactions are awaited.  In [Processor] and in the scans of
    [N3Client] a pool runs as a one-worker schedule, and its interleavings are the
    subject of [ProcessSpec], [N3ClientSpec] and [Concurrency].  The calls of the chain
    in [Processor], [Process] and [Automation] are awaited, whatever they answer:
    those theorems need nothing of [N3Client].  Look-ups of a secret that overlap in time
    share one promise in the code and run in sequence in [WorkerSigning].  The
    sponsored transactions of W/chain/neo-n3.js, the run loop, the loading of the
    state file and of the configuration, the compute, NeoDID and paymaster
    handlers, the edge deployment, the feed pusher's cycles, the older signer
    server, the web application, the contracts and the scripts are not part of the
    library.  The enclave's worker, attestation device, key service, price provider
    and randomness are awaited calls, its wallets and transaction builders
    parameters; the key service is called synchronously by the code, and requests
    to the enclave are answered one after the other.  A reply passes from the
    enclave to the relayer as an object, its JSON text is not modelled. *)
From Stdlib Require Export Ascii ZArith Lia ZifyBool.
From stdpp Require Export base gmap strings list fin_maps pretty.

#[global] Open Scope string_scope.
#[global] Open Scope list_scope.
#[global] Open Scope Z_scope.
#[global] Set Default Proof Using "Type".

(** Hints that automate the common cases of the relayer-state proofs. *)
Create HintDb relayer_state.
Create Rewrite HintDb relayer_state.

(** ** Tactics *)

(** Split on the innermost [match] or [if] of the goal or of a hypothesis. *)
Ltac split_match :=
  match goal with
  | |- context [ match ?x with _ => _ end ] =>
      lazymatch x with context [ match _ with _ => _ end ] => fail | _ => destruct x eqn:? end
  | H : context [ match ?x with _ => _ end ] |- _ =>
      lazymatch x with context [ match _ with _ => _ end ] => fail | _ => destruct x eqn:? end
  end.

(** ** JavaScript strings

    A string is a sequence of code units below 256 (Latin-1), one [ascii] per
    code unit.  [js_space] is the class [\s] of regular expressions and of
    [String.prototype.trim] on that range. *)

Definition code (a : ascii) : Z := Z.of_nat (nat_of_ascii a).

Definition chr (z : Z) : ascii := ascii_of_nat (Z.to_nat z).

Definition js_space (a : ascii) : bool :=
  ((9 <=? code a) && (code a <=? 13)) || (code a =? 32) || (code a =? 160).

(** [toLowerCase] on one code unit of the Latin-1 range. *)
Definition lower (a : ascii) : ascii :=
  if ((65 <=? code a) && (code a <=? 90))
     || ((192 <=? code a) && (code a <=? 222) && negb (code a =? 215))
  then chr (code a + 32) else a.

Fixpoint toLowerCase (s : string) : string :=
  match s with
  | "" => ""
  | String a s' => String (lower a) (toLowerCase s')
  end.

Fixpoint trimStart (s : string) : string :=
  match s with
  | "" => ""
  | String a s' => if js_space a then trimStart s' else s
  end.

Fixpoint all_space (s : string) : bool :=
  match s with
  | "" => true
  | String a s' => js_space a && all_space s'
  end.

Fixpoint trimEnd (s : string) : string :=
  match s with
  | "" => ""
  | String a s' => if all_space s then "" else String a (trimEnd s')
  end.

(** [String.prototype.trim] *)
Definition trim (s : string) : string := trimEnd (trimStart s).

(** [haystack.startsWith(needle)] and [haystack.includes(needle)] *)
Definition startsWith (s p : string) : bool := String.prefix p s.

Fixpoint includes (s p : string) : bool :=
  startsWith s p ||
  match s with
  | "" => false
  | String _ s' => includes s' p
  end.

(** A character-class test over a whole string. *)
Fixpoint str_forall (f : ascii -> bool) (s : string) : bool :=
  match s with
  | "" => true
  | String a s' => f a && str_forall f s'
  end.

Definition str_exists (f : ascii -> bool) (s : string) : bool :=
  negb (str_forall (fun a => negb (f a)) s).

Definition str_length (s : string) : Z := Z.of_nat (String.length s).

(** [s.slice(0, n)] for [0 <= n] *)
Definition slice_to (s : string) (n : Z) : string := String.substring 0 (Z.to_nat n) s.

(** [parts.join(sep)] *)
Definition join (sep : string) (parts : list string) : string := String.concat sep parts.

(** ** Truthiness

    [a || b] on strings and on numbers: the empty string and zero are falsy. *)

Definition or_str (a b : string) : string := if decide (a = "") then b else a.
Definition or_num (a b : Z) : Z := if decide (a = 0) then b else a.

Declare Scope js_scope.
Delimit Scope js_scope with js.
Notation "a ||s b" := (or_str a b) (at level 50, left associativity) : js_scope.
Notation "a ||n b" := (or_num a b) (at level 50, left associativity) : js_scope.
#[global] Open Scope js_scope.

(** [String(n)] for an integer number. *)
Definition num_to_string (z : Z) : string := pretty z.

(** ** Generic lemmas: strings *)

Lemma or_str_nonempty a b : a <> "" -> a ||s b = a.
Proof. intros. unfold or_str. by rewrite decide_False. Qed.

Lemma or_str_empty b : "" ||s b = b.
Proof. reflexivity. Qed.

Lemma or_str_ne a b : b <> "" -> a ||s b <> "".
Proof. intros. unfold or_str. by case_decide. Qed.

Lemma ascii_all (P : ascii -> bool) :
  forallb P (map ascii_of_nat (seq 0 256)) = true -> forall a, P a = true.
Proof.
  intros H a. rewrite forallb_forall in H. apply H.
  rewrite <-(ascii_nat_embedding a). apply in_map, in_seq.
  pose proof (nat_ascii_bounded a). lia.
Qed.

Lemma lower_idem a : lower (lower a) = lower a.
Proof.
  apply Ascii.eqb_eq. revert a. apply ascii_all. vm_compute. reflexivity.
Qed.

Lemma lower_space a : js_space (lower a) = js_space a.
Proof.
  apply Bool.eqb_prop. revert a. apply ascii_all. vm_compute. reflexivity.
Qed.

Lemma str_forall_impl (f g : ascii -> bool) s :
  (forall a, f a = true -> g a = true) -> str_forall f s = true -> str_forall g s = true.
Proof.
  intros Hfg. induction s as [|a s IH]; simpl; [done|].
  rewrite !andb_true_iff. naive_solver.
Qed.

Lemma toLowerCase_idem s : toLowerCase (toLowerCase s) = toLowerCase s.
Proof. induction s as [|a s IH]; simpl; [done|]. by rewrite lower_idem, IH. Qed.

Lemma trimStart_no_space s :
  str_forall (fun a => negb (js_space a)) s = true -> trimStart s = s.
Proof. destruct s as [|a s]; simpl; [done|]. by destruct (js_space a). Qed.

Lemma trimEnd_no_space s :
  str_forall (fun a => negb (js_space a)) s = true -> trimEnd s = s.
Proof.
  induction s as [|a s IH]; simpl; [done|].
  destruct (js_space a); simpl; [done|]. intros H. by rewrite IH.
Qed.

Lemma trim_no_space s :
  str_forall (fun a => negb (js_space a)) s = true -> trim s = s.
Proof. intros H. unfold trim. by rewrite trimStart_no_space, trimEnd_no_space. Qed.

(** ** Blank texts *)

Lemma all_space_trimStart s : all_space (trimStart s) = all_space s.
Proof. induction s as [|a s IH]; [done|]. cbn. destruct (js_space a) eqn:Ha; [done|]. cbn. by rewrite Ha. Qed.

Lemma all_space_trimEnd s : all_space (trimEnd s) = all_space s.
Proof.
  induction s as [|a s IH]; [done|]. cbn [trimEnd]. destruct (all_space (String a s)) eqn:H; [done|].
  cbn in *. by rewrite IH.
Qed.

Lemma trim_blank s : trim s = "" <-> all_space s = true.
Proof.
  unfold trim. rewrite <-(all_space_trimStart s). destruct (trimStart s) as [|a t]; [done|].
  cbn [trimEnd]. by destruct (all_space (String a t)).
Qed.

Lemma trim_solid s : trim s <> "" -> trim (trim s) <> "".
Proof. rewrite !trim_blank. unfold trim. by rewrite all_space_trimEnd, all_space_trimStart. Qed.

Lemma trimEnd_idem s : trimEnd (trimEnd s) = trimEnd s.
Proof.
  induction s as [|a s IH]; [done|]. cbn [trimEnd]. destruct (all_space (String a s)) eqn:H; [done|].
  cbn [trimEnd]. replace (all_space (String a (trimEnd s))) with false; [by rewrite IH|].
  rewrite <-H. cbn. by rewrite all_space_trimEnd.
Qed.

Lemma trim_idem s : trim (trim s) = trim s.
Proof.
  assert (trimStart (trim s) = trim s) as H; [|unfold trim at 1; rewrite H; apply trimEnd_idem].
  unfold trim. induction s as [|a s IH]; [done|]. cbn [trimStart]. destruct (js_space a) eqn:Ha; [exact IH|].
  cbn [trimEnd]. destruct (all_space _); [done|]. cbn. by rewrite Ha.
Qed.

Lemma all_space_app s t : all_space (s +:+ t) = all_space s && all_space t.
Proof.
  induction s as [|a s IH]; [done|]. change (String a s +:+ t) with (String a (s +:+ t)). cbn. by rewrite IH, andb_assoc.
Qed.

Lemma trimEnd_app s t : all_space t = false -> trimEnd (s +:+ t) = s +:+ trimEnd t.
Proof.
  intros Ht. induction s as [|a s IH]; [done|]. change (String a s +:+ ?x) with (String a (s +:+ x)).
  cbn [trimEnd]. change (all_space (String a (s +:+ t))) with (js_space a && all_space (s +:+ t)).
  by rewrite all_space_app, Ht, !andb_false_r, IH.
Qed.

(** ** Generic lemmas: separators and numerals *)

Definition not_char (c a : ascii) : bool := negb (Ascii.eqb a c).

Lemma str_forall_app f s t : str_forall f (s +:+ t) = str_forall f s && str_forall f t.
Proof.
  induction s as [|a s IH]; [done|].
  change (String a s +:+ t) with (String a (s +:+ t)). simpl. by rewrite IH, andb_assoc.
Qed.

(** Splitting at the first separator is unambiguous. *)
Lemma split_sep_inj c s s' t t' :
  str_forall (not_char c) s = true -> str_forall (not_char c) s' = true ->
  s +:+ String c t = s' +:+ String c t' -> s = s' /\ t = t'.
Proof.
  revert s'. induction s as [|a s IH]; intros [|a' s']; simpl; intros Hs Hs' Heq.
  - by inversion Heq.
  - inversion Heq; subst. unfold not_char in Hs'. by rewrite Ascii.eqb_refl in Hs'.
  - inversion Heq; subst. unfold not_char in Hs. by rewrite Ascii.eqb_refl in Hs.
  - apply andb_true_iff in Hs as [_ Hs], Hs' as [_ Hs'].
    inversion Heq; subst. destruct (IH s') as [-> ->]; auto.
Qed.

Lemma pretty_N_go_forall (f : ascii -> bool) x s :
  (forall n, f (pretty_N_char n) = true) -> str_forall f s = true ->
  str_forall f (pretty_N_go x s) = true.
Proof.
  intros Hf. revert s. induction (N.lt_wf_0 x) as [x _ IH]; intros s Hs.
  destruct (decide (x = 0)%N) as [->|Hx]; [by rewrite pretty_N_go_0|].
  rewrite pretty_N_go_step by lia. apply IH; [by apply N.div_lt; lia|].
  simpl. by rewrite Hf, Hs.
Qed.

Lemma num_to_string_forall (f : ascii -> bool) z :
  (forall n, f (pretty_N_char n) = true) -> f "-"%char = true ->
  str_forall f (num_to_string z) = true.
Proof.
  intros Hf Hd. unfold num_to_string, pretty, pretty_Z.
  assert (forall p, str_forall f (pretty (N.pos p)) = true) as Hp.
  { intros p. unfold pretty, pretty_N. case_decide; [done|]. by apply pretty_N_go_forall. }
  pose proof (Hf 0%N : f "0"%char = true) as H0.
  destruct z.
  - simpl. by rewrite H0.
  - apply Hp.
  - change (str_forall f ("-" +:+ pretty p)) with (f "-"%char && str_forall f (pretty (N.pos p))).
    by rewrite Hd, Hp.
Qed.

Lemma num_to_string_no_colon z : str_forall (not_char ":") (num_to_string z) = true.
Proof.
  apply num_to_string_forall; [|done]. intros n. unfold pretty_N_char. by repeat case_match.
Qed.

Lemma pretty_N_go_ne x s : s <> "" -> pretty_N_go x s <> "".
Proof.
  revert s. induction (N.lt_wf_0 x) as [x _ IH]; intros s Hs.
  destruct (decide (x = 0)%N) as [->|Hx]; [by rewrite pretty_N_go_0|].
  rewrite pretty_N_go_step by lia. apply IH; [by apply N.div_lt; lia|done].
Qed.

Lemma num_to_string_ne z : num_to_string z <> "".
Proof.
  unfold num_to_string, pretty, pretty_Z. destruct z as [|p|p]; [done| |done].
  unfold pretty, pretty_positive, pretty, pretty_N. case_decide; [done|].
  rewrite pretty_N_go_step by lia. by apply pretty_N_go_ne.
Qed.

(** ** Generic lemmas: lists *)

Lemma NoDup_fmap_filter {A B} (f : A -> B) (P : A -> Prop) `{!forall x, Decision (P x)} (l : list A) :
  NoDup (f <$> l) -> NoDup (f <$> filter P l).
Proof.
  induction l as [|x l IH]; [done|]. rewrite fmap_cons, NoDup_cons. intros [Hx Hl].
  rewrite filter_cons. case_decide; [|auto]. rewrite fmap_cons. apply NoDup_cons. split; [|auto].
  intros (y & Hxy & Hy)%list_elem_of_fmap. apply Hx. rewrite Hxy.
  apply list_elem_of_filter in Hy as [_ Hy]. by apply list_elem_of_fmap_2.
Qed.

Lemma Forall_filter_2 {A} (P Q : A -> Prop) `{!forall x, Decision (P x)} (l : list A) :
  Forall Q l -> Forall Q (filter P l).
Proof. rewrite !Forall_forall. intros HF x [_ Hx]%list_elem_of_filter. auto. Qed.

Lemma filter_none {A} (P : A -> Prop) `{!forall x, Decision (P x)} (l : list A) :
  (forall x, x ∈ l -> ~ P x) -> filter P l = [].
Proof.
  induction l as [|x l IH]; intros Hn; [done|]. rewrite filter_cons_False by (apply Hn; left).
  apply IH. intros y Hy. apply Hn. by right.
Qed.
