(* ===== verification/Numbers.v ===== *)
(** * JavaScript numbers, [Number(string)] and [BigInt(string)]

    Integral numbers with the three non-finite values, their comparisons, and
    the reading of integer literals.  A literal with a fraction or an exponent
    is outside the model and reads [NaN] (request ids, block numbers and the
    numeric settings are integer literals). *)
From S2P Require Import Prelude.

Inductive jsnum := Fin (z : Z) | NaN | PInf | NInf.
#[global] Instance num_eq_dec : EqDecision jsnum.
Proof. solve_decision. Defined.

(** [Number.isFinite] *)
Definition isFinite (n : jsnum) : bool := match n with Fin _ => true | _ => false end.

(** [a < b], [a <= b]: false as soon as one side is [NaN]. *)
Definition num_le (a b : jsnum) : bool :=
  match a, b with
  | NaN, _ | _, NaN => false
  | Fin x, Fin y => x <=? y
  | NInf, _ | _, PInf => true
  | _, _ => false
  end.

Definition num_lt (a b : jsnum) : bool :=
  match a, b with
  | NaN, _ | _, NaN => false
  | Fin x, Fin y => x <? y
  | NInf, NInf | PInf, PInf => false
  | NInf, _ | _, PInf => true
  | _, _ => false
  end.

(** [Math.max] / [Math.min]: [NaN] is absorbing. *)
Definition num_max (a b : jsnum) : jsnum :=
  match a, b with
  | NaN, _ | _, NaN => NaN
  | _, _ => if num_le a b then b else a
  end.

Definition num_min (a b : jsnum) : jsnum :=
  match a, b with
  | NaN, _ | _, NaN => NaN
  | _, _ => if num_le a b then a else b
  end.

Definition num_add (a : jsnum) (d : Z) : jsnum :=
  match a with Fin x => Fin (x + d) | n => n end.

(** ** Integer literals *)

Definition digit_value (a : ascii) : Z :=
  let c := code a in
  if (48 <=? c) && (c <=? 57) then c - 48
  else if (97 <=? c) && (c <=? 122) then c - 87
  else if (65 <=? c) && (c <=? 90) then c - 55
  else 99.

(** Digits of base [b], all of the string; [None] on a foreign character. *)
Fixpoint read_digits (b acc : Z) (s : string) : option Z :=
  match s with
  | "" => Some acc
  | String a s' =>
      if digit_value a <? b then read_digits b (acc * b + digit_value a) s' else None
  end.

Definition read_digits1 (b : Z) (s : string) : option Z :=
  match s with "" => None | _ => read_digits b 0 s end.

(** An integer literal: optionally signed decimal, or unsigned hexadecimal,
    octal or binary with its prefix; the empty string reads 0. *)
Definition read_integer (s : string) : option Z :=
  match trim s with
  | "" => Some 0
  | String "0" (String "x" r) | String "0" (String "X" r) => read_digits1 16 r
  | String "0" (String "o" r) | String "0" (String "O" r) => read_digits1 8 r
  | String "0" (String "b" r) | String "0" (String "B" r) => read_digits1 2 r
  | String "-" r => Z.opp <$> read_digits1 10 r
  | String "+" r => read_digits1 10 r
  | r => read_digits1 10 r
  end.

(** [Number(s)] *)
Definition js_Number (s : string) : jsnum :=
  match read_integer s with
  | Some z => Fin z
  | None =>
      let t := trim s in
      if (t =? "Infinity")%string || (t =? "+Infinity")%string then PInf
      else if (t =? "-Infinity")%string then NInf
      else NaN
  end.

(** [BigInt(s)]: [None] is the [SyntaxError]. *)
Definition js_BigInt (s : string) : option Z := read_integer s.

Example js_Number_ex :
  (js_Number " 42 ", js_Number "0x1F", js_Number "abc", js_Number "-7", js_Number "")
  = (Fin 42, Fin 31, NaN, Fin (-7), Fin 0).
Proof. reflexivity. Qed.

(** ** Lemmas *)

Lemma num_le_fin x y : num_le (Fin x) (Fin y) = (x <=? y).
Proof. reflexivity. Qed.

Lemma num_max_fin x y : num_max (Fin x) (Fin y) = Fin (Z.max x y).
Proof. unfold num_max; simpl. destruct (x <=? y) eqn:E; f_equal; lia. Qed.

Lemma num_min_fin x y : num_min (Fin x) (Fin y) = Fin (Z.min x y).
Proof. unfold num_min; simpl. destruct (x <=? y) eqn:E; f_equal; lia. Qed.

(** ** Digits *)

Lemma code_range a : 0 <= code a < 256.
Proof. unfold code. pose proof (nat_ascii_bounded a). lia. Qed.

Lemma read_digits_range b acc s n :
  0 < b -> 0 <= acc -> read_digits b acc s = Some n ->
  acc * b ^ Z.of_nat (String.length s) <= n < (acc + 1) * b ^ Z.of_nat (String.length s).
Proof.
  intros Hb. revert acc. induction s as [|a s IH]; intros acc Ha; simpl.
  - intros [= <-]. lia.
  - destruct (digit_value a <? b) eqn:E; [|done].
    assert (0 <= digit_value a) by (unfold digit_value; pose proof (code_range a); repeat case_match; lia).
    intros Hr. specialize (IH (acc * b + digit_value a) ltac:(nia) Hr). clear Hr.
    rewrite Nat2Z.inj_succ, Z.pow_succ_r by lia. split; nia.
Qed.

Lemma read_digits_chars b acc s n :
  read_digits b acc s = Some n -> str_forall (fun a => digit_value a <? b) s = true.
Proof. revert acc. induction s as [|a s IH]; intros acc; simpl; [done|]. case_match; [|done]. apply IH. Qed.

Lemma read_digits_app b acc s t :
  read_digits b acc (s +:+ t) = match read_digits b acc s with Some n => read_digits b n t | None => None end.
Proof.
  revert acc. induction s as [|a s IH]; intros acc; [done|].
  change (String a s +:+ t) with (String a (s +:+ t)). simpl. destruct (_ <? _); [apply IH|done].
Qed.

Lemma pretty_N_go_read x s : read_digits 10 0 (pretty_N_go x s) = read_digits 10 (Z.of_N x) s.
Proof.
  revert s. induction (N.lt_wf_0 x) as [x _ IH]; intros s.
  destruct (decide (x = 0)%N) as [->|Hx]; [by rewrite pretty_N_go_0|].
  rewrite pretty_N_go_step by lia. rewrite IH by (apply N.div_lt; lia). simpl.
  pose proof (N.mod_lt x 10 ltac:(lia)) as Hm. pose proof (N.div_mod x 10 ltac:(lia)) as Hd.
  set (m := (x `mod` 10)%N) in *.
  assert (digit_value (pretty_N_char m) = Z.of_N m) as ->.
  { clearbody m. clear -Hm. destruct m as [|p]; [done|].
    do 4 (destruct p as [p|p|]; try done; try lia). }
  replace (Z.of_N m <? 10) with true by lia. f_equal. lia.
Qed.

(** A numeral reads back. *)
Lemma read_num z : 0 <= z -> read_digits 10 0 (num_to_string z) = Some z.
Proof.
  intros Hz. unfold num_to_string, pretty, pretty_Z. destruct z as [|p|p]; [done| |lia].
  unfold pretty, pretty_positive, pretty, pretty_N. case_decide; [done|]. rewrite pretty_N_go_read. done.
Qed.

#[export] Hint Rewrite num_max_fin num_min_fin num_le_fin : relayer_state.
