(* ===== verification/Strings.v ===== *)
(** * Relayer string helpers, kernel intents and the retry delay

    [lib/strings.js], the routing half of [router.js] and [lib/retry.js] of
    [src/workers/morpheus-relayer]: the canonical request-type token
    ([normalizeRequestType]), the map from a request type to the worker lane that
    serves it ([resolveKernelIntent]), and the exponential backoff with equal
    jitter ([computeRetryDelayMs]). *)
From S2P Require Import Prelude.

(** ** [lib/strings.js] *)

(** [.replace(/[\s-]+/g, '_')]: every maximal run of white space and dashes
    becomes one underscore.  [in_run] says that the previous unit was in a run. *)
Definition sep_char (a : ascii) : bool := js_space a || Ascii.eqb a "-".

Fixpoint replace_sep_runs (in_run : bool) (s : string) : string :=
  match s with
  | "" => ""
  | String a s' =>
      if sep_char a
      then if in_run then replace_sep_runs true s' else String "_" (replace_sep_runs true s')
      else String a (replace_sep_runs false s')
  end.

Definition normalizeRequestType (value : string) : string :=
  replace_sep_runs false (toLowerCase (trim value)).

(** [parseNonNegativeInteger] on a numeric value: [None] is a non-finite number.
    A finite value is given as the quotient [n / d] with [0 < d]; [Math.trunc]
    of a non-negative quotient is its floor. *)
Definition parseNonNegativeInteger (value : option (Z * positive)) : Z :=
  match value with
  | None => 0
  | Some (n, d) => if n <? 0 then 0 else Z.quot n (Zpos d)
  end.

(** [strip0x]: one leading [0x]/[0X] is removed, the rest is kept verbatim. *)
Definition strip0x (value : string) : string :=
  match trim value with
  | String "0" (String "x" rest) | String "0" (String "X" rest) => rest
  | s => s
  end.

(** ** Kernel intents ([router.js]) *)

Record kernel_intent := KernelIntent {
  legacyRequestType : string;
  moduleId : string;
  operation : string;
  workerRoute : string;
  operatorOnly : bool;
}.

#[global] Instance kernel_intent_eq_dec : EqDecision kernel_intent.
Proof. solve_decision. Defined.

Definition resolveKernelIntent (requestType : string) : kernel_intent :=
  let normalized := normalizeRequestType requestType in
  if includes normalized "paymaster" then
    KernelIntent normalized "paymaster.authorize" (normalized ||s "authorize")
      "/paymaster/authorize" false
  else if includes normalized "compute" then
    KernelIntent normalized "compute.run" (normalized ||s "compute")
      "/compute/execute" false
  else if includes normalized "feed" then
    KernelIntent normalized "feed.publish" (normalized ||s "feed")
      "/oracle/feed" true
  else if (normalized =? "rng")%string || includes normalized "vrf"
          || includes normalized "random" then
    KernelIntent normalized "random.generate" (normalized ||s "random")
      "/vrf/random" false
  else if (normalized =? "decrypt")%string || includes normalized "decrypt"
          || includes normalized "reveal" then
    KernelIntent normalized "confidential.decrypt" (normalized ||s "decrypt")
      "/oracle/decrypt" false
  else if startsWith normalized "neodid" then
    if includes normalized "zklogin" then
      KernelIntent normalized "identity.verify" normalized "/neodid/zklogin-ticket" false
    else if includes normalized "recovery" then
      KernelIntent normalized "identity.verify" normalized "/neodid/recovery-ticket" false
    else if includes normalized "action" then
      KernelIntent normalized "identity.verify" normalized "/neodid/action-ticket" false
    else
      KernelIntent normalized "identity.verify" (normalized ||s "neodid_bind")
        "/neodid/bind" false
  else if startsWith normalized "automation_" then
    KernelIntent normalized "automation.run" normalized "/automation/execute" false
  else
    KernelIntent normalized "oracle.fetch" (normalized ||s "privacy_oracle")
      "/oracle/smart-fetch" false.

Definition isOperatorOnlyRequestType (value : string) : bool :=
  operatorOnly (resolveKernelIntent value).

Definition resolveWorkerRoute (requestType : string) : string :=
  workerRoute (resolveKernelIntent requestType).

(** ** Lemmas *)

Definition clean_char (a : ascii) : bool := negb (sep_char a).

Lemma clean_no_space s :
  str_forall clean_char s = true -> str_forall (fun a => negb (js_space a)) s = true.
Proof.
  apply str_forall_impl. intros a. unfold clean_char, sep_char. by destruct (js_space a).
Qed.

Lemma replace_sep_runs_clean b s : str_forall clean_char (replace_sep_runs b s) = true.
Proof.
  revert b. induction s as [|a s IH]; intros b; simpl; [done|].
  destruct (sep_char a) eqn:E; [destruct b|]; simpl; rewrite ?IH; auto.
  unfold clean_char. by rewrite E.
Qed.

Lemma replace_sep_runs_id s : str_forall clean_char s = true -> replace_sep_runs false s = s.
Proof.
  induction s as [|a s IH]; simpl; [done|]. unfold clean_char at 1.
  destruct (sep_char a); simpl; [done|]. intros H. by rewrite IH.
Qed.

Lemma replace_sep_runs_lower b s :
  toLowerCase s = s -> toLowerCase (replace_sep_runs b s) = replace_sep_runs b s.
Proof.
  revert b. induction s as [|a s IH]; intros b; simpl; [done|].
  intros [= Ha Hs]. destruct (sep_char a); [destruct b|]; simpl; by rewrite ?Ha, ?IH.
Qed.

(** The token normalizer is a projection: a normalized token contains no
    separator, is lower case, and normalizes to itself. *)
Lemma normalizeRequestType_clean s : str_forall clean_char (normalizeRequestType s) = true.
Proof. apply replace_sep_runs_clean. Qed.

Lemma normalizeRequestType_lower s :
  toLowerCase (normalizeRequestType s) = normalizeRequestType s.
Proof. apply replace_sep_runs_lower, toLowerCase_idem. Qed.

Lemma normalizeRequestType_idem_aux s :
  normalizeRequestType (normalizeRequestType s) = normalizeRequestType s.
Proof.
  pose proof (normalizeRequestType_clean s) as Hc.
  unfold normalizeRequestType at 1.
  rewrite trim_no_space by (by apply clean_no_space).
  rewrite normalizeRequestType_lower. by apply replace_sep_runs_id.
Qed.

Lemma resolveKernelIntent_normalize_aux s :
  resolveKernelIntent (normalizeRequestType s) = resolveKernelIntent s.
Proof. unfold resolveKernelIntent. by rewrite normalizeRequestType_idem_aux. Qed.

Lemma startsWith_ne s p : p <> "" -> startsWith s p = true -> s <> "".
Proof. destruct s, p; simpl; congruence. Qed.

Lemma resolveKernelIntent_operation_ne s : operation (resolveKernelIntent s) <> "".
Proof.
  unfold resolveKernelIntent.
  repeat case_match; simpl; try (apply or_str_ne; discriminate);
    eapply startsWith_ne; eauto; discriminate.
Qed.

Lemma resolveKernelIntent_legacy s :
  legacyRequestType (resolveKernelIntent s) = normalizeRequestType s.
Proof. unfold resolveKernelIntent. by repeat case_match. Qed.

(** The request-type normalizer is canonical: its image is separator-free
    and lower case, normalizing twice is normalizing once, and the kernel
    intent of a request type is the kernel intent of its normalized token. *)
Theorem normalizeRequestType_canonical : forall s,
  str_forall clean_char (normalizeRequestType s) = true /\
  toLowerCase (normalizeRequestType s) = normalizeRequestType s /\
  normalizeRequestType (normalizeRequestType s) = normalizeRequestType s /\
  resolveKernelIntent (normalizeRequestType s) = resolveKernelIntent s.
Proof.
  auto using normalizeRequestType_clean, normalizeRequestType_lower,
    normalizeRequestType_idem_aux, resolveKernelIntent_normalize_aux.
Qed.

(** ** [lib/retry.js]

    Delays are whole milliseconds; the jitter draw [rng] is a rational of [[0, 1)],
    and the arithmetic of [computeRetryDelayMs] is carried out exactly (the doubles
    of the code represent every [ceiling * (0.5 + 0.5 * r)] of the configured range
    up to the rounding of one product, far below the millisecond [Math.round]
    keeps). *)
From Stdlib Require Import QArith Qround Lqa.
#[local] Open Scope list_scope.
#[local] Open Scope Z_scope.

(** [Math.round]: round half up. *)
Definition math_round (q : Q) : Z := Qfloor (q + (1 # 2)).

(** [Math.min(base * 2 ** Math.max(attempts - 1, 0), max)] *)
Definition retry_ceiling (base max attempts : Z) : Z :=
  Z.min (base * 2 ^ (Z.max (attempts - 1) 0)) max.

Definition computeRetryDelayMs (base max attempts : Z) (rng : Q) : Z :=
  let ceiling := retry_ceiling base max attempts in
  let jitterFactor := ((1 # 2) + (1 # 2) * rng)%Q in
  math_round (inject_Z ceiling * jitterFactor)%Q.

(** ** Properties *)

Lemma math_round_le (q : Q) (z : Z) : (q <= inject_Z z)%Q -> math_round q <= z.
Proof.
  intros H. unfold math_round. rewrite (Zlt_succ_le (Qfloor (q + (1 # 2))) z); [lia|].
  rewrite Zlt_Qlt. eapply Qle_lt_trans; [apply Qfloor_le|].
  unfold Z.succ. rewrite inject_Z_plus. change (inject_Z 1) with 1%Q. lra.
Qed.

Lemma math_round_ge (q : Q) (z : Z) :
  (inject_Z z <= q + (1 # 2))%Q -> z <= math_round q.
Proof.
  intros H. unfold math_round. rewrite <-(Qfloor_Z z). by apply Qfloor_resp_le.
Qed.

Lemma math_round_mono (p q : Q) : (p <= q)%Q -> math_round p <= math_round q.
Proof. intros H. apply Qfloor_resp_le. lra. Qed.

Lemma retry_ceiling_nonneg base max attempts :
  0 <= base -> 0 <= max -> 0 <= retry_ceiling base max attempts.
Proof. intros. unfold retry_ceiling. pose proof (Z.pow_nonneg 2 (Z.max (attempts - 1) 0)). nia. Qed.

Lemma retry_ceiling_mono base max a b :
  0 <= base -> a <= b -> retry_ceiling base max a <= retry_ceiling base max b.
Proof.
  intros Hb Hab. unfold retry_ceiling.
  pose proof (Z.pow_le_mono_r 2 (Z.max (a - 1) 0) (Z.max (b - 1) 0)). nia.
Qed.

Section bounds.
Context (base max attempts : Z) (rng : Q).
Context (Hbase : 0 <= base) (Hmax : 0 <= max) (Hr0 : (0 <= rng)%Q) (Hr1 : (rng < 1)%Q).

Lemma delay_upper_aux : computeRetryDelayMs base max attempts rng <= retry_ceiling base max attempts.
Proof using Type*.
  pose proof (retry_ceiling_nonneg base max attempts Hbase Hmax) as Hc.
  apply math_round_le. rewrite Zle_Qle in Hc. change (inject_Z 0) with 0%Q in Hc.
  rewrite <-(Qmult_1_r (inject_Z (retry_ceiling base max attempts))) at 2.
  nra.
Qed.

Lemma delay_lower_aux : retry_ceiling base max attempts <= 2 * computeRetryDelayMs base max attempts rng.
Proof using Type*.
  pose proof (retry_ceiling_nonneg base max attempts Hbase Hmax) as Hc.
  set (c := retry_ceiling base max attempts) in *.
  assert ((c + 1) / 2 <= computeRetryDelayMs base max attempts rng) as Hd.
  { apply math_round_ge. fold c.
    assert (inject_Z c * (1 # 2) <= inject_Z c * ((1 # 2) + (1 # 2) * rng))%Q as Hm.
    { rewrite Zle_Qle in Hc. change (inject_Z 0) with 0%Q in Hc. nra. }
    assert (2 * inject_Z ((c + 1) / 2) <= inject_Z c + 1)%Q as Hh.
    { change 2%Q with (inject_Z 2). change 1%Q with (inject_Z 1).
      rewrite <-inject_Z_mult, <-inject_Z_plus, <-Zle_Qle.
      pose proof (Z.mul_div_le (c + 1) 2). lia. }
    lra. }
  pose proof (Z.div_mod (c + 1) 2). pose proof (Z.mod_pos_bound (c + 1) 2). lia.
Qed.
End bounds.
