(* ===== verification/Values.v ===== *)
(** * JavaScript values and [JSON.stringify]

    The dynamic values that cross the relayer: worker bodies, prepared results,
    envelopes.  An object is the list of its own enumerable string-keyed
    properties in enumeration order (keys that look like array indices do not
    occur in the modelled objects).  Numbers are integers; a non-integral
    number is kept as the decimal text the engine prints for it. *)
From S2P Require Import Prelude.

#[local] Unset Elimination Schemes.
Inductive val :=
| VUndef
| VNull
| VBool (b : bool)
| VNum (n : Z)
| VFloat (text : string)
| VNaN
| VStr (s : string)
| VArr (l : list val)
| VObj (kvs : list (string * val)).
#[local] Set Elimination Schemes.

Section val_ind.
Context (P : val -> Prop).
Context (Hundef : P VUndef) (Hnull : P VNull) (Hbool : forall b, P (VBool b)).
Context (Hnum : forall n, P (VNum n)) (Hfloat : forall t, P (VFloat t)) (Hnan : P VNaN).
Context (Hstr : forall s, P (VStr s)).
Context (Harr : forall l, Forall P l -> P (VArr l)).
Context (Hobj : forall kvs, Forall (fun kv => P kv.2) kvs -> P (VObj kvs)).

Fixpoint val_ind (v : val) : P v :=
  match v with
  | VUndef => Hundef
  | VNull => Hnull
  | VBool b => Hbool b
  | VNum n => Hnum n
  | VFloat t => Hfloat t
  | VNaN => Hnan
  | VStr s => Hstr s
  | VArr l => Harr l ((fix go (l : list val) : Forall P l :=
      match l with [] => Forall_nil_2 _ | v :: l => Forall_cons_2 _ _ _ (val_ind v) (go l) end) l)
  | VObj kvs => Hobj kvs ((fix go (l : list (string * val)) : Forall (fun kv => P kv.2) l :=
      match l with
      | [] => Forall_nil_2 _
      | kv :: l => Forall_cons_2 _ _ _ (val_ind kv.2) (go l)
      end) kvs)
  end.
End val_ind.

#[global] Instance val_eq_dec : EqDecision val.
Proof.
  unfold EqDecision, Decision.
  fix go 1; intros [] []; try (right; discriminate); try (left; reflexivity).
  - destruct (decide (b = b0)); [left|right]; congruence.
  - destruct (decide (n = n0)); [left|right]; congruence.
  - destruct (decide (text = text0)); [left|right]; congruence.
  - destruct (decide (s = s0)); [left|right]; congruence.
  - destruct (@list_eq_dec val go l l0); [left|right]; congruence.
  - destruct (@list_eq_dec _ (@prod_eq_dec _ _ val go) kvs kvs0); [left|right]; congruence.
Defined.

(** ** Coercions and property access *)

(** [Boolean(v)] *)
Definition truthy (v : val) : bool :=
  match v with
  | VUndef | VNull | VNaN => false
  | VBool b => b
  | VNum n => negb (n =? 0)
  | VFloat _ => true
  | VStr s => negb (s =? "")%string
  | VArr _ | VObj _ => true
  end.

(** [a || b] *)
Definition v_or (a b : val) : val := if truthy a then a else b.

(** [a ?? b] *)
Definition v_coalesce (a b : val) : val :=
  match a with VUndef | VNull => b | _ => a end.

(** [v && typeof v === 'object']: arrays are objects, [null] is not truthy. *)
Definition is_object (v : val) : bool :=
  match v with VArr _ | VObj _ => true | _ => false end.

(** [v && typeof v === 'object' ? v : {}] *)
Definition object_or_empty (v : val) : val := match v with VObj _ | VArr _ => v | _ => VObj [] end.

Definition is_array (v : val) : bool := match v with VArr _ => true | _ => false end.
Definition is_string (v : val) : bool := match v with VStr _ => true | _ => false end.

Definition is_undefined (v : val) : bool := match v with VUndef => true | _ => false end.

(** [typeof v] *)
Definition js_typeof (v : val) : string :=
  match v with
  | VUndef => "undefined"
  | VNull | VArr _ | VObj _ => "object"
  | VBool _ => "boolean"
  | VNum _ | VFloat _ | VNaN => "number"
  | VStr _ => "string"
  end.

Fixpoint assoc_get (k : string) (kvs : list (string * val)) : val :=
  match kvs with
  | [] => VUndef
  | (k', v) :: kvs' => if decide (k = k') then v else assoc_get k kvs'
  end.

(** [v[k]] for a key that is not an index; absent properties read [undefined]. *)
Definition get (v : val) (k : string) : val :=
  match v with VObj kvs => assoc_get k kvs | _ => VUndef end.

(** [o[k] = v]: in place when the key exists, appended otherwise. *)
Fixpoint assoc_set (k : string) (v : val) (kvs : list (string * val)) : list (string * val) :=
  match kvs with
  | [] => [(k, v)]
  | (k', v') :: kvs' => if decide (k = k') then (k, v) :: kvs' else (k', v') :: assoc_set k v kvs'
  end.

(** [{ ...base, ...ext }] *)
Definition spread (base ext : list (string * val)) : list (string * val) :=
  foldl (fun acc kv => assoc_set kv.1 kv.2 acc) base ext.

Definition obj_fields (v : val) : list (string * val) :=
  match v with VObj kvs => kvs | _ => [] end.

(** The strict [trimString] of [lib/strings.js]: non-strings collapse to the
    empty string. *)
Definition trimString (v : val) : string :=
  match v with VStr s => trim s | _ => "" end.

(** A string field read with [typeof x === 'string' ? x : '']. *)
Definition as_string (v : val) : string :=
  match v with VStr s => s | _ => "" end.

(** The own enumerable properties a spread copies: an array spreads its
    elements, a string its characters, under their indices. *)
Fixpoint chars (s : string) : list string :=
  match s with "" => [] | String a s' => String a EmptyString :: chars s' end.

Definition own_fields (v : val) : list (string * val) :=
  match v with
  | VObj kvs => kvs
  | VArr l => imap (fun i x => (num_to_string (Z.of_nat i), x)) l
  | VStr s => imap (fun i x => (num_to_string (Z.of_nat i), VStr x)) (chars s)
  | _ => []
  end.

(** [v.k] when [v] may be nullish. *)
Definition getp (v : val) (k : string) : string + val :=
  match v with
  | VUndef => inl ("Cannot read properties of undefined (reading '" +:+ k +:+ "')")
  | VNull => inl ("Cannot read properties of null (reading '" +:+ k +:+ "')")
  | _ => inr (get v k)
  end.

(** [String(v)]: an array joins its elements, nullish ones as the empty string. *)
Fixpoint js_String (v : val) : string :=
  match v with
  | VUndef => "undefined"
  | VNull => "null"
  | VBool b => if b then "true" else "false"
  | VNum n => num_to_string n
  | VFloat t => t
  | VNaN => "NaN"
  | VStr s => s
  | VArr l => join "," (map (fun x => match x with VUndef | VNull => "" | _ => js_String x end) l)
  | VObj _ => "[object Object]"
  end.

(** The coercing [trimString] of [shared/utils.js]: [String(value || '').trim()]. *)
Definition coerceTrim (v : val) : string := trim (js_String (v_or v (VStr ""))).

(** ** [JSON.stringify] *)

Definition dquote : string := String (chr 34) EmptyString.
Definition backslash : string := String (chr 92) EmptyString.

Definition hex_digit (z : Z) : ascii := if z <? 10 then chr (48 + z) else chr (87 + z).

Definition json_escape_char (a : ascii) : string :=
  let c := code a in
  if c =? 34 then backslash +:+ dquote
  else if c =? 92 then backslash +:+ backslash
  else if c =? 8 then backslash +:+ "b"
  else if c =? 9 then backslash +:+ "t"
  else if c =? 10 then backslash +:+ "n"
  else if c =? 12 then backslash +:+ "f"
  else if c =? 13 then backslash +:+ "r"
  else if c <? 32 then
    backslash +:+ "u00" +:+ String (hex_digit (c / 16)) (String (hex_digit (c mod 16)) EmptyString)
  else String a EmptyString.

Fixpoint json_escape (s : string) : string :=
  match s with
  | "" => ""
  | String a s' => json_escape_char a +:+ json_escape s'
  end.

Definition json_quote (s : string) : string := dquote +:+ json_escape s +:+ dquote.

(** [None] is the [undefined] that [JSON.stringify(undefined)] returns. *)
Fixpoint json_stringify (v : val) : option string :=
  match v with
  | VUndef => None
  | VNull | VNaN => Some "null"
  | VBool b => Some (if b then "true" else "false")
  | VNum n => Some (num_to_string n)
  | VFloat t => Some t
  | VStr s => Some (json_quote s)
  | VArr l =>
      Some ("[" +:+ join "," (map (fun x => default "null" (json_stringify x)) l) +:+ "]")
  | VObj kvs =>
      Some ("{" +:+ join "," (omap (fun kv =>
        match json_stringify kv.2 with
        | Some t => Some (json_quote kv.1 +:+ ":" +:+ t)
        | None => None
        end) kvs) +:+ "}")
  end.

(** Bytes of a string in UTF-8: one byte below 128, two bytes up to 255. *)
Definition utf8_char (a : ascii) : list Z :=
  let c := code a in if c <? 128 then [c] else [192 + c / 64; 128 + c mod 64].

Fixpoint utf8 (s : string) : list Z :=
  match s with
  | "" => []
  | String a s' => utf8_char a ++ utf8 s'
  end.

(** A string from UTF-8 bytes; code points above 255, which no modelled string
    contains, and malformed sequences read as a question mark. *)
Fixpoint utf8_decode (bs : list Z) : string :=
  match bs with
  | [] => ""
  | b :: bs' =>
      if b <? 128 then String (chr b) (utf8_decode bs')
      else
        match bs' with
        | c :: bs'' =>
            if ((b =? 194) || (b =? 195)) && (128 <=? c) && (c <? 192)
            then String (chr ((b - 192) * 64 + (c - 128))) (utf8_decode bs'')
            else String "?" (utf8_decode bs')
        | [] => "?"
        end
  end.

Example stringify_ex :
  json_stringify (VObj [("a", VNum 1); ("b", VUndef); ("c", VArr [VUndef; VBool true])])
  = Some ("{" +:+ json_quote "a" +:+ ":1," +:+ json_quote "c" +:+ ":[null,true]}").
Proof. reflexivity. Qed.

(** ** Lemmas *)

Lemma assoc_get_set k k' v kvs :
  assoc_get k (assoc_set k' v kvs) = if decide (k = k') then v else assoc_get k kvs.
Proof.
  induction kvs as [|[k'' v''] kvs IH]; simpl.
  - by case_decide.
  - repeat (case_decide; simplify_eq/=; try done); by rewrite IH; case_decide.
Qed.

Lemma get_spread k base ext :
  NoDup (ext.*1) ->
  assoc_get k (spread base ext) = if decide (k ∈ ext.*1) then assoc_get k ext else assoc_get k base.
Proof.
  revert base. induction ext as [|[k' v'] ext IH]; intros base Hnd; [done|].
  apply NoDup_cons in Hnd as [Hnin Hnd].
  change (spread base ((k', v') :: ext)) with (spread (assoc_set k' v' base) ext).
  rewrite IH, assoc_get_set by done. simpl assoc_get.
  destruct (decide (k = k')) as [->|Hne].
  - rewrite decide_False by done. by rewrite decide_True by set_solver.
  - destruct (decide (k ∈ ext.*1)).
    + by rewrite decide_True by set_solver.
    + by rewrite decide_False by set_solver.
Qed.

Lemma utf8_char_bytes a : Forall (fun b => 0 <= b < 256) (utf8_char a).
Proof.
  pose proof (nat_ascii_bounded a). unfold utf8_char, code in *.
  case_match; repeat constructor; try lia;
    pose proof (Z.div_pos (Z.of_nat (nat_of_ascii a)) 64);
    pose proof (Z.div_lt_upper_bound (Z.of_nat (nat_of_ascii a)) 64 4);
    pose proof (Z.mod_pos_bound (Z.of_nat (nat_of_ascii a)) 64); lia.
Qed.

Lemma utf8_bytes s : Forall (fun b => 0 <= b < 256) (utf8 s).
Proof. induction s; simpl; [constructor|]. by apply Forall_app; split; [apply utf8_char_bytes|]. Qed.
