(* ===== verification/Encoding.v ===== *)
(** * Byte encodings

    What the code uses of Node's [Buffer]: hexadecimal and base64 text, and the
    fixed-width integers of the fulfillment digest ([neo-encoding.js], and
    [encodeUint256Bytes] of [router.js]).  A byte is an integer in [0, 256). *)
From S2P Require Import Prelude Numbers Strings Values.
#[local] Open Scope list_scope.
#[local] Open Scope Z_scope.

Abbreviation bytes := (list Z).

Definition is_byte (b : Z) : Prop := 0 <= b < 256.

(** ** Positional numerals *)

(** The value of a list of digits, most significant first. *)
Definition value (base : Z) (ds : list Z) : Z := foldl (fun acc d => acc * base + d) 0 ds.

(** The digits of [n] in base 16 without leading zeros, in front of [acc]. *)
Fixpoint nibbles (fuel : nat) (n : Z) (acc : list Z) : list Z :=
  match fuel with
  | O => acc
  | S fuel => if n <? 16 then n :: acc else nibbles fuel (n / 16) (n mod 16 :: acc)
  end.

Definition hex_digits (n : Z) : list Z := nibbles (S (Z.to_nat (Z.log2 n))) n [].

Fixpoint hex_text (ds : list Z) : string :=
  match ds with [] => "" | d :: ds => String (hex_digit d) (hex_text ds) end.

(** [n.toString(16)] of a non-negative integer. *)
Definition to_hex (n : Z) : string := hex_text (hex_digits n).

Fixpoint repeat_char (n : nat) (a : ascii) : string :=
  match n with O => "" | S n => String a (repeat_char n a) end.

(** [s.padStart(n, '0')] *)
Definition padStart0 (n : nat) (s : string) : string :=
  repeat_char (n - String.length s) "0" +:+ s.

(** ** Hexadecimal text *)

Definition is_hex (a : ascii) : bool := digit_value a <? 16.

(** [Buffer.from(s, 'hex')]: pairs of digits, up to the first that is not one. *)
Fixpoint hex_decode (s : string) : bytes :=
  match s with
  | String a (String b s') =>
      if is_hex a && is_hex b then digit_value a * 16 + digit_value b :: hex_decode s' else []
  | _ => []
  end.

(** [buffer.toString('hex')] *)
Fixpoint hex_encode (bs : bytes) : string :=
  match bs with
  | [] => ""
  | b :: bs => String (hex_digit (b / 16)) (String (hex_digit (b mod 16)) (hex_encode bs))
  end.

(** [/^[0-9a-f]{n}$/i.test(s)] *)
Definition hex_of_length (n : nat) (s : string) : bool :=
  str_forall is_hex s && (String.length s =? n)%nat.

(** ** Base 64 *)

Definition b64_char (d : Z) : ascii :=
  if d <? 26 then chr (65 + d)
  else if d <? 52 then chr (71 + d)
  else if d <? 62 then chr (d - 4)
  else if d =? 62 then "+"%char
  else "/"%char.

(** Both alphabets are read; [None] is a character that is skipped. *)
Definition b64_value (a : ascii) : option Z :=
  let c := code a in
  if (65 <=? c) && (c <=? 90) then Some (c - 65)
  else if (97 <=? c) && (c <=? 122) then Some (c - 71)
  else if (48 <=? c) && (c <=? 57) then Some (c + 4)
  else if (c =? 43) || (c =? 45) then Some 62
  else if (c =? 47) || (c =? 95) then Some 63
  else None.

(** [buffer.toString('base64')] *)
Fixpoint base64_encode (bs : bytes) : string :=
  match bs with
  | [] => ""
  | [a] => String (b64_char (a / 4)) (String (b64_char (a mod 4 * 16)) "==")
  | [a; b] =>
      String (b64_char (a / 4)) (String (b64_char (a mod 4 * 16 + b / 16))
        (String (b64_char (b mod 16 * 4)) "="))
  | a :: b :: c :: bs =>
      String (b64_char (a / 4)) (String (b64_char (a mod 4 * 16 + b / 16))
        (String (b64_char (b mod 16 * 4 + c / 64)) (String (b64_char (c mod 64)) (base64_encode bs))))
  end.

(** The sextets of a text, up to the padding. *)
Fixpoint sextets (s : string) : list Z :=
  match s with
  | "" => []
  | String a s' =>
      if Ascii.eqb a "=" then []
      else match b64_value a with Some d => d :: sextets s' | None => sextets s' end
  end.

Fixpoint join_sextets (ds : list Z) : bytes :=
  match ds with
  | a :: b :: c :: d :: ds =>
      a * 4 + b / 16 :: b mod 16 * 16 + c / 4 :: c mod 4 * 64 + d :: join_sextets ds
  | [a; b; c] => [a * 4 + b / 16; b mod 16 * 16 + c / 4]
  | [a; b] => [a * 4 + b / 16]
  | _ => []
  end.

(** [Buffer.from(s, 'base64')] *)
Definition base64_decode (s : string) : bytes := join_sextets (sextets s).

(** ** Fixed-width integers *)

(** [neoNetworkMagicLe4]: [magic >>> 0] in four little-endian bytes. *)
Definition neoNetworkMagicLe4 (magic : Z) : bytes :=
  let m := magic mod 2 ^ 32 in
  [m mod 256; m / 2 ^ 8 mod 256; m / 2 ^ 16 mod 256; m / 2 ^ 24].

(** [encodeUint256Bytes] of [router.js]: no check of the upper bound. *)
Definition encodeUint256Bytes (value : string) : string + bytes :=
  match js_BigInt value with
  | None => inl ("Cannot convert " +:+ value +:+ " to a BigInt")
  | Some numeric =>
      if numeric <? 0 then inl "uint256 value must be non-negative"
      else inr (hex_decode (padStart0 64 (to_hex numeric)))
  end.

(** [encodeUint256Word] of [neo-encoding.js]. *)
Definition encodeUint256Word (value fieldName : string) : string + bytes :=
  match js_BigInt value with
  | None => inl (fieldName +:+ " must be a uint256 string")
  | Some parsed =>
      if parsed <? 0 then inl (fieldName +:+ " must be >= 0")
      else
        let hex := to_hex parsed in
        if (64 <? String.length hex)%nat then inl (fieldName +:+ " overflows uint256")
        else inr (hex_decode (padStart0 64 hex))
  end.

(** ** Numerals *)

Lemma value_app b l l' : value b (l ++ l') = value b l * b ^ Z.of_nat (length l') + value b l'.
Proof.
  unfold value. rewrite foldl_app. generalize (foldl (fun acc d => acc * b + d) 0 l) as a.
  induction l' as [|d l' IH] using rev_ind; intros a; cbn [foldl length].
  - change (Z.of_nat 0) with 0. rewrite Z.pow_0_r. lia.
  - rewrite !foldl_app, length_app, IH. cbn [foldl length].
    rewrite Nat2Z.inj_add, Z.pow_add_r by lia. change (Z.of_nat 1) with 1. rewrite Z.pow_1_r. lia.
Qed.

Lemma value_cons b d l : value b (d :: l) = d * b ^ Z.of_nat (length l) + value b l.
Proof. change (d :: l) with ([d] ++ l). rewrite value_app. unfold value at 1. cbn. lia. Qed.

Lemma value_bound b l :
  0 < b -> Forall (fun d => 0 <= d < b) l -> 0 <= value b l < b ^ Z.of_nat (length l).
Proof.
  intros Hb. induction 1 as [|d l Hd Hl IH].
  - unfold value. cbn. lia.
  - rewrite value_cons. cbn [length]. rewrite Nat2Z.inj_succ, Z.pow_succ_r by lia. nia.
Qed.

Lemma value_inj b l l' :
  0 < b -> length l = length l' ->
  Forall (fun d => 0 <= d < b) l -> Forall (fun d => 0 <= d < b) l' ->
  value b l = value b l' -> l = l'.
Proof.
  intros Hb Hlen Hl. revert l' Hlen. induction Hl as [|d l Hd Hl IH]; intros [|d' l'] Hlen Hl' Hv; try done.
  apply Forall_cons in Hl' as [Hd' Hl']. injection Hlen as Hlen. rewrite !value_cons, Hlen in Hv.
  pose proof (value_bound b l Hb Hl) as B1. pose proof (value_bound b l' Hb Hl') as B2.
  rewrite Hlen in B1. assert (d = d') as -> by nia. f_equal. apply IH; [done..|]. lia.
Qed.

Lemma nibbles_spec fuel n acc :
  0 <= n < 16 ^ Z.of_nat (S fuel) ->
  exists ds, nibbles (S fuel) n acc = ds ++ acc /\ Forall (fun d => 0 <= d < 16) ds /\
    value 16 ds = n /\ (0 < length ds)%nat /\
    (forall k, n < 16 ^ Z.of_nat (S k) -> (length ds <= S k)%nat).
Proof.
  revert n acc. induction fuel as [|fuel IH]; intros n acc Hn.
  - cbn [nibbles]. change (16 ^ Z.of_nat 1) with 16 in Hn. rewrite (proj2 (Z.ltb_lt _ _)) by lia.
    exists [n]. split_and!; [done|by repeat constructor; lia|done|cbn; lia|intros; cbn; lia].
  - cbn [nibbles]. destruct (n <? 16) eqn:E.
    + exists [n]. split_and!; [done|repeat constructor; lia|done|cbn; lia|intros; cbn; lia].
    + assert (0 <= n / 16 < 16 ^ Z.of_nat (S fuel)) as Hq.
      { rewrite Nat2Z.inj_succ, Z.pow_succ_r in Hn by lia.
        split; [apply Z.div_pos; lia|]. apply Z.div_lt_upper_bound; lia. }
      destruct (IH (n / 16) (n mod 16 :: acc) Hq) as (ds & Hds & Hf & Hv & Hl & Hk).
      exists (ds ++ [n mod 16]). split_and!.
      * cbn [nibbles] in Hds. rewrite Hds. by rewrite <-app_assoc.
      * apply Forall_app. split; [done|]. repeat constructor; apply Z.mod_pos_bound; lia.
      * rewrite value_app, Hv. unfold value. cbn [foldl length]. change (Z.of_nat 1) with 1.
        rewrite (Z.div_mod n 16) at 3 by lia. lia.
      * rewrite length_app. cbn. lia.
      * intros [|k] Hnk; [change (16 ^ Z.of_nat 1) with 16 in Hnk; lia|].
        rewrite length_app. cbn [length]. assert (length ds <= S k)%nat; [|lia]. apply Hk.
        apply Z.div_lt_upper_bound; [lia|]. rewrite <-Z.pow_succ_r, <-Nat2Z.inj_succ by lia. done.
Qed.

Lemma hex_digits_spec n : 0 <= n ->
  Forall (fun d => 0 <= d < 16) (hex_digits n) /\ value 16 (hex_digits n) = n /\
  (forall k, n < 16 ^ Z.of_nat (S k) -> (length (hex_digits n) <= S k)%nat).
Proof.
  intros Hn. unfold hex_digits.
  destruct (nibbles_spec (Z.to_nat (Z.log2 n)) n []) as (ds & -> & Hf & Hv & _ & Hk).
  - split; [done|]. destruct (decide (n = 0)) as [->|]; [done|].
    pose proof (Z.log2_spec n ltac:(lia)) as [_ Hlt]. eapply Z.lt_le_trans; [exact Hlt|].
    rewrite Nat2Z.inj_succ, Z2Nat.id by apply Z.log2_nonneg.
    apply Z.pow_le_mono_l. lia.
  - rewrite app_nil_r. auto.
Qed.

(** ** Hexadecimal text *)

Lemma digit_range d (P : Z -> bool) :
  forallb P (map Z.of_nat (seq 0 16)) = true -> 0 <= d < 16 -> P d = true.
Proof.
  intros H Hd. rewrite forallb_forall in H. apply H. apply in_map_iff.
  exists (Z.to_nat d). split; [lia|]. apply in_seq. lia.
Qed.

Lemma digit_value_hex d : 0 <= d < 16 -> digit_value (hex_digit d) = d.
Proof.
  intros Hd. apply Z.eqb_eq. revert d Hd. intros d.
  apply (digit_range d (fun d => digit_value (hex_digit d) =? d)). vm_compute. reflexivity.
Qed.

Lemma is_hex_digit d : 0 <= d < 16 -> is_hex (hex_digit d) = true.
Proof. intros Hd. unfold is_hex. rewrite digit_value_hex by done. lia. Qed.

Fixpoint pair_up (ds : list Z) : bytes :=
  match ds with a :: b :: ds => a * 16 + b :: pair_up ds | _ => [] end.

Lemma hex_decode_text ds : Forall (fun d => 0 <= d < 16) ds -> hex_decode (hex_text ds) = pair_up ds.
Proof.
  revert ds. refine (fix go ds := _). destruct ds as [|a [|b ds]]; intros H; [done..|].
  inversion_clear H as [|?? Ha H']. inversion_clear H' as [|?? Hb Hds].
  cbn [hex_text hex_decode pair_up]. rewrite !is_hex_digit, !digit_value_hex by done.
  cbn [andb]. f_equal. by apply go.
Qed.

Lemma hex_decode_encode bs : Forall is_byte bs -> hex_decode (hex_encode bs) = bs.
Proof.
  induction 1 as [|b bs Hb Hbs IH]; [done|]. unfold is_byte in Hb. cbn [hex_encode hex_decode].
  assert (0 <= b / 16 < 16) by (split; [apply Z.div_pos|apply Z.div_lt_upper_bound]; lia).
  assert (0 <= b mod 16 < 16) by (apply Z.mod_pos_bound; lia).
  rewrite !is_hex_digit, !digit_value_hex by done. cbn [andb]. rewrite IH. f_equal.
  rewrite (Z.div_mod b 16) at 3 by lia. lia.
Qed.

Lemma pair_up_spec n ds :
  length ds = (2 * n)%nat -> Forall (fun d => 0 <= d < 16) ds ->
  length (pair_up ds) = n /\ Forall is_byte (pair_up ds) /\ value 256 (pair_up ds) = value 16 ds.
Proof.
  revert ds. induction n as [|n IH]; intros [|a [|b ds]] Hlen Hds; try (cbn in Hlen; lia).
  - split_and!; [done|constructor|done].
  - inversion_clear Hds as [|?? Ha H']. inversion_clear H' as [|?? Hb Hds'].
    assert (length ds = (2 * n)%nat) as Hl by (cbn in Hlen; lia).
    destruct (IH ds Hl Hds') as (H1 & H2 & H3). cbn [pair_up]. split_and!.
    + cbn [length]. lia.
    + constructor; [unfold is_byte; lia|done].
    + rewrite !value_cons, H3, H1. cbn [length]. rewrite Hl.
      replace (Z.of_nat (S (2 * n))) with (Z.succ (2 * Z.of_nat n)) by lia.
      replace (Z.of_nat (2 * n)) with (2 * Z.of_nat n) by lia.
      rewrite Z.pow_succ_r by lia. rewrite Z.pow_mul_r by lia. change (16 ^ 2) with 256. lia.
Qed.

Lemma hex_text_length ds : String.length (hex_text ds) = length ds.
Proof. induction ds; cbn; [done|]. by f_equal. Qed.

Lemma hex_text_app ds ds' : hex_text (ds ++ ds') = hex_text ds +:+ hex_text ds'.
Proof.
  induction ds as [|d ds IH]; [done|]. cbn [app hex_text]. rewrite IH. done.
Qed.

Lemma padStart0_text n ds :
  padStart0 n (hex_text ds) = hex_text (repeat 0 (n - length ds) ++ ds).
Proof.
  unfold padStart0. rewrite hex_text_app, hex_text_length. f_equal.
  induction (n - length ds)%nat as [|k IH]; [done|]. cbn [repeat hex_text repeat_char]. by rewrite IH.
Qed.

Lemma value_zeros b n ds : value b (repeat 0 n ++ ds) = value b ds.
Proof.
  induction n as [|n IH]; [done|]. cbn [repeat app]. rewrite value_cons, IH. lia.
Qed.

(** The 32-byte word of an in-range integer. *)
Lemma word_spec n : 0 <= n < 2 ^ 256 ->
  let w := hex_decode (padStart0 64 (to_hex n)) in
  length w = 32%nat /\ Forall is_byte w /\ value 256 w = n.
Proof.
  intros Hn w. destruct (hex_digits_spec n ltac:(lia)) as (Hf & Hv & Hk).
  assert (length (hex_digits n) <= 64)%nat as Hl.
  { apply (Hk 63%nat). change (16 ^ Z.of_nat 64) with (2 ^ 256). lia. }
  unfold w, to_hex. rewrite padStart0_text, hex_decode_text.
  2: { apply Forall_app. split; [|done]. apply Forall_forall. intros x Hx.
       apply list_elem_of_In, repeat_spec in Hx. lia. }
  destruct (pair_up_spec 32 (repeat 0 (64 - length (hex_digits n)) ++ hex_digits n)) as (H1 & H2 & H3).
  - rewrite length_app, repeat_length. lia.
  - apply Forall_app. split; [|done]. apply Forall_forall. intros x Hx.
    apply list_elem_of_In, repeat_spec in Hx. lia.
  - split_and!; [done..|]. by rewrite H3, value_zeros.
Qed.

Lemma word_overflow n : 2 ^ 256 <= n -> (64 < String.length (to_hex n))%nat.
Proof.
  intros Hn. unfold to_hex. rewrite hex_text_length.
  destruct (hex_digits_spec n ltac:(lia)) as (Hf & Hv & _).
  pose proof (value_bound 16 (hex_digits n) ltac:(lia) Hf) as Hb. rewrite Hv in Hb.
  destruct (decide (64 < length (hex_digits n))%nat) as [|Hle]; [done|].
  exfalso. assert (16 ^ Z.of_nat (length (hex_digits n)) <= 16 ^ 64) by (apply Z.pow_le_mono_r; lia).
  change (16 ^ 64) with (2 ^ 256) in *. lia.
Qed.

(** The digest word of a request id is exact: for an id below 2^256 both
    encoders produce 32 bytes whose big-endian value is the id, and the checked
    encoder ([neo-encoding.js]) returns an error for every larger id. *)
Theorem uint256_word_exact : forall id field n,
  js_BigInt id = Some n -> 0 <= n ->
  if n <? 2 ^ 256
  then exists w, encodeUint256Bytes id = inr w /\ encodeUint256Word id field = inr w /\
         length w = 32%nat /\ Forall is_byte w /\ value 256 w = n
  else encodeUint256Word id field = inl (field +:+ " overflows uint256").
Proof.
  intros id field n Hid Hn. unfold encodeUint256Bytes, encodeUint256Word. rewrite Hid.
  rewrite (proj2 (Z.ltb_ge n 0)) by lia. destruct (n <? 2 ^ 256) eqn:E.
  - destruct (word_spec n ltac:(lia)) as (H1 & H2 & H3).
    eexists. split; [reflexivity|]. split; [|done].
    destruct (hex_digits_spec n ltac:(lia)) as (_ & _ & Hk).
    assert (length (hex_digits n) <= 64)%nat as Hl.
    { apply (Hk 63%nat). change (16 ^ Z.of_nat 64) with (2 ^ 256). lia. }
    cbv zeta. rewrite (proj2 (Nat.ltb_ge 64 _)); [done|]. unfold to_hex. by rewrite hex_text_length.
  - cbv zeta. by rewrite (proj2 (Nat.ltb_lt 64 _)) by (apply word_overflow; lia).
Qed.

Example uint256_word_exact_witness :
  (exists w, encodeUint256Bytes "258" = inr w /\ value 256 w = 258) /\
  encodeUint256Word
    "115792089237316195423570985008687907853269984665640564039457584007913129639936" "request_id"
  = inl "request_id overflows uint256".
Proof.
  split.
  - destruct (uint256_word_exact "258" "id" 258 eq_refl ltac:(lia)) as (w & H & _ & _ & _ & Hv).
    by exists w.
  - pose proof (uint256_word_exact
      "115792089237316195423570985008687907853269984665640564039457584007913129639936"
      "request_id" (2 ^ 256) ltac:(vm_compute; reflexivity) ltac:(lia)) as H.
    by rewrite Z.ltb_irrefl in H.
Defined.

(** The unchecked encoder keeps an overflowing word whose hexadecimal text has
    odd length without its last digit: 2^256 and 2^256 + 1 are encoded as
    2^252 is. *)
Lemma encodeUint256Bytes_overflow :
  encodeUint256Bytes
    "115792089237316195423570985008687907853269984665640564039457584007913129639936"
  = encodeUint256Bytes
    "7237005577332262213973186563042994240829374041602535252466099000494570602496" /\
  encodeUint256Bytes
    "115792089237316195423570985008687907853269984665640564039457584007913129639937"
  = encodeUint256Bytes
    "7237005577332262213973186563042994240829374041602535252466099000494570602496".
Proof. vm_compute. split; reflexivity. Qed.

(** ** Base 64 *)

Lemma sextet_range d (P : Z -> bool) :
  forallb P (map Z.of_nat (seq 0 64)) = true -> 0 <= d < 64 -> P d = true.
Proof.
  intros H Hd. rewrite forallb_forall in H. apply H. apply in_map_iff.
  exists (Z.to_nat d). split; [lia|]. apply in_seq. lia.
Qed.

Lemma b64_value_char d : 0 <= d < 64 -> b64_value (b64_char d) = Some d.
Proof.
  intros Hd. apply (bool_decide_eq_true_1 _).
  apply (sextet_range d (fun d => bool_decide (b64_value (b64_char d) = Some d))); [|done].
  vm_compute. reflexivity.
Qed.

Lemma b64_char_not_pad d : 0 <= d < 64 -> Ascii.eqb (b64_char d) "=" = false.
Proof.
  intros Hd. apply negb_true_iff.
  apply (sextet_range d (fun d => negb (Ascii.eqb (b64_char d) "="))); [|done].
  vm_compute. reflexivity.
Qed.

Lemma sextets_cons d s : 0 <= d < 64 -> sextets (String (b64_char d) s) = d :: sextets s.
Proof. intros Hd. cbn [sextets]. by rewrite b64_char_not_pad, b64_value_char. Qed.

Lemma split_digit k x y : 0 <= y < k -> (x * k + y) / k = x /\ (x * k + y) mod k = y.
Proof.
  intros Hy. rewrite Z.div_add_l, Z.div_small by lia. split; [lia|].
  rewrite Z.add_comm, Z.mod_add, Z.mod_small by lia. done.
Qed.

Lemma byte_parts b : is_byte b ->
  (0 <= b / 4 < 64 /\ 0 <= b mod 4 < 4 /\ b / 4 * 4 + b mod 4 = b) /\
  (0 <= b / 16 < 16 /\ 0 <= b mod 16 < 16 /\ b / 16 * 16 + b mod 16 = b) /\
  (0 <= b / 64 < 4 /\ 0 <= b mod 64 < 64 /\ b / 64 * 64 + b mod 64 = b).
Proof.
  unfold is_byte. intros Hb.
  pose proof (Z.div_mod b 4 ltac:(lia)). pose proof (Z.mod_pos_bound b 4 ltac:(lia)).
  pose proof (Z.div_mod b 16 ltac:(lia)). pose proof (Z.mod_pos_bound b 16 ltac:(lia)).
  pose proof (Z.div_mod b 64 ltac:(lia)). pose proof (Z.mod_pos_bound b 64 ltac:(lia)). lia.
Qed.

(** Reading back what [toString('base64')] prints. *)
Lemma base64_decode_encode bs : Forall is_byte bs -> base64_decode (base64_encode bs) = bs.
Proof.
  unfold base64_decode. revert bs. refine (fix go bs := _).
  destruct bs as [|a [|b [|c bs]]]; intros H; [done|..].
  - inversion_clear H as [|?? Ha _]. destruct (byte_parts a Ha) as ((? & ? & ?) & _ & _).
    cbn [base64_encode]. rewrite !sextets_cons by lia.
    change (sextets "==") with ([] : list Z). cbn [join_sextets].
    rewrite Z.div_mul by lia. f_equal. lia.
  - inversion_clear H as [|?? Ha H']. inversion_clear H' as [|?? Hb _].
    destruct (byte_parts a Ha) as ((? & ? & ?) & _ & _).
    destruct (byte_parts b Hb) as (_ & (? & ? & ?) & _).
    cbn [base64_encode]. rewrite !sextets_cons by lia.
    change (sextets "=") with ([] : list Z). cbn [join_sextets].
    destruct (split_digit 16 (a mod 4) (b / 16)) as [-> ->]; [lia|].
    rewrite Z.div_mul by lia. f_equal; [lia|]. f_equal. lia.
  - inversion_clear H as [|?? Ha H']. inversion_clear H' as [|?? Hb H''].
    inversion_clear H'' as [|?? Hc Hbs].
    destruct (byte_parts a Ha) as ((? & ? & ?) & _ & _).
    destruct (byte_parts b Hb) as (_ & (? & ? & ?) & _).
    destruct (byte_parts c Hc) as (_ & _ & (? & ? & ?)).
    cbn [base64_encode]. rewrite !sextets_cons by lia. cbn [join_sextets]. rewrite (go bs Hbs).
    destruct (split_digit 16 (a mod 4) (b / 16)) as [-> ->]; [lia|].
    destruct (split_digit 4 (b mod 16) (c / 64)) as [-> ->]; [lia|].
    f_equal; [lia|]. f_equal; [lia|]. f_equal. lia.
Qed.

(** ** The network magic *)

Lemma magic_le4_spec magic :
  length (neoNetworkMagicLe4 magic) = 4%nat /\ Forall is_byte (neoNetworkMagicLe4 magic) /\
  value 256 (reverse (neoNetworkMagicLe4 magic)) = magic mod 2 ^ 32.
Proof.
  unfold neoNetworkMagicLe4. cbv zeta. set (m := magic mod 2 ^ 32).
  assert (0 <= m < 2 ^ 32) as Hm by (apply Z.mod_pos_bound; lia).
  assert (is_byte (m / 2 ^ 24)).
  { split; [apply Z.div_pos|apply Z.div_lt_upper_bound]; lia. }
  split_and!; [done| |].
  { repeat (apply Forall_cons_2; [first [done|apply Z.mod_pos_bound; lia]|]). apply Forall_nil_2. }
  unfold value, reverse. cbn [rev_append foldl]. change (2 ^ 24) with (2 ^ 8 * (2 ^ 8 * 2 ^ 8)).
  change (2 ^ 16) with (2 ^ 8 * 2 ^ 8). rewrite <-!Z.div_div by lia. change (2 ^ 8) with 256.
  pose proof (Z.div_mod m 256 ltac:(lia)).
  pose proof (Z.div_mod (m / 256) 256 ltac:(lia)).
  pose proof (Z.div_mod (m / 256 / 256) 256 ltac:(lia)). lia.
Qed.

Lemma magic_le4_inj m m' : neoNetworkMagicLe4 m = neoNetworkMagicLe4 m' -> m mod 2 ^ 32 = m' mod 2 ^ 32.
Proof.
  intros H. destruct (magic_le4_spec m) as (_ & _ & <-), (magic_le4_spec m') as (_ & _ & <-).
  by rewrite H.
Qed.

Lemma hex_decode_length s :
  str_forall is_hex s = true -> forall n, String.length s = (2 * n)%nat -> length (hex_decode s) = n.
Proof.
  revert s. refine (fix go s := _). destruct s as [|a [|b s]]; intros Hs [|n] Hn; cbn in Hn; try lia; [done|].
  cbn [str_forall] in Hs. apply andb_true_iff in Hs as [Ha Hs]. apply andb_true_iff in Hs as [Hb Hs].
  cbn [hex_decode]. rewrite Ha, Hb. cbn [andb length]. f_equal. apply go; [done|lia].
Qed.

(** ** UTF-8 is injective *)

Lemma chr_code a : chr (code a) = a.
Proof. unfold chr, code. rewrite Nat2Z.id. apply ascii_nat_embedding. Qed.

Lemma code_inj a b : code a = code b -> a = b.
Proof. intros H. by rewrite <-(chr_code a), <-(chr_code b), H. Qed.

Lemma utf8_inj s s' : utf8 s = utf8 s' -> s = s'.
Proof.
  revert s'. induction s as [|a s IH]; intros [|b s']; cbn [utf8]; intros H; try done.
  - unfold utf8_char in H. by destruct (code b <? 128).
  - unfold utf8_char in H. by destruct (code a <? 128).
  - pose proof (code_range a) as Ha. pose proof (code_range b) as Hb. unfold utf8_char in H.
    assert (2 <= code a / 64 \/ code a < 128) as Ha2.
    { destruct (decide (code a < 128)); [auto|left]. apply Z.div_le_lower_bound; lia. }
    assert (2 <= code b / 64 \/ code b < 128) as Hb2.
    { destruct (decide (code b < 128)); [auto|left]. apply Z.div_le_lower_bound; lia. }
    destruct (code a <? 128) eqn:Ea, (code b <? 128) eqn:Eb; cbn [app] in H.
    + injection H as Hc Hs. f_equal; [by apply code_inj|by apply IH].
    + injection H as Hc Hs. lia.
    + injection H as Hc Hs. lia.
    + injection H as Hc Hd Hs. f_equal; [|by apply IH]. apply code_inj.
      rewrite (Z.div_mod (code a) 64), (Z.div_mod (code b) 64) by lia. lia.
Qed.
