(* ===== verification/Envelope.v ===== *)
(** * Result encoding ([router.js])

    From a worker response to what is delivered on chain: the compact callback
    bytes of tickets and randomness, or the JSON result envelope, and the error
    text of a failed response. *)
From S2P Require Import Prelude Numbers Strings Values Encoding.
#[local] Open Scope list_scope.
#[local] Open Scope Z_scope.

Record worker_response := WorkerResponse {
  wr_ok : bool;
  wr_status : Z;
  wr_body : val;
}.

(** The result delivered on chain. *)
Record fulfillment := Fulfillment {
  ff_success : bool;
  ff_result : string;
  ff_result_bytes_base64 : string;
  ff_error : string;
}.
#[global] Instance fulfillment_eq_dec : EqDecision fulfillment.
Proof. solve_decision. Defined.

(** ** Compact callback bytes *)

Definition encodeLengthPrefixedUtf8 (v : val) : string + bytes :=
  let bs := utf8 (trimString v) in
  if 255 <? Z.of_nat (length bs) then inl "compact callback segment exceeds 255 bytes"
  else inr (Z.of_nat (length bs) :: bs).

(** [encodeHash160Bytes], [encodeHashBytes] and [encodeSignatureBytes]: exactly
    [n] hexadecimal digits. *)
Definition encode_hex_field (n : nat) (error : string) (v : val) : string + bytes :=
  let raw := strip0x (trimString v) in
  if hex_of_length n raw then inr (hex_decode raw) else inl error.

Definition encodeHash160Bytes (v : val) (fieldName : string) : string + bytes :=
  encode_hex_field 40 ("invalid hash160 for " +:+ fieldName) v.
Definition encodeHashBytes (v : val) (fieldName : string) : string + bytes :=
  encode_hex_field 64 ("invalid 32-byte hash for " +:+ fieldName) v.
Definition encodeSignatureBytes (v : val) (fieldName : string) : string + bytes :=
  encode_hex_field 128 ("invalid 64-byte signature for " +:+ fieldName) v.

(** Evaluate the segments of [Buffer.concat] in order; the first error is thrown. *)
Fixpoint concat_segments (l : list (string + bytes)) : string + bytes :=
  match l with
  | [] => inr []
  | inl e :: _ => inl e
  | inr bs :: l => match concat_segments l with inl e => inl e | inr r => inr (bs ++ r) end
  end.

Fixpoint all_segments (l : list (string + bytes)) : string + list bytes :=
  match l with
  | [] => inr []
  | inl e :: _ => inl e
  | inr bs :: l => match all_segments l with inl e => inl e | inr r => inr (bs :: r) end
  end.

Definition encodeNeoN3RecoveryTicketV1 (body : val) : string + bytes :=
  concat_segments
    [inr [1]; encodeHash160Bytes (get body "new_owner") "new_owner";
     encodeLengthPrefixedUtf8 (get body "recovery_nonce");
     encodeLengthPrefixedUtf8 (get body "expires_at");
     encodeLengthPrefixedUtf8 (get body "action_id");
     encodeHashBytes (get body "master_nullifier") "master_nullifier";
     encodeHashBytes (get body "action_nullifier") "action_nullifier";
     encodeSignatureBytes (get body "signature") "signature"].

Definition encodeNeoN3ActionTicketV1 (body : val) : string + bytes :=
  concat_segments
    [inr [1]; encodeHash160Bytes (get body "disposable_account") "disposable_account";
     encodeLengthPrefixedUtf8 (get body "action_id");
     encodeHashBytes (get body "action_nullifier") "action_nullifier";
     encodeSignatureBytes (get body "signature") "signature"].

(** ['3'] and the segments in base 64, joined with ['|']. *)
Definition ticket_v3 (segments : list (string + bytes)) : string + bytes :=
  match all_segments segments with
  | inl e => inl e
  | inr bss => inr (utf8 (join "|" ("3" :: (base64_encode <$> bss))))
  end.

Definition encodeNeoN3RecoveryTicketV3 (body : val) : string + bytes :=
  ticket_v3 [encodeHashBytes (get body "master_nullifier") "master_nullifier";
             encodeHashBytes (get body "action_nullifier") "action_nullifier";
             encodeSignatureBytes (get body "signature") "signature"].

Definition encodeNeoN3ActionTicketV3 (body : val) : string + bytes :=
  ticket_v3 [encodeHashBytes (get body "action_nullifier") "action_nullifier";
             encodeSignatureBytes (get body "signature") "signature"].

(** [None] is [null]: no compact form. *)
Definition resolveCompactCallbackBytes (requestType : string) (r : worker_response)
    : string + option bytes :=
  let normalized := normalizeRequestType requestType in
  let workerBody := wr_body r in
  let some (x : string + bytes) := match x with inl e => inl e | inr bs => inr (Some bs) end in
  if negb (is_object workerBody) then inr None
  else
    let randomness := strip0x (trimString (v_or (get workerBody "randomness") (VStr ""))) in
    if ((normalized =? "rng")%string || includes normalized "vrf" || includes normalized "random")
       && hex_of_length 64 randomness
    then inr (Some (hex_decode randomness))
    else
      let callbackEncoding :=
        normalizeRequestType (trimString (v_or (get workerBody "callback_encoding") (VStr ""))) in
      if (callbackEncoding =? "")%string then inr None
      else if (normalized =? "neodid_recovery_ticket")%string
              && (callbackEncoding =? "neo_n3_recovery_v1")%string
      then some (encodeNeoN3RecoveryTicketV1 workerBody)
      else if (normalized =? "neodid_recovery_ticket")%string
              && (callbackEncoding =? "neo_n3_recovery_v3")%string
      then some (encodeNeoN3RecoveryTicketV3 workerBody)
      else if (normalized =? "neodid_action_ticket")%string
              && (callbackEncoding =? "neo_n3_action_v1")%string
      then some (encodeNeoN3ActionTicketV1 workerBody)
      else if (normalized =? "neodid_action_ticket")%string
              && (callbackEncoding =? "neo_n3_action_v3")%string
      then some (encodeNeoN3ActionTicketV3 workerBody)
      else inr None.

(** ** The result envelope *)

Definition MAX_ONCHAIN_RESULT_VALUE_BYTES : Z := 384.
Definition MAX_ONCHAIN_ERROR_LENGTH : Z := 240.

(** [None] is [Number.POSITIVE_INFINITY], for a value JSON does not represent. *)
Definition measureJsonBytes (v : val) : option Z :=
  match json_stringify v with Some t => Some (Z.of_nat (length (utf8 t))) | None => None end.

Definition fits (v : val) (maxBytes : Z) : bool :=
  match measureJsonBytes v with Some n => n <=? maxBytes | None => false end.

Definition trimErrorMessage (value : string) : string :=
  let text := trim value in
  if (text =? "")%string then "worker request failed"
  else if MAX_ONCHAIN_ERROR_LENGTH <? str_length text
  then slice_to text (MAX_ONCHAIN_ERROR_LENGTH - 3) +:+ "..."
  else text.

Definition compactValue (v : val) (maxBytes : Z) : val :=
  if fits v maxBytes then v else VUndef.

Definition preferredFields : list string :=
  ["mode"; "action"; "function"; "entry_point"; "target_chain"; "target_chain_id";
   "request_source"; "provider"; "claim_type"; "claim_value"; "master_nullifier";
   "provider_pair"; "feed_id"; "pair"; "symbol"; "action_id"; "action_nullifier";
   "aa_contract"; "verifier_contract"; "account_id"; "account_address"; "new_owner";
   "recovery_nonce"; "expires_at"; "digest"; "price"; "decimals"; "timestamp";
   "automation_id"; "trigger_type"; "next_run_at"; "status"; "chain"; "requester";
   "callback_contract"; "execution_request_type"; "upstream_status"; "randomness";
   "job_id"; "extracted_value"].

Definition is_nullish (v : val) : bool :=
  match v with VUndef | VNull => true | _ => false end.

Definition or_null (v : val) : val := v_or v VNull.

Definition buildBusinessResult (requestType : string) (workerBody : val) : val :=
  if negb (is_object workerBody) then workerBody
  else
    let normalized := normalizeRequestType requestType in
    let c1 := foldl (fun compact field =>
        if is_nullish (get workerBody field) then compact
        else assoc_set field (get workerBody field) compact) [] preferredFields in
    let c2 := match get workerBody "sources" with
              | VArr (x :: l) => assoc_set "sources" (VArr (take 4 (x :: l))) c1
              | _ => c1
              end in
    let result := get workerBody "result" in
    let preferredResult := compactValue result MAX_ONCHAIN_RESULT_VALUE_BYTES in
    let extractedValue := compactValue (get workerBody "extracted_value") 192 in
    let c3 :=
      if negb (is_undefined preferredResult) then assoc_set "result" preferredResult c2
      else if negb (is_undefined extractedValue)
      then assoc_set "result_source" (VStr "extracted_value") (assoc_set "result" extractedValue c2)
      else if negb (is_undefined result)
      then assoc_set "result_type"
             (VStr (if is_array result then "array" else js_typeof result))
             (assoc_set "result_hash" (or_null (get workerBody "output_hash"))
               (assoc_set "result_omitted" (VBool true) c2))
      else c2 in
    let c4 :=
      if includes normalized "feed" && is_undefined (assoc_get "result" c3)
         && negb (is_undefined (assoc_get "price" c3))
      then assoc_set "result_source" (VStr "price") (assoc_set "result" (assoc_get "price" c3) c3)
      else c3 in
    match c4 with [] => VNull | _ => VObj c4 end.

Section envelope.
(** [sha256Hex] of a value ([node-runtime.js]): the hexadecimal SHA-256 of its
    text, or of its stable serialization. *)
Context (sha256Hex : val -> string).

Definition compactTeeAttestation (a : val) : val :=
  if negb (is_object a) then VNull
  else
    VObj [("app_id", or_null (get a "app_id")); ("instance_id", or_null (get a "instance_id"));
          ("compose_hash", or_null (get a "compose_hash"));
          ("report_data", or_null (get a "report_data"));
          ("quote_hash", if truthy (get a "quote") then VStr (sha256Hex (get a "quote")) else VNull);
          ("event_log_hash",
             if truthy (get a "event_log") then VStr (sha256Hex (get a "event_log")) else VNull)].

Definition buildVerificationEnvelope (workerBody : val) : val :=
  if negb (is_object workerBody) then VNull
  else
    let source := if is_object (get workerBody "verification")
                  then get workerBody "verification" else workerBody in
    let hasAny := truthy (get source "output_hash") || truthy (get source "attestation_hash")
                  || truthy (get source "signature") || truthy (get source "public_key")
                  || truthy (get source "tee_attestation") in
    if negb hasAny then VNull
    else
      VObj [("output_hash", or_null (get source "output_hash"));
            ("attestation_hash", or_null (get source "attestation_hash"));
            ("signature", or_null (get source "signature"));
            ("public_key", or_null (get source "public_key"));
            ("signer_address", or_null (get source "signer_address"));
            ("signer_script_hash", or_null (get source "signer_script_hash"));
            ("tee_attestation", compactTeeAttestation (or_null (get source "tee_attestation")))].

Definition compactEnvelope (requestType : string) (r : worker_response) : list (string * val) :=
  let kernelIntent := resolveKernelIntent requestType in
  let workerBody := if is_object (wr_body r) then wr_body r
                    else VObj [("raw", v_coalesce (wr_body r) VNull)] in
  [("version", VStr "morpheus-result/v1");
   ("request_type", VStr (legacyRequestType kernelIntent));
   ("module_id", VStr (moduleId kernelIntent));
   ("operation", VStr (operation kernelIntent));
   ("success", VBool (wr_ok r));
   ("result", buildBusinessResult (legacyRequestType kernelIntent) workerBody);
   ("verification", buildVerificationEnvelope workerBody)].

Definition dropped_fields : list string := ["request_source"; "target_chain_id"; "sources"].

(** The second candidate: the result without its bulky fields.  [Object.entries]
    of an array result keys it by index. *)
Definition without_bulky (envelope : list (string * val)) : list (string * val) :=
  match assoc_get "result" envelope with
  | VObj kvs =>
      assoc_set "result" (VObj (filter (fun kv => kv.1 ∉ dropped_fields) kvs)) envelope
  | VArr l =>
      assoc_set "result" (VObj (imap (fun i x => (num_to_string (Z.of_nat i), x)) l)) envelope
  | _ => envelope
  end.

(** The third candidate: the verification without its signer and TEE detail. *)
Definition with_short_verification (envelope : list (string * val)) : list (string * val) :=
  let v := assoc_get "verification" envelope in
  if truthy v then
    let tee := get v "tee_attestation" in
    assoc_set "verification"
      (VObj [("output_hash", or_null (get v "output_hash"));
             ("attestation_hash", or_null (get v "attestation_hash"));
             ("signature", or_null (get v "signature"));
             ("public_key", or_null (get v "public_key"));
             ("tee_attestation",
                if truthy tee then
                  VObj [("app_id", or_null (get tee "app_id"));
                        ("compose_hash", or_null (get tee "compose_hash"));
                        ("report_data", or_null (get tee "report_data"));
                        ("quote_hash", or_null (get tee "quote_hash"))]
                else VNull)]) envelope
  else envelope.

Fixpoint first_fitting (candidates : list val) (fallback : val) : val :=
  match candidates with
  | [] => fallback
  | c :: cs => if fits c 900 then c else first_fitting cs fallback
  end.

(** [trustTier = ""] is [null]. *)
Definition envelope_attempts (requestType : string) (r : worker_response) (trustTier : string)
    : list val :=
  let e0 := compactEnvelope requestType r in
  let envelope := if (trustTier =? "")%string then e0 else assoc_set "trust_tier" (VStr trustTier) e0 in
  [VObj envelope; VObj (without_bulky envelope); VObj (with_short_verification envelope)].

Definition buildOnchainResultEnvelope (requestType : string) (r : worker_response)
    (trustTier : string) : val :=
  let attempts := envelope_attempts requestType r trustTier in
  first_fitting attempts (List.last attempts VUndef).

Definition encodeFulfillmentResult (requestType : string) (r : worker_response)
    : string + fulfillment :=
  let normalized := normalizeRequestType requestType in
  if negb (wr_ok r) then
    let errorMessage := match get (wr_body r) "error" with
                        | VStr s => s
                        | _ => "worker request failed with status " +:+ num_to_string (wr_status r)
                        end in
    inr (Fulfillment false "" "" (trimErrorMessage errorMessage))
  else
    match resolveCompactCallbackBytes normalized r with
    | inl e => inl e
    | inr (Some compactBytes) => inr (Fulfillment true "" (base64_encode compactBytes) "")
    | inr None =>
        let payload := buildOnchainResultEnvelope normalized r "" in
        inr (Fulfillment true (default "" (json_stringify payload)) "" "")
    end.
End envelope.

(** ** Prefix-free segments *)

Definition prefix_free (P : bytes -> Prop) : Prop :=
  forall a a' r r', P a -> P a' -> a ++ r = a' ++ r' -> a = a' /\ r = r'.

Definition of_length (n : nat) (bs : bytes) : Prop := length bs = n.
Definition length_prefixed (bs : bytes) : Prop := exists l, bs = Z.of_nat (length l) :: l.

Lemma prefix_free_length n : prefix_free (of_length n).
Proof. intros a a' r r' Ha Ha' H. apply app_inj_1; [unfold of_length in *; congruence|done]. Qed.

Lemma prefix_free_prefixed : prefix_free length_prefixed.
Proof.
  intros a a' r r' [l ->] [l' ->] H. cbn in H. injection H as Hl H.
  apply app_inj_1 in H as [-> ->]; [done|lia].
Qed.

(** [produces P s]: when the segment [s] does not throw, its bytes are in [P]. *)
Definition produces (P : bytes -> Prop) (s : string + bytes) : Prop :=
  prefix_free P /\ forall bs, s = inr bs -> P bs.

Lemma concat_segments_inj Ps ls ls' x :
  Forall2 produces Ps ls -> Forall2 produces Ps ls' ->
  concat_segments ls = inr x -> concat_segments ls' = inr x -> ls = ls'.
Proof.
  intros Hls. revert ls' x. induction Hls as [|P s Ps ls [Hfree Hs] Hls IH]; intros ls' x Hls' Hx Hx'.
  { by inversion Hls'. }
  inversion Hls' as [|? s' ? ls'' [_ Hs'] Hls'']; subst. cbn [concat_segments] in *.
  destruct s as [|bs]; [done|]. destruct s' as [|bs']; [done|].
  destruct (concat_segments ls) as [|r] eqn:Er; [done|].
  destruct (concat_segments ls'') as [|r'] eqn:Er'; [done|].
  injection Hx as Hx. injection Hx' as Hx'.
  destruct (Hfree bs bs' r r') as [-> ->]; [auto..|congruence|].
  f_equal. by apply (IH ls'' r').
Qed.

Lemma hex_field_produces n error v : produces (of_length n) (encode_hex_field (2 * n) error v).
Proof.
  split; [apply prefix_free_length|]. unfold encode_hex_field, hex_of_length. intros bs.
  destruct (_ && _) eqn:E; [|done]. intros [= <-]. apply andb_true_iff in E as [E1 E2%Nat.eqb_eq].
  by apply hex_decode_length.
Qed.

Lemma utf8_segment_produces v : produces length_prefixed (encodeLengthPrefixedUtf8 v).
Proof.
  split; [apply prefix_free_prefixed|]. unfold encodeLengthPrefixedUtf8. intros bs.
  destruct (_ <? _); [done|]. intros [= <-]. by eexists.
Qed.

Lemma version_produces b : produces (of_length 1) (inr [b]).
Proof. split; [apply prefix_free_length|]. by intros bs [= <-]. Qed.
#[local] Hint Resolve version_produces utf8_segment_produces : core.

Lemma utf8_segment_inj v v' bs :
  encodeLengthPrefixedUtf8 v = inr bs -> encodeLengthPrefixedUtf8 v = encodeLengthPrefixedUtf8 v' ->
  trimString v = trimString v'.
Proof.
  intros Hv Hv'. rewrite Hv in Hv'. symmetry in Hv'. revert Hv Hv'. unfold encodeLengthPrefixedUtf8. repeat (destruct (_ <? _); [done|]).
  intros [= <-] [= Hl H]. apply utf8_inj. done.
Qed.

(** The bytes of a hexadecimal field. *)
Definition hex_field (v : val) : bytes := hex_decode (strip0x (trimString v)).

Lemma hex_field_inj n e e' v v' bs :
  encode_hex_field n e v = inr bs -> encode_hex_field n e v = encode_hex_field n e' v' ->
  hex_field v = hex_field v'.
Proof.
  unfold encode_hex_field, hex_field. repeat (destruct (hex_of_length _ _); [|done]). congruence.
Qed.

Lemma concat_segments_all ls x :
  concat_segments ls = inr x -> Forall (fun s => exists bs, s = inr bs) ls.
Proof.
  revert x. induction ls as [|[e|bs] ls IH]; intros x H; [constructor|done|]. cbn in H.
  destruct (concat_segments ls) as [|r]; [done|]. constructor; eauto.
Qed.

(** A compact recovery ticket is unambiguous: two worker bodies that encode
    to the same version-1 callback bytes agree on the new owner, the nullifiers
    and the signature, byte for byte, and on the recovery nonce, the expiry and
    the action id, although these three are of variable length. *)
Theorem recovery_ticket_unambiguous : forall b b' x,
  encodeNeoN3RecoveryTicketV1 b = inr x -> encodeNeoN3RecoveryTicketV1 b' = inr x ->
  hex_field (get b "new_owner") = hex_field (get b' "new_owner") /\
  trimString (get b "recovery_nonce") = trimString (get b' "recovery_nonce") /\
  trimString (get b "expires_at") = trimString (get b' "expires_at") /\
  trimString (get b "action_id") = trimString (get b' "action_id") /\
  hex_field (get b "master_nullifier") = hex_field (get b' "master_nullifier") /\
  hex_field (get b "action_nullifier") = hex_field (get b' "action_nullifier") /\
  hex_field (get b "signature") = hex_field (get b' "signature").
Proof.
  intros b b' x Hb Hb'. unfold encodeNeoN3RecoveryTicketV1 in *.
  assert (forall b, Forall2 produces
    [of_length 1; of_length 20; length_prefixed; length_prefixed; length_prefixed;
     of_length 32; of_length 32; of_length 64]
    [inr [1]; encodeHash160Bytes (get b "new_owner") "new_owner";
     encodeLengthPrefixedUtf8 (get b "recovery_nonce");
     encodeLengthPrefixedUtf8 (get b "expires_at");
     encodeLengthPrefixedUtf8 (get b "action_id");
     encodeHashBytes (get b "master_nullifier") "master_nullifier";
     encodeHashBytes (get b "action_nullifier") "action_nullifier";
     encodeSignatureBytes (get b "signature") "signature"]) as Hp.
  { intros b0. repeat (apply Forall2_cons_2; [first [apply version_produces
      |apply utf8_segment_produces|apply (hex_field_produces 20)|apply (hex_field_produces 32)
      |apply (hex_field_produces 64)]|]). apply Forall2_nil_2. }
  pose proof (concat_segments_inj _ _ _ _ (Hp b) (Hp b') Hb Hb') as Heq.
  apply concat_segments_all in Hb. injection Heq as H1 H2 H3 H4 H5 H6 H7.
  repeat match goal with H : Forall _ (_ :: _) |- _ => apply Forall_cons in H as [[? ?] H] end.
  split_and!; first [eapply hex_field_inj; eassumption|eapply utf8_segment_inj; eassumption].
Qed.

Definition sample_hex (n : nat) : string := repeat_char n "a".

Definition sample_ticket (nonce expires : string) : val :=
  VObj [("callback_encoding", VStr "neo_n3_recovery_v1");
        ("new_owner", VStr ("0x" +:+ sample_hex 40)); ("recovery_nonce", VStr nonce);
        ("expires_at", VStr expires); ("action_id", VStr "act");
        ("master_nullifier", VStr (sample_hex 64)); ("action_nullifier", VStr (sample_hex 64));
        ("signature", VStr (sample_hex 128))].

Example recovery_ticket_unambiguous_witness :
  trimString (get (sample_ticket "7" "100") "recovery_nonce")
  = trimString (get (sample_ticket " 7" "100 ") "recovery_nonce").
Proof.
  apply (recovery_ticket_unambiguous (sample_ticket "7" "100") (sample_ticket " 7" "100 ")
    (match encodeNeoN3RecoveryTicketV1 (sample_ticket "7" "100") with inr x => x | _ => [] end));
    vm_compute; reflexivity.
Defined.

(** ** The delivered result *)

Lemma str_length_app s t : str_length (s +:+ t) = str_length s + str_length t.
Proof.
  unfold str_length. rewrite <-Nat2Z.inj_add. f_equal.
  induction s as [|a s IH]; [done|]. change (String a s +:+ t) with (String a (s +:+ t)).
  cbn [String.length]. by rewrite IH.
Qed.

Lemma slice_length s n : 0 <= n <= str_length s -> str_length (slice_to s n) = n.
Proof.
  unfold str_length, slice_to. intros Hn.
  assert (forall s k, (k <= String.length s)%nat -> String.length (String.substring 0 k s) = k) as Hs.
  { clear. induction s as [|a s IH]; intros [|k] Hk; cbn in *; try lia. by rewrite IH by lia. }
  rewrite Hs by lia. lia.
Qed.

Lemma trimErrorMessage_spec v :
  trimErrorMessage v <> "" /\ str_length (trimErrorMessage v) <= MAX_ONCHAIN_ERROR_LENGTH.
Proof.
  unfold trimErrorMessage, MAX_ONCHAIN_ERROR_LENGTH.
  destruct (trim v =? "")%string eqn:E; [by split; [|vm_compute]|].
  destruct (240 <? str_length (trim v)) eqn:El.
  - assert (str_length (slice_to (trim v) (240 - 3) +:+ "...") = 240) as Hl.
    { rewrite str_length_app, slice_length by lia. done. }
    split; [intros H; by rewrite H in Hl|lia].
  - split; [|lia]. intros H. by rewrite H in E.
Qed.

Lemma encode_hex_field_bytes n e v bs : encode_hex_field n e v = inr bs -> Forall is_byte bs.
Proof.
  unfold encode_hex_field, hex_of_length. destruct (_ && _); [|done]. intros [= <-].
  generalize (strip0x (trimString v)). refine (fix go s := _).
  destruct s as [|a [|b s]]; [constructor..|]. cbn [hex_decode].
  destruct (is_hex a && is_hex b) eqn:E; [|constructor].
  apply andb_true_iff in E as [Ha Hb]. unfold is_hex in *. constructor; [|apply go].
  unfold is_byte, digit_value in *. pose proof (code_range a). pose proof (code_range b).
  repeat case_match; lia.
Qed.

Lemma utf8_segment_bytes v bs : encodeLengthPrefixedUtf8 v = inr bs -> Forall is_byte bs.
Proof.
  unfold encodeLengthPrefixedUtf8. destruct (_ <? _) eqn:E; [done|]. intros [= <-].
  constructor; [unfold is_byte; lia|apply utf8_bytes].
Qed.

Lemma concat_segments_bytes ls x :
  Forall (fun s => forall bs, s = inr bs -> Forall is_byte bs) ls ->
  concat_segments ls = inr x -> Forall is_byte x.
Proof.
  intros Hls. revert x. induction Hls as [|s ls Hs Hls IH]; intros x; cbn [concat_segments].
  - intros [= <-]. constructor.
  - destruct s as [|bs]; [done|]. destruct (concat_segments ls) as [|r]; [done|].
    intros [= <-]. apply Forall_app. auto.
Qed.

Lemma concat_segments_head b ls x : concat_segments (inr [b] :: ls) = inr x -> x <> [].
Proof. cbn. destruct (concat_segments ls); [done|]. by intros [= <-]. Qed.

Lemma ticket_v3_bytes l x : ticket_v3 l = inr x -> x <> [] /\ Forall is_byte x.
Proof.
  unfold ticket_v3. destruct (all_segments l) as [|bss]; [done|]. intros [= <-]. split.
  - by destruct (base64_encode <$> bss).
  - apply utf8_bytes.
Qed.

Lemma hex_decode_bytes s : Forall is_byte (hex_decode s).
Proof.
  revert s. refine (fix go s := _). destruct s as [|a [|b s]]; [constructor..|]. cbn [hex_decode].
  destruct (is_hex a && is_hex b) eqn:E; [|constructor].
  apply andb_true_iff in E as [Ha Hb]. unfold is_hex in *. constructor; [|apply go].
  unfold is_byte, digit_value in *. pose proof (code_range a). pose proof (code_range b).
  repeat case_match; lia.
Qed.

Lemma version_byte bs : (inr [1] : string + bytes) = inr bs -> Forall is_byte bs.
Proof. intros [= <-]. apply Forall_singleton. unfold is_byte. lia. Qed.

Ltac segments_tac :=
  repeat (apply Forall_cons_2; [intros ? ?; first [by eapply version_byte
    |by eapply encode_hex_field_bytes|by eapply utf8_segment_bytes]|]); apply Forall_nil_2.

Lemma compact_bytes t r bs :
  resolveCompactCallbackBytes t r = inr (Some bs) -> bs <> [] /\ Forall is_byte bs.
Proof.
  assert (forall b, encodeNeoN3RecoveryTicketV1 b = inr bs -> bs <> [] /\ Forall is_byte bs) as H1.
  { intros b H. split; [exact (concat_segments_head _ _ _ H)|]. eapply concat_segments_bytes; [|exact H].
    segments_tac. }
  assert (forall b, encodeNeoN3ActionTicketV1 b = inr bs -> bs <> [] /\ Forall is_byte bs) as H2.
  { intros b H. split; [exact (concat_segments_head _ _ _ H)|]. eapply concat_segments_bytes; [|exact H].
    segments_tac. }
  unfold resolveCompactCallbackBytes. cbv zeta.
  destruct (negb _); [done|]. destruct (_ && hex_of_length _ _) eqn:Er.
  { intros [= <-]. split; [|apply hex_decode_bytes]. apply andb_true_iff in Er as [_ Er].
    unfold hex_of_length in Er. apply andb_true_iff in Er as [E1 E2%Nat.eqb_eq].
    intros Hnil. pose proof (hex_decode_length _ E1 32 E2) as Hl. by rewrite Hnil in Hl. }
  destruct (_ =? "")%string; [done|].
  clear Er. assert (forall e : string + bytes,
    match e with inl e => inl e | inr bs => inr (Some bs) end = inr (Some bs) -> e = inr bs) as Hsome.
  { intros [|b]; [done|]. by intros [= ->]. }
  destruct (_ && _); [intros He; exact (H1 _ (Hsome _ He))|].
  destruct (_ && _); [intros He; exact (ticket_v3_bytes _ _ (Hsome _ He))|].
  destruct (_ && _); [intros He; exact (H2 _ (Hsome _ He))|].
  destruct (_ && _); [intros He; exact (ticket_v3_bytes _ _ (Hsome _ He))|]. done.
Qed.

Lemma b64_no_space d : js_space (b64_char d) = false \/ ~ 0 <= d < 64.
Proof.
  destruct (decide (0 <= d < 64)) as [Hd|]; [left|by right]. apply negb_true_iff.
  apply (sextet_range d (fun d => negb (js_space (b64_char d)))); [|done].
  vm_compute. reflexivity.
Qed.

Lemma base64_encode_no_space bs :
  Forall is_byte bs -> str_forall (fun a => negb (js_space a)) (base64_encode bs) = true.
Proof.
  assert (forall d, 0 <= d < 64 -> js_space (b64_char d) = false) as Hc.
  { intros d Hd. by destruct (b64_no_space d). }
  revert bs. refine (fix go bs := _). destruct bs as [|a [|b [|c bs]]]; intros H; [done|..].
  - inversion_clear H as [|?? Ha _]. destruct (byte_parts a Ha) as ((? & ? & ?) & _ & _).
    cbn [base64_encode str_forall]. rewrite !Hc by lia. done.
  - inversion_clear H as [|?? Ha H']. inversion_clear H' as [|?? Hb _].
    destruct (byte_parts a Ha) as ((? & ? & ?) & _ & _).
    destruct (byte_parts b Hb) as (_ & (? & ? & ?) & _).
    cbn [base64_encode str_forall]. rewrite !Hc by lia. done.
  - inversion_clear H as [|?? Ha H']. inversion_clear H' as [|?? Hb H''].
    inversion_clear H'' as [|?? Hc' Hbs].
    destruct (byte_parts a Ha) as ((? & ? & ?) & _ & _).
    destruct (byte_parts b Hb) as (_ & (? & ? & ?) & _).
    destruct (byte_parts c Hc') as (_ & _ & (? & ? & ?)).
    cbn [base64_encode str_forall]. rewrite !Hc by lia. cbn [negb andb]. by apply go.
Qed.

Lemma base64_encode_ne bs : bs <> [] -> base64_encode bs <> "".
Proof. by destruct bs as [|a [|b [|c bs]]]. Qed.

Lemma stringify_object_ne kvs : default "" (json_stringify (VObj kvs)) <> "".
Proof. cbn. discriminate. Qed.

Section outcome.
Context (sha256Hex : val -> string).

Lemma attempts_objects t r tier :
  Forall (fun v => exists kvs, v = VObj kvs) (envelope_attempts sha256Hex t r tier).
Proof. unfold envelope_attempts. repeat constructor; by eexists. Qed.

Lemma first_fitting_in cs f : first_fitting cs f ∈ f :: cs.
Proof.
  induction cs as [|c cs IH]; cbn [first_fitting]; [by left|]. case_match; [by right; left|].
  apply elem_of_cons in IH as [->|IH]; [by left|by right; right].
Qed.

Lemma first_fitting_fits cs f : Exists (fun c => fits c 900 = true) cs -> fits (first_fitting cs f) 900 = true.
Proof.
  induction 1 as [c cs Hc|c cs Hcs IH]; cbn [first_fitting]; [by rewrite Hc|]. by case_match.
Qed.

Lemma selected_in t r tier :
  buildOnchainResultEnvelope sha256Hex t r tier ∈ envelope_attempts sha256Hex t r tier.
Proof.
  unfold buildOnchainResultEnvelope. set (attempts := envelope_attempts _ _ _ _).
  pose proof (first_fitting_in attempts (List.last attempts VUndef)) as H.
  apply elem_of_cons in H as [->|H]; [|done]. unfold attempts, envelope_attempts. cbn [List.last].
  do 2 right. by left.
Qed.

Lemma selected_object t r tier : exists kvs, buildOnchainResultEnvelope sha256Hex t r tier = VObj kvs.
Proof.
  pose proof (attempts_objects t r tier) as Ho. rewrite Forall_forall in Ho. apply Ho, selected_in.
Qed.

Lemma stringify_selected_ne t r tier :
  default "" (json_stringify (buildOnchainResultEnvelope sha256Hex t r tier)) <> "".
Proof.
  destruct (selected_object t r tier) as [kvs Hs]. rewrite Hs. apply stringify_object_ne.
Qed.

(** The envelope put on chain is one of the three candidates, an object,
    and it fits in 900 bytes whenever any candidate does. *)
Theorem onchain_envelope_selection : forall t r tier,
  let attempts := envelope_attempts sha256Hex t r tier in
  let selected := buildOnchainResultEnvelope sha256Hex t r tier in
  selected ∈ attempts /\
  (exists kvs, selected = VObj kvs) /\
  (Exists (fun c => fits c 900 = true) attempts -> fits selected 900 = true).
Proof.
  intros t r tier. split_and!; [apply selected_in|apply selected_object|apply first_fitting_fits].
Qed.

(** What a worker response delivers: a failed response is delivered as a
    failure with a non-empty error of at most 240 characters and no result; a
    successful one as a success with no error and exactly one of a JSON
    envelope and compact bytes, and in the second case the bytes that the
    digest and the chain read back from the base64 field are the compact bytes. *)
Theorem fulfillment_result_outcome : forall t r f,
  encodeFulfillmentResult sha256Hex t r = inr f ->
  ff_success f = wr_ok r /\
  (wr_ok r = false -> ff_result f = "" /\ ff_result_bytes_base64 f = "" /\
     ff_error f <> "" /\ str_length (ff_error f) <= 240) /\
  (wr_ok r = true -> ff_error f = "" /\
     match resolveCompactCallbackBytes (normalizeRequestType t) r with
     | inr (Some bs) => ff_result f = "" /\ ff_result_bytes_base64 f <> "" /\
         base64_decode (trim (ff_result_bytes_base64 f)) = bs
     | _ => ff_result f <> "" /\ ff_result_bytes_base64 f = ""
     end).
Proof.
  intros t r f. unfold encodeFulfillmentResult. destruct (wr_ok r); cbn [negb].
  - destruct (resolveCompactCallbackBytes _ r) as [e|[bs|]] eqn:Ec; [done|..];
      intros Hf; apply (inj inr) in Hf; subst f;
      cbn [ff_success ff_result ff_result_bytes_base64 ff_error].
    + destruct (compact_bytes _ _ _ Ec) as [Hne Hb]. split_and!; try done. intros _. split; [done|].
      split_and!; [done|by apply base64_encode_ne|].
      rewrite trim_no_space by (by apply base64_encode_no_space). by apply base64_decode_encode.
    + split_and!; [done|done|]. intros _. split_and!; [done| |done].
      apply stringify_selected_ne.
  - intros [= <-]. cbn [ff_success ff_result ff_result_bytes_base64 ff_error].
    split_and!; [done| |done]. intros _. split_and!; [done|done|apply trimErrorMessage_spec..].
Qed.
End outcome.

Definition sample_response : worker_response :=
  WorkerResponse true 200 (VObj [("randomness", VStr (sample_hex 64))]).

Example onchain_envelope_selection_witness :
  fits (buildOnchainResultEnvelope (fun _ => "00") "oracle" sample_response "") 900 = true.
Proof.
  apply (onchain_envelope_selection (fun _ => "00") "oracle" sample_response "").
  left. vm_compute. reflexivity.
Defined.

Definition sample_delivery : fulfillment := Fulfillment true "" (base64_encode (repeat 170 32)) "".

Example fulfillment_result_outcome_witness :
  ff_success sample_delivery = wr_ok sample_response /\ ff_error sample_delivery = "".
Proof.
  destruct (fulfillment_result_outcome (fun _ => "00") "VRF" sample_response sample_delivery
    ltac:(vm_compute; reflexivity)) as (H1 & _ & H3).
  split; [exact H1|]. exact (proj1 (H3 eq_refl)).
Defined.
