(* ===== verification/Digest.v ===== *)
(** * The fulfillment digest ([router.js])

    [buildFulfillmentDigestBytes]: the bytes a fulfillment signature covers.  The
    hash function is a parameter.  The main theorem: the digest binds every
    field of the fulfillment, the request and the deployment. *)
From S2P Require Import Prelude Numbers Strings Values Encoding.
#[local] Open Scope list_scope.
#[local] Open Scope Z_scope.

Record digest_context := DigestContext {
  dc_chain : string;
  dc_appId : string;
  dc_moduleId : string;
  dc_operation : string;
  dc_contractScriptHash : string;
  dc_networkMagic : jsnum;
}.

Definition FULFILLMENT_SIGNATURE_DOMAIN_N3 : bytes := utf8 "miniapp-os-fulfillment-v1".
Definition FULFILLMENT_SIGNATURE_DOMAIN_LEGACY : bytes := utf8 "morpheus-fulfillment-v2".

(** [trimString(resultBytesBase64) ? Buffer.from(.., 'base64') : Buffer.from(result, 'utf8')] *)
Definition result_bytes (result resultBytesBase64 : string) : bytes :=
  if decide (trim resultBytesBase64 = "") then utf8 result
  else base64_decode (trim resultBytesBase64).

(** The script hash, little endian, and the magic, when both are supplied. *)
Definition deploymentSuffix (ctx : digest_context) : bytes :=
  let hashHex := strip0x (trim (dc_contractScriptHash ctx)) in
  match dc_networkMagic ctx with
  | Fin magic =>
      if hex_of_length 40 hashHex
      then reverse (hex_decode hashHex) ++ neoNetworkMagicLe4 magic
      else []
  | _ => []
  end.

Section digest.
Context (sha256 : bytes -> bytes).

Definition sha256Buffer (text : string) : bytes := sha256 (utf8 text).

(** The bytes that are hashed. *)
Definition digest_preimage (requestId requestType : string) (success : bool)
    (result error resultBytesBase64 : string) (ctx : digest_context) : string + bytes :=
  let successByte := [if success then 1 else 0] in
  let resultBytes := result_bytes result resultBytesBase64 in
  match encodeUint256Bytes requestId with
  | inl e => inl e
  | inr word =>
      inr (if (dc_chain ctx =? "legacy")%string
           then FULFILLMENT_SIGNATURE_DOMAIN_LEGACY ++ word ++ sha256Buffer requestType
                ++ successByte ++ sha256 resultBytes ++ sha256Buffer error
           else FULFILLMENT_SIGNATURE_DOMAIN_N3 ++ word ++ sha256Buffer (dc_appId ctx)
                ++ sha256Buffer (dc_moduleId ctx) ++ sha256Buffer (dc_operation ctx)
                ++ successByte ++ sha256 resultBytes ++ sha256Buffer error ++ deploymentSuffix ctx)
  end.

Definition buildFulfillmentDigestBytes (requestId requestType : string) (success : bool)
    (result error resultBytesBase64 : string) (ctx : digest_context) : string + bytes :=
  match digest_preimage requestId requestType success result error resultBytesBase64 ctx with
  | inl e => inl e
  | inr preimage => inr (sha256 preimage)
  end.

(** The arguments of one digest. *)
Record digest_input := DigestInput {
  di_requestId : string;
  di_requestType : string;
  di_success : bool;
  di_result : string;
  di_error : string;
  di_result_bytes_base64 : string;
  di_context : digest_context;
}.

Definition preimage_of (d : digest_input) : string + bytes :=
  digest_preimage (di_requestId d) (di_requestType d) (di_success d) (di_result d) (di_error d)
    (di_result_bytes_base64 d) (di_context d).

Definition digest_of (d : digest_input) : string + bytes :=
  buildFulfillmentDigestBytes (di_requestId d) (di_requestType d) (di_success d) (di_result d)
    (di_error d) (di_result_bytes_base64 d) (di_context d).

(** Everything the digest of [d] hashes. *)
Definition hashed_inputs (d : digest_input) : list bytes :=
  match preimage_of d with inr p => [p] | inl _ => [] end ++
  [utf8 (di_requestType d); utf8 (dc_appId (di_context d)); utf8 (dc_moduleId (di_context d));
   utf8 (dc_operation (di_context d)); result_bytes (di_result d) (di_result_bytes_base64 d);
   utf8 (di_error d)].

Definition is_legacy (d : digest_input) : bool := (dc_chain (di_context d) =? "legacy")%string.

(** What the kernel verifies: two digest inputs describe the same fulfillment. *)
Definition same_fulfillment (d d' : digest_input) : Prop :=
  js_BigInt (di_requestId d) = js_BigInt (di_requestId d') /\
  is_legacy d = is_legacy d' /\
  di_success d = di_success d' /\
  result_bytes (di_result d) (di_result_bytes_base64 d)
    = result_bytes (di_result d') (di_result_bytes_base64 d') /\
  di_error d = di_error d' /\
  (if is_legacy d then di_requestType d = di_requestType d'
   else dc_appId (di_context d) = dc_appId (di_context d') /\
        dc_moduleId (di_context d) = dc_moduleId (di_context d') /\
        dc_operation (di_context d) = dc_operation (di_context d') /\
        deploymentSuffix (di_context d) = deploymentSuffix (di_context d')).

(** A request id the on-chain counter can produce. *)
Definition request_id_ok (d : digest_input) : Prop :=
  exists n, js_BigInt (di_requestId d) = Some n /\ 0 <= n < 2 ^ 256.

(** ** The binding theorem *)

Lemma app_split {A} (l1 l1' l2 l2' : list A) :
  length l1 = length l1' -> l1 ++ l2 = l1' ++ l2' -> l1 = l1' /\ l2 = l2'.
Proof. intros H. by apply app_inj_1. Qed.

Lemma encode_word d : request_id_ok d -> exists w,
  encodeUint256Bytes (di_requestId d) = inr w /\ length w = 32%nat /\
  js_BigInt (di_requestId d) = Some (value 256 w).
Proof.
  intros (n & Hn & Hr). unfold encodeUint256Bytes. rewrite Hn.
  rewrite (proj2 (Z.ltb_ge n 0)) by lia. destruct (word_spec n Hr) as (H1 & _ & H3).
  eexists. split_and!; [done|done|]. by rewrite H3.
Qed.

Context (sha256_length : forall bs, length (sha256 bs) = 32%nat).

Ltac split_field H Hf :=
  apply app_split in H; [destruct H as [Hf H]|first [done|by rewrite ?sha256_length; congruence]].

(** C7.  A fulfillment signature covers the whole fulfillment: when two
    requests (with ids below 2^256) have the same digest, then, unless the hash
    function collides on the inputs these two digests hash, they agree on the
    request number, the signature domain, the success flag, the result bytes
    and the error, and, in the kernel domain, on appId, moduleId, operation and
    the bound contract and network; in the legacy domain on the request type.
    So no signature can be replayed for another request, result or deployment. *)
Theorem digest_binds_fulfillment : forall d d' h,
  request_id_ok d -> request_id_ok d' ->
  digest_of d = inr h -> digest_of d' = inr h ->
  (forall a b, a ∈ hashed_inputs d -> b ∈ hashed_inputs d' -> sha256 a = sha256 b -> a = b) ->
  same_fulfillment d d'.
Proof using All.
  intros d d' h Hid Hid' Hd Hd' Hcf.
  destruct (encode_word d Hid) as (w & Hw & Hwl & Hwv).
  destruct (encode_word d' Hid') as (w' & Hw' & Hwl' & Hwv').
  unfold digest_of, buildFulfillmentDigestBytes in Hd, Hd'.
  fold (preimage_of d) in Hd. fold (preimage_of d') in Hd'.
  unfold hashed_inputs in Hcf.
  destruct (preimage_of d) as [|p] eqn:Hp; [done|]. destruct (preimage_of d') as [|p'] eqn:Hp'; [done|].
  injection Hd as Hd. injection Hd' as Hd'.
  assert (p = p') as Heq by (apply Hcf; [set_solver|set_solver|congruence]). subst p'. clear Hd Hd'.
  assert (forall a b, a ∈ [utf8 (di_requestType d); utf8 (dc_appId (di_context d));
     utf8 (dc_moduleId (di_context d)); utf8 (dc_operation (di_context d));
     result_bytes (di_result d) (di_result_bytes_base64 d); utf8 (di_error d)] ->
     b ∈ [utf8 (di_requestType d'); utf8 (dc_appId (di_context d'));
     utf8 (dc_moduleId (di_context d')); utf8 (dc_operation (di_context d'));
     result_bytes (di_result d') (di_result_bytes_base64 d'); utf8 (di_error d')] ->
     sha256 a = sha256 b -> a = b) as Hinj.
  { intros a b Ha Hb. apply Hcf; apply elem_of_app; by right. }
  clear Hcf. unfold preimage_of, digest_preimage in Hp, Hp'. rewrite Hw in Hp. rewrite Hw' in Hp'.
  apply (inj inr) in Hp, Hp'. rewrite <-Hp' in Hp. clear Hp' p.
  unfold same_fulfillment, is_legacy in *. unfold sha256Buffer in *.
  destruct (dc_chain (di_context d) =? "legacy")%string, (dc_chain (di_context d') =? "legacy")%string.
  - apply app_inv_head in Hp.
    split_field Hp E1. split_field Hp E2. split_field Hp E3. split_field Hp E4.
    rewrite Hwv, Hwv', E1. split_and!; try done.
    + by destruct (di_success d), (di_success d').
    + apply Hinj; [set_solver..|done].
    + apply utf8_inj, Hinj; [set_solver..|done].
    + apply utf8_inj, Hinj; [set_solver..|done].
  - discriminate Hp.
  - discriminate Hp.
  - apply app_inv_head in Hp.
    split_field Hp E1. split_field Hp E2. split_field Hp E3. split_field Hp E4.
    split_field Hp E5. split_field Hp E6. split_field Hp E7.
    rewrite Hwv, Hwv', E1. split_and!; try done.
    + by destruct (di_success d), (di_success d').
    + apply Hinj; [set_solver..|done].
    + apply utf8_inj, Hinj; [set_solver..|done].
    + apply utf8_inj, Hinj; [set_solver..|done].
    + apply utf8_inj, Hinj; [set_solver..|done].
    + apply utf8_inj, Hinj; [set_solver..|done].
Qed.
End digest.

(** ** A concrete instance *)

(** A 32-byte toy hash. *)
Definition sample_hash (bs : bytes) : bytes :=
  hex_decode (padStart0 64 (to_hex (foldl (fun h b => (h * 257 + b + 1) mod 2 ^ 32) 7 bs))).

Lemma sample_hash_length bs : length (sample_hash bs) = 32%nat.
Proof.
  unfold sample_hash. apply word_spec.
  destruct bs as [|b bs] using rev_ind; [cbn; lia|]. rewrite foldl_app. cbn [foldl].
  assert (forall z, 0 <= z mod 2 ^ 32 < 2 ^ 256) as H; [|apply H].
  intros z. pose proof (Z.mod_pos_bound z (2 ^ 32) eq_refl). lia.
Qed.

Definition sample_context : digest_context :=
  DigestContext "neo_n3" "app" "oracle.fetch" "privacy_oracle"
    "0x1122334455667788990011223344556677889900" (Fin 894710606).

Definition sample_digest (id requestType : string) : digest_input :=
  DigestInput id requestType true "{}" "" "" sample_context.

Lemma collision_free (hash : bytes -> bytes) (l l' : list bytes) :
  forallb (fun a => forallb (fun b => negb (bool_decide (hash a = hash b)) || bool_decide (a = b)) l') l = true ->
  forall a b, a ∈ l -> b ∈ l' -> hash a = hash b -> a = b.
Proof.
  rewrite forallb_forall. intros H a b Ha Hb Hab. rewrite list_elem_of_In in Ha, Hb.
  specialize (H a Ha). rewrite forallb_forall in H. specialize (H b Hb).
  rewrite bool_decide_eq_true_2 in H by done. by apply bool_decide_eq_true in H.
Qed.

Example digest_binds_fulfillment_witness :
  same_fulfillment (sample_digest "12" "oracle") (sample_digest "0x0c" "fetch").
Proof.
  apply (digest_binds_fulfillment sample_hash sample_hash_length _ _
    (match digest_of sample_hash (sample_digest "12" "oracle") with inr h => h | _ => [] end)).
  - exists 12. split; [vm_compute; reflexivity|lia].
  - exists 12. split; [vm_compute; reflexivity|lia].
  - vm_compute. reflexivity.
  - vm_compute. reflexivity.
  - apply collision_free. vm_compute. reflexivity.
Defined.
