(* ===== verification/Cbor.v ===== *)
(** * CBOR and COSE_Sign1 ([cbor.js], [cose-verify.js] of [packages/shared])

    The decoder of Nitro attestation documents, definite and indefinite lengths,
    the encoder of the signed structure, and the conversion of a raw ES384
    signature to DER.  The unread suffix of the buffer stands for the position.
    A text string is kept as its UTF-8 bytes, an integer exactly (the code's
    numbers round above 2^53). *)
From S2P Require Import Prelude Numbers Strings Values Encoding.
#[local] Open Scope list_scope.
#[local] Open Scope Z_scope.

#[local] Unset Elimination Schemes.
Inductive cval :=
| CNum (n : Z)
| CBool (b : bool)
| CNull
| CUndef
| CBuf (bs : bytes)
| CText (bs : bytes)
| CArr (l : list cval)
| CMap (kvs : list (bytes * cval))
| CBreak.
#[local] Set Elimination Schemes.

(** The outcome of a read: out of fuel, an exception, or a value and the rest. *)
Inductive rd (A : Type) :=
| OutOfFuel
| Fail (message : string)
| Got (a : A) (rest : bytes).
Arguments OutOfFuel {A}.
Arguments Fail {A} message.
Arguments Got {A} a rest.

Definition rbind {A B} (r : rd A) (k : A -> bytes -> rd B) : rd B :=
  match r with OutOfFuel => OutOfFuel | Fail m => Fail m | Got a rest => k a rest end.

(** [readUint(n)], big endian. *)
Fixpoint readUint (n : nat) (acc : Z) (buf : bytes) : rd Z :=
  match n with
  | O => Got acc buf
  | S n => match buf with
           | [] => Fail "cbor: truncated uint"
           | b :: buf => readUint n (Z.lor (Z.shiftl acc 8) b) buf
           end
  end.

(** The length of an item: [None] is indefinite. *)
Definition read_length (minor : Z) (buf : bytes) : rd (option Z) :=
  let some r := rbind r (fun n rest => Got (Some n) rest) in
  if minor <? 24 then Got (Some minor) buf
  else if minor =? 24 then some (readUint 1 0 buf)
  else if minor =? 25 then some (readUint 2 0 buf)
  else if minor =? 26 then some (readUint 4 0 buf)
  else if minor =? 27 then some (readUint 8 0 buf)
  else if minor =? 31 then Got None buf
  else Fail ("cbor: unsupported minor " +:+ num_to_string minor).

(** [buf.subarray(pos, pos + len)]: clamped to the buffer. *)
Definition clamp (len : Z) (buf : bytes) : nat := Z.to_nat (Z.min len (Z.of_nat (length buf))).

Fixpoint assoc_put (k : bytes) (v : cval) (kvs : list (bytes * cval)) : list (bytes * cval) :=
  match kvs with
  | [] => [(k, v)]
  | (k', v') :: kvs => if decide (k = k') then (k, v) :: kvs else (k', v') :: assoc_put k v kvs
  end.

Fixpoint assoc_find (k : bytes) (kvs : list (bytes * cval)) : cval :=
  match kvs with
  | [] => CUndef
  | (k', v) :: kvs => if decide (k = k') then v else assoc_find k kvs
  end.

(** [String(v)], in UTF-8; [None] is the [TypeError] of a symbol in an array. *)
Fixpoint js_text (v : cval) : option bytes :=
  match v with
  | CNum n => Some (utf8 (num_to_string n))
  | CBool b => Some (utf8 (if b then "true" else "false"))
  | CNull => Some (utf8 "null")
  | CUndef => Some (utf8 "undefined")
  | CText t => Some t
  | CBuf t => Some t
  | CMap _ => Some (utf8 "[object Object]")
  | CBreak => Some (utf8 "Symbol(cbor-break)")
  | CArr l =>
      (fix go (first : bool) (l : list cval) : option bytes :=
         match l with
         | [] => Some []
         | x :: l =>
             match (match x with
                    | CNull | CUndef => Some []
                    | CBreak => None
                    | _ => js_text x
                    end), go false l with
             | Some t, Some r => Some ((if first then [] else utf8 ",") ++ t ++ r)
             | _, _ => None
             end
         end) true l
  end.

(** The property name a map key becomes. *)
Definition key_name (v : cval) : option bytes :=
  match v with CBuf bs => Some (utf8 (hex_encode bs)) | _ => js_text v end.

Section cbor.
(** [Buffer.from(v)] for a chunk that is neither a buffer nor a string. *)
Context (buffer_from : cval -> string + bytes).

Definition chunk_bytes (v : cval) : string + bytes :=
  match v with CBuf bs | CText bs => inr bs | _ => buffer_from v end.

Definition pred_count (left : option Z) : option Z :=
  match left with Some n => Some (n - 1) | None => None end.

(** [left]: the number of items still to read, [None] up to the break code. *)
Fixpoint cborRead (fuel : nat) (buf : bytes) : rd cval :=
  match fuel with
  | O => OutOfFuel
  | S fuel =>
      match buf with
      | [] => Fail "cbor: truncated"
      | initial :: buf =>
          let major := Z.shiftr initial 5 in
          let minor := Z.land initial 31 in
          rbind (read_length minor buf) (fun len rest =>
            if major =? 0 then
              match len with
              | None => Fail "cbor: indefinite length invalid for uint"
              | Some n => Got (CNum n) rest
              end
            else if major =? 1 then
              match len with
              | None => Fail "cbor: indefinite length invalid for negative int"
              | Some n => Got (CNum (-1 - n)) rest
              end
            else if (major =? 2) || (major =? 3) then
              let wrap := if major =? 2 then CBuf else CText in
              match len with
              | None => rbind (read_chunks fuel [] rest) (fun joined rest => Got (wrap joined) rest)
              | Some n => Got (wrap (take (clamp n rest) rest)) (drop (clamp n rest) rest)
              end
            else if major =? 4 then
              rbind (read_items fuel len [] rest) (fun arr rest => Got (CArr arr) rest)
            else if major =? 5 then
              rbind (read_pairs fuel len [] rest) (fun map rest => Got (CMap map) rest)
            else if major =? 6 then
              match len with
              | None => Fail "cbor: indefinite length invalid for tag"
              | Some _ => cborRead fuel rest
              end
            else
              Got (if minor =? 31 then CBreak
                   else if minor =? 20 then CBool false
                   else if minor =? 21 then CBool true
                   else if minor =? 22 then CNull
                   else if minor =? 23 then CUndef
                   else CNull) rest)
      end
  end
with read_chunks (fuel : nat) (acc : bytes) (buf : bytes) : rd bytes :=
  match fuel with
  | O => OutOfFuel
  | S fuel =>
      rbind (cborRead fuel buf) (fun item rest =>
        match item with
        | CBreak => Got acc rest
        | _ => match chunk_bytes item with
               | inl m => Fail m
               | inr bs => read_chunks fuel (acc ++ bs) rest
               end
        end)
  end
with read_items (fuel : nat) (left : option Z) (acc : list cval) (buf : bytes) : rd (list cval) :=
  match fuel with
  | O => OutOfFuel
  | S fuel =>
      if decide (left = Some 0) then Got acc buf
      else
        rbind (cborRead fuel buf) (fun item rest =>
          match item, left with
          | CBreak, None => Got acc rest
          | _, _ => read_items fuel (pred_count left) (acc ++ [item]) rest
          end)
  end
with read_pairs (fuel : nat) (left : option Z) (acc : list (bytes * cval)) (buf : bytes)
    : rd (list (bytes * cval)) :=
  match fuel with
  | O => OutOfFuel
  | S fuel =>
      if decide (left = Some 0) then Got acc buf
      else
        rbind (cborRead fuel buf) (fun key rest =>
          match key with
          | CBreak => match left with
                      | None => Got acc rest
                      | Some _ => read_pairs fuel (pred_count left) acc rest
                      end
          | _ =>
              rbind (cborRead fuel rest) (fun v rest =>
                match key_name key with
                | None => Fail "Cannot convert a Symbol value to a string"
                | Some k => read_pairs fuel (pred_count left) (assoc_put k v acc) rest
                end)
          end)
  end.

(** The fuel that always suffices. *)
Definition cbor_fuel (buf : bytes) : nat := S (2 * length buf).

Definition cborReadAll (buf : bytes) : rd cval := cborRead (cbor_fuel buf) buf.

Record cose := Cose {
  cose_protected : bytes;
  cose_payload_bytes : bytes;
  cose_payload : cval;
  cose_signature : bytes;
}.

Definition buf_or_empty (v : cval) : bytes := match v with CBuf bs => bs | _ => [] end.

(** [!payload || typeof payload !== 'object' || Array.isArray(payload)] *)
Definition is_map_object (v : cval) : bool :=
  match v with CMap _ | CBuf _ => true | _ => false end.

Definition decodeCoseSign1 (coseBuffer : bytes) : rd cose :=
  match cborReadAll coseBuffer with
  | OutOfFuel => OutOfFuel
  | Fail m => Fail m
  | Got (CArr [protectedHeaderBytes; _; payloadBytes; signature]) _ =>
      match payloadBytes with
      | CBuf pb =>
          rbind (cborReadAll pb) (fun payload _ =>
            if is_map_object payload
            then Got (Cose (buf_or_empty protectedHeaderBytes) pb payload (buf_or_empty signature)) []
            else Fail "cose: payload is not a map")
      | _ => Fail "cose: payload is not a byte string"
      end
  | Got _ _ => Fail "cose: not a 4-element COSE_Sign1"
  end.
End cbor.

(** ** The signed structure *)

(** The head of an item; lengths up to 32 bits. *)
Definition cbor_head (major len : Z) : bytes :=
  if len <? 24 then [Z.lor (Z.shiftl major 5) len]
  else if len <? 256 then [Z.lor (Z.shiftl major 5) 24; len]
  else if len <? 65536 then
    [Z.lor (Z.shiftl major 5) 25; Z.land (Z.shiftr len 8) 255; Z.land len 255]
  else
    [Z.lor (Z.shiftl major 5) 26; len / 2 ^ 24 mod 256; len / 2 ^ 16 mod 256;
     len / 2 ^ 8 mod 256; len mod 256].

Definition blen (bs : bytes) : Z := Z.of_nat (length bs).

(** An item is a text ([inl]) or a byte string ([inr]). *)
Definition encode_item (item : string + bytes) : bytes :=
  match item with
  | inl s => cbor_head 3 (blen (utf8 s)) ++ utf8 s
  | inr b => cbor_head 2 (blen b) ++ b
  end.

Definition cborEncodeSigStructure (items : list (string + bytes)) : bytes :=
  cbor_head 4 (Z.of_nat (length items)) ++ concat (encode_item <$> items).

Definition buildCoseSign1SigStructure (protectedHeaderBytes payloadBytes : bytes) : bytes :=
  cborEncodeSigStructure [inl "Signature1"; inr protectedHeaderBytes; inr []; inr payloadBytes].

(** ** ES384 signatures *)

Fixpoint drop_zeros (bs : bytes) : bytes :=
  match bs with
  | b :: ((_ :: _) as rest) => if b =? 0 then drop_zeros rest else bs
  | _ => bs
  end.

Definition encodeInt (bs : bytes) : bytes :=
  let trimmed := drop_zeros bs in
  let trimmed := match trimmed with
                 | b :: _ => if Z.land b 128 =? 0 then trimmed else 0 :: trimmed
                 | [] => trimmed
                 end in
  2 :: blen trimmed :: trimmed.

Definition coseEs384SignatureToDer (rawSignature : bytes) : option bytes :=
  if negb (length rawSignature =? 96)%nat then None
  else
    let body := encodeInt (take 48 rawSignature) ++ encodeInt (drop 48 rawSignature) in
    Some (48 :: blen body :: body).
