(* ===== verification/CborSpec.v ===== *)
(** * Specification of the CBOR decoder

    Totality with the stated fuel, the round trip of the signed structure, and
    the agreement of definite and indefinite lengths. *)
From S2P Require Import Prelude Numbers Strings Values Encoding Cbor.
#[local] Open Scope list_scope.
#[local] Open Scope Z_scope.

(** ** Fuel *)

(** [r] is not out of fuel and leaves at most [n] bytes. *)
Definition leaves {A} (n : nat) (r : rd A) : Prop :=
  match r with OutOfFuel => False | Fail _ => True | Got _ rest => (length rest <= n)%nat end.

Lemma leaves_bind {A B} n m (r : rd A) (k : A -> bytes -> rd B) :
  leaves n r -> (forall a rest, (length rest <= n)%nat -> leaves m (k a rest)) -> leaves m (rbind r k).
Proof. destruct r; cbn; [done|done|auto]. Qed.

Lemma leaves_weaken {A} n m (r : rd A) : leaves n r -> (n <= m)%nat -> leaves m r.
Proof. destruct r; cbn; lia || auto. Qed.

Lemma readUint_leaves n acc buf : leaves (length buf) (readUint n acc buf).
Proof.
  revert acc buf. induction n as [|n IH]; intros acc [|b buf]; cbn [readUint leaves length]; try done.
  eapply leaves_weaken; [apply IH|cbn; lia].
Qed.

Lemma read_length_leaves minor buf : leaves (length buf) (read_length minor buf).
Proof.
  unfold read_length. repeat case_match; try exact I; try (cbn; lia);
    (eapply leaves_bind; [apply readUint_leaves|cbn; lia]).
Qed.

Section fuel.
Context (buffer_from : cval -> string + bytes).
#[local] Abbreviation cborRead := (cborRead buffer_from).
#[local] Abbreviation read_chunks := (read_chunks buffer_from).
#[local] Abbreviation read_items := (read_items buffer_from).
#[local] Abbreviation read_pairs := (read_pairs buffer_from).

Lemma read_total_aux fuel :
  (forall buf, (2 * length buf + 1 <= fuel)%nat -> leaves (pred (length buf)) (cborRead fuel buf)) /\
  (forall acc buf, (2 * length buf + 2 <= fuel)%nat -> leaves (length buf) (read_chunks fuel acc buf)) /\
  (forall left acc buf, (2 * length buf + 2 <= fuel)%nat -> leaves (length buf) (read_items fuel left acc buf)) /\
  (forall left acc buf, (2 * length buf + 2 <= fuel)%nat -> leaves (length buf) (read_pairs fuel left acc buf)).
Proof.
  induction fuel as [|fuel (IHr & IHc & IHi & IHp)]; [split_and!; intros; lia|].
  assert (forall buf, (2 * length buf + 1 <= fuel)%nat -> leaves (pred (length buf)) (cborRead fuel buf)) as Hread by auto.
  split_and!.
  - intros [|initial buf] Hf; [done|]. cbn [length pred] in *. cbn [Cbor.cborRead].
    eapply leaves_bind; [apply read_length_leaves|]. intros len rest Hrest.
    repeat case_match; try done; cbn [leaves]; try lia;
      try (rewrite length_drop; lia);
      try (eapply leaves_bind; [first [apply IHc|apply IHi|apply IHp]; lia|cbn; lia]).
    eapply leaves_weaken; [apply IHr|]; lia.
  - intros acc buf Hf. cbn [Cbor.read_chunks]. destruct buf as [|b buf]; [destruct fuel; [lia|done]|].
    eapply leaves_bind; [apply Hread; lia|]. cbn [length pred]. intros item rest Hrest.
    repeat case_match; try done; try (cbn; lia); (eapply leaves_weaken; [apply IHc|]; cbn in *; lia).
  - intros left acc buf Hf. cbn [Cbor.read_items]. case_decide; [cbn; lia|].
    destruct buf as [|b buf]; [destruct fuel; [lia|done]|].
    eapply leaves_bind; [apply Hread; lia|]. cbn [length pred]. intros item rest Hrest.
    repeat case_match; try (cbn; lia); (eapply leaves_weaken; [apply IHi|]; cbn in *; lia).
  - intros left acc buf Hf. cbn [Cbor.read_pairs]. case_decide; [cbn; lia|].
    destruct buf as [|b buf]; [destruct fuel; [lia|done]|].
    eapply leaves_bind; [apply Hread; lia|]. cbn [length pred]. intros key rest Hrest.
    assert (leaves (S (length buf)) (rbind (cborRead fuel rest) (fun v rest0 =>
      match key_name key with
      | None => Fail "Cannot convert a Symbol value to a string"
      | Some k => read_pairs fuel (pred_count left) (assoc_put k v acc) rest0
      end))) as Hpair.
    { eapply leaves_bind; [apply Hread; cbn in *; lia|]. intros v rest0 Hrest0.
      case_match; [|done]. eapply leaves_weaken; [apply IHp|]; cbn in *; lia. }
    destruct key; try exact Hpair.
    destruct left; [|cbn; lia]. eapply leaves_weaken; [apply IHp|]; cbn in *; lia.
Qed.

Lemma cborRead_total_aux fuel buf :
  (cbor_fuel buf <= fuel)%nat -> leaves (pred (length buf)) (cborRead fuel buf).
Proof. unfold cbor_fuel. intros. apply read_total_aux. lia. Qed.

(** More fuel does not change a result. *)
Definition refines {A} (r r' : rd A) : Prop := r = OutOfFuel \/ r = r'.

Lemma refines_refl {A} (r : rd A) : refines r r.
Proof. by right. Qed.

Lemma refines_bind {A B} (r r' : rd A) (k k' : A -> bytes -> rd B) :
  refines r r' -> (forall a rest, refines (k a rest) (k' a rest)) -> refines (rbind r k) (rbind r' k').
Proof. intros [-> | ->] Hk; [by left|]. destruct r'; cbn; auto; by right. Qed.

Lemma fuel_mono fuel : forall fuel', (fuel <= fuel')%nat ->
  (forall buf, refines (cborRead fuel buf) (cborRead fuel' buf)) /\
  (forall acc buf, refines (read_chunks fuel acc buf) (read_chunks fuel' acc buf)) /\
  (forall left acc buf, refines (read_items fuel left acc buf) (read_items fuel' left acc buf)) /\
  (forall left acc buf, refines (read_pairs fuel left acc buf) (read_pairs fuel' left acc buf)).
Proof.
  induction fuel as [|fuel IH]; intros fuel' Hle; [split_and!; intros; by left|].
  destruct fuel' as [|fuel']; [lia|]. destruct (IH fuel' ltac:(lia)) as (IHr & IHc & IHi & IHp).
  split_and!.
  - intros [|initial buf]; [by right|]. cbn [Cbor.cborRead]. apply refines_bind; [by right|].
    intros len rest. repeat case_match; try (by right); auto;
      (apply refines_bind; [auto|intros; by right]).
  - intros acc buf. cbn [Cbor.read_chunks]. apply refines_bind; [auto|]. intros item rest.
    repeat case_match; try (by right); auto.
  - intros left acc buf. cbn [Cbor.read_items]. case_decide; [by right|].
    apply refines_bind; [auto|]. intros item rest. repeat case_match; try (by right); auto.
  - intros left acc buf. cbn [Cbor.read_pairs]. case_decide; [by right|].
    apply refines_bind; [auto|]. intros key rest.
    assert (refines (rbind (cborRead fuel rest) (fun v rest0 =>
      match key_name key with
      | None => Fail "Cannot convert a Symbol value to a string"
      | Some k => read_pairs fuel (pred_count left) (assoc_put k v acc) rest0
      end)) (rbind (cborRead fuel' rest) (fun v rest0 =>
      match key_name key with
      | None => Fail "Cannot convert a Symbol value to a string"
      | Some k => read_pairs fuel' (pred_count left) (assoc_put k v acc) rest0
      end))) as Hpair.
    { apply refines_bind; [auto|]. intros v rest0. case_match; [auto|by right]. }
    destruct key; try exact Hpair. destruct left; [auto|by right].
Qed.

(** The decoder is total: on every buffer, with the fuel [cbor_fuel] (twice
    the length and one), it ends with a value or an exception; a value consumes
    at least one byte, and any larger fuel gives the same result. *)
Theorem cbor_decoder_total : forall buf fuel,
  (cbor_fuel buf <= fuel)%nat ->
  cborReadAll buffer_from buf <> OutOfFuel /\
  cborRead fuel buf = cborReadAll buffer_from buf /\
  (forall v rest, cborReadAll buffer_from buf = Got v rest -> (length rest < length buf)%nat).
Proof.
  intros buf fuel Hf. unfold cborReadAll.
  pose proof (cborRead_total_aux (cbor_fuel buf) buf ltac:(lia)) as Ht.
  destruct (fuel_mono (cbor_fuel buf) fuel Hf) as (Hm & _). specialize (Hm buf). split_and!.
  - intros Hn. by rewrite Hn in Ht.
  - destruct Hm as [Hm|Hm]; [by rewrite Hm in Ht|done].
  - intros v rest Hv. rewrite Hv in Ht. cbn in Ht. destruct buf; [done|]. cbn in *. lia.
Qed.
End fuel.

(** ** Bits *)

Lemma lor_byte a b : 0 <= a -> 0 <= b < 256 -> Z.lor (Z.shiftl a 8) b = a * 256 + b.
Proof.
  intros Ha Hb. rewrite <-Z.shiftl_mul_pow2 with (n := 8) by lia.
  assert (Z.land (Z.shiftl a 8) b = 0) as Hl.
  { apply Z.bits_inj'. intros n Hn. rewrite Z.land_spec, Z.bits_0.
    destruct (decide (n < 8)).
    - by rewrite Z.shiftl_spec_low by lia.
    - rewrite (Z.bits_above_log2 b n); [by rewrite andb_false_r|lia|].
      destruct (decide (b = 0)) as [->|]; [cbn; lia|]. apply Z.log2_lt_pow2; [lia|].
      change 256 with (2 ^ 8) in Hb. assert (2 ^ 8 <= 2 ^ n) by (apply Z.pow_le_mono_r; lia). lia. }
  pose proof (Z.add_lor_land (Z.shiftl a 8) b). lia.
Qed.

Lemma land_255 n : Z.land n 255 = n mod 256.
Proof. change 255 with (Z.ones 8). by rewrite Z.land_ones by lia. Qed.

Lemma initial_byte major minor : 0 <= major < 8 -> 0 <= minor < 32 ->
  let b := Z.lor (Z.shiftl major 5) minor in Z.shiftr b 5 = major /\ Z.land b 31 = minor.
Proof.
  intros Hma Hmi.
  assert (forallb (fun ma => forallb (fun mi =>
      let b := Z.lor (Z.shiftl (Z.of_nat ma) 5) (Z.of_nat mi) in
      (Z.shiftr b 5 =? Z.of_nat ma) && (Z.land b 31 =? Z.of_nat mi)) (seq 0 32)) (seq 0 8) = true) as H
    by (vm_compute; reflexivity).
  rewrite forallb_forall in H. specialize (H (Z.to_nat major) ltac:(apply in_seq; lia)).
  rewrite forallb_forall in H. specialize (H (Z.to_nat minor) ltac:(apply in_seq; lia)).
  cbv zeta in *. rewrite !Z2Nat.id in H by lia. lia.
Qed.

Lemma readUint_app n acc bs tail :
  length bs = n -> 0 <= acc -> Forall is_byte bs ->
  readUint n acc (bs ++ tail) = Got (acc * 256 ^ Z.of_nat n + value 256 bs) tail.
Proof.
  revert acc bs. induction n as [|n IH]; intros acc [|b bs] Hlen Hacc Hb; try done.
  - cbn. unfold value. cbn. f_equal. lia.
  - injection Hlen as Hlen. apply Forall_cons in Hb as [Hb Hbs]. cbn [readUint app].
    unfold is_byte in Hb. rewrite lor_byte by lia. rewrite IH by (try done; lia).
    rewrite value_cons, Hlen, Nat2Z.inj_succ, Z.pow_succ_r by lia. f_equal. lia.
Qed.

Lemma head_reads major len tail : 0 <= major < 8 -> 0 <= len < 2 ^ 32 -> exists b rest,
  cbor_head major len = b :: rest /\ Z.shiftr b 5 = major /\
  read_length (Z.land b 31) (rest ++ tail) = Got (Some len) tail.
Proof.
  intros Hma Hlen. unfold cbor_head.
  assert (forall minor rest, 0 <= minor < 32 -> read_length minor (rest ++ tail) = Got (Some len) tail ->
    exists b rest', Z.lor (Z.shiftl major 5) minor :: rest = b :: rest' /\ Z.shiftr b 5 = major /\
      read_length (Z.land b 31) (rest' ++ tail) = Got (Some len) tail) as Hgen.
  { intros minor rest Hmi Hr. destruct (initial_byte major minor Hma Hmi) as [H1 H2].
    eexists _, _. split_and!; [done|done|]. cbv zeta in H2. by rewrite H2. }
  destruct (len <? 24) eqn:E1.
  { apply Hgen; [lia|]. unfold read_length. by rewrite E1. }
  destruct (len <? 256) eqn:E2.
  { apply Hgen; [lia|]. change (read_length 24 ([len] ++ tail))
      with (rbind (readUint 1 0 ([len] ++ tail)) (fun n rest => Got (Some n) rest)).
    rewrite readUint_app; [|done|lia|apply Forall_singleton; unfold is_byte; lia].
    reflexivity. }
  destruct (len <? 65536) eqn:E3.
  { apply Hgen; [lia|]. rewrite !land_255, Z.shiftr_div_pow2 by lia. change (2 ^ 8) with 256.
    match goal with |- read_length 25 (?l ++ _) = _ => change (read_length 25 (l ++ tail))
      with (rbind (readUint 2 0 (l ++ tail)) (fun n rest => Got (Some n) rest)) end.
    rewrite readUint_app; [|done|lia|].
    2: { repeat (apply Forall_cons_2; [apply Z.mod_pos_bound; lia|]). apply Forall_nil_2. }
    cbn [rbind]. do 2 f_equal. unfold value. cbn [foldl].
    rewrite (Z.mod_small (len / 256)) by (split; [apply Z.div_pos|apply Z.div_lt_upper_bound]; lia).
    pose proof (Z.div_mod len 256). lia. }
  apply Hgen; [lia|].
  match goal with |- read_length 26 (?l ++ _) = _ => change (read_length 26 (l ++ tail))
    with (rbind (readUint 4 0 (l ++ tail)) (fun n rest => Got (Some n) rest)) end.
  rewrite readUint_app; [|done|lia|].
  2: { repeat (apply Forall_cons_2; [apply Z.mod_pos_bound; lia|]). apply Forall_nil_2. }
  cbn [rbind]. do 2 f_equal. unfold value. cbn [foldl].
  change (2 ^ 24) with (256 * (256 * 256)). change (2 ^ 16) with (256 * 256). change (2 ^ 8) with 256.
  rewrite <-!Z.div_div by lia.
  assert (0 <= len / 256 / 256 / 256 < 256) as Hq.
  { rewrite !Z.div_div by lia. split; [apply Z.div_pos|apply Z.div_lt_upper_bound]; lia. }
  rewrite (Z.mod_small (len / 256 / 256 / 256)) by lia.
  pose proof (Z.div_mod len 256 ltac:(lia)).
  pose proof (Z.div_mod (len / 256) 256 ltac:(lia)).
  pose proof (Z.div_mod (len / 256 / 256) 256 ltac:(lia)). lia.
Qed.

(** ** Round trips *)

Section reads.
Context (buffer_from : cval -> string + bytes).
#[local] Abbreviation cborRead := (cborRead buffer_from).
#[local] Abbreviation read_chunks := (read_chunks buffer_from).
#[local] Abbreviation read_items := (read_items buffer_from).
#[local] Abbreviation read_pairs := (read_pairs buffer_from).

(** [enc] is an encoding of [v]: in front of any suffix it reads as [v]. *)
Definition reads (v : cval) (enc : bytes) : Prop :=
  forall tail, exists f0, forall f, (f0 <= f)%nat -> cborRead f (enc ++ tail) = Got v tail.

Lemma reads_all v enc tail : reads v enc -> cborReadAll buffer_from (enc ++ tail) = Got v tail.
Proof.
  intros Hr. destruct (Hr tail) as [f0 Hf]. unfold cborReadAll.
  set (f := Nat.max f0 (cbor_fuel (enc ++ tail))).
  pose proof (cborRead_total_aux buffer_from (cbor_fuel (enc ++ tail)) (enc ++ tail) ltac:(lia)) as Ht.
  destruct (fuel_mono buffer_from (cbor_fuel (enc ++ tail)) f ltac:(lia)) as (Hm & _).
  rewrite <-(Hf f) by lia. destruct (Hm (enc ++ tail)) as [Hn| ->]; [by rewrite Hn in Ht|done].
Qed.

Lemma clamp_app b tail : clamp (blen b) (b ++ tail) = length b.
Proof. unfold clamp, blen. rewrite length_app. lia. Qed.

Lemma read_string major b tail f :
  (1 <= f)%nat -> (major = 2 \/ major = 3) -> blen b < 2 ^ 32 ->
  cborRead f ((cbor_head major (blen b) ++ b) ++ tail)
  = Got ((if major =? 2 then CBuf else CText) b) tail.
Proof.
  destruct f as [|f]; [lia|]. intros _ Hm Hl. assert (0 <= blen b) by (unfold blen; lia).
  destruct (head_reads major (blen b) (b ++ tail) ltac:(lia) ltac:(lia)) as (i & rest & Hh & Hi & Hr).
  rewrite Hh, <-app_assoc. cbn [app Cbor.cborRead]. rewrite Hr, Hi. cbn [rbind].
  rewrite clamp_app, take_app_length, drop_app_length. by destruct Hm as [-> | ->].
Qed.

Lemma reads_string major b :
  (major = 2 \/ major = 3) -> blen b < 2 ^ 32 ->
  reads ((if major =? 2 then CBuf else CText) b) (cbor_head major (blen b) ++ b).
Proof. intros Hm Hl tail. exists 1%nat. intros f Hf. by apply read_string. Qed.

Lemma read_items_definite vs encs : Forall2 reads vs encs -> forall acc tail, exists f0,
  forall f, (f0 <= f)%nat ->
  read_items f (Some (Z.of_nat (length vs))) acc (concat encs ++ tail) = Got (acc ++ vs) tail.
Proof.
  induction 1 as [|v enc vs encs Hv Hvs IH]; intros acc tail.
  - exists 1%nat. intros [|f] Hf; [lia|]. cbn. by rewrite app_nil_r.
  - destruct (Hv (concat encs ++ tail)) as [f1 H1]. destruct (IH (acc ++ [v]) tail) as [f2 H2].
    exists (S (Nat.max f1 f2)). intros [|f] Hf; [lia|]. cbn [Cbor.read_items concat length].
    rewrite decide_False by (intros [= ?]; lia). rewrite <-app_assoc, H1 by lia. cbn [rbind pred_count].
    replace (Z.of_nat (S (length vs)) - 1) with (Z.of_nat (length vs)) by lia.
    rewrite H2 by lia. rewrite <-app_assoc. by destruct v.
Qed.

Lemma read_items_indefinite vs encs :
  Forall2 reads vs encs -> Forall (fun v => v <> CBreak) vs -> forall acc tail, exists f0,
  forall f, (f0 <= f)%nat ->
  read_items f None acc (concat encs ++ 255 :: tail) = Got (acc ++ vs) tail.
Proof.
  induction 1 as [|v enc vs encs Hv Hvs IH]; intros Hb acc tail.
  - exists 2%nat. intros [|[|f]] Hf; [lia|lia|]. cbn. by rewrite app_nil_r.
  - apply Forall_cons in Hb as [Hb Hbs].
    destruct (Hv (concat encs ++ 255 :: tail)) as [f1 H1]. destruct (IH Hbs (acc ++ [v]) tail) as [f2 H2].
    exists (S (Nat.max f1 f2)). intros [|f] Hf; [lia|]. cbn [Cbor.read_items concat].
    rewrite decide_False by done. rewrite <-app_assoc, H1 by lia. cbn [rbind pred_count].
    rewrite H2 by lia. rewrite <-app_assoc. by destruct v.
Qed.

Lemma read_chunks_indefinite chunks :
  Forall (fun ch => blen ch < 2 ^ 32) chunks -> forall major acc tail, (major = 2 \/ major = 3) ->
  exists f0, forall f, (f0 <= f)%nat ->
  read_chunks f acc (concat ((fun ch => cbor_head major (blen ch) ++ ch) <$> chunks) ++ 255 :: tail)
  = Got (acc ++ concat chunks) tail.
Proof.
  induction 1 as [|ch chunks Hc Hcs IH]; intros major acc tail Hm.
  - exists 2%nat. intros [|[|f]] Hf; [lia|lia|]. cbn. by rewrite app_nil_r.
  - destruct (IH major (acc ++ ch) tail Hm) as [f2 H2].
    exists (S (S f2)). intros [|f] Hf; [lia|]. cbn [fmap list_fmap concat].
    rewrite <-app_assoc. cbn [Cbor.read_chunks]. rewrite read_string by (done || lia). cbn [rbind].
    destruct Hm as [-> | ->]; cbn [Z.eqb Pos.eqb chunk_bytes]; rewrite H2 by lia;
      by rewrite <-app_assoc.
Qed.

(** The signed structure round-trips: the decoder reads the encoding of a
    list of texts and byte strings (each shorter than 2^32) back as exactly
    these items, whatever follows it. *)
Theorem sig_structure_roundtrip : forall items tail,
  Z.of_nat (length items) < 2 ^ 32 ->
  Forall (fun it => blen (match it with inl s => utf8 s | inr b => b end) < 2 ^ 32) items ->
  cborReadAll buffer_from (cborEncodeSigStructure items ++ tail)
  = Got (CArr ((fun it => match it with inl s => CText (utf8 s) | inr b => CBuf b end) <$> items)) tail.
Proof.
  intros items tail Hn Hitems. apply reads_all. intros tail'.
  set (vs := _ <$> items). unfold cborEncodeSigStructure.
  assert (Forall2 reads vs (encode_item <$> items)) as Hvs.
  { unfold vs. induction Hitems as [|it items Hit Hitems IH]; [constructor|].
    cbn [fmap list_fmap]. constructor; [|apply IH; cbn [length] in *; lia].
    destruct it as [s|b]; [exact (reads_string 3 (utf8 s) ltac:(auto) Hit)|exact (reads_string 2 b ltac:(auto) Hit)]. }
  destruct (read_items_definite _ _ Hvs [] tail') as [f0 Hf].
  destruct (head_reads 4 (Z.of_nat (length items)) (concat (encode_item <$> items) ++ tail')
    ltac:(lia) ltac:(lia)) as (i & rest & Hh & Hi & Hr).
  exists (S f0). intros [|f] Hle; [lia|]. rewrite Hh, <-app_assoc. cbn [app Cbor.cborRead].
  rewrite Hr, Hi. cbn [rbind Z.eqb Pos.eqb orb].
  replace (Z.of_nat (length items)) with (Z.of_nat (length vs)) by (unfold vs; by rewrite length_fmap).
  by rewrite Hf by lia.
Qed.

(** Producer and verifier agree on indefinite lengths: a byte string split
    into any chunks, and an array of any encoded items, read the same in the
    indefinite form (closed by the break code) and in the definite form. *)
Theorem indefinite_agrees : forall chunks vs encs tail,
  Forall (fun ch => blen ch < 2 ^ 32) chunks -> blen (concat chunks) < 2 ^ 32 ->
  Forall2 reads vs encs -> Forall (fun v => v <> CBreak) vs -> Z.of_nat (length vs) < 2 ^ 32 ->
  cborReadAll buffer_from
    (95 :: concat ((fun ch => cbor_head 2 (blen ch) ++ ch) <$> chunks) ++ 255 :: tail)
    = Got (CBuf (concat chunks)) tail /\
  cborReadAll buffer_from ((cbor_head 2 (blen (concat chunks)) ++ concat chunks) ++ tail)
    = Got (CBuf (concat chunks)) tail /\
  cborReadAll buffer_from (159 :: concat encs ++ 255 :: tail) = Got (CArr vs) tail /\
  cborReadAll buffer_from ((cbor_head 4 (Z.of_nat (length vs)) ++ concat encs) ++ tail)
    = Got (CArr vs) tail.
Proof.
  intros chunks vs encs tail Hch Hcat Hvs Hnb Hlen. split_and!.
  - change (95 :: ?l ++ 255 :: tail) with (95 :: l ++ [255] ++ tail). rewrite app_assoc.
    change (95 :: ?l ++ tail) with ((95 :: l) ++ tail). apply reads_all. intros tail'.
    destruct (read_chunks_indefinite chunks Hch 2 [] tail' ltac:(auto)) as [f0 Hf].
    exists (S f0). intros [|f] Hle; [lia|]. cbn [app Cbor.cborRead].
    rewrite <-app_assoc. change ([255] ++ tail') with (255 :: tail').
    change (Z.shiftr 95 5) with 2. change (Z.land 95 31) with 31.
    unfold read_length. cbn [Z.ltb Z.eqb Pos.eqb Z.compare Pos.compare Pos.compare_cont rbind orb].
    by rewrite Hf by lia.
  - apply reads_all, (reads_string 2); auto.
  - change (159 :: ?l ++ 255 :: tail) with (159 :: l ++ [255] ++ tail). rewrite app_assoc.
    change (159 :: ?l ++ tail) with ((159 :: l) ++ tail). apply reads_all. intros tail'.
    destruct (read_items_indefinite vs encs Hvs Hnb [] tail') as [f0 Hf].
    exists (S f0). intros [|f] Hle; [lia|]. cbn [app Cbor.cborRead].
    rewrite <-app_assoc. change ([255] ++ tail') with (255 :: tail').
    change (Z.shiftr 159 5) with 4. change (Z.land 159 31) with 31.
    unfold read_length. cbn [Z.ltb Z.eqb Pos.eqb Z.compare Pos.compare Pos.compare_cont rbind orb].
    by rewrite Hf by lia.
  - apply reads_all. intros tail'. destruct (read_items_definite _ _ Hvs [] tail') as [f0 Hf].
    destruct (head_reads 4 (Z.of_nat (length vs)) (concat encs ++ tail')
      ltac:(lia) ltac:(lia)) as (i & rest & Hh & Hi & Hr).
    exists (S f0). intros [|f] Hle; [lia|]. rewrite Hh, <-app_assoc. cbn [app Cbor.cborRead].
    rewrite Hr, Hi. cbn [rbind Z.eqb Pos.eqb orb]. by rewrite Hf by lia.
Qed.
End reads.

(** ** DER signatures *)

Lemma byte_range b (P : Z -> bool) :
  forallb P (map Z.of_nat (seq 0 256)) = true -> is_byte b -> P b = true.
Proof.
  unfold is_byte. intros H Hb. rewrite forallb_forall in H. apply H. apply in_map_iff.
  exists (Z.to_nat b). split; [lia|]. apply in_seq. lia.
Qed.

Lemma high_bit b : is_byte b -> (Z.land b 128 =? 0) = (b <? 128).
Proof.
  intros Hb. apply Bool.eqb_prop.
  apply (byte_range b (fun b => Bool.eqb (Z.land b 128 =? 0) (b <? 128))); [|done].
  vm_compute. reflexivity.
Qed.

Lemma drop_zeros_spec bs : bs <> [] -> Forall is_byte bs ->
  exists b rest, drop_zeros bs = b :: rest /\ Forall is_byte (b :: rest) /\
    value 256 (b :: rest) = value 256 bs /\ (length rest < length bs)%nat /\
    (b = 0 -> rest = []).
Proof.
  induction bs as [|b [|b' bs] IH]; intros Hne Hb; [done| |].
  - exists b, []. split_and!; try done; cbn; lia.
  - cbn [drop_zeros]. destruct (b =? 0) eqn:E.
    + apply Forall_cons in Hb as [_ Hb]. destruct (IH ltac:(done) Hb) as (c & rest & H1 & H2 & H3 & H4 & H5).
      exists c, rest. split_and!; try done; [|cbn in *; lia].
      rewrite H3, (value_cons 256 b). assert (b = 0) as -> by lia. lia.
    + exists b, (b' :: bs). split_and!; try done; [cbn; lia|lia].
Qed.

(** A DER integer: minimal, non-negative, of short-form length, with value [n]. *)
Definition der_integer (enc : bytes) (n : Z) : Prop :=
  exists b rest, enc = 2 :: blen (b :: rest) :: b :: rest /\ Forall is_byte (b :: rest) /\
    b < 128 /\ value 256 (b :: rest) = n /\ blen (b :: rest) <= 49 /\
    (b = 0 -> match rest with [] => True | c :: _ => 128 <= c end).

Lemma encodeInt_spec bs : bs <> [] -> Forall is_byte bs -> (length bs <= 48)%nat ->
  der_integer (encodeInt bs) (value 256 bs).
Proof.
  intros Hne Hb Hl. unfold encodeInt.
  destruct (drop_zeros_spec bs Hne Hb) as (b & rest & -> & Hbs & Hv & Hlen & Hz).
  apply Forall_cons in Hbs as [Hb1 Hrest]. rewrite high_bit by done.
  destruct (b <? 128) eqn:E.
  - exists b, rest. unfold blen. cbn [length]. split_and!; try done; [by constructor|lia|lia|].
    intros Hb0. by rewrite (Hz Hb0).
  - exists 0, (b :: rest). unfold blen. cbn [length]. split_and!; try done; [|lia|lia].
    constructor; [unfold is_byte; lia|by constructor].
Qed.

(** The signature conversion is faithful and canonical: a raw 96-byte
    signature [r || s] becomes a DER sequence with a short-form length of two
    minimal, non-negative integers whose values are those of [r] and [s];
    anything that is not 96 bytes is refused. *)
Theorem der_signature_canonical : forall raw,
  Forall is_byte raw ->
  match coseEs384SignatureToDer raw with
  | None => length raw <> 96%nat
  | Some der =>
      length raw = 96%nat /\
      exists r s, der = 48 :: blen (r ++ s) :: r ++ s /\ blen (r ++ s) < 128 /\
        der_integer r (value 256 (take 48 raw)) /\ der_integer s (value 256 (drop 48 raw))
  end.
Proof.
  intros raw Hb. unfold coseEs384SignatureToDer.
  destruct (length raw =? 96)%nat eqn:E; cbn [negb]; [|by apply Nat.eqb_neq in E].
  apply Nat.eqb_eq in E. split; [done|].
  assert (length (take 48 raw) = 48%nat) as Hl1 by (rewrite length_take; lia).
  assert (length (drop 48 raw) = 48%nat) as Hl2 by (rewrite length_drop; lia).
  pose proof (encodeInt_spec (take 48 raw)) as H1. pose proof (encodeInt_spec (drop 48 raw)) as H2.
  assert (take 48 raw <> []) as Hn1 by (intros Hn; by rewrite Hn in Hl1).
  assert (drop 48 raw <> []) as Hn2 by (intros Hn; by rewrite Hn in Hl2).
  specialize (H1 Hn1 (Forall_take _ _ _ Hb) ltac:(lia)). specialize (H2 Hn2 (Forall_drop _ _ _ Hb) ltac:(lia)).
  eexists _, _. split_and!; [reflexivity| |done|done].
  destruct H1 as (b1 & r1 & -> & _ & _ & _ & L1 & _), H2 as (b2 & r2 & -> & _ & _ & _ & L2 & _).
  unfold blen in *. rewrite length_app. cbn [length] in *. lia.
Qed.

(** ** Concrete instances *)

Definition no_buffer (v : cval) : string + bytes := inl "TypeError".

Example cbor_decoder_total_witness :
  cborReadAll no_buffer [130; 1; 159; 65; 7; 255] <> OutOfFuel /\
  cborRead no_buffer 100 [130; 1; 159; 65; 7; 255] = Got (CArr [CNum 1; CArr [CBuf [7]]]) [].
Proof.
  destruct (cbor_decoder_total no_buffer [130; 1; 159; 65; 7; 255] 100 ltac:(vm_compute; lia))
    as (H1 & H2 & _).
  split; [exact H1|]. rewrite H2. vm_compute. reflexivity.
Defined.

Example sig_structure_roundtrip_witness :
  cborReadAll no_buffer (buildCoseSign1SigStructure [161; 1] [7; 8; 9] ++ [5])
  = Got (CArr [CText (utf8 "Signature1"); CBuf [161; 1]; CBuf []; CBuf [7; 8; 9]]) [5].
Proof.
  exact (sig_structure_roundtrip no_buffer [inl "Signature1"; inr [161; 1]; inr []; inr [7; 8; 9]] [5]
    ltac:(cbn; lia) ltac:(repeat constructor; vm_compute; reflexivity)).
Defined.

Example indefinite_agrees_witness :
  cborReadAll no_buffer (95 :: concat ((fun ch => cbor_head 2 (blen ch) ++ ch) <$> [[1; 2]; [3]]) ++ [255])
  = Got (CBuf [1; 2; 3]) [].
Proof.
  refine (proj1 (indefinite_agrees no_buffer [[1; 2]; [3]] [] [] [] _ _ _ _ _)).
  - repeat constructor; vm_compute; reflexivity.
  - vm_compute. reflexivity.
  - constructor.
  - constructor.
  - vm_compute. reflexivity.
Defined.

Example der_signature_canonical_witness :
  length (repeat 200 48 ++ repeat 0 48) = 96%nat /\
  coseEs384SignatureToDer (repeat 200 48 ++ repeat 0 48)
    = Some ([48; 54; 2; 49; 0] ++ repeat 200 48 ++ [2; 1; 0]).
Proof.
  pose proof (der_signature_canonical (repeat 200 48 ++ repeat 0 48)) as H.
  split; [|vm_compute; reflexivity].
  assert (Forall is_byte (repeat 200 48 ++ repeat 0 48)) as Hb.
  { apply Forall_app. split; apply Forall_forall; intros x Hx;
      apply list_elem_of_In, repeat_spec in Hx; subst x; unfold is_byte; lia. }
  specialize (H Hb). destruct (coseEs384SignatureToDer _) eqn:E; [exact (proj1 H)|].
  vm_compute in E. discriminate E.
Defined.

(** A definite-length string longer than the buffer is not refused: the decoder
    returns the bytes that are there. *)
Lemma truncated_string_accepted : cborReadAll no_buffer [88; 32; 1; 2; 3] = Got (CBuf [1; 2; 3]) [].
Proof. vm_compute. reflexivity. Qed.
