(* ===== verification/Attestation.v ===== *)
(** * Attestation of enclave results ([attestation.js])

    What the relayer checks before it labels a result enclave-attested: the
    attestation document must commit to the digest the relayer recomputed, be
    fresh and come from the pinned image; a nonce in it must be the one sent, and
    a certificate chain and signature in it must verify once a root is pinned.
    Hashing and certificate operations are parameters.  Error messages are kept up
    to the explanation that follows their dash. *)
From S2P Require Import Prelude Numbers Strings Values Encoding Cbor.
#[local] Open Scope list_scope.
#[local] Open Scope Z_scope.

(** [normalizePublicKey] of a string, and of a JSON value. *)
Definition normalizePublicKey (s : string) : string := toLowerCase (strip0x s).
Definition normalizePublicKeyOf (v : val) : string := normalizePublicKey (coerceTrim v).

(** The settings, each from the configuration or the environment. *)
Record attestation_env := AttestationEnv {
  at_expectedPcr0 : string;
  at_env_expected_pcr0 : string;
  at_nitroRootCertPem : string;
  at_env_nitro_root_cert_pem : string;
  at_maxAgeMs : jsnum;
  at_env_max_age_ms : jsnum;
}.

Definition resolveExpectedPcr0 (ae : attestation_env) : string :=
  normalizePublicKey (trim (at_expectedPcr0 ae) ||s trim (at_env_expected_pcr0 ae)).

Definition resolveNitroRootCertPem (ae : attestation_env) : string :=
  trim (at_nitroRootCertPem ae) ||s trim (at_env_nitro_root_cert_pem ae).

Definition resolveAttestationMaxAgeMs (ae : attestation_env) : Z :=
  match at_maxAgeMs ae with
  | Fin n => if 0 <? n then n
             else match at_env_max_age_ms ae with Fin m => if 0 <? m then m else 0 | _ => 0 end
  | _ => match at_env_max_age_ms ae with Fin m => if 0 <? m then m else 0 | _ => 0 end
  end.

(** ** Reading the document *)

(** [payload[k]] *)
Definition cget (v : cval) (k : string) : cval :=
  match v with CMap kvs => assoc_find (utf8 k) kvs | _ => CUndef end.

(** [pcrs['0']]: a buffer and an array are indexed. *)
Definition cindex0 (v : cval) : cval :=
  match v with
  | CMap kvs => assoc_find (utf8 "0") kvs
  | CArr (x :: _) => x
  | CBuf (b :: _) => CNum b
  | _ => CUndef
  end.

Definition ctruthy (v : cval) : bool :=
  match v with
  | CNum n => negb (n =? 0)
  | CBool b => b
  | CNull | CUndef => false
  | CText t => match t with [] => false | _ => true end
  | CBuf _ | CArr _ | CMap _ | CBreak => true
  end.

Definition cor (a b : cval) : cval := if ctruthy a then a else b.

Definition symbol_error : string := "Cannot convert a Symbol value to a string".

(** [normalizePublicKey(v || '')] *)
Definition normalize_cval (v : cval) : string + string :=
  match js_text (cor v (CText [])) with
  | Some t => inr (normalizePublicKey (trim (utf8_decode t)))
  | None => inl symbol_error
  end.

(** [Buffer.isBuffer(v) ? v.toString('hex') : normalizePublicKey(v || '')] *)
Definition hex_of_field (v : cval) : string + string :=
  match v with CBuf bs => inr (hex_encode bs) | _ => normalize_cval v end.

(** [Number(v)] *)
Definition cnumber (v : cval) : string + jsnum :=
  match v with
  | CNum n => inr (Fin n)
  | CBool b => inr (Fin (if b then 1 else 0))
  | CNull => inr (Fin 0)
  | CUndef => inr NaN
  | CBreak => inl "Cannot convert a Symbol value to a number"
  | _ => match js_text v with
         | Some t => inr (js_Number (utf8_decode t))
         | None => inl symbol_error
         end
  end.

Definition buffers (l : list cval) : list bytes :=
  omap (fun v => match v with CBuf bs => Some bs | _ => None end) l.

(** [extractAttestationCertChain]: leaf and intermediates. *)
Definition extractAttestationCertChain (payload : cval) : option (bytes * list bytes) :=
  match cget payload "certificate" with
  | CBuf leaf =>
      Some (leaf, buffers (match cget payload "cabundle" with CArr l => l | _ => [] end))
  | _ => None
  end.

Lemma nonce_gate (e d : string) :
  negb (e =? "")%string && negb (d =? "")%string && negb (d =? e)%string = false <->
  d = "" \/ e = "" \/ d = e.
Proof.
  destruct (String.eqb_spec e ""), (String.eqb_spec d ""), (String.eqb_spec d e); cbn; naive_solver.
Qed.

Section attestation.
Context (sha256 : bytes -> bytes).
Context (buffer_from : cval -> string + bytes).
(** Certificates: reading one, [c.verify(issuer.publicKey)], and the ES384
    verification of a DER signature (an exception is a failure). *)
Context {cert : Type} (cert_of_der : bytes -> option cert) (cert_of_pem : string -> option cert).
Context (issued_by : cert -> cert -> bool) (es384_verify : cert -> bytes -> bytes -> bool).

Definition chain_error : string :=
  "invalid signature: enclave attestation certificate chain does not verify to the pinned AWS Nitro root".

(** Each certificate is issued by the next, the last by the root. *)
Fixpoint chain_verifies (ordered : list cert) (root : cert) : bool :=
  match ordered with
  | [] => true
  | c :: rest => issued_by c (match rest with [] => root | issuer :: _ => issuer end)
                 && chain_verifies rest root
  end.

(** [verified]; [false] is "not checkable". *)
Definition verifyCoseSign1Crypto (rootCertPem : string) (c : cose) (payload : cval) : string + bool :=
  if (trim rootCertPem =? "")%string then inr false
  else
    match extractAttestationCertChain payload with
    | None => inr false
    | Some (leaf, intermediates) =>
        match coseEs384SignatureToDer (cose_signature c) with
        | None => inr false
        | Some der =>
            match cert_of_der leaf, cert_of_pem rootCertPem, mapM cert_of_der intermediates with
            | Some leafCert, Some rootCert, Some intermediateCerts =>
                let ordered := leafCert :: reverse intermediateCerts in
                if negb (chain_verifies ordered rootCert) then inl chain_error
                else if negb (issued_by (List.last ordered leafCert) rootCert) then inl chain_error
                else
                  let sigStructure := buildCoseSign1SigStructure (cose_protected c) (cose_payload_bytes c) in
                  if es384_verify leafCert sigStructure der then inr true
                  else inl "invalid signature: enclave attestation COSE_Sign1 ES384 signature does not verify against the leaf certificate"
            | _, _, _ => inl "invalid signature: enclave attestation certificate chain is malformed"
            end
        end
    end.

Record attestation_result := AttestationResult {
  ar_attested : bool;
  ar_reason : string;
  ar_pcr0 : string;
  ar_cose_verified : bool;
}.

Definition unattested (reason pcr0 : string) : attestation_result :=
  AttestationResult false reason pcr0 false.

Definition FUTURE_SKEW_MS : Z := 60000.

(** The freshness gate: [inl] is a stale, future-dated or unreadable time stamp. *)
Definition check_freshness (ae : attestation_env) (payload : cval) (now : Z) : option string :=
  let maxAgeMs := resolveAttestationMaxAgeMs ae in
  if maxAgeMs <=? 0 then None
  else
    match cnumber (cget payload "timestamp") with
    | inl e => Some e
    | inr (Fin docTimestampMs) =>
        if 0 <? docTimestampMs then
          let ageMs := now - docTimestampMs in
          if (maxAgeMs <? ageMs) || (ageMs <? - FUTURE_SKEW_MS)
          then Some "invalid signature: enclave attestation timestamp is outside the freshness window"
          else None
        else None
    | inr _ => None
    end.

(** [docPcr0] *)
Definition document_pcr0 (payload : cval) : string + string :=
  let pcrs := cget payload "pcrs" in
  match cindex0 pcrs with
  | CBuf bs => inr (hex_encode bs)
  | first => normalize_cval (cor first (cget pcrs "pcr0"))
  end.

(** The checks on a decoded document whose [user_data] is not empty. *)
Definition check_document (ae : attestation_env) (c : cose) (expectedNonce : string) (now : Z)
    : string + attestation_result :=
  let payload := cose_payload c in
  match hex_of_field (cget payload "nonce") with
  | inl e => inl e
  | inr docNonce =>
      if negb (expectedNonce =? "")%string && negb (docNonce =? "")%string
         && negb (docNonce =? expectedNonce)%string
      then inl "invalid signature: enclave attestation nonce does not echo the relayer-supplied nonce"
      else
        match check_freshness ae payload now with
        | Some e => inl e
        | None =>
            match verifyCoseSign1Crypto (resolveNitroRootCertPem ae) c payload with
            | inl e => inl e
            | inr verified =>
                match document_pcr0 payload with
                | inl e => inl e
                | inr docPcr0 =>
                    let expectedPcr0 := resolveExpectedPcr0 ae in
                    if (expectedPcr0 =? "")%string then
                      inr (AttestationResult false
                        "attestation digest verified but no MORPHEUS_EXPECTED_PCR0 pinned" docPcr0 verified)
                    else if (docPcr0 =? "")%string || negb (docPcr0 =? expectedPcr0)%string then
                      inl "invalid signature: enclave attestation PCR0 does not match the pinned measurement"
                    else inr (AttestationResult true
                      (if verified then "attested (digest + PCR0 + COSE signature/chain verified)"
                       else "attested (digest + PCR0 verified)") docPcr0 verified)
                end
            end
        end
  end.

Definition verifyEnclaveAttestation (ae : attestation_env) (body : val) (localDigestHex expectedNonce : string)
    (now : Z) : string + attestation_result :=
  let docBase64 := coerceTrim (get body "attestation_doc_base64") in
  if (docBase64 =? "")%string then inr (unattested "no attestation document" "")
  else
    match decodeCoseSign1 buffer_from (base64_decode docBase64) with
    | OutOfFuel => inr (unattested "attestation parse failed" "")
    | Fail m => inr (unattested ("attestation parse failed: " +:+ m) "")
    | Got c _ =>
        match hex_of_field (cget (cose_payload c) "user_data") with
        | inl e => inl e
        | inr userData =>
            let expectedUserData := hex_encode (sha256 (hex_decode localDigestHex)) in
            if negb (userData =? "")%string && negb (userData =? expectedUserData)%string then
              inl "invalid signature: enclave attestation user_data does not bind the fulfillment digest"
            else if (userData =? "")%string then
              inr (unattested "attestation document has no user_data binding" "")
            else check_document ae c (normalizePublicKey expectedNonce) now
        end
    end.

(** ** Soundness *)

(** The crypto evidence of a document under the pinned root. *)
Definition signature_evidence (ae : attestation_env) (c : cose) : Prop :=
  exists leaf intermediates der leafCert rootCert intermediateCerts,
    extractAttestationCertChain (cose_payload c) = Some (leaf, intermediates) /\
    coseEs384SignatureToDer (cose_signature c) = Some der /\
    cert_of_der leaf = Some leafCert /\
    cert_of_pem (resolveNitroRootCertPem ae) = Some rootCert /\
    mapM cert_of_der intermediates = Some intermediateCerts /\
    chain_verifies (leafCert :: reverse intermediateCerts) rootCert = true /\
    es384_verify leafCert
      (buildCoseSign1SigStructure (cose_protected c) (cose_payload_bytes c)) der = true.

(** Whether the certificate evidence of a document can be checked at all: a
    root is pinned, the document carries a leaf certificate, and its signature
    is not a placeholder. *)
Definition evidence_checkable (rootCertPem : string) (c : cose) (payload : cval) : bool :=
  negb (trim rootCertPem =? "")%string
  && bool_decide (is_Some (extractAttestationCertChain payload))
  && bool_decide (is_Some (coseEs384SignatureToDer (cose_signature c))).

Lemma chain_verifies_last c l root : chain_verifies (c :: l) root = true ->
  issued_by (List.last (c :: l) c) root = true.
Proof.
  assert (forall l c d, chain_verifies (c :: l) root = true ->
    issued_by (List.last (c :: l) d) root = true) as G; [|apply G].
  clear c l. induction l as [|c' l IH]; intros c d H; cbn in H; apply andb_true_iff in H as [H1 H2]; [done|].
  apply (IH c' d H2).
Qed.

(** The signature check answers, when it does not throw, exactly what the
    evidence says. *)
Lemma crypto_exact ae c v :
  verifyCoseSign1Crypto (resolveNitroRootCertPem ae) c (cose_payload c) = inr v <->
  if evidence_checkable (resolveNitroRootCertPem ae) c (cose_payload c)
  then v = true /\ signature_evidence ae c else v = false.
Proof using All.
  unfold verifyCoseSign1Crypto, evidence_checkable, signature_evidence.
  destruct (trim _ =? "")%string; [naive_solver|].
  destruct (extractAttestationCertChain _) as [[leaf ints]|]; [|cbn; naive_solver].
  destruct (coseEs384SignatureToDer _) as [der|]; [|cbn; naive_solver].
  rewrite !bool_decide_true by (eexists; reflexivity). cbn [negb andb]. cbv zeta. split.
  - intros H. destruct (cert_of_der leaf) as [lc|] eqn:E1; [|done].
    destruct (cert_of_pem _) as [rc|] eqn:E2; [|done].
    destruct (mapM cert_of_der ints) as [ics|] eqn:E3; [|done].
    destruct (chain_verifies (lc :: reverse ics) rc) eqn:E4; [|done]. cbn [negb] in H.
    destruct (negb _); [done|]. destruct (es384_verify _ _ _) eqn:E5; [|done].
    split; [congruence|]. eexists leaf, ints, der, lc, rc, ics. by split_and!.
  - intros (-> & leaf' & ints' & der' & lc & rc & ics & E & E0 & E1 & E2 & E3 & E4 & E5).
    injection E as <- <-. injection E0 as <-. rewrite E1, E2, E3, E4. cbn [negb].
    by rewrite (chain_verifies_last _ _ _ E4), E5.
Qed.

(** C8.  When an enclave result is labelled attested, exactly: the document
    decodes; its [user_data] is the hash of the very digest the relayer
    recomputed; a measurement is pinned and the document's PCR0 equals it; the
    nonce of the document is the one sent with this request, or one of the two
    is empty (a document without a nonce is not refused); the freshness gate
    passed; and when the certificate evidence is checkable (a root is pinned,
    the document carries a certificate and no placeholder signature) the chain
    verifies up to the root and the leaf's signature over this document's own
    bytes verifies, which the answer then reports.  When it is not checkable
    the label is given without it, and the answer reports no verified
    signature. *)
Theorem attestation_sound : forall ae body localDigestHex nonce now r,
  let doc := coerceTrim (get body "attestation_doc_base64") in
  (verifyEnclaveAttestation ae body localDigestHex nonce now = inr r /\ ar_attested r = true) <->
  exists c rest docNonce,
    doc <> "" /\ decodeCoseSign1 buffer_from (base64_decode doc) = Got c rest /\
    hex_of_field (cget (cose_payload c) "user_data")
      = inr (hex_encode (sha256 (hex_decode localDigestHex))) /\
    hex_encode (sha256 (hex_decode localDigestHex)) <> "" /\
    resolveExpectedPcr0 ae <> "" /\
    document_pcr0 (cose_payload c) = inr (resolveExpectedPcr0 ae) /\
    hex_of_field (cget (cose_payload c) "nonce") = inr docNonce /\
    (docNonce = "" \/ normalizePublicKey nonce = "" \/ docNonce = normalizePublicKey nonce) /\
    check_freshness ae (cose_payload c) now = None /\
    ar_attested r = true /\ ar_pcr0 r = resolveExpectedPcr0 ae /\
    ar_reason r = (if ar_cose_verified r then "attested (digest + PCR0 + COSE signature/chain verified)"
                   else "attested (digest + PCR0 verified)") /\
    if evidence_checkable (resolveNitroRootCertPem ae) c (cose_payload c)
    then ar_cose_verified r = true /\ signature_evidence ae c
    else ar_cose_verified r = false.
Proof.
  intros ae body dg nonce now r doc. subst doc. unfold verifyEnclaveAttestation.
  set (doc := coerceTrim _). set (hash := hex_encode _). split.
  - intros [H Ha]. destruct (String.eqb_spec doc "") as [|Hd]; [by simplify_eq|].
    destruct (decodeCoseSign1 _ _) as [|m|c rest] eqn:Ed; [by simplify_eq..|].
    destruct (hex_of_field (cget _ "user_data")) as [e|ud] eqn:Eu; [done|]. cbv zeta in H. fold hash in H.
    destruct (String.eqb_spec ud "") as [|Hu]; [by simplify_eq/=|]. cbn [negb andb] in H.
    destruct (String.eqb_spec ud hash) as [->|]; [|done]. cbn [negb] in H. unfold check_document in H.
    destruct (hex_of_field (cget _ "nonce")) as [e|dn] eqn:En; [done|].
    destruct (negb (normalizePublicKey nonce =? "")%string && _ && _) eqn:E3; [done|].
    destruct (check_freshness _ _ _) eqn:Ef; [done|].
    destruct (verifyCoseSign1Crypto _ _ _) as [e|v] eqn:Ev; [done|]. cbv zeta in H.
    destruct (document_pcr0 _) as [e|pcr] eqn:Ep; [done|].
    destruct (String.eqb_spec (resolveExpectedPcr0 ae) "") as [|H0]; [by simplify_eq|].
    destruct (pcr =? "")%string; [done|]. destruct (String.eqb_spec pcr (resolveExpectedPcr0 ae)); [|done].
    cbn in H. simplify_eq. apply crypto_exact in Ev. apply nonce_gate in E3.
    exists c, rest, dn. by split_and!.
  - intros (c & rest & dn & Hd & Ed & Eu & Hu & H0 & Ep & En & E3 & Ef & Ha & Er & Es & Ev).
    split; [|done]. apply String.eqb_neq in Hd, Hu, H0.
    rewrite Hd, Ed, Eu. cbv zeta. fold hash. rewrite Hu, String.eqb_refl. cbn [negb andb].
    unfold check_document. rewrite En. apply nonce_gate in E3. rewrite E3, Ef.
    apply crypto_exact in Ev. rewrite Ev. cbv zeta. rewrite Ep, H0, String.eqb_refl. cbn [negb orb].
    destruct r; cbn in *; by subst.
Qed.

(** ** The signature cross-check *)

(** [neon_verify]: the wallet library's check of a signature over a digest. *)
Context (neon_verify : string -> string -> string -> bool).

(** [pinned]: the pinned verifier key, empty when none resolves.  [Some e] is
    the exception. *)
Definition verifyEnclaveSignatureAgainstPinnedVerifier (pinned : string) (chain : string)
    (body : val) (localDigestHex : string) : option string :=
  if negb (chain =? "neo_n3")%string && negb (chain =? "legacy")%string then None
  else
    let pinned := normalizePublicKey pinned in
    if (pinned =? "")%string then None
    else
      let returnedKey := normalizePublicKeyOf (v_or (get body "public_key") (VStr "")) in
      if negb (returnedKey =? "")%string && negb (returnedKey =? pinned)%string then
        Some ("verifier rejected signature: enclave public_key " +:+ returnedKey
              +:+ " != pinned oracle_verifier " +:+ pinned)
      else if neon_verify localDigestHex (coerceTrim (v_or (get body "signature") (VStr ""))) pinned
      then None
      else Some "invalid signature: enclave signature does not verify against the pinned oracle_verifier public key over the recomputed digest".
End attestation.

(** ** Concrete documents *)

Definition sample_sha (bs : bytes) : bytes := repeat (Z.of_nat (length bs)) 32.

Definition sample_payload (digest : bytes) : bytes :=
  [162] ++ encode_item (inl "user_data") ++ encode_item (inr (sample_sha digest))
  ++ encode_item (inl "pcrs") ++ [161; 0] ++ encode_item (inr (repeat 7 48)).

Definition sample_document (digest : bytes) : bytes :=
  [132] ++ encode_item (inr []) ++ [160] ++ encode_item (inr (sample_payload digest))
  ++ encode_item (inr []).

Definition sample_body (digest : bytes) : val :=
  VObj [("attestation_doc_base64", VStr (base64_encode (sample_document digest)))].

(** The image and the root certificate are both pinned. *)
Definition sample_attestation_env : attestation_env :=
  AttestationEnv (hex_encode (repeat 7 48)) "" "-----BEGIN CERTIFICATE-----" "" NaN (Fin 0).

Definition sample_verify (digest : bytes) : string + attestation_result :=
  verifyEnclaveAttestation sample_sha (fun _ => inl "TypeError") (cert := unit) (fun _ => None)
    (fun _ => None) (fun _ _ => false) (fun _ _ _ => false) sample_attestation_env
    (sample_body digest) (hex_encode digest) "" 0.

Definition sample_verified : attestation_result :=
  AttestationResult true "attested (digest + PCR0 verified)" (hex_encode (repeat 7 48)) false.

(** A root certificate is pinned, every certificate is malformed and every
    signature fails, and yet a document that carries no certificate is labelled
    attested: leaving the certificate out makes the check "not checkable",
    which the comment says is not treated as attested. *)
Lemma attested_without_certificate : sample_verify [1; 2; 3] = inr sample_verified.
Proof. vm_compute. reflexivity. Qed.

(** A document with a leaf certificate and a real signature, under the same
    settings: the label reports the verified signature when the operations
    accept it, and the document is refused when the signature fails. *)
Definition certified_payload (digest : bytes) : bytes :=
  [163] ++ encode_item (inl "user_data") ++ encode_item (inr (sample_sha digest))
  ++ encode_item (inl "pcrs") ++ [161; 0] ++ encode_item (inr (repeat 7 48))
  ++ encode_item (inl "certificate") ++ encode_item (inr [9]).

Definition certified_body (digest : bytes) : val :=
  VObj [("attestation_doc_base64", VStr (base64_encode
    ([132] ++ encode_item (inr []) ++ [160] ++ encode_item (inr (certified_payload digest))
     ++ encode_item (inr (repeat 5 96)))))].

Definition certified_verify (signed : bool) (digest : bytes) : string + attestation_result :=
  verifyEnclaveAttestation sample_sha (fun _ => inl "TypeError") (cert := unit) (fun _ => Some tt)
    (fun _ => Some tt) (fun _ _ => true) (fun _ _ _ => signed) sample_attestation_env
    (certified_body digest) (hex_encode digest) "" 0.

Example certified_document :
  certified_verify true [1; 2; 3] = inr (AttestationResult true
    "attested (digest + PCR0 + COSE signature/chain verified)" (hex_encode (repeat 7 48)) true) /\
  certified_verify false [1; 2; 3] = inl "invalid signature: enclave attestation COSE_Sign1 ES384 signature does not verify against the leaf certificate".
Proof. split; vm_compute; reflexivity. Qed.

(** The theorem on that document: the label rests on evidence that was checked. *)
Lemma attestation_sound_witness :
  exists c, signature_evidence (cert := unit) (fun _ => Some tt) (fun _ => Some tt) (fun _ _ => true) (fun _ _ _ => true)
    sample_attestation_env c.
Proof.
  destruct (proj1 (attestation_sound sample_sha (fun _ => inl "TypeError") (cert := unit) (fun _ => Some tt)
    (fun _ => Some tt) (fun _ _ => true) (fun _ _ _ => true) sample_attestation_env
    (certified_body [1; 2; 3]) (hex_encode [1; 2; 3]) "" 0 _) (conj (proj1 certified_document) eq_refl))
    as (c & rest & dn & _ & _ & _ & _ & _ & _ & _ & _ & _ & _ & _ & _ & H).
  exists c. revert H. case_match; [by intros [_ ?]|]. cbn. discriminate.
Defined.
