(* ===== verification/Externals.v ===== *)
(** * External code

    The operations of third-party packages and of the runtime that the
    fulfillment pipeline calls, as one record every model of a caller takes. *)
From S2P Require Import Prelude Numbers Strings Values Encoding Cbor.
#[local] Open Scope list_scope.
#[local] Open Scope Z_scope.

(** The values handed to [AbiCoder.encode]. *)
Inductive abi :=
| AbiString (s : string)
| AbiUint (n : Z)
| AbiAddress (a : string)
| AbiBytes32 (bs : bytes)
| AbiBool (b : bool).

(** [inl] is an exception. *)
Record externals := Externals {
  (** [node:crypto] *)
  x_sha256 : bytes -> bytes;
  x_cert : Type;
  x_cert_of_der : bytes -> option x_cert;
  x_cert_of_pem : string -> option x_cert;
  x_issued_by : x_cert -> x_cert -> bool;
  x_es384_verify : x_cert -> bytes -> bytes -> bool;
  (** [Buffer.from] of a value that is neither a buffer nor a string *)
  x_buffer_from : cval -> string + bytes;
  (** [JSON.parse], [None] is the [SyntaxError] *)
  x_json_parse : string -> option val;
  (** [sha256Hex] of a value that is not a string goes through the locale's
      collation ([Intl.Collator]) of [stableStringify] *)
  x_sha256Hex : val -> string;
  (** [ethers] *)
  x_keccak256 : bytes -> bytes;
  x_abi_encode : list abi -> string + bytes;
  x_getAddress : string -> string + string;
  (** [neon-js]: the signature of the local account that matches the pinned
      verifier key, if there is one, and the check of a signature *)
  x_local_sign : bytes -> option string;
  x_neon_verify : string -> string -> string -> bool;
}.
