(* ===== verification/State.v ===== *)
(** * The relayer's durable state ([state.js])

    One record per chain (checkpoint cursors, processed records with their
    insertion order, retry queue, dead letters) and the metrics.  Every
    operation of [state.js] that reads or changes the state is a function here.

    Conventions.
    - An operation that reads the clock takes the instant [now] (milliseconds);
      an ISO time stamp is represented by the instant it denotes.
    - A nullable string that the code only reads through truthiness is a
      string, the empty one standing for [null]/[undefined]; a numeric option
      that the code reads with [||] is 0 when absent. *)
From S2P Require Import Prelude Numbers Strings Values.
From Stdlib Require Import QArith.
#[local] Open Scope list_scope.
#[local] Open Scope Z_scope.

(** ** Data *)

Inductive chain := neo_n3 | neox.
#[global] Instance chain_eq_dec : EqDecision chain.
Proof. solve_decision. Defined.

Definition chain_name (c : chain) : string :=
  match c with neo_n3 => "neo_n3" | neox => "neox" end.

Definition RELAYER_CHAINS : list chain := [neo_n3; neox].

(** The event object the chain scanners build. *)
Record event := Event {
  ev_chain : chain;
  ev_requestId : string;
  ev_requestType : string;
  ev_appId : string;
  ev_moduleId : string;
  ev_operation : string;
  ev_requester : string;
  ev_callbackContract : string;
  ev_callbackMethod : string;
  ev_payloadText : string;
  ev_txHash : string;
  ev_logIndex : option Z;
  ev_blockNumber : option Z;
  ev_createdAtMs : Z;
  ev_messageId : string;
}.
#[global] Instance event_eq_dec : EqDecision event.
Proof. solve_decision. Defined.

(** A prepared fulfillment, the payload of a callback delivery. *)
Record prepared := Prepared {
  p_success : bool;
  p_result : string;
  p_result_bytes_base64 : string;
  p_error : string;
  p_route : string;
  p_module_id : string;
  p_operation : string;
  p_worker_status : option Z;
  p_worker_response : val;
  p_verification_signature : string;
  p_trust_tier : string;
}.
#[global] Instance prepared_eq_dec : EqDecision prepared.
Proof. solve_decision. Defined.

Record retry_item := RetryItem {
  ri_key : string;
  ri_event : event;
  ri_attempts : Z;
  ri_next_retry_at : Z;
  ri_first_failed_at : Z;
  ri_updated_at : Z;
  ri_last_error : string;
  ri_manual_action : string;
  ri_finalize_only : bool;
  ri_terminal_error : string;
  ri_prepared_fulfillment : option prepared;
  ri_durable_claimed : bool;
}.
#[global] Instance retry_item_eq_dec : EqDecision retry_item.
Proof. solve_decision. Defined.

(** The [meta] object spread into a processed record and into a dead letter. *)
Record meta := Meta {
  m_attempts : Z;
  m_route : string;
  m_module_id : string;
  m_operation : string;
  m_last_error : string;
  m_terminal_error : string;
  m_fulfill_tx : val;
  m_worker_status : option Z;
}.

Record processed_record := ProcessedRecord {
  pr_key : string;
  pr_status : string;
  pr_request_id : string;
  pr_request_type : string;
  pr_module_id : string;
  pr_operation : string;
  pr_tx_hash : string;
  pr_block_number : Z;
  pr_completed_at : Z;
  pr_meta : meta;
}.

Record dead_letter := DeadLetter {
  dl_key : string;
  dl_request_id : string;
  dl_request_type : string;
  dl_module_id : string;
  dl_operation : string;
  dl_chain : chain;
  dl_event : event;
  dl_attempts : Z;
  dl_last_error : string;
  dl_terminal_error : string;
  dl_exhausted_at : Z;
  dl_shed_reason : string;
}.

Record chain_state := ChainState {
  last_block : option jsnum;
  last_request_id : option jsnum;
  last_discovery_at : Z;
  processed_records : gmap string processed_record;
  processed_order : list string;
  retry_queue : list retry_item;
  dead_letters : list dead_letter;
}.

Definition defaultChainState : chain_state :=
  ChainState None None 0 ∅ [] [] [].

Record metrics := Metrics {
  counters : gmap string Z;
  labeled_failures : gmap string Z;
  stamps : gmap string Z;
}.

Definition metric_names : list string :=
  ["ticks_total"; "events_scanned_total"; "events_processed_total"; "events_failed_total";
   "duplicates_skipped_total"; "retries_scheduled_total"; "retries_exhausted_total";
   "worker_calls_total"; "worker_failures_total"; "fulfill_success_total";
   "fulfill_failure_total"; "claim_conflicts_total"; "stale_reclaims_total";
   "discovery_failures_total"; "reconciliation_failures_total";
   "durable_claim_skipped_during_backoff_total"; "manual_actions_loaded_total";
   "feed_sync_runs_total"; "feed_sync_success_total"; "feed_sync_error_total";
   "feed_sync_skipped_total"; "backpressure_deferred_total";
   "backpressure_retry_skipped_total"; "retry_queue_overflow_total"].

Definition defaultMetrics : metrics :=
  Metrics (list_to_map ((fun n => (n, 0)) <$> metric_names)) ∅ ∅.

Record relayer_state := RelayerState {
  st_updated_at : option Z;
  st_neo_n3 : chain_state;
  st_neox : chain_state;
  st_metrics : metrics;
}.

Definition createEmptyRelayerState : relayer_state :=
  RelayerState None defaultChainState defaultChainState defaultMetrics.

(** [state[chain]] and its assignment. *)
Definition chain_at (s : relayer_state) (c : chain) : chain_state :=
  match c with neo_n3 => st_neo_n3 s | neox => st_neox s end.

Definition set_chain (c : chain) (cs : chain_state) (s : relayer_state) : relayer_state :=
  match c with
  | neo_n3 => RelayerState (st_updated_at s) cs (st_neox s) (st_metrics s)
  | neox => RelayerState (st_updated_at s) (st_neo_n3 s) cs (st_metrics s)
  end.

Definition set_metrics (m : metrics) (s : relayer_state) : relayer_state :=
  RelayerState (st_updated_at s) (st_neo_n3 s) (st_neox s) m.

Definition set_retry_queue (q : list retry_item) (cs : chain_state) : chain_state :=
  ChainState (last_block cs) (last_request_id cs) (last_discovery_at cs)
    (processed_records cs) (processed_order cs) q (dead_letters cs).

Definition set_dead_letters (d : list dead_letter) (cs : chain_state) : chain_state :=
  ChainState (last_block cs) (last_request_id cs) (last_discovery_at cs)
    (processed_records cs) (processed_order cs) (retry_queue cs) d.

Definition set_processed (m : gmap string processed_record) (o : list string)
    (cs : chain_state) : chain_state :=
  ChainState (last_block cs) (last_request_id cs) (last_discovery_at cs)
    m o (retry_queue cs) (dead_letters cs).

Definition set_last_block (b : option jsnum) (cs : chain_state) : chain_state :=
  ChainState b (last_request_id cs) (last_discovery_at cs)
    (processed_records cs) (processed_order cs) (retry_queue cs) (dead_letters cs).

Definition set_last_request_id (b : option jsnum) (cs : chain_state) : chain_state :=
  ChainState (last_block cs) b (last_discovery_at cs)
    (processed_records cs) (processed_order cs) (retry_queue cs) (dead_letters cs).

Definition set_last_discovery_at (t : Z) (cs : chain_state) : chain_state :=
  ChainState (last_block cs) (last_request_id cs) t
    (processed_records cs) (processed_order cs) (retry_queue cs) (dead_letters cs).

(** Limits of a chain state ([config] seen by [state.js]); 0 is unset. *)
Record limits := Limits {
  retryQueueLimit : Z;
  deadLetterLimit : Z;
  processedCacheSize : Z;
}.

(** ** Operations *)

Definition opt_num_text (o : option Z) : string :=
  match o with Some n => num_to_string n | None => "" end.

Definition buildEventKey (e : event) : string :=
  join ":" [chain_name (ev_chain e); ev_requestId e ||s "0"; ev_txHash e;
            opt_num_text (ev_logIndex e); opt_num_text (ev_blockNumber e)].

(** [array.slice(start)] *)
Definition js_slice_from {A} (start : Z) (l : list A) : list A :=
  let len := Z.of_nat (length l) in
  drop (Z.to_nat (if start <? 0 then Z.max (len + start) 0 else start)) l.

(** The [while (order.length > limit)] loop of [pruneProcessedRecords]. *)
Fixpoint prune_processed (limit : Z) (order : list string)
    (records : gmap string processed_record) : list string * gmap string processed_record :=
  match order with
  | [] => ([], records)
  | oldestKey :: rest =>
      if limit <? Z.of_nat (length order)
      then prune_processed limit rest
             (if decide (oldestKey = "") then records else delete oldestKey records)
      else (order, records)
  end.

Definition pruneProcessedRecords (limit : Z) (cs : chain_state) : chain_state :=
  let '(order, records) := prune_processed limit (processed_order cs) (processed_records cs) in
  set_processed records order cs.

Definition pruneDeadLetters (limit : Z) (cs : chain_state) : chain_state :=
  if limit <? Z.of_nat (length (dead_letters cs))
  then set_dead_letters (js_slice_from (- limit) (dead_letters cs)) cs
  else cs.

Definition incrementMetric (name : string) (delta : Z) (s : relayer_state) : relayer_state :=
  let m := st_metrics s in
  set_metrics (Metrics (<[name := default 0 (counters m !! name) + delta]> (counters m))
                       (labeled_failures m) (stamps m)) s.

Definition LABELED_FAILURE_DELIMITER : string := "|".

Definition incrementLabeledFailure (c : chain) (module operation : string) (delta : Z)
    (s : relayer_state) : relayer_state :=
  let m := st_metrics s in
  let key := join LABELED_FAILURE_DELIMITER
               [chain_name c; module ||s "unknown"; operation ||s "unknown"] in
  set_metrics (Metrics (counters m)
    (<[key := default 0 (labeled_failures m !! key) + delta]> (labeled_failures m)) (stamps m)) s.

Definition set_stamp (name : string) (v : option Z) (s : relayer_state) : relayer_state :=
  let m := st_metrics s in
  set_metrics (Metrics (counters m) (labeled_failures m)
    (match v with Some z => <[name := z]> (stamps m) | None => delete name (stamps m) end)) s.

(** Age in seconds of the oldest parseable stamp of a list. *)
Fixpoint oldest_stamp (acc : option Z) (l : list (option Z)) : option Z :=
  match l with
  | [] => acc
  | None :: l => oldest_stamp acc l
  | Some parsed :: l =>
      oldest_stamp (match acc with
                    | None => Some parsed
                    | Some o => if parsed <? o then Some parsed else acc
                    end) l
  end.

Definition oldestAgeSeconds (l : list (option Z)) (nowMs : Z) : option Z :=
  match oldest_stamp None l with
  | None => None
  | Some oldestMs => Some (Z.max ((nowMs - oldestMs) / 1000) 0)
  end.

Definition hasProcessedEvent (s : relayer_state) (c : chain) (key : string) : bool :=
  bool_decide (is_Some (processed_records (chain_at s c) !! key)).

Definition isEventQueuedForRetry (s : relayer_state) (c : chain) (key : string) : bool :=
  existsb (fun item => bool_decide (ri_key item = key)) (retry_queue (chain_at s c)).

Definition removeProcessedEvent (c : chain) (key : string) (s : relayer_state) : relayer_state :=
  let cs := chain_at s c in
  set_chain c (set_processed (delete key (processed_records cs))
    (filter (fun entry => entry <> key) (processed_order cs)) cs) s.

Definition removeDeadLetter (c : chain) (key : string) (s : relayer_state) : relayer_state :=
  let cs := chain_at s c in
  set_chain c (set_dead_letters
    (filter (fun entry => dl_key entry <> key) (dead_letters cs)) cs) s.

Definition clear_item (key : string) (q : list retry_item) : list retry_item :=
  filter (fun item => ri_key item <> key) q.

Definition clearRetryItem (c : chain) (key : string) (s : relayer_state) : relayer_state :=
  let cs := chain_at s c in
  set_chain c (set_retry_queue (clear_item key (retry_queue cs)) cs) s.

(** The dead letter an overflowing retry item becomes. *)
Definition shed_letter (now : Z) (c : chain) (item : retry_item) : dead_letter :=
  let e := ri_event item in
  let kernelIntent := resolveKernelIntent (ev_requestType e) in
  DeadLetter (ri_key item) (ev_requestId e ||s "0") (ev_requestType e)
    (moduleId kernelIntent) (operation kernelIntent) c e (ri_attempts item)
    (ri_last_error item ||s "retry_queue_overflow") "" now "retry_queue_overflow".

Definition enforceRetryQueueLimit (now : Z) (lims : limits) (c : chain)
    (s : relayer_state) : Z * relayer_state :=
  let limit := Z.max (retryQueueLimit lims) 0 in
  let cs := chain_at s c in
  let len := Z.of_nat (length (retry_queue cs)) in
  if limit <=? 0 then (0, s)
  else if len <=? limit then (0, s)
  else
    let overflowCount := Z.to_nat (len - limit) in
    let shed := take overflowCount (retry_queue cs) in
    let cs1 := set_retry_queue (drop overflowCount (retry_queue cs)) cs in
    let cs2 := set_dead_letters (dead_letters cs1 ++ (shed_letter now c <$> shed)) cs1 in
    let cs3 := pruneDeadLetters (deadLetterLimit lims ||n 200) cs2 in
    let n := Z.of_nat (length shed) in
    (n, incrementMetric "retry_queue_overflow_total" n (set_chain c cs3 s)).

Record retry_options := RetryOptions {
  o_attempts : Z;
  o_next_retry_at : Z;
  o_first_failed_at : option Z;
  o_last_error : string;
  o_manual_action : string;
  o_finalize_only : bool;
  o_terminal_error : string;
  o_prepared_fulfillment : option prepared;
  o_durable_claimed : bool;
  o_limits : limits;
}.

(** Replace the first item with the same key, else append. *)
Definition put_item (item : retry_item) (q : list retry_item) : list retry_item :=
  match list_find (fun entry => ri_key entry = ri_key item) q with
  | Some (i, _) => <[i := item]> q
  | None => q ++ [item]
  end.

Definition enqueueRetryItem (now : Z) (c : chain) (e : event) (options : retry_options)
    (s : relayer_state) : retry_item * relayer_state :=
  let cs := chain_at s c in
  let item := RetryItem (buildEventKey e) e (o_attempts options)
      (o_next_retry_at options ||n now) (default now (o_first_failed_at options)) now
      (o_last_error options) (o_manual_action options) (o_finalize_only options)
      (o_terminal_error options) (o_prepared_fulfillment options) (o_durable_claimed options) in
  let s1 := set_chain c (set_retry_queue (put_item item (retry_queue cs)) cs) s in
  (item, (enforceRetryQueueLimit now (o_limits options) c s1).2).

Definition exhausted_letter (now : Z) (c : chain) (e : event) (m : meta) : dead_letter :=
  DeadLetter (buildEventKey e) (ev_requestId e ||s "0") (ev_requestType e)
    (m_module_id m) (m_operation m) c e (m_attempts m) (m_last_error m) (m_terminal_error m) now "".

(** The processed record; [module_id] and [operation] of [meta] override the
    kernel intent's, every caller passes them. *)
Definition processed_record_of (now : Z) (e : event) (status : string) (m : meta) : processed_record :=
  ProcessedRecord (buildEventKey e) status (ev_requestId e ||s "0") (ev_requestType e)
    (m_module_id m) (m_operation m) (ev_txHash e) (default 0 (ev_blockNumber e)) now m.

Definition recordProcessedEvent (now : Z) (c : chain) (e : event) (status : string) (m : meta)
    (lims : limits) (s : relayer_state) : relayer_state :=
  let cs := chain_at s c in
  let key := buildEventKey e in
  let order := match processed_records cs !! key with
               | None => processed_order cs ++ [key]
               | Some _ => processed_order cs
               end in
  let cs1 := set_processed (<[key := processed_record_of now e status m]> (processed_records cs))
               order cs in
  let cs2 := set_retry_queue (clear_item key (retry_queue cs1)) cs1 in
  let cs3 :=
    if (status =? "exhausted")%string
    then pruneDeadLetters (deadLetterLimit lims ||n 200)
           (set_dead_letters (dead_letters cs2 ++ [exhausted_letter now c e m]) cs2)
    else cs2 in
  set_chain c (pruneProcessedRecords (processedCacheSize lims ||n 5000) cs3) s.

Record retry_config := RetryConfig {
  maxRetries : Z;
  retryBaseDelayMs : Z;
  retryMaxDelayMs : Z;
}.

Inductive retry_result :=
| Exhausted (key : string) (attempts : Z) (error : string)
| Scheduled (key : string) (item : retry_item).

Definition scheduleRetry (now : Z) (rng : Q) (c : chain) (e : event) (errorMessage : string)
    (cfg : retry_config) (lims : limits) (s : relayer_state) : retry_result * relayer_state :=
  let cs := chain_at s c in
  let key := buildEventKey e in
  let existing := snd <$> list_find (fun item => ri_key item = key) (retry_queue cs) in
  let attempts := from_option ri_attempts 0 existing + 1 in
  if maxRetries cfg <? attempts then
    (Exhausted key attempts errorMessage,
     set_chain c (set_retry_queue (clear_item key (retry_queue cs)) cs) s)
  else
    let delayMs := computeRetryDelayMs (retryBaseDelayMs cfg) (retryMaxDelayMs cfg) attempts rng in
    let item := RetryItem key e attempts (now + delayMs)
                  (from_option ri_first_failed_at now existing) now errorMessage
                  "" false "" None false in
    let s1 := set_chain c (set_retry_queue (put_item item (retry_queue cs)) cs) s in
    (Scheduled key item, (enforceRetryQueueLimit now lims c s1).2).

(** [Array.prototype.sort] is stable: stable insertion sort by due time. *)
Fixpoint insert_due (x : retry_item) (l : list retry_item) : list retry_item :=
  match l with
  | [] => [x]
  | y :: l' => if ri_next_retry_at x <=? ri_next_retry_at y then x :: l else y :: insert_due x l'
  end.

Definition sort_due (l : list retry_item) : list retry_item := foldr insert_due [] l.

Definition getDueRetryItems (s : relayer_state) (c : chain) (now : Z) : list retry_item :=
  sort_due (filter (fun item => ri_next_retry_at item <= now) (retry_queue (chain_at s c))).

(** Every request id tracked for a chain, queued or processed. *)
Definition collectActiveRequestIds (s : relayer_state) (c : chain) : gset string :=
  let cs := chain_at s c in
  list_to_set (filter (fun id => id <> "") (ev_requestId ∘ ri_event <$> retry_queue cs)) ∪
  list_to_set (filter (fun id => id <> "")
    (pr_request_id ∘ snd <$> map_to_list (processed_records cs))).

(** [snapshotMetrics]: the per-chain gauges. *)
Record chain_gauges := ChainGauges {
  g_retry_queue_size : Z;
  g_dead_letter_size : Z;
  g_checkpoint : option jsnum;
  g_request_checkpoint : option jsnum;
  g_oldest_retry_age : option Z;
  g_oldest_dead_letter_age : option Z;
}.

Definition snapshotMetrics (s : relayer_state) (nowMs : Z) : list (chain * chain_gauges) :=
  (fun c =>
    let cs := chain_at s c in
    (c, ChainGauges (Z.of_nat (length (retry_queue cs))) (Z.of_nat (length (dead_letters cs)))
          (last_block cs) (last_request_id cs)
          (oldestAgeSeconds (Some ∘ ri_first_failed_at <$> retry_queue cs) nowMs)
          (oldestAgeSeconds (Some ∘ dl_exhausted_at <$> dead_letters cs) nowMs)))
  <$> RELAYER_CHAINS.
