(* ===== verification/StateFacts.v ===== *)
(** * Facts about the relayer state

    The well-formedness invariant of a chain state, its preservation by every
    operation of [state.js], and the functional behaviour of the operations. *)
From S2P Require Import Prelude Numbers Strings Values State.
From Stdlib Require Import QArith.
#[local] Open Scope list_scope.
#[local] Open Scope Z_scope.

(** ** Event keys *)

Lemma opt_num_text_inj a b : opt_num_text a = opt_num_text b -> a = b.
Proof.
  destruct a, b; simpl; intros H; try done.
  - f_equal. by apply (inj pretty).
  - by destruct (num_to_string_ne z).
  - by destruct (num_to_string_ne z).
Qed.

Lemma opt_num_text_no_colon a : str_forall (not_char ":") (opt_num_text a) = true.
Proof. destruct a; [apply num_to_string_no_colon|done]. Qed.

Lemma chain_name_inj a b : chain_name a = chain_name b -> a = b.
Proof. by destruct a, b. Qed.

Lemma buildEventKey_unfold e :
  buildEventKey e = chain_name (ev_chain e) +:+ String ":" ((ev_requestId e ||s "0") +:+ String ":"
    (ev_txHash e +:+ String ":" (opt_num_text (ev_logIndex e) +:+ String ":"
      (opt_num_text (ev_blockNumber e))))).
Proof. reflexivity. Qed.

Lemma buildEventKey_ne e : buildEventKey e <> "".
Proof. rewrite buildEventKey_unfold. by destruct (ev_chain e). Qed.

(** ** Accessors *)

Lemma chain_at_set_eq c cs s : chain_at (set_chain c cs s) c = cs.
Proof. by destruct c. Qed.
Lemma chain_at_set_ne c c' cs s : c <> c' -> chain_at (set_chain c cs s) c' = chain_at s c'.
Proof. by destruct c, c'. Qed.
Lemma chain_at_metrics m s c : chain_at (set_metrics m s) c = chain_at s c.
Proof. by destruct c. Qed.
Lemma chain_at_incr n d s c : chain_at (incrementMetric n d s) c = chain_at s c.
Proof. apply chain_at_metrics. Qed.
Lemma chain_at_labeled c0 a b d s c : chain_at (incrementLabeledFailure c0 a b d s) c = chain_at s c.
Proof. apply chain_at_metrics. Qed.
Lemma chain_at_stamp n v s c : chain_at (set_stamp n v s) c = chain_at s c.
Proof. apply chain_at_metrics. Qed.
Lemma set_chain_id c s : set_chain c (chain_at s c) s = s.
Proof. by destruct c, s. Qed.
Lemma metrics_set_chain c cs s : st_metrics (set_chain c cs s) = st_metrics s.
Proof. by destruct c. Qed.

#[export] Hint Rewrite chain_at_set_eq chain_at_metrics chain_at_incr chain_at_labeled
  chain_at_stamp metrics_set_chain : relayer_state.

(** ** The retry queue as a keyed collection *)

Abbreviation keys q := (ri_key <$> q).

Lemma keys_in_queue q k : k ∈ keys q <-> Exists (fun it => ri_key it = k) q.
Proof.
  rewrite Exists_exists, list_elem_of_fmap.
  split; intros (x & H1 & H2); exists x; eauto.
Qed.

Lemma isEventQueued_keys s c k :
  isEventQueuedForRetry s c k = true <-> k ∈ keys (retry_queue (chain_at s c)).
Proof.
  unfold isEventQueuedForRetry. rewrite list_elem_of_fmap, existsb_exists.
  setoid_rewrite <-list_elem_of_In. setoid_rewrite bool_decide_eq_true.
  split; intros (x & H1 & H2); exists x; eauto.
Qed.

Lemma put_item_keys_in it q : ri_key it ∈ keys q -> keys (put_item it q) = keys q.
Proof.
  intros Hin. unfold put_item.
  destruct (list_find _ q) as [[i x]|] eqn:E.
  - apply list_find_Some in E as (Hi & Hk & _).
    rewrite list_fmap_insert, list_insert_id; [done|].
    rewrite list_lookup_fmap, Hi. simpl. by rewrite Hk.
  - apply list_find_None in E. apply list_elem_of_fmap in Hin as (x & Hk & Hx).
    rewrite Forall_forall in E. by destruct (E x Hx).
Qed.

Lemma put_item_out it q : ri_key it ∉ keys q -> put_item it q = q ++ [it].
Proof.
  intros Hin. unfold put_item.
  destruct (list_find _ q) as [[i x]|] eqn:E; [|done].
  apply list_find_Some in E as (Hi & Hk & _). destruct Hin.
  rewrite <-Hk. apply list_elem_of_fmap_2. by eapply list_elem_of_lookup_2.
Qed.

Lemma put_item_keys it q :
  keys (put_item it q) = if decide (ri_key it ∈ keys q) then keys q else keys q ++ [ri_key it].
Proof.
  case_decide; [by apply put_item_keys_in|]. rewrite put_item_out by done. by rewrite fmap_app.
Qed.

Lemma put_item_NoDup it q : NoDup (keys q) -> NoDup (keys (put_item it q)).
Proof.
  intros H. rewrite put_item_keys. case_decide; [done|].
  apply NoDup_app. split_and!; [done| |apply NoDup_singleton].
  intros x Hx Hx'. apply list_elem_of_singleton in Hx' as ->. done.
Qed.

Lemma put_item_Forall (P : retry_item -> Prop) it q :
  P it -> Forall P q -> Forall P (put_item it q).
Proof.
  intros Hit Hq. unfold put_item. destruct (list_find _ q) as [[i x]|].
  - by apply Forall_insert.
  - apply Forall_app. auto.
Qed.

Lemma put_item_in it q : it ∈ put_item it q.
Proof.
  unfold put_item. destruct (list_find _ q) as [[i x]|] eqn:E; [|set_solver].
  apply list_find_Some in E as (Hi & _ & _).
  eapply list_elem_of_lookup_2, list_lookup_insert_eq. by eapply lookup_lt_Some.
Qed.

Lemma put_item_other it q x : ri_key x <> ri_key it -> x ∈ put_item it q <-> x ∈ q.
Proof.
  intros Hne. unfold put_item. destruct (list_find _ q) as [[i y]|] eqn:E.
  - apply list_find_Some in E as (Hi & Hk & _). split; intros (j & Hj)%list_elem_of_lookup.
    + destruct (decide (i = j)) as [->|].
      * rewrite list_lookup_insert_eq in Hj by (by eapply lookup_lt_Some). by simplify_eq.
      * rewrite list_lookup_insert_ne in Hj by done. by eapply list_elem_of_lookup_2.
    + destruct (decide (i = j)) as [->|]; [congruence|].
      eapply (list_elem_of_lookup_2 _ j). by rewrite list_lookup_insert_ne.
  - set_solver.
Qed.

Lemma find_put it q :
  snd <$> list_find (fun e => ri_key e = ri_key it) (put_item it q) = Some it.
Proof.
  unfold put_item. destruct (list_find _ q) as [[i x]|] eqn:E.
  - pose proof E as (Hi & Hk & Hf)%list_find_Some.
    assert (list_find (fun e => ri_key e = ri_key it) (<[i:=it]> q) = Some (i, it)) as ->; [|done].
    apply list_find_Some. split_and!; [|done|].
    + apply list_lookup_insert_eq. by eapply lookup_lt_Some.
    + intros j y Hj Hlt. rewrite list_lookup_insert_ne in Hj by lia. by eapply Hf.
  - assert (list_find (fun e => ri_key e = ri_key it) (q ++ [it]) = Some (length q, it)) as ->; [|done].
    apply list_find_app_Some. right. split_and!; [lia|done|].
    rewrite Nat.sub_diag. simpl. by rewrite decide_True.
Qed.

Lemma clear_item_keys k q : k ∉ keys (clear_item k q).
Proof. intros (x & -> & [Hne _]%list_elem_of_filter)%list_elem_of_fmap. done. Qed.

Lemma clear_item_other k k' q : k <> k' -> k' ∈ keys (clear_item k q) <-> k' ∈ keys q.
Proof.
  intros Hne. rewrite !list_elem_of_fmap. unfold clear_item.
  split; intros (x & -> & Hx); exists x; split; auto.
  - by apply list_elem_of_filter in Hx as [_ ?].
  - by apply list_elem_of_filter.
Qed.

#[export] Hint Resolve put_item_NoDup put_item_Forall put_item_in Forall_filter_2
  NoDup_fmap_filter : relayer_state.

(** ** Pruning *)

Lemma prune_processed_spec limit order rec :
  0 <= limit ->
  exists evicted,
    order = evicted ++ (prune_processed limit order rec).1 /\
    Z.of_nat (length evicted) = Z.max (Z.of_nat (length order) - limit) 0 /\
    (forall k, (prune_processed limit order rec).2 !! k
      = if decide (k ∈ evicted /\ k <> "") then None else rec !! k).
Proof.
  intros Hl. revert rec. induction order as [|k0 order IH]; intros rec.
  { exists []. cbn [prune_processed fst snd length]. split_and!; [done|lia|].
    intros k. rewrite decide_False; set_solver. }
  cbn [prune_processed]. destruct (limit <? Z.of_nat (length (k0 :: order))) eqn:E;
    rewrite length_cons, ?Nat2Z.inj_succ in E |- *.
  - destruct (IH (if decide (k0 = "") then rec else delete k0 rec)) as (ev & Ho & Hn & Hk).
    exists (k0 :: ev). split_and!.
    + simpl. by rewrite <-Ho.
    + rewrite length_cons. lia.
    + intros k. rewrite Hk. destruct (decide (k0 = "")) as [->|Hne].
      * repeat case_decide; set_solver.
      * destruct (decide (k = k0)) as [->|Hkk].
        -- rewrite (decide_True (P := k0 ∈ k0 :: ev /\ k0 <> "")) by set_solver.
           case_decide; [done|]. apply lookup_delete_eq.
        -- rewrite lookup_delete_ne by done. repeat case_decide; set_solver.
  - exists []. cbn [fst snd length app]. split_and!; [done|lia|].
    intros k. rewrite decide_False; set_solver.
Qed.

(** ** The invariant *)

(** The processed order enumerates the processed keys without repetition, a
    record is stored under its own key, the retry queue holds one item per key
    and an item's key is its event's key. *)
Record chain_wf (cs : chain_state) : Prop := {
  wf_order_nodup : NoDup (processed_order cs);
  wf_order_dom : forall k, k ∈ processed_order cs <-> is_Some (processed_records cs !! k);
  wf_order_ne : "" ∉ processed_order cs;
  wf_record_key : forall k r, processed_records cs !! k = Some r -> pr_key r = k;
  wf_queue_nodup : NoDup (keys (retry_queue cs));
  wf_queue_key : Forall (fun it => ri_key it = buildEventKey (ri_event it)) (retry_queue cs);
}.

Definition state_wf (s : relayer_state) : Prop := forall c, chain_wf (chain_at s c).

Lemma state_wf_set c cs s : state_wf s -> chain_wf cs -> state_wf (set_chain c cs s).
Proof.
  intros Hs Hc c'. destruct (decide (c = c')) as [->|].
  - by rewrite chain_at_set_eq.
  - by rewrite chain_at_set_ne.
Qed.

Lemma state_wf_metrics m s : state_wf s -> state_wf (set_metrics m s).
Proof. intros Hs c. by rewrite chain_at_metrics. Qed.

Lemma chain_wf_queue q cs :
  chain_wf cs -> NoDup (keys q) ->
  Forall (fun it => ri_key it = buildEventKey (ri_event it)) q ->
  chain_wf (set_retry_queue q cs).
Proof. intros [] ??. by split. Qed.

Lemma chain_wf_dead d cs : chain_wf cs -> chain_wf (set_dead_letters d cs).
Proof. intros []. by split. Qed.

Lemma chain_wf_clear k cs : chain_wf cs -> chain_wf (set_retry_queue (clear_item k (retry_queue cs)) cs).
Proof.
  intros H. pose proof H as []. apply chain_wf_queue; [done|..]; unfold clear_item;
    auto with relayer_state.
Qed.

Lemma chain_wf_pruneDead lim cs : chain_wf cs -> chain_wf (pruneDeadLetters lim cs).
Proof. intros. unfold pruneDeadLetters. case_match; auto using chain_wf_dead. Qed.

Lemma chain_wf_prune lim cs : 0 <= lim -> chain_wf cs -> chain_wf (pruneProcessedRecords lim cs).
Proof.
  intros Hlim [Hnd Hdom Hne Hkey Hq1 Hq2]. unfold pruneProcessedRecords.
  destruct (prune_processed_spec lim (processed_order cs) (processed_records cs) Hlim)
    as (ev & Ho & _ & Hk).
  destruct (prune_processed _ _ _) as [order rec]. simpl in *.
  rewrite Ho in Hnd, Hne. apply NoDup_app in Hnd as (_ & Hdis & Hnd').
  split; simpl; try done.
  - intros k. rewrite Hk. case_decide as Hin.
    + split; [|by intros [??]]. intros Hk'. destruct Hin as [Hin _]. by destruct (Hdis k).
    + rewrite <-Hdom, Ho. set_solver.
  - set_solver.
  - intros k r. rewrite Hk. case_decide; [done|apply Hkey].
Qed.

Lemma chain_wf_processed k r cs :
  chain_wf cs -> pr_key r = k -> k <> "" ->
  chain_wf (set_processed (<[k := r]> (processed_records cs))
    (match processed_records cs !! k with
     | None => processed_order cs ++ [k] | Some _ => processed_order cs end) cs).
Proof.
  intros [Hnd Hdom Hne Hkey Hq1 Hq2] Hr Hk. split; simpl; try done.
  - destruct (processed_records cs !! k) eqn:E; [done|]. apply NoDup_app. split_and!; [done| |apply NoDup_singleton].
    intros x Hx ->%list_elem_of_singleton. apply Hdom in Hx as [? Hx]. congruence.
  - intros k'. destruct (decide (k' = k)) as [->|Hkk].
    + rewrite lookup_insert_eq. split; [eauto|]. intros _. case_match eqn:E; [by apply Hdom; eauto|set_solver].
    + rewrite lookup_insert_ne by done. rewrite <-Hdom. case_match; set_solver.
  - case_match; set_solver.
  - intros k' r'. destruct (decide (k' = k)) as [->|Hkk].
    + rewrite lookup_insert_eq. by intros [= <-].
    + rewrite lookup_insert_ne by done. apply Hkey.
Qed.

Lemma enforce_wf now lims c s : state_wf s -> state_wf (enforceRetryQueueLimit now lims c s).2.
Proof.
  intros Hs. unfold enforceRetryQueueLimit. repeat case_match; try done. simpl.
  apply state_wf_metrics, state_wf_set; [done|]. apply chain_wf_pruneDead, chain_wf_dead.
  pose proof (Hs c) as Hcs. pose proof Hcs as []. apply chain_wf_queue; [done|..].
  - rewrite fmap_drop. eapply sublist_NoDup; [done|apply sublist_drop].
  - by apply Forall_drop.
Qed.

Lemma put_wf it c s :
  state_wf s -> ri_key it = buildEventKey (ri_event it) ->
  state_wf (set_chain c (set_retry_queue (put_item it (retry_queue (chain_at s c))) (chain_at s c)) s).
Proof.
  intros Hs Hk. apply state_wf_set; [done|]. pose proof (Hs c) as Hcs. pose proof Hcs as [].
  apply chain_wf_queue; auto with relayer_state.
Qed.

Lemma enqueue_wf now c e o s : state_wf s -> state_wf (enqueueRetryItem now c e o s).2.
Proof. intros Hs. by apply enforce_wf, put_wf. Qed.

Lemma record_wf now c e st m lims s :
  0 <= processedCacheSize lims -> state_wf s -> state_wf (recordProcessedEvent now c e st m lims s).
Proof.
  intros Hl Hs. apply state_wf_set; [done|]. apply chain_wf_prune.
  { unfold or_num. case_decide; lia. }
  pose proof (chain_wf_processed (buildEventKey e) (processed_record_of now e st m) _ (Hs c)
    eq_refl (buildEventKey_ne e)) as H.
  destruct (st =? "exhausted")%string; [apply chain_wf_pruneDead, chain_wf_dead|]; by apply chain_wf_clear.
Qed.

Lemma schedule_wf now rng c e msg cfg lims s :
  state_wf s -> state_wf (scheduleRetry now rng c e msg cfg lims s).2.
Proof.
  intros Hs. unfold scheduleRetry. case_match; simpl.
  - by apply state_wf_set, chain_wf_clear.
  - by apply enforce_wf, put_wf.
Qed.

Lemma clear_wf c k s : state_wf s -> state_wf (clearRetryItem c k s).
Proof. intros Hs. by apply state_wf_set, chain_wf_clear. Qed.

Lemma removeDead_wf c k s : state_wf s -> state_wf (removeDeadLetter c k s).
Proof. intros Hs. by apply state_wf_set, chain_wf_dead. Qed.

Lemma removeProcessed_wf c k s : state_wf s -> state_wf (removeProcessedEvent c k s).
Proof.
  intros Hs. apply state_wf_set; [done|]. destruct (Hs c) as [Hnd Hdom Hne Hkey Hq1 Hq2].
  split; simpl; try done.
  - by apply NoDup_filter.
  - intros k'. rewrite list_elem_of_filter, Hdom. destruct (decide (k' = k)) as [->|].
    + rewrite lookup_delete_eq. naive_solver.
    + rewrite lookup_delete_ne by done. naive_solver.
  - rewrite list_elem_of_filter. naive_solver.
  - intros k' r [_ H]%lookup_delete_Some. by apply Hkey.
Qed.

Lemma empty_wf : state_wf createEmptyRelayerState.
Proof.
  assert (chain_wf defaultChainState) as H.
  { split; simpl; [constructor| |set_solver|done|constructor|constructor].
    intros k. rewrite lookup_empty. split; [set_solver|by intros [? ?]]. }
  by intros [].
Qed.

#[export] Hint Resolve state_wf_metrics enforce_wf enqueue_wf record_wf schedule_wf clear_wf
  removeDead_wf removeProcessed_wf empty_wf : relayer_state.

(** ** Invariants of the state operations *)

(** What a component that changes the state through its operations alone
    promises to keep: any property closed under them. *)
Class StateInvariant (I : relayer_state -> Prop) := {
  inv_metrics m s : I s -> I (set_metrics m s);
  inv_enqueue now c e o s : I s -> I (enqueueRetryItem now c e o s).2;
  inv_record now c e st m lims s :
    0 <= processedCacheSize lims -> I s -> I (recordProcessedEvent now c e st m lims s);
  inv_schedule now rng c e msg cfg lims s : I s -> I (scheduleRetry now rng c e msg cfg lims s).2;
  inv_clear c k s : I s -> I (clearRetryItem c k s);
  inv_removeDead c k s : I s -> I (removeDeadLetter c k s);
  inv_removeProcessed c k s : I s -> I (removeProcessedEvent c k s);
}.

#[export] Instance state_wf_invariant : StateInvariant state_wf.
Proof. split; intros; auto with relayer_state. Qed.

(** The cursors of a chain are not the business of the queue operations. *)
Definition cursors (s : relayer_state) (c : chain) : option jsnum * option jsnum * Z :=
  (last_block (chain_at s c), last_request_id (chain_at s c), last_discovery_at (chain_at s c)).

Lemma cursors_set c c' cs s :
  (last_block cs, last_request_id cs, last_discovery_at cs) = cursors s c ->
  cursors (set_chain c cs s) c' = cursors s c'.
Proof.
  intros H. unfold cursors in *. destruct (decide (c = c')) as [<-|].
  - by rewrite chain_at_set_eq.
  - by rewrite chain_at_set_ne.
Qed.

Lemma cursors_metrics m s c : cursors (set_metrics m s) c = cursors s c.
Proof. unfold cursors. by rewrite chain_at_metrics. Qed.

Lemma cursors_prune lim cs :
  (last_block (pruneDeadLetters lim cs), last_request_id (pruneDeadLetters lim cs),
   last_discovery_at (pruneDeadLetters lim cs)) = (last_block cs, last_request_id cs, last_discovery_at cs).
Proof. unfold pruneDeadLetters. by case_match. Qed.

Lemma cursors_enforce now lims c s c' : cursors (enforceRetryQueueLimit now lims c s).2 c' = cursors s c'.
Proof.
  unfold enforceRetryQueueLimit. repeat case_match; try done. cbn [snd].
  unfold incrementMetric. rewrite cursors_metrics. apply cursors_set. apply cursors_prune.
Qed.

Lemma cursors_enqueue now c e o s c' : cursors (enqueueRetryItem now c e o s).2 c' = cursors s c'.
Proof. cbn [enqueueRetryItem snd]. rewrite cursors_enforce. by apply cursors_set. Qed.

Lemma cursors_record now c e st m lims s c' :
  cursors (recordProcessedEvent now c e st m lims s) c' = cursors s c'.
Proof.
  unfold recordProcessedEvent. apply cursors_set. unfold pruneProcessedRecords.
  destruct (prune_processed _ _ _). cbn [set_processed last_block last_request_id last_discovery_at].
  case_match; [rewrite cursors_prune|]; done.
Qed.

Lemma cursors_schedule now rng c e msg cfg lims s c' :
  cursors (scheduleRetry now rng c e msg cfg lims s).2 c' = cursors s c'.
Proof.
  unfold scheduleRetry. case_match; cbn [snd]; [|rewrite cursors_enforce]; by apply cursors_set.
Qed.

#[export] Instance cursors_invariant c (P : option jsnum * option jsnum * Z -> Prop) :
  StateInvariant (fun s => P (cursors s c)).
Proof.
  split; intros.
  - by rewrite cursors_metrics.
  - by rewrite cursors_enqueue.
  - by rewrite cursors_record.
  - by rewrite cursors_schedule.
  - unfold clearRetryItem. by rewrite cursors_set.
  - unfold removeDeadLetter. by rewrite cursors_set.
  - unfold removeProcessedEvent. by rewrite cursors_set.
Qed.
