(* ===== verification/StateSpec.v ===== *)
(** * Specification of the relayer state

    What [state.js] promises to the queue and fulfillment code: injective event
    keys, an invariant kept by every operation, exact retry budgets, loss-free
    shedding and bounded, first-in-first-out processed records. *)
From S2P Require Import Prelude Numbers Strings Values State StateFacts.
From Stdlib Require Import QArith Sorted.
From stdpp Require Import sorting.
#[local] Open Scope list_scope.
#[local] Open Scope Z_scope.

(** ** Event keys *)

Definition no_colon (s : string) : bool := str_forall (not_char ":") s.

(** Deduplication keys are unambiguous: when request ids and transaction
    hashes carry no colon (they are decimal numbers and hexadecimal hashes), two
    events have the same key only if they agree on the chain, the request id (a
    missing id reading as [0]), the transaction hash, the log index and the
    block number. *)
Theorem buildEventKey_inj : forall e e',
  no_colon (ev_requestId e) = true -> no_colon (ev_requestId e') = true ->
  no_colon (ev_txHash e) = true -> no_colon (ev_txHash e') = true ->
  buildEventKey e = buildEventKey e' ->
  ev_chain e = ev_chain e' /\ ev_requestId e ||s "0" = ev_requestId e' ||s "0" /\
  ev_txHash e = ev_txHash e' /\ ev_logIndex e = ev_logIndex e' /\
  ev_blockNumber e = ev_blockNumber e'.
Proof.
  intros e e' Hr Hr' Ht Ht'. rewrite !buildEventKey_unfold. intros H.
  assert (forall s, no_colon s = true -> no_colon (s ||s "0") = true) as Hor.
  { intros s. unfold or_str. by case_decide. }
  apply split_sep_inj in H as [Hc H]; [|by destruct (ev_chain e)|by destruct (ev_chain e')].
  apply split_sep_inj in H as [Hid H]; [|by apply Hor..].
  apply split_sep_inj in H as [Htx H]; [|done..].
  apply split_sep_inj in H as [Hl Hb]; [|apply opt_num_text_no_colon..].
  split_and!; auto using chain_name_inj, opt_num_text_inj.
Qed.

Definition sample_event (id tx : string) : event :=
  Event neo_n3 id "privacy_oracle" "" "" "" "" "" "" "" tx (Some 0) (Some 17) 0 "".

Example buildEventKey_ex : buildEventKey (sample_event "12" "0xab") = "neo_n3:12:0xab:0:17".
Proof. reflexivity. Qed.

Example buildEventKey_inj_witness :
  ev_requestId (sample_event "12" "0xab") ||s "0" = ev_requestId (sample_event "12" "0xab") ||s "0".
Proof.
  apply (buildEventKey_inj (sample_event "12" "0xab") (sample_event "12" "0xab"));
    vm_compute; reflexivity.
Defined.

(** ** The invariant over every sequence of operations *)

(** One operation of [state.js], or an assignment of a cursor by its callers. *)
Inductive state_step : relayer_state -> relayer_state -> Prop :=
| step_metric n d s : state_step s (incrementMetric n d s)
| step_labeled c m o d s : state_step s (incrementLabeledFailure c m o d s)
| step_stamp n v s : state_step s (set_stamp n v s)
| step_removeProcessed c k s : state_step s (removeProcessedEvent c k s)
| step_removeDead c k s : state_step s (removeDeadLetter c k s)
| step_clear c k s : state_step s (clearRetryItem c k s)
| step_enforce now lims c s : state_step s (enforceRetryQueueLimit now lims c s).2
| step_enqueue now c e o s : state_step s (enqueueRetryItem now c e o s).2
| step_record now c e st m lims s :
    0 <= processedCacheSize lims -> state_step s (recordProcessedEvent now c e st m lims s)
| step_schedule now rng c e msg cfg lims s :
    state_step s (scheduleRetry now rng c e msg cfg lims s).2
| step_block c b s : state_step s (set_chain c (set_last_block b (chain_at s c)) s)
| step_request c b s : state_step s (set_chain c (set_last_request_id b (chain_at s c)) s)
| step_discovery c t s : state_step s (set_chain c (set_last_discovery_at t (chain_at s c)) s).

Lemma state_step_wf s s' : state_step s s' -> state_wf s -> state_wf s'.
Proof.
  intros Hstep Hs. destruct Hstep; auto with relayer_state;
    try (by apply state_wf_metrics);
    apply state_wf_set; try done; destruct (Hs c); by split.
Qed.

Lemma state_steps_wf s s' : rtc state_step s s' -> state_wf s -> state_wf s'.
Proof. induction 1; eauto using state_step_wf. Qed.

#[export] Hint Constructors state_step : relayer_state.

(** In every state reachable from the empty state by the operations of
    [state.js], in any order and on any chain, the processed order enumerates
    exactly the processed records without repetition, records sit under their
    own key, and the retry queue holds at most one item per event key. *)
Theorem reachable_state_wf : forall s c,
  rtc state_step createEmptyRelayerState s ->
  let cs := chain_at s c in
  NoDup (processed_order cs) /\
  (forall k, k ∈ processed_order cs <-> is_Some (processed_records cs !! k)) /\
  (forall k r, processed_records cs !! k = Some r -> pr_key r = k) /\
  NoDup (ri_key <$> retry_queue cs) /\
  (forall it, it ∈ retry_queue cs -> ri_key it = buildEventKey (ri_event it)).
Proof.
  intros s c Hr cs. pose proof (state_steps_wf _ _ Hr empty_wf c) as [].
  split_and!; try done. by apply Forall_forall.
Qed.

Definition no_limits : limits := Limits 0 0 0.
Definition sample_options : retry_options := RetryOptions 0 0 None "" "" false "" None false no_limits.
Definition sample_queued : relayer_state :=
  (enqueueRetryItem 1000 neo_n3 (sample_event "12" "0xab") sample_options createEmptyRelayerState).2.

Example reachable_state_wf_witness : NoDup (ri_key <$> retry_queue (chain_at sample_queued neo_n3)).
Proof.
  apply (reachable_state_wf sample_queued neo_n3).
  apply rtc_once. apply step_enqueue.
Defined.

(** ** Shedding overflow *)

Lemma js_slice_neg {A} n (l : list A) :
  0 < n -> js_slice_from (- n) l = drop (length l - Z.to_nat n) l.
Proof.
  intros Hn. unfold js_slice_from. rewrite (proj2 (Z.ltb_lt _ _)) by lia. f_equal. lia.
Qed.

Lemma pruneDeadLetters_spec lim cs :
  0 < lim ->
  dead_letters (pruneDeadLetters lim cs)
    = drop (length (dead_letters cs) - Z.to_nat lim) (dead_letters cs) /\
  Z.of_nat (length (dead_letters (pruneDeadLetters lim cs))) <= lim.
Proof.
  intros Hl. unfold pruneDeadLetters. case_match eqn:E; simpl.
  - rewrite js_slice_neg by done. rewrite length_drop. split; [done|lia].
  - assert (length (dead_letters cs) - Z.to_nat lim = 0)%nat as -> by lia.
    split; [done|lia].
Qed.

Lemma enforce_noop now lims c s :
  retryQueueLimit lims <= 0 -> (enforceRetryQueueLimit now lims c s).2 = s.
Proof. intros H. unfold enforceRetryQueueLimit. by rewrite (proj2 (Z.leb_le _ _)) by lia. Qed.

Lemma enforce_processed now lims c s c' :
  processed_records (chain_at (enforceRetryQueueLimit now lims c s).2 c')
    = processed_records (chain_at s c') /\
  processed_order (chain_at (enforceRetryQueueLimit now lims c s).2 c')
    = processed_order (chain_at s c').
Proof.
  unfold enforceRetryQueueLimit. repeat case_match; try done. simpl.
  destruct (decide (c = c')) as [->|].
  - autorewrite with relayer_state. unfold pruneDeadLetters. by case_match.
  - rewrite chain_at_incr, chain_at_set_ne by done. done.
Qed.

(** A retry-queue ceiling never loses an item: enforcing a positive limit
    leaves at most [limit] items, keeps the newest ones in order, and (when the
    dead-letter ring has room for them) turns exactly the shed prefix into dead
    letters, counted by the returned number and the overflow metric. *)
Theorem enforceRetryQueueLimit_lossless : forall now lims c s,
  0 < retryQueueLimit lims ->
  Z.of_nat (length (dead_letters (chain_at s c)) + length (retry_queue (chain_at s c)))
    <= deadLetterLimit lims ->
  let q := retry_queue (chain_at s c) in
  let '(n, s') := enforceRetryQueueLimit now lims c s in
  exists shed,
    q = shed ++ retry_queue (chain_at s' c) /\
    n = Z.max (Z.of_nat (length q) - retryQueueLimit lims) 0 /\
    Z.of_nat (length shed) = n /\
    dead_letters (chain_at s' c) = dead_letters (chain_at s c) ++ (shed_letter now c <$> shed) /\
    default 0 (counters (st_metrics s') !! "retry_queue_overflow_total")
      = default 0 (counters (st_metrics s) !! "retry_queue_overflow_total") + n.
Proof.
  intros now lims c s Hl Hd q. unfold enforceRetryQueueLimit. fold q in Hd |- *.
  assert (Z.max (retryQueueLimit lims) 0 = retryQueueLimit lims) as -> by lia.
  rewrite (proj2 (Z.leb_gt _ _)) by done.
  destruct (Z.of_nat (length q) <=? retryQueueLimit lims) eqn:E.
  { exists []. rewrite app_nil_r. split_and!; simpl; try done; lia. }
  simpl. set (k := Z.to_nat (Z.of_nat (length q) - retryQueueLimit lims)).
  exists (take k q). autorewrite with relayer_state.
  assert (Z.of_nat k = Z.of_nat (length q) - retryQueueLimit lims) as Hkz by (unfold k; lia).
  assert (length (take k q) = k) as Hk by (rewrite length_take; lia).
  assert (deadLetterLimit lims ||n 200 = deadLetterLimit lims) as ->.
  { unfold or_num. case_decide; lia. }
  assert (forall cs, retry_queue (pruneDeadLetters (deadLetterLimit lims) cs) = retry_queue cs) as Hrq.
  { intros. unfold pruneDeadLetters. by case_match. }
  split_and!.
  - rewrite Hrq. simpl. by rewrite take_drop.
  - lia.
  - done.
  - rewrite (proj1 (pruneDeadLetters_spec (deadLetterLimit lims) _ ltac:(lia))). simpl.
    rewrite length_app, length_fmap, Hk.
    assert (length (dead_letters (chain_at s c)) + k - Z.to_nat (deadLetterLimit lims) = 0)%nat as ->
      by lia.
    done.
  - simpl. rewrite lookup_insert_eq. simpl. by rewrite ?metrics_set_chain, ?Hk.
Qed.

Definition sample_two : relayer_state :=
  (enqueueRetryItem 2000 neo_n3 (sample_event "13" "0xcd") sample_options sample_queued).2.

Example enforceRetryQueueLimit_lossless_witness :
  exists shed, retry_queue (chain_at sample_two neo_n3)
    = shed ++ retry_queue (chain_at (enforceRetryQueueLimit 3000 (Limits 1 10 100) neo_n3 sample_two).2 neo_n3).
Proof.
  pose proof (enforceRetryQueueLimit_lossless 3000 (Limits 1 10 100) neo_n3 sample_two
    ltac:(vm_compute; reflexivity) ltac:(vm_compute; discriminate)) as H.
  destruct H as (shed & Hq & _). exists shed. exact Hq.
Defined.

(** The ceiling sheds from the head, so an item that is replaced in place (a
    key already queued) can be the very item that is shed, although its
    enqueuer has just put it there: the queue may exceed the ceiling because the
    hydration and manual-action lanes enqueue without one. *)
Lemma enqueue_existing_shed :
  let o := RetryOptions 1 5000 None "callback_pending" "" false "" None false (Limits 1 10 100) in
  let e := sample_event "12" "0xab" in
  let s' := (enqueueRetryItem 3000 neo_n3 e o sample_two).2 in
  isEventQueuedForRetry s' neo_n3 (buildEventKey e) = false /\
  isEventQueuedForRetry s' neo_n3 (buildEventKey (sample_event "13" "0xcd")) = true.
Proof. vm_compute. split; reflexivity. Qed.

(** ** Recording a processed event *)

Lemma pruneProcessed_spec lim cs :
  0 < lim ->
  exists evicted,
    processed_order cs = evicted ++ processed_order (pruneProcessedRecords lim cs) /\
    Z.of_nat (length evicted) = Z.max (Z.of_nat (length (processed_order cs)) - lim) 0 /\
    (forall k, processed_records (pruneProcessedRecords lim cs) !! k
       = if decide (k ∈ evicted /\ k <> "") then None else processed_records cs !! k) /\
    retry_queue (pruneProcessedRecords lim cs) = retry_queue cs /\
    dead_letters (pruneProcessedRecords lim cs) = dead_letters cs.
Proof.
  intros Hl. unfold pruneProcessedRecords.
  destruct (prune_processed_spec lim (processed_order cs) (processed_records cs) ltac:(lia))
    as (ev & ? & ? & ?).
  exists ev. by destruct (prune_processed _ _ _).
Qed.

Lemma record_unfold now c e st m lims s :
  0 <= processedCacheSize lims ->
  exists lim cs,
    lim = processedCacheSize lims ||n 5000 /\ 0 < lim /\
    chain_at (recordProcessedEvent now c e st m lims s) c = pruneProcessedRecords lim cs /\
    processed_records cs
      = <[buildEventKey e := processed_record_of now e st m]> (processed_records (chain_at s c)) /\
    processed_order cs = (match processed_records (chain_at s c) !! buildEventKey e with
      | None => processed_order (chain_at s c) ++ [buildEventKey e]
      | Some _ => processed_order (chain_at s c) end) /\
    retry_queue cs = clear_item (buildEventKey e) (retry_queue (chain_at s c)).
Proof.
  intros Hl. unfold recordProcessedEvent. rewrite chain_at_set_eq.
  eexists _, _. split; [reflexivity|]. split; [unfold or_num; case_decide; lia|].
  split; [reflexivity|]. unfold pruneDeadLetters. repeat (case_match; simpl; auto).
Qed.

(** A fresh event's record is the newest, so pruning keeps it. *)
Lemma record_present now c e st m lims s :
  state_wf s -> 0 <= processedCacheSize lims ->
  processed_records (chain_at s c) !! buildEventKey e = None ->
  processed_records (chain_at (recordProcessedEvent now c e st m lims s) c) !! buildEventKey e
    = Some (processed_record_of now e st m).
Proof.
  intros Hwf Hl Hnew.
  destruct (record_unfold now c e st m lims s Hl) as (lim & cs & _ & Hl0 & Hcs & Hrec & Hord & Hq).
  destruct (pruneProcessed_spec _ cs Hl0) as (ev & Ho & Hn & Hr & _). rewrite Hcs.
  rewrite Hr, Hrec, lookup_insert_eq. rewrite decide_False; [done|]. intros [Hin _].
  rewrite Hnew in Hord. rewrite Hord in Ho, Hn.
  assert (buildEventKey e ∉ processed_order (chain_at s c)) as Hnin.
  { destruct (Hwf c) as [_ Hdom _ _ _ _]. rewrite Hdom. by rewrite Hnew; intros [? ?]. }
  apply list_elem_of_lookup_1 in Hin as [i Hi].
  assert (i < length ev)%nat as Hilt by (by eapply lookup_lt_Some).
  assert ((processed_order (chain_at s c) ++ [buildEventKey e]) !! i = Some (buildEventKey e)) as Hlk.
  { rewrite Ho. by apply lookup_app_l_Some. }
  rewrite length_app in Hn. simpl in Hn.
  rewrite lookup_app_l in Hlk by lia. apply Hnin. by eapply list_elem_of_lookup_2.
Qed.

(** Recording an outcome settles the event: afterwards it is not queued,
    no other event's queue membership changes, at most [processedCacheSize]
    records remain, and a fresh event's record is present with its status. *)
Theorem recordProcessedEvent_settles : forall now c e st m lims s,
  state_wf s -> 0 < processedCacheSize lims ->
  let key := buildEventKey e in
  let s' := recordProcessedEvent now c e st m lims s in
  isEventQueuedForRetry s' c key = false /\
  (forall k, k <> key -> isEventQueuedForRetry s' c k = isEventQueuedForRetry s c k) /\
  Z.of_nat (length (processed_order (chain_at s' c))) <= processedCacheSize lims /\
  (hasProcessedEvent s c key = false ->
   processed_records (chain_at s' c) !! key = Some (processed_record_of now e st m)).
Proof.
  intros now c e st m lims s Hwf Hl key s'.
  destruct (record_unfold now c e st m lims s ltac:(lia)) as (lim & cs & Hlim & Hl0 & Hcs & Hrec & Hord & Hq).
  assert (lim = processedCacheSize lims) as -> by (subst lim; unfold or_num; case_decide; lia).
  destruct (pruneProcessed_spec _ cs Hl) as (ev & Ho & Hn & Hr & Hrq & _).
  fold s' key in Hcs, Hrec, Hord, Hq. rewrite Hcs.
  assert (forall k, isEventQueuedForRetry s' c k = true <-> k ∈ keys (clear_item key (retry_queue (chain_at s c)))) as Hmem.
  { intros k. by rewrite isEventQueued_keys, Hcs, Hrq, Hq. }
  split_and!.
  - apply not_true_iff_false. rewrite Hmem. apply clear_item_keys.
  - intros k Hk. apply eq_true_iff_eq. rewrite Hmem, isEventQueued_keys. by apply clear_item_other.
  - apply (f_equal length) in Ho. rewrite length_app in Ho. lia.
  - intros Hnew. apply bool_decide_eq_false, eq_None_not_Some in Hnew.
    rewrite <-Hcs. by apply record_present; [|lia|].
Qed.

Definition sample_meta : meta := Meta 1 "/oracle/smart-fetch" "oracle.fetch" "privacy_oracle" "" "" VNull (Some 200).

Example recordProcessedEvent_settles_witness :
  isEventQueuedForRetry (recordProcessedEvent 5000 neo_n3 (sample_event "12" "0xab") "fulfilled"
    sample_meta (Limits 0 10 100) sample_two) neo_n3 "neo_n3:12:0xab:0:17" = false.
Proof.
  apply (recordProcessedEvent_settles 5000 neo_n3 (sample_event "12" "0xab") "fulfilled"
    sample_meta (Limits 0 10 100) sample_two); [|vm_compute; reflexivity].
  apply (state_steps_wf createEmptyRelayerState); [|apply empty_wf].
  eapply rtc_l; [apply step_enqueue|]. eapply rtc_l; [apply step_enqueue|]. apply rtc_refl.
Defined.

(** ** The retry budget *)

Definition queued_attempts (s : relayer_state) (c : chain) (key : string) : Z :=
  from_option ri_attempts 0
    (snd <$> list_find (fun it => ri_key it = key) (retry_queue (chain_at s c))).

(** Fail the same event once per draw [(now, rng)]. *)
Fixpoint fail_repeatedly (draws : list (Z * Q)) (c : chain) (e : event) (msg : string)
    (cfg : retry_config) (lims : limits) (s : relayer_state) : list retry_result * relayer_state :=
  match draws with
  | [] => ([], s)
  | (now, rng) :: draws =>
      let '(r, s1) := scheduleRetry now rng c e msg cfg lims s in
      let '(rs, s2) := fail_repeatedly draws c e msg cfg lims s1 in
      (r :: rs, s2)
  end.

Definition result_attempts (r : retry_result) : Z :=
  match r with Exhausted _ a _ => a | Scheduled _ it => ri_attempts it end.

Definition is_exhausted (r : retry_result) : bool :=
  match r with Exhausted _ _ _ => true | Scheduled _ _ => false end.

Section retry_step.
Context (now : Z) (rng : Q) (c : chain) (e : event) (msg : string).
Context (cfg : retry_config) (lims : limits) (s : relayer_state).
Context (Hlim : retryQueueLimit lims <= 0).
#[local] Abbreviation key := (buildEventKey e).
#[local] Abbreviation res := (scheduleRetry now rng c e msg cfg lims s).

Lemma schedule_within :
  queued_attempts s c key + 1 <= maxRetries cfg ->
  exists it, res.1 = Scheduled key it /\ ri_attempts it = queued_attempts s c key + 1 /\
    queued_attempts res.2 c key = queued_attempts s c key + 1.
Proof using Hlim.
  intros H. unfold scheduleRetry. unfold queued_attempts in *.
  rewrite (proj2 (Z.ltb_ge _ _)) by lia. simpl. eexists. split_and!; [reflexivity|done|].
  rewrite enforce_noop, chain_at_set_eq by done. simpl.
  match goal with |- context [put_item ?it ?q] => pose proof (find_put it q) as Hf end.
  simpl in Hf. by rewrite Hf.
Qed.

Lemma schedule_beyond :
  maxRetries cfg < queued_attempts s c key + 1 ->
  res.1 = Exhausted key (queued_attempts s c key + 1) msg /\
  isEventQueuedForRetry res.2 c key = false.
Proof using.
  intros H. unfold scheduleRetry. unfold queued_attempts in *.
  rewrite (proj2 (Z.ltb_lt _ _)) by lia. simpl. split; [done|].
  apply not_true_iff_false. rewrite isEventQueued_keys, chain_at_set_eq. apply clear_item_keys.
Qed.
End retry_step.

(** The retry budget is exact: an event that is queued with [a] attempts
    (0 when absent) and keeps failing is rescheduled with attempts [a+1], [a+2],
    ..., [maxRetries], and the next failure is reported exhausted with attempts
    [maxRetries + 1] and removed from the queue. *)
Theorem retry_budget_exact : forall draws c e msg cfg lims s,
  retryQueueLimit lims <= 0 ->
  let a := queued_attempts s c (buildEventKey e) in
  a <= maxRetries cfg -> Z.of_nat (length draws) = maxRetries cfg - a + 1 ->
  let '(rs, s') := fail_repeatedly draws c e msg cfg lims s in
  result_attempts <$> rs = seqZ (a + 1) (maxRetries cfg - a + 1) /\
  last rs = Some (Exhausted (buildEventKey e) (maxRetries cfg + 1) msg) /\
  Forall (fun r => is_exhausted r = false) (take (length draws - 1) rs) /\
  isEventQueuedForRetry s' c (buildEventKey e) = false.
Proof.
  intros draws c e msg cfg lims s Hlim a. subst a.
  revert s. induction draws as [|[now rng] draws IH]; intros s Ha Hlen; [simpl in Hlen; lia|].
  cbn [fail_repeatedly]. rewrite length_cons in Hlen.
  set (a := queued_attempts s c (buildEventKey e)) in *.
  destruct (decide (a = maxRetries cfg)) as [Heq|Hne].
  - assert (draws = []) as -> by (destruct draws; [done|rewrite length_cons in Hlen; lia]).
    destruct (schedule_beyond now rng c e msg cfg lims s) as [Hr Hq]; [fold a; lia|].
    destruct (scheduleRetry _ _ _ _ _ _ _ s) as [r s1]. simpl in *. subst r. fold a.
    replace (maxRetries cfg - a + 1) with 1 by lia. rewrite Heq.
    split_and!; try done.
  - destruct (schedule_within now rng c e msg cfg lims s Hlim) as (it & Hr & Hit & Hq); [fold a; lia|].
    destruct (scheduleRetry _ _ _ _ _ _ _ s) as [r s1]. simpl in Hr, Hq. subst r.
    specialize (IH s1). rewrite Hq in IH. fold a in IH, Hit.
    specialize (IH ltac:(lia) ltac:(lia)).
    destruct (fail_repeatedly draws _ _ _ _ _ s1) as [rs s2]. destruct IH as (H1 & H2 & H3 & H4).
    split_and!.
    + rewrite fmap_cons, H1. simpl result_attempts. rewrite Hit, (seqZ_cons (a + 1)) by lia.
      f_equal; f_equal; lia.
    + by destruct rs.
    + destruct draws as [|d draws]; [simpl in Hlen; lia|]. simpl. constructor; [done|].
      replace (length draws - 0)%nat with (length draws) by lia. simpl in H3.
      by replace (length draws - 0)%nat with (length draws) in H3 by lia.
    + done.
Qed.

Definition sample_retry_config : retry_config := RetryConfig 2 5000 10000.

Example retry_budget_exact_witness :
  last (fail_repeatedly [(1, 0%Q); (2, 0%Q); (3, 0%Q)] neo_n3 (sample_event "12" "0xab") "boom"
    sample_retry_config no_limits createEmptyRelayerState).1
  = Some (Exhausted "neo_n3:12:0xab:0:17" 3 "boom").
Proof.
  pose proof (retry_budget_exact [(1, 0%Q); (2, 0%Q); (3, 0%Q)] neo_n3 (sample_event "12" "0xab") "boom"
    sample_retry_config no_limits createEmptyRelayerState
    ltac:(vm_compute; discriminate) ltac:(vm_compute; discriminate) ltac:(vm_compute; reflexivity)) as H.
  destruct H as (_ & H & _). exact H.
Defined.

(** A rescheduled item is due within the jitter band of its attempt: its
    delay lies between half the exponential ceiling and the ceiling, never above
    the configured maximum, and the ceiling grows with the attempt count. *)
Theorem scheduleRetry_delay_band : forall now rng c e msg cfg lims s key it s',
  0 <= retryBaseDelayMs cfg -> 0 <= retryMaxDelayMs cfg -> (0 <= rng)%Q -> (rng < 1)%Q ->
  scheduleRetry now rng c e msg cfg lims s = (Scheduled key it, s') ->
  let ceiling := retry_ceiling (retryBaseDelayMs cfg) (retryMaxDelayMs cfg) (ri_attempts it) in
  let delay := ri_next_retry_at it - now in
  ceiling <= 2 * delay /\ delay <= ceiling /\ ceiling <= retryMaxDelayMs cfg /\
  ceiling <= retry_ceiling (retryBaseDelayMs cfg) (retryMaxDelayMs cfg) (ri_attempts it + 1).
Proof.
  intros now rng c e msg cfg lims s key it s' Hb Hm Hr0 Hr1. unfold scheduleRetry.
  case_match; [done|]. intros [= <- <- _]. cbn [ri_attempts ri_next_retry_at].
  set (a := _ + 1).
  pose proof (delay_upper_aux _ _ a rng Hb Hm Hr0 Hr1).
  pose proof (delay_lower_aux _ _ a rng Hb Hm Hr0 Hr1).
  pose proof (retry_ceiling_mono (retryBaseDelayMs cfg) (retryMaxDelayMs cfg) a (a + 1) Hb ltac:(lia)).
  split_and!; try lia. unfold retry_ceiling. lia.
Qed.

Definition sample_scheduled : retry_item :=
  RetryItem "neo_n3:12:0xab:0:17" (sample_event "12" "0xab") 1 4750 1000 1000 "boom" "" false "" None false.

Example scheduleRetry_delay_band_witness :
  retry_ceiling 5000 10000 1 <= 2 * 3750.
Proof.
  apply (scheduleRetry_delay_band 1000 (1 # 2) neo_n3 (sample_event "12" "0xab") "boom"
    sample_retry_config no_limits createEmptyRelayerState "neo_n3:12:0xab:0:17" sample_scheduled
    (scheduleRetry 1000 (1 # 2) neo_n3 (sample_event "12" "0xab") "boom"
       sample_retry_config no_limits createEmptyRelayerState).2);
    vm_compute; first [discriminate | reflexivity].
Defined.

(** ** Due items *)

Definition due_le (x y : retry_item) : Prop := ri_next_retry_at x <= ri_next_retry_at y.

Lemma insert_due_perm x l : insert_due x l ≡ₚ x :: l.
Proof.
  induction l as [|y l IH]; simpl; [done|]. case_match; [done|].
  rewrite IH. by constructor.
Qed.

Lemma sort_due_perm l : sort_due l ≡ₚ l.
Proof. induction l as [|x l IH]; simpl; [done|]. by rewrite insert_due_perm, IH. Qed.

Lemma insert_due_sorted x l : StronglySorted due_le l -> StronglySorted due_le (insert_due x l).
Proof.
  induction 1 as [|y l Hl IH Hy]; simpl; [by repeat constructor|]. case_match.
  - constructor; [by constructor|]. constructor; [unfold due_le; lia|].
    eapply Forall_impl; [done|]. unfold due_le. intros; lia.
  - constructor; [done|]. rewrite insert_due_perm. constructor; [unfold due_le; lia|done].
Qed.

Lemma sort_due_sorted l : StronglySorted due_le (sort_due l).
Proof. induction l; simpl; [constructor|by apply insert_due_sorted]. Qed.

Lemma insert_due_stable t x l :
  filter (fun y => ri_next_retry_at y = t) (insert_due x l)
  = filter (fun y => ri_next_retry_at y = t) (x :: l).
Proof.
  induction l as [|y l IH]; [done|]. simpl insert_due. case_match; [done|].
  rewrite !filter_cons, IH, !filter_cons. repeat case_decide; try done. lia.
Qed.

Lemma sort_due_stable t l :
  filter (fun y => ri_next_retry_at y = t) (sort_due l) = filter (fun y => ri_next_retry_at y = t) l.
Proof.
  induction l as [|x l IH]; [done|]. simpl sort_due. rewrite insert_due_stable.
  by rewrite !filter_cons, IH.
Qed.

(** The due list is exactly the queued items whose time has come, earliest
    first, items due at the same instant keeping their queue order. *)
Theorem getDueRetryItems_sorted : forall s c now,
  let due := getDueRetryItems s c now in
  (forall it, it ∈ due <-> it ∈ retry_queue (chain_at s c) /\ ri_next_retry_at it <= now) /\
  due ≡ₚ filter (fun it => ri_next_retry_at it <= now) (retry_queue (chain_at s c)) /\
  StronglySorted due_le due /\
  (forall t, t <= now ->
     filter (fun it => ri_next_retry_at it = t) due
     = filter (fun it => ri_next_retry_at it = t) (retry_queue (chain_at s c))).
Proof.
  intros s c now due. unfold due, getDueRetryItems. split_and!.
  - intros it. rewrite sort_due_perm, list_elem_of_filter. tauto.
  - apply sort_due_perm.
  - apply sort_due_sorted.
  - intros t Ht. rewrite sort_due_stable, list_filter_filter.
    apply list_filter_iff. intros x. lia.
Qed.
