(* ===== verification/Config.v ===== *)
(** * The relayer configuration the core reads

    The fields of the object [createRelayerConfig] builds ([config.js]) that the
    queue, cursor, processing and fulfillment code read.  A numeric option that
    the code reads with [||] is 0 when absent. *)
From S2P Require Import Prelude Numbers Strings Values Attestation State.

Record durable_config := DurableConfig {
  dq_enabled : bool;
  dq_failClosed : bool;
  dq_allowLocalClaimDuringBackoff : bool;
  dq_syncLimit : Z;
  dq_staleProcessingMs : Z;
}.

Record backpressure_config := BackpressureConfig {
  bp_maxFreshEventsPerTick : Z;
  bp_maxRetryEventsPerTick : Z;
  bp_deferDelayMs : Z;
}.

(** [nitro_pinned_verifier]: the oracle-verifier key the signer registry pins
    for the network, empty when none resolves. *)
Record nitro_config := NitroConfig {
  nitro_enclaveFulfill : bool;
  nitro_signerUrl : string;
  nitro_enclaveFulfillUrl : string;
  nitro_decryptUrl : string;
  nitro_verifyEnclaveSignature : bool;
  nitro_env_verify_signature : string;
  nitro_attestation : attestation_env;
  nitro_pinned_verifier : string;
}.

Record config := Config {
  cfg_network : string;
  cfg_mode : string;
  cfg_instanceId : string;
  cfg_activeChains : list chain;
  cfg_concurrency : Z;
  cfg_maxBlocksPerTick : Z;
  cfg_retry : retry_config;
  cfg_limits : limits;
  cfg_maxCallbackRetries : jsnum;
  cfg_durable : durable_config;
  cfg_backpressure : backpressure_config;
  cfg_startRequestIds : chain -> option jsnum;
  cfg_startBlocks : chain -> option jsnum;
  cfg_confirmations : chain -> Z;
  cfg_discoveryIdleBackoffMs : Z;
  cfg_nitro : nitro_config;
  cfg_oracleContract : string;
  cfg_networkMagic : jsnum;
  cfg_neox_chainId : Z;
  cfg_neox_oracleContract : string;
  cfg_neox_messageContract : string;
}.
