(* ===== verification/Text.v ===== *)
(** * Text operations and regular expressions

    [String.prototype.split] on one and on two separator characters,
    [indexOf]/[slice] at a character, [endsWith] and [parseInt], with the lemmas
    on splitting and joining; then the regular expressions the sources test
    strings with. *)
From S2P Require Import Prelude Numbers.
#[local] Open Scope list_scope.
#[local] Open Scope Z_scope.

(** The character [a] in front of the first part. *)
Definition push (a : ascii) (parts : list string) : list string :=
  match parts with [] => [String a ""] | x :: r => String a x :: r end.

(** [s.split(c)] *)
Fixpoint split (c : ascii) (s : string) : list string :=
  match s with
  | "" => [""]
  | String a s' => if Ascii.eqb a c then "" :: split c s' else push a (split c s')
  end.

(** [s.split(cc)], the separator being [c] twice. *)
Fixpoint split2 (c : ascii) (s : string) : list string :=
  match s with
  | "" => [""]
  | String a s' =>
      match s' with
      | String b s'' => if Ascii.eqb a c && Ascii.eqb b c then "" :: split2 c s'' else push a (split2 c s')
      | "" => [String a ""]
      end
  end.

(** What precedes and follows the first [c]; [None] without one. *)
Fixpoint cut (c : ascii) (s : string) : option (string * string) :=
  match s with
  | "" => None
  | String a s' =>
      if Ascii.eqb a c then Some ("", s')
      else match cut c s' with Some (b, r) => Some (String a b, r) | None => None end
  end.

(** [s.endsWith(t)] *)
Fixpoint endsWith (s t : string) : bool :=
  (s =? t)%string || match s with "" => false | String _ s' => endsWith s' t end.

(** The longest prefix in a class, and the longest digit prefix as a number. *)
Fixpoint take_while (f : ascii -> bool) (s : string) : string :=
  match s with
  | "" => ""
  | String a s' => if f a then String a (take_while f s') else ""
  end.

(** [parseInt(s, b)] for a radix [b] other than 16, and for 16 on a text without
    the prefix [0x]; [None] is [NaN]. *)
Definition parse_int (b : Z) (s : string) : option Z :=
  let read t := read_digits1 b (take_while (fun a => digit_value a <? b) t) in
  match trimStart s with
  | "" => None
  | String a t =>
      if Ascii.eqb a "-" then Z.opp <$> read t
      else if Ascii.eqb a "+" then read t else read (String a t)
  end.

(** ** Lemmas *)

Lemma str_cons_app a s t : String a s +:+ t = String a (s +:+ t).
Proof. reflexivity. Qed.

Lemma str_nil_app s : "" +:+ s = s.
Proof. reflexivity. Qed.

Lemma str_app_nil s : s +:+ "" = s.
Proof. induction s as [|a s IH]; [done|]. by rewrite str_cons_app, IH. Qed.

Lemma str_app_assoc s t u : s +:+ (t +:+ u) = (s +:+ t) +:+ u.
Proof. induction s as [|a s IH]; [done|]. by rewrite !str_cons_app, IH. Qed.

Lemma join_cons sep x y l : join sep (x :: y :: l) = x +:+ sep +:+ join sep (y :: l).
Proof. reflexivity. Qed.

Lemma push_ne a l : push a l <> [].
Proof. by destruct l. Qed.

Lemma split_ne c s : split c s <> [].
Proof. destruct s as [|a s]; simpl; [done|]. case_match; [done|]. apply push_ne. Qed.

Lemma join_push sep a l : l <> [] -> join sep (push a l) = String a (join sep l).
Proof. destruct l as [|x [|y l]]; done. Qed.

Lemma join_split c s : join (String c "") (split c s) = s.
Proof.
  induction s as [|a s IH]; [done|]. simpl split. case_match eqn:E.
  - apply Ascii.eqb_eq in E as ->. destruct (split c s) as [|x l] eqn:Es; [by apply split_ne in Es|].
    rewrite join_cons, IH. done.
  - rewrite join_push by apply split_ne. by rewrite IH.
Qed.

Lemma split_app c x t :
  str_forall (not_char c) x = true -> split c (x +:+ String c t) = x :: split c t.
Proof.
  induction x as [|a x IH]; intros H.
  - simpl. by rewrite Ascii.eqb_refl.
  - simpl in H. apply andb_true_iff in H as [Ha Hx]. rewrite str_cons_app. simpl.
    unfold not_char in Ha. apply negb_true_iff in Ha as ->. by rewrite IH.
Qed.

Lemma split_free c x : str_forall (not_char c) x = true -> split c x = [x].
Proof.
  induction x as [|a x IH]; simpl; [done|].
  intros [Ha Hx]%andb_true_iff. unfold not_char in Ha. apply negb_true_iff in Ha as ->. by rewrite IH.
Qed.

Lemma split_join c l : l <> [] -> Forall (fun x => str_forall (not_char c) x = true) l ->
  split c (join (String c "") l) = l.
Proof.
  induction l as [|x [|y l] IH]; [done| |]; intros _ [Hx Hl]%Forall_cons.
  - by apply split_free.
  - rewrite join_cons. change (String c "" +:+ ?z) with (String c z). rewrite split_app by done.
    by rewrite IH.
Qed.

Lemma split_parts c s : Forall (fun x => str_forall (not_char c) x = true) (split c s).
Proof.
  induction s as [|a s IH]; simpl; [by repeat constructor|]. case_match eqn:E; [by constructor|].
  destruct (split c s) as [|x l]; simpl; repeat constructor.
  - simpl. unfold not_char. by rewrite E.
  - simpl. apply Forall_cons in IH as [Hx _]. unfold not_char at 1. by rewrite E.
  - by apply Forall_cons in IH as [_ ?].
Qed.

Lemma join_free c d l :
  Ascii.eqb d c = false -> Forall (fun x => str_forall (not_char c) x = true) l ->
  str_forall (not_char c) (join (String d "") l) = true.
Proof.
  intros Hd. induction l as [|x [|y l] IH]; intros Hl; [done| |]; apply Forall_cons in Hl as [Hx Hl].
  - done.
  - rewrite join_cons, !str_forall_app, Hx, IH by done. unfold not_char. simpl. by rewrite Hd.
Qed.

(** ** The doubled separator *)

(** No two adjacent [c]. *)
Fixpoint single (c : ascii) (s : string) : bool :=
  match s with
  | "" => true
  | String a s' =>
      match s' with String b _ => negb (Ascii.eqb a c && Ascii.eqb b c) | "" => true end && single c s'
  end.

Lemma single_cons c a s :
  single c (String a s)
  = match s with String b _ => negb (Ascii.eqb a c && Ascii.eqb b c) | "" => true end && single c s.
Proof. reflexivity. Qed.

Lemma split2_single c s : single c s = true -> split2 c s = [s].
Proof.
  induction s as [|a s IH]; [done|]. simpl. intros [Ha Hs]%andb_true_iff. rewrite IH by done.
  destruct s; [done|]. by apply negb_true_iff in Ha as ->.
Qed.

Lemma single_join c l : Forall (fun x => x <> "" /\ str_forall (not_char c) x = true) l ->
  single c (join (String c "") l) = true.
Proof.
  assert (forall x t, str_forall (not_char c) x = true -> x <> "" ->
    (t = "" \/ exists b u, t = String c (String b u) /\ Ascii.eqb b c = false /\ single c (String b u) = true) ->
    single c (x +:+ t) = true) as Hx.
  { intros x t Hx Hne Ht. induction x as [|a x IH]; [done|].
    simpl in Hx. apply andb_true_iff in Hx as [Ha Hx]. apply negb_true_iff in Ha.
    rewrite str_cons_app. destruct x as [|b x].
    - change ("" +:+ t) with t. destruct Ht as [->|(b & u & -> & Hb & Hu)]; [done|].
      rewrite (single_cons c a), (single_cons c c), Hu, Ha, Hb, Ascii.eqb_refl. done.
    - rewrite str_cons_app in *. rewrite single_cons, Ha. apply IH; [|done]. done. }
  induction l as [|x [|y l] IH]; intros Hl; [done| |]; apply Forall_cons in Hl as [[Hne Hf] Hl].
  - change (join (String c "") [x]) with x. rewrite <-(str_app_nil x). apply Hx; auto.
  - rewrite join_cons. apply Hx; [done..|]. right.
    specialize (IH Hl). apply Forall_cons in Hl as [[Hne' Hf'] _].
    destruct y as [|b y]; [done|]. simpl in Hf'. apply andb_true_iff in Hf' as [Hb _].
    apply negb_true_iff in Hb.
    destruct l; [exists b, y|exists b, (y +:+ String c "" +:+ join (String c "") (s :: l))]; done.
Qed.

(** The last character is not [c]. *)
Fixpoint ends_free (c : ascii) (s : string) : bool :=
  match s with "" => true | String a "" => negb (Ascii.eqb a c) | String _ s' => ends_free c s' end.

Lemma split2_app c h t :
  single c h = true -> ends_free c h = true ->
  split2 c (h +:+ String c (String c t)) = h :: split2 c t.
Proof.
  induction h as [|a h IH]; intros Hs He.
  - change ("" +:+ ?y) with y. simpl. by rewrite Ascii.eqb_refl.
  - rewrite str_cons_app. destruct h as [|b h].
    + simpl in He. apply negb_true_iff in He. change ("" +:+ ?y) with y. simpl.
      by rewrite He, Ascii.eqb_refl.
    + cbn [single] in Hs. apply andb_true_iff in Hs as [Hab Hs]. apply negb_true_iff in Hab.
      specialize (IH Hs He). rewrite str_cons_app in *.
      cbn [split2]. cbn [split2] in IH. rewrite Hab, IH. done.
Qed.

Lemma ends_free_app c x y : y <> "" -> ends_free c (x +:+ y) = ends_free c y.
Proof.
  intros Hy. induction x as [|a x IH]; [done|]. rewrite str_cons_app. simpl. rewrite IH.
  destruct (x +:+ y) eqn:E; [|done]. destruct x; [by rewrite str_nil_app in E|done].
Qed.

Lemma ends_free_plain c x : str_forall (not_char c) x = true -> ends_free c x = true.
Proof.
  induction x as [|a x IH]; [done|]. simpl. intros [Ha Hx]%andb_true_iff. destruct x; auto.
Qed.

Lemma ends_free_join c l : Forall (fun x => x <> "" /\ str_forall (not_char c) x = true) l ->
  ends_free c (join (String c "") l) = true.
Proof.
  induction l as [|x [|y l] IH]; intros Hl; [done| |]; apply Forall_cons in Hl as [[Hne Hf] Hl].
  - by apply ends_free_plain.
  - rewrite join_cons, str_app_assoc, ends_free_app; [by apply IH|].
    apply Forall_cons in Hl as [[Hne' _] _]. destruct y; [done|]. by destruct l.
Qed.

Lemma push_join2 c a l : l <> [] ->
  join (String c (String c "")) (push a l) = String a (join (String c (String c "")) l).
Proof. apply join_push. Qed.

Lemma split2_ne c s : split2 c s <> [].
Proof. destruct s as [|a [|b s]]; simpl; [done..|]. case_match; [done|]. apply push_ne. Qed.

Lemma join_split2 c s : join (String c (String c "")) (split2 c s) = s.
Proof.
  induction s as [s IH] using (induction_ltof1 _ String.length).
  destruct s as [|a [|b s]]; [done..|]. simpl split2.
  case_match eqn:E.
  - apply andb_true_iff in E as [->%Ascii.eqb_eq ->%Ascii.eqb_eq].
    pose proof (IH s) as Hs. destruct (split2 c s) as [|x l] eqn:Es; [by apply split2_ne in Es|].
    rewrite join_cons, Hs by (unfold ltof; simpl; lia). done.
  - rewrite push_join2 by apply (split2_ne c (String b s)).
    pose proof (IH (String b s)) as Hs. simpl in Hs. rewrite Hs by (unfold ltof; simpl; lia). done.
Qed.

(** ** Digits *)

Lemma take_while_all f s : str_forall f s = true -> take_while f s = s.
Proof. induction s as [|a s IH]; simpl; [done|]. intros [-> Hs]%andb_true_iff. by rewrite IH. Qed.

Lemma digit_no_space a : digit_value a <? 36 = true -> js_space a = false.
Proof.
  intros H. apply not_true_iff_false. intros Hs. revert H Hs. revert a.
  assert (forall a, negb ((digit_value a <? 36) && js_space a) = true) as Ha.
  { apply ascii_all. vm_compute. reflexivity. }
  intros a H Hs. specialize (Ha a). by rewrite H, Hs in Ha.
Qed.

(** ** Regular expressions

    Classes, sequence, alternation, greedy repetition with bounds, the anchors [^]
    (also multi-line), [$] and the word boundary.  [test] is
    [RegExp.prototype.test]: whether some substring matches. *)

Inductive regex :=
| Eps
| Chars (f : ascii -> bool)
| Seq (a b : regex)
| Alt (a b : regex)
| Rep (least : nat) (most : option nat) (a : regex)
| Bol (multiline : bool)
| Eol
| WordB.

Definition word_char (a : ascii) : bool := (digit_value a <? 36) || Ascii.eqb a "_".
Definition is_word (o : option ascii) : bool := match o with Some a => word_char a | None => false end.
Definition line_break (a : ascii) : bool := (code a =? 10) || (code a =? 13).
Definition next (s : string) : option ascii := match s with "" => None | String a _ => Some a end.

(** Up to [n] further copies of [m] and then [k]; an empty copy ends the loop. *)
Fixpoint repeat_match (n : nat) (m : option ascii -> string -> (option ascii -> string -> bool) -> bool)
    (prev : option ascii) (s : string) (k : option ascii -> string -> bool) : bool :=
  if k prev s then true
  else
    match n with
    | O => false
    | S n => m prev s (fun prev' s' =>
               if (String.length s' <? String.length s)%nat then repeat_match n m prev' s' k else false)
    end.

(** Exactly [n] copies of [m] and then [k]. *)
Fixpoint times_match (n : nat) (m : option ascii -> string -> (option ascii -> string -> bool) -> bool)
    (prev : option ascii) (s : string) (k : option ascii -> string -> bool) : bool :=
  match n with O => k prev s | S n => m prev s (fun prev' s' => times_match n m prev' s' k) end.

(** [prev] is the character before [s]; [k] is what follows the match. *)
Fixpoint re_match (r : regex) (prev : option ascii) (s : string)
    (k : option ascii -> string -> bool) : bool :=
  match r with
  | Eps => k prev s
  | Chars f => match s with String a s' => if f a then k (Some a) s' else false | "" => false end
  | Seq a b => re_match a prev s (fun prev' s' => re_match b prev' s' k)
  | Alt a b => if re_match a prev s k then true else re_match b prev s k
  | Rep least most a =>
      times_match least (re_match a) prev s (fun prev' s' =>
        repeat_match (match most with Some n => (n - least)%nat | None => String.length s' end)
          (re_match a) prev' s' k)
  | Bol multiline =>
      match prev with None => k prev s | Some a => if multiline && line_break a then k prev s else false end
  | Eol => match s with "" => k prev s | _ => false end
  | WordB => if Bool.eqb (is_word prev) (is_word (next s)) then false else k prev s
  end.

Fixpoint search (r : regex) (prev : option ascii) (s : string) : bool :=
  if re_match r prev s (fun _ _ => true) then true
  else match s with "" => false | String a s' => search r (Some a) s' end.

Definition test (r : regex) (s : string) : bool := search r None s.

(** Literal text, with and without the [i] flag, and common classes. *)
Fixpoint text_re (ignore_case : bool) (s : string) : regex :=
  match s with
  | "" => Eps
  | String a s' =>
      Seq (Chars (fun b => if ignore_case then Ascii.eqb (lower b) (lower a) else Ascii.eqb b a))
          (text_re ignore_case s')
  end.

Definition opt (r : regex) : regex := Rep 0 (Some 1%nat) r.
Definition star (r : regex) : regex := Rep 0 None r.
Definition digit_re : regex := Chars (fun a => digit_value a <? 10).
Definition seqs (rs : list regex) : regex := foldr Seq Eps rs.
Definition alts (rs : list regex) : regex :=
  match rs with [] => Chars (fun _ => false) | r :: rs => foldl Alt r rs end.

Example test_ex :
  (test (seqs [text_re true "wif"; WordB; star (Chars (fun _ => true)); WordB; text_re false "K"]) "a WIF: Kx",
   test (seqs [Bol false; Rep 1 None digit_re; Eol]) "12a",
   test (seqs [Bol false; Rep 1 None digit_re; Eol]) "120")
  = (true, false, true).
Proof. reflexivity. Qed.
