(* ===== verification/Errors.v ===== *)
(** * Error classification ([fulfillment.js])

    How a failure message decides the fate of a request, and what of it may be
    written on chain.  An error is its message. *)
From S2P Require Import Prelude Numbers Strings Values Encoding Envelope State Attestation Config Text.
#[local] Open Scope list_scope.
#[local] Open Scope Z_scope.

(** ** Text that is finalized on chain *)

(** [https?:\/\/[^\s\]]+], ignoring case, at the start of a text. *)
Definition url_char (a : ascii) : bool := negb (js_space a) && negb (Ascii.eqb a "]").

Definition starts_with_char (f : ascii -> bool) (s : string) : bool :=
  match s with "" => false | String a _ => f a end.

Fixpoint drop_chars (n : nat) (s : string) : string :=
  match n, s with
  | O, _ => s
  | S n, "" => ""
  | S n, String _ s => drop_chars n s
  end.

Definition url_start (s : string) : bool :=
  (startsWith (toLowerCase s) "http://" && starts_with_char url_char (drop_chars 7 s))
  || (startsWith (toLowerCase s) "https://" && starts_with_char url_char (drop_chars 8 s)).

(** [.replace(/https?:\/\/[^\s\]]+/gi, '[redacted-url]')]; [skipping] says that
    the previous character was inside a match. *)
Fixpoint redact (skipping : bool) (s : string) : string :=
  match s with
  | "" => ""
  | String a s' =>
      if skipping && url_char a then redact true s'
      else if url_start s then "[redacted-url]" +:+ redact true s'
      else String a (redact false s')
  end.

Definition trimOnchainErrorMessage (value : string) : string :=
  let text := trim (redact false value) in
  if (text =? "")%string then "request execution failed"
  else if 240 <? str_length text then slice_to text (240 - 3) +:+ "..."
  else text.

(** ** Classes *)

Definition any_of (s : string) (needles : list string) : bool := existsb (includes s) needles.

Definition isAlreadyFulfilledError (message : string) : bool :=
  any_of (toLowerCase message)
    ["already fulfilled"; "request already fulfilled"; "reason: request already fulfilled"].

Definition isTerminalConfigurationError (message : string) : bool :=
  let normalized := toLowerCase message in
  any_of normalized
    ["reason: unauthorized"; "invalid signature"; "verifier rejected signature"; "oracle verifier";
     "oracle_verifier"; "updater not set"; "callback not allowed"]
  || (includes normalized "called contract" && includes normalized "not found").

Definition TRANSIENT_WORKER_HTTP_STATUSES : list Z := [0; 408; 425; 429; 500; 502; 503; 504].

Definition isTransientWorkerStatus (status : Z) : bool :=
  existsb (Z.eqb status) TRANSIENT_WORKER_HTTP_STATUSES.

Definition TRANSIENT_WORKER_ERROR_MARKER : string := "[transient-worker-status]".

Definition buildTransientWorkerError (status : Z) (detail : string) : string :=
  "worker request failed with transient status " +:+ num_to_string status
  +:+ (if (detail =? "")%string then "" else ": " +:+ detail)
  +:+ " " +:+ TRANSIENT_WORKER_ERROR_MARKER.

(** [\w] *)
Definition word_char (a : ascii) : bool :=
  (digit_value a <? 36) || Ascii.eqb a "_".

(** Some occurrence of [w] in [s] that starts at a word boundary, and ends at
    one when [right]; [prev] says that the character before [s] is a word
    character.  The needles start and end with word characters. *)
Fixpoint word_match (right prev : bool) (w s : string) : bool :=
  (negb prev && startsWith s w
   && (negb right || negb (starts_with_char word_char (drop_chars (String.length w) s))))
  || match s with
     | "" => false
     | String a s' => word_match right (word_char a) w s'
     end.

Inductive error_class := Settled | Permanent | Transient | Unknown.
#[global] Instance error_class_eq_dec : EqDecision error_class.
Proof. solve_decision. Defined.

Definition classifyError (message : string) : error_class :=
  let msg := toLowerCase message in
  if isAlreadyFulfilledError msg then Settled
  else if isTerminalConfigurationError msg then Permanent
  else if any_of msg [TRANSIENT_WORKER_ERROR_MARKER; "etimedout"; "econnrefused"; "econnreset";
                      "rate limit"; "socket hang up"]
          || existsb (fun w => word_match true false w msg)
               ["429"; "408"; "425"; "500"; "502"; "503"; "504"]
          || any_of msg ["network"; "timed out"; "unavailable"]
  then Transient
  else if word_match true false "not found" msg
          || existsb (fun w => word_match false false w msg)
               ["fault"; "unauthorized"; "unauthorised"; "forbidden"; "invalid"]
  then Permanent
  else Unknown.

Definition resolveCallbackRetryCeiling (cfg : config) : jsnum :=
  match cfg_maxCallbackRetries cfg with
  | Fin n => if 0 <? n then Fin n else Fin (Z.max (maxRetries (cfg_retry cfg) * 2) 1)
  | _ => Fin (Z.max (maxRetries (cfg_retry cfg) * 2) 1)
  end.

(** ** Lemmas *)

Lemma toLowerCase_includes_idem s p : includes (toLowerCase (toLowerCase s)) p = includes (toLowerCase s) p.
Proof. by rewrite toLowerCase_idem. Qed.

Lemma isAlreadyFulfilled_lower s : isAlreadyFulfilledError (toLowerCase s) = isAlreadyFulfilledError s.
Proof. unfold isAlreadyFulfilledError. by rewrite toLowerCase_idem. Qed.

Lemma isTerminal_lower s : isTerminalConfigurationError (toLowerCase s) = isTerminalConfigurationError s.
Proof. unfold isTerminalConfigurationError. by rewrite toLowerCase_idem. Qed.

Example classify_ex :
  classifyError "HTTP 503 from upstream" = Transient /\ classifyError "revalidate 5031" = Unknown /\
  classifyError "Fault: boom" = Permanent /\ classifyError "default" = Unknown /\
  classifyError "reason: request already fulfilled" = Settled.
Proof. vm_compute. repeat split. Qed.

Example trimOnchain_ex :
  trimOnchainErrorMessage "failed at https://user:pw@rpc.example/path [x]" = "failed at [redacted-url] [x]".
Proof. vm_compute. reflexivity. Qed.

(** ** No URL is finalized *)

(** No URL starts anywhere in the text. *)
Fixpoint url_free (s : string) : bool :=
  negb (url_start s) && match s with "" => true | String _ s' => url_free s' end.

Lemma startsWith_cons a s c p : startsWith (String a s) (String c p) = true <-> a = c /\ startsWith s p = true.
Proof.
  unfold startsWith. change (String.prefix (String c p) (String a s))
    with (if ascii_dec c a then String.prefix p s else false).
  destruct (ascii_dec c a); naive_solver.
Qed.

Lemma url_start_cons a s : url_start (String a s) = true -> lower a = "h"%char.
Proof.
  unfold url_start. cbn [toLowerCase]. rewrite orb_true_iff, !andb_true_iff.
  by intros [[[-> _]%startsWith_cons _]|[[-> _]%startsWith_cons _]].
Qed.

Lemma lower_h_url_char a : lower a = "h"%char -> url_char a = true.
Proof.
  intros H. assert (negb (Ascii.eqb (lower a) "h") || url_char a = true) as Ha.
  { revert a H. intros a _. apply (ascii_all (fun a => negb (Ascii.eqb (lower a) "h") || url_char a)).
    vm_compute. reflexivity. }
  by rewrite H in Ha.
Qed.

Lemma redact_false_not s a :
  url_start (String a s) = false -> redact false (String a s) = String a (redact false s).
Proof. intros H. cbn [redact andb]. by rewrite H. Qed.

Lemma redact_false_start s a :
  url_start (String a s) = true -> redact false (String a s) = "[redacted-url]" +:+ redact true s.
Proof. intros H. cbn [redact andb]. by rewrite H. Qed.

(** A prefix of the output without a bracket is a prefix of the input. *)
Lemma redact_prefix w : str_forall (not_char "[") w = true -> forall s,
  startsWith (toLowerCase (redact false s)) w = true ->
  startsWith (toLowerCase s) w = true /\
  drop_chars (String.length w) (redact false s) = redact false (drop_chars (String.length w) s).
Proof.
  induction w as [|c w IH]; intros Hw s H.
  { split; [by destruct (toLowerCase s)|by destruct s, (redact false _)]. }
  cbn [str_forall] in Hw.
  apply andb_true_iff in Hw as [Hc Hw]. destruct s as [|a s]; [discriminate H|].
  destruct (url_start (String a s)) eqn:E.
  - rewrite redact_false_start in H by done.
    apply startsWith_cons in H as [<- _]. vm_compute in Hc. discriminate Hc.
  - rewrite redact_false_not in H |- * by done. cbn [toLowerCase] in *.
    apply startsWith_cons in H as [-> H]. destruct (IH Hw s H) as [H1 H2].
    split; [by apply startsWith_cons|done].
Qed.

Lemma redact_first_char s : starts_with_char url_char (redact false s) = true -> starts_with_char url_char s = true.
Proof.
  destruct s as [|a s]; [done|]. destruct (url_start (String a s)) eqn:E.
  - intros _. by apply lower_h_url_char, (url_start_cons a s).
  - by rewrite redact_false_not.
Qed.

Lemma redact_url_start s : url_start (redact false s) = true -> url_start s = true.
Proof.
  unfold url_start. rewrite !orb_true_iff, !andb_true_iff.
  intros [[H1 H2]|[H1 H2]]; [left|right]; (apply redact_prefix in H1 as [H1 H3]; [|reflexivity]);
    (split; [done|]); apply redact_first_char; cbn [String.length] in H3; congruence.
Qed.

Lemma literal_free lit s :
  str_forall (fun a => negb (Ascii.eqb (lower a) "h")) lit = true -> url_free s = true ->
  url_free (lit +:+ s) = true.
Proof.
  induction lit as [|a lit IH]; [done|]. cbn [str_forall]. intros [Ha Hl]%andb_true_iff Hs.
  change (String a lit +:+ s) with (String a (lit +:+ s)). cbn [url_free]. rewrite IH by done.
  rewrite andb_true_r. apply negb_true_iff. destruct (url_start _) eqn:E; [|done].
  apply url_start_cons in E. by rewrite E in Ha.
Qed.

Lemma redact_free s : url_free (redact false s) = true /\ url_free (redact true s) = true.
Proof.
  induction s as [|a s [IHf IHt]]; [done|].
  assert (url_free (redact false (String a s)) = true) as Hf.
  { destruct (url_start (String a s)) eqn:E.
    - rewrite redact_false_start by done. by apply literal_free.
    - pose proof (redact_url_start (String a s)) as Hs. rewrite redact_false_not in * by done.
      cbn [url_free]. rewrite IHf, andb_true_r. apply negb_true_iff.
      destruct (url_start (String a (redact false s))); [by rewrite Hs in E|done]. }
  split; [done|]. change (redact true (String a s)) with
    (if url_char a then redact true s else if url_start (String a s)
     then "[redacted-url]" +:+ redact true s else String a (redact false s)).
  by destruct (url_char a).
Qed.

Lemma startsWith_app s r p : startsWith s p = true -> startsWith (s +:+ r) p = true.
Proof.
  revert s. induction p as [|c p IH]; intros [|a s] H; try done.
  - by destruct r.
  - change (String a s +:+ r) with (String a (s +:+ r)). cbn in *.
    destruct (ascii_dec c a); [by apply IH|done].
Qed.

Lemma toLowerCase_app s r : toLowerCase (s +:+ r) = toLowerCase s +:+ toLowerCase r.
Proof.
  induction s as [|a s IH]; [done|]. change (String a s +:+ r) with (String a (s +:+ r)).
  cbn [toLowerCase]. by rewrite IH.
Qed.

Lemma drop_chars_app n s r f :
  starts_with_char f (drop_chars n s) = true -> starts_with_char f (drop_chars n (s +:+ r)) = true.
Proof.
  revert s. induction n as [|n IH]; intros [|a s] H; try done. cbn [drop_chars] in *. by apply IH.
Qed.

Lemma url_start_app s r : url_start s = true -> url_start (s +:+ r) = true.
Proof.
  unfold url_start. rewrite toLowerCase_app, !orb_true_iff, !andb_true_iff.
  intros [[H1 H2]|[H1 H2]]; [left|right]; (split; [by apply startsWith_app|by apply drop_chars_app]).
Qed.

Lemma url_free_prefix s r : url_free (s +:+ r) = true -> url_free s = true.
Proof.
  induction s as [|a s IH]; [done|]. change (String a s +:+ r) with (String a (s +:+ r)).
  cbn [url_free]. rewrite !andb_true_iff, !negb_true_iff. intros [H1 H2]. split; [|auto].
  destruct (url_start (String a s)) eqn:E; [|done]. apply (url_start_app _ r) in E.
  change (String a s +:+ r) with (String a (s +:+ r)) in E. congruence.
Qed.

Lemma trimStart_free s : url_free s = true -> url_free (trimStart s) = true.
Proof.
  induction s as [|a s IH]; [done|]. cbn [trimStart]. case_match; [|done].
  cbn [url_free]. intros [_ H2]%andb_true_iff. auto.
Qed.

Lemma trimEnd_prefix s : exists r, s = trimEnd s +:+ r.
Proof.
  induction s as [|a s [r IH]]; [by exists ""|]. cbn [trimEnd]. case_match; [by eexists|].
  exists r. change (String a (trimEnd s) +:+ r) with (String a (trimEnd s +:+ r)). by rewrite <-IH.
Qed.

Lemma slice_prefix s n : exists r, s = slice_to s n +:+ r.
Proof.
  unfold slice_to. generalize (Z.to_nat n). clear n. induction s as [|a s IH]; intros [|n].
  - by exists "".
  - by exists "".
  - by exists (String a s).
  - destruct (IH n) as [r Hr]. exists r. cbn [String.substring].
    change (String a (String.substring 0 n s) +:+ r) with (String a (String.substring 0 n s +:+ r)).
    by rewrite <-Hr.
Qed.

(** What is finalized on chain as an error leaks no URL and is bounded: the
    text is never empty, never longer than 240 characters, and apart from a
    final ellipsis no [http] or [https] URL starts anywhere in it, whatever the
    error message contained. *)
Theorem onchain_error_redacted : forall message,
  let out := trimOnchainErrorMessage message in
  out <> "" /\ str_length out <= 240 /\
  exists body, url_free body = true /\ (out = body \/ out = body +:+ "...").
Proof.
  intros message out. unfold out, trimOnchainErrorMessage.
  set (text := trim (redact false message)).
  assert (url_free text = true) as Hfree.
  { unfold text, trim. destruct (trimEnd_prefix (trimStart (redact false message))) as [r Hr].
    apply (url_free_prefix _ r). rewrite <-Hr. apply trimStart_free, redact_free. }
  destruct (text =? "")%string eqn:E0.
  { split_and!; [done|vm_compute; done|]. exists "request execution failed". by split; [|left]. }
  destruct (240 <? str_length text) eqn:El.
  - assert (str_length (slice_to text (240 - 3) +:+ "...") = 240) as Hl.
    { rewrite Envelope.str_length_app, Envelope.slice_length by lia. done. }
    split_and!; [intros H; by rewrite H in Hl|lia|].
    exists (slice_to text (240 - 3)). split; [|by right].
    destruct (slice_prefix text (240 - 3)) as [r Hr]. apply (url_free_prefix _ r). by rewrite <-Hr.
  - split_and!; [intros H; by rewrite H in E0|lia|]. exists text. by split; [|left].
Qed.

(** ** Transient failures are retried *)

Lemma includes_suffix s p : includes (s +:+ p) p = true.
Proof.
  induction s as [|a s IH].
  - change ("" +:+ p) with p. assert (startsWith p p = true) as H.
    { induction p as [|c p IHp]; [done|]. by apply startsWith_cons. }
    destruct p; cbn [includes]; by rewrite H.
  - change (String a s +:+ p) with (String a (s +:+ p)). cbn [includes]. by rewrite IH, orb_true_r.
Qed.

Lemma buildTransient_marker status detail :
  includes (toLowerCase (buildTransientWorkerError status detail)) TRANSIENT_WORKER_ERROR_MARKER = true.
Proof.
  unfold buildTransientWorkerError.
  rewrite !str_app_assoc, toLowerCase_app.
  change (toLowerCase TRANSIENT_WORKER_ERROR_MARKER) with TRANSIENT_WORKER_ERROR_MARKER.
  apply includes_suffix.
Qed.

(** A transient worker failure is classified transient, whatever its status
    and detail, unless the detail itself reads as a settled request or a
    terminal configuration error. *)
Theorem transient_worker_error_retried : forall status detail,
  let e := buildTransientWorkerError status detail in
  isAlreadyFulfilledError e = false -> isTerminalConfigurationError e = false ->
  classifyError e = Transient.
Proof.
  intros status detail e H1 H2. unfold classifyError.
  rewrite isAlreadyFulfilled_lower, isTerminal_lower, H1, H2.
  unfold any_of at 1. cbn [existsb]. unfold e. by rewrite buildTransient_marker.
Qed.

Example transient_worker_error_retried_witness :
  classifyError (buildTransientWorkerError 503 "invalid upstream reply") = Transient.
Proof. apply transient_worker_error_retried; vm_compute; reflexivity. Defined.

(** The worker's own error text can override the transient status: a 503 whose
    body says "already fulfilled" is classified settled, and one that mentions
    the oracle verifier permanent. *)
Lemma transient_error_steered :
  classifyError (buildTransientWorkerError 503 "upstream: order already fulfilled") = Settled /\
  classifyError (buildTransientWorkerError 503 "oracle verifier is restarting") = Permanent.
Proof. vm_compute. split; reflexivity. Qed.
