(* ===== verification/Effects.v ===== *)
(** * Asynchronous programs over a shared state

    The relayer's [async] functions run on one thread: between two [await]s a
    function reads and writes the shared state without interruption, and at an
    [await] any other pending function may run.  A program is a tree of such
    segments:
    - [Local f k]: a synchronous segment.  It may read the clock and draw a
      random number, and transforms the state;
    - [Call c k]: an awaited call to the environment (an HTTP request, a chain
      RPC), whose promise is fulfilled ([inr]) or rejected ([inl message]);
    - [Save k]: the state is handed to the state-file writer ([persistState]).

    [run] executes a program alone against an environment; [pool] programs
    interleave at their [await]s. *)
From S2P Require Import Prelude.
From Stdlib Require Import QArith.
#[local] Open Scope list_scope.
#[local] Open Scope Z_scope.

Section effects.
Context {S : Type} {E : Type -> Type}.

Inductive prog (A : Type) : Type :=
| Ret (a : A)
| Throw (message : string)
| Local {X} (f : Z -> Q -> S -> X * S) (k : X -> prog A)
| Call {X} (c : E X) (k : string + X -> prog A)
| Save (k : prog A).
#[global] Arguments Ret {A} a.
#[global] Arguments Throw {A} message.
#[global] Arguments Local {A X} f k.
#[global] Arguments Call {A X} c k.
#[global] Arguments Save {A} k.

Fixpoint bind {A B} (p : prog A) (k : A -> prog B) : prog B :=
  match p with
  | Ret a => k a
  | Throw m => Throw m
  | Local f k' => Local f (fun x => bind (k' x) k)
  | Call c k' => Call c (fun r => bind (k' r) k)
  | Save p' => Save (bind p' k)
  end.

(** [try { p }] with the outcome as a value. *)
Fixpoint attempt {A} (p : prog A) : prog (string + A) :=
  match p with
  | Ret a => Ret (inr a)
  | Throw m => Ret (inl m)
  | Local f k => Local f (fun x => attempt (k x))
  | Call c k => Call c (fun r => attempt (k r))
  | Save p' => Save (attempt p')
  end.

(** [await call]: a rejection propagates. *)
Definition await {X} (c : E X) : prog X :=
  Call c (fun r => match r with inl m => Throw m | inr x => Ret x end).

(** Synchronous access to the state, with and without the clock. *)
Definition local {X} (f : Z -> Q -> S -> X * S) : prog X := Local f Ret.
Definition reads {X} (f : S -> X) : prog X := Local (fun _ _ s => (f s, s)) Ret.
Definition modify (f : S -> S) : prog unit := Local (fun _ _ s => (tt, f s)) Ret.
Definition modify_at (f : Z -> S -> S) : prog unit := Local (fun now _ s => (tt, f now s)) Ret.
Definition clock : prog Z := Local (fun now _ s => (now, s)) Ret.
Definition save : prog unit := Save (Ret tt).

(** ** One program, one environment *)

Inductive obs :=
| OCall {X} (c : E X) (reply : string + X)
| OSave (s : S).

(** The environment answers from the observations so far (newest first). *)
Record env := Env {
  env_now : list obs -> Z;
  env_rng : list obs -> Q;
  env_reply : forall X, list obs -> E X -> string + X;
}.

Fixpoint run {A} (en : env) (p : prog A) (s : S) (tr : list obs) : (string + A) * S * list obs :=
  match p with
  | Ret a => (inr a, s, tr)
  | Throw m => (inl m, s, tr)
  | Local f k => let '(x, s') := f (env_now en tr) (env_rng en tr) s in run en (k x) s' tr
  | Call c k => let r := env_reply en _ tr c in run en (k r) s (OCall c r :: tr)
  | Save p' => run en p' s (OSave s :: tr)
  end.

Lemma run_bind {A B} en (p : prog A) (k : A -> prog B) s tr :
  run en (bind p k) s tr =
  match run en p s tr with
  | (inr a, s', tr') => run en (k a) s' tr'
  | (inl m, s', tr') => (inl m, s', tr')
  end.
Proof.
  revert s tr. induction p as [a|m|X f k' IH|X c k' IH|p IH]; intros s tr; simpl; try done; [|apply IH..].
  destruct (f _ _ s) as [x s']. apply IH.
Qed.

Lemma run_attempt {A} en (p : prog A) s tr :
  run en (attempt p) s tr = let '(o, s', tr') := run en p s tr in (inr o, s', tr').
Proof.
  revert s tr. induction p as [a|m|X f k' IH|X c k' IH|p IH]; intros s tr; simpl; try done; [|apply IH..].
  destruct (f _ _ s) as [x s']. apply IH.
Qed.

(** Observations are only added. *)
Lemma run_extends {A} en (p : prog A) w tr : exists t, (run en p w tr).2 = t ++ tr.
Proof.
  revert w tr. induction p as [a|m|Y f k IH|Y c k IH|p IH]; intros w tr; cbn [run].
  - by exists [].
  - by exists [].
  - destruct (f _ _ w) as [x w']. apply IH.
  - destruct (IH (env_reply en Y tr c) w (OCall c (env_reply en Y tr c) :: tr)) as [t Ht].
    exists (t ++ [OCall c (env_reply en Y tr c)]). by rewrite Ht, <-app_assoc.
  - destruct (IH w (OSave w :: tr)) as [t Ht]. exists (t ++ [OSave w]). by rewrite Ht, <-app_assoc.
Qed.

(** ** Invariants under every interleaving *)

(** [safe I p]: every synchronous segment of [p] preserves [I], from whatever
    [I]-state the other programs leave at its [await]s. *)
Fixpoint safe {A} (I : S -> Prop) (p : prog A) : Prop :=
  match p with
  | Ret _ | Throw _ => True
  | Local f k => forall now rng s, I s -> I (f now rng s).2 /\ safe I (k (f now rng s).1)
  | Call c k => forall r, safe I (k r)
  | Save p' => safe I p'
  end.

Lemma safe_bind {A B} I (p : prog A) (k : A -> prog B) :
  safe I p -> (forall a, safe I (k a)) -> safe I (bind p k).
Proof.
  intros Hp Hk. induction p as [a|m|X f k' IH|X c k' IH|p IH]; simpl in *; auto.
  intros now rng s Hs. destruct (Hp now rng s Hs). auto.
Qed.

Lemma safe_attempt {A} I (p : prog A) : safe I p -> safe I (attempt p).
Proof.
  intros Hp. induction p as [a|m|X f k' IH|X c k' IH|p IH]; simpl in *; auto.
  intros now rng s Hs. destruct (Hp now rng s Hs). auto.
Qed.

Lemma safe_local {X} I (f : Z -> Q -> S -> X * S) :
  (forall now rng s, I s -> I (f now rng s).2) -> safe I (local f).
Proof. intros H now rng s Hs. split; [by apply H|done]. Qed.

Lemma safe_reads {X} I (f : S -> X) : safe I (reads f).
Proof. by apply safe_local. Qed.

Lemma safe_modify I (f : S -> S) : (forall s, I s -> I (f s)) -> safe I (modify f).
Proof. intros H. apply safe_local. intros now rng s. apply H. Qed.

Lemma safe_modify_at I (f : Z -> S -> S) : (forall t s, I s -> I (f t s)) -> safe I (modify_at f).
Proof. intros H. apply safe_local. intros now rng s. apply H. Qed.

Lemma safe_await {X} I (c : E X) : safe I (await c).
Proof. by intros [m|x]. Qed.

(** A pool of programs over one state: any program may take its next segment,
    with any clock, draw and reply. *)
Inductive par_step {A} : list (prog A) * S -> list (prog A) * S -> Prop :=
| par_local i X (f : Z -> Q -> S -> X * S) k now rng ps s :
    ps !! i = Some (Local f k) ->
    par_step (ps, s) (<[i := k (f now rng s).1]> ps, (f now rng s).2)
| par_call i X (c : E X) k r ps s :
    ps !! i = Some (Call c k) -> par_step (ps, s) (<[i := k r]> ps, s)
| par_save i p ps s :
    ps !! i = Some (Save p) -> par_step (ps, s) (<[i := p]> ps, s).

Lemma par_step_safe {A} I (c c' : list (prog A) * S) :
  par_step c c' -> Forall (safe I) c.1 -> I c.2 -> Forall (safe I) c'.1 /\ I c'.2.
Proof.
  intros Hstep Hps Hs.
  destruct Hstep as [i X f k now rng ps s Hi|i X c k r ps s Hi|i p ps s Hi]; simpl in *;
    pose proof (Forall_lookup_1 _ _ _ _ Hps Hi) as Hp; simpl in Hp.
  - destruct (Hp now rng s Hs) as [H1 H2]. split; [by apply Forall_insert|done].
  - split; [by apply Forall_insert|done].
  - split; [by apply Forall_insert|done].
Qed.

Lemma par_steps_safe {A} I (c c' : list (prog A) * S) :
  rtc par_step c c' -> Forall (safe I) c.1 -> I c.2 -> I c'.2.
Proof.
  induction 1 as [|x y z Hxy Hyz IH]; intros Hps Hs; [done|].
  destruct (par_step_safe I _ _ Hxy Hps Hs). auto.
Qed.

Lemma safe_run {A} I en (p : prog A) s tr : safe I p -> I s -> I (run en p s tr).1.2.
Proof.
  revert s tr. induction p as [a|m|X f k' IH|X c k' IH|p IH]; intros s tr Hp Hs; simpl in *; auto.
  destruct (Hp (env_now en tr) (env_rng en tr) s Hs) as [H1 H2].
  destruct (f _ _ s) as [x s']. by apply IH.
Qed.

(** ** Counting calls *)

(** [calls_at_most P n p]: whatever happens, [p] makes at most [n] calls in [P]. *)
Fixpoint calls_at_most {A} (P : forall X, E X -> bool) (n : nat) (p : prog A) : Prop :=
  match p with
  | Ret _ | Throw _ => True
  | Local f k => forall x, calls_at_most P n (k x)
  | @Call _ X c k =>
      if P X c
      then match n with O => False | Datatypes.S m => forall r, calls_at_most P m (k r) end
      else forall r, calls_at_most P n (k r)
  | Save p' => calls_at_most P n p'
  end.

Lemma calls_weaken {A} P n m (p : prog A) : calls_at_most P n p -> (n <= m)%nat -> calls_at_most P m p.
Proof.
  revert n m. induction p as [a|msg|X f k' IH|X c k' IH|p IH]; intros n m Hp Hle; simpl in *; eauto.
  destruct (P X c); [|eauto]. destruct n; [done|]. destruct m; [lia|]. intros r. eapply IH; eauto. lia.
Qed.

Lemma calls_bind {A B} P n m (p : prog A) (k : A -> prog B) :
  calls_at_most P n p -> (forall a, calls_at_most P m (k a)) -> calls_at_most P (n + m) (bind p k).
Proof.
  revert n. induction p as [a|msg|X f k' IH|X c k' IH|p IH]; intros n Hp Hk; simpl in *; eauto.
  - eapply calls_weaken; [apply Hk|lia].
  - destruct (P X c); [|eauto]. destruct n; [done|]. intros r. apply IH; eauto.
Qed.

Lemma calls_attempt {A} P n (p : prog A) : calls_at_most P n p -> calls_at_most P n (attempt p).
Proof.
  revert n. induction p as [a|msg|X f k' IH|X c k' IH|p IH]; intros n Hp; simpl in *; eauto.
  destruct (P X c); [|eauto]. destruct n; [done|]. eauto.
Qed.

Definition obs_in (P : forall X, E X -> bool) (o : obs) : bool :=
  match o with @OCall X c _ => P X c | OSave _ => false end.

Fixpoint count_obs (P : forall X, E X -> bool) (tr : list obs) : nat :=
  match tr with
  | [] => O
  | o :: tr => ((if obs_in P o then 1 else 0) + count_obs P tr)%nat
  end.

Lemma calls_run {A} P n en (p : prog A) s tr :
  calls_at_most P n p ->
  (count_obs P (run en p s tr).2 <= n + count_obs P tr)%nat.
Proof.
  revert n s tr. induction p as [a|msg|X f k' IH|X c k' IH|p IH]; intros n s tr Hp; simpl in *; try lia.
  - destruct (f _ _ s) as [x s']. auto.
  - destruct (P X c) eqn:HPc.
    + destruct n; [done|]. etransitivity; [by eapply IH|]. simpl. rewrite HPc. lia.
    + etransitivity; [by eapply IH|]. simpl. rewrite HPc. lia.
  - specialize (IH n s (OSave s :: tr) Hp). simpl in IH. lia.
Qed.

End effects.
Arguments prog : clear implicits.
Arguments obs : clear implicits.
Arguments env : clear implicits.

(** ** Program logic

    [hoare pre p post]: whatever the environment answers, a run of [p] from a
    state and a trace in [pre] ends with an outcome, a state and a trace in
    [post]; [stable J p]: a run keeps [J]. *)
Section hoare.
Context {S : Type} {E : Type -> Type}.
#[local] Abbreviation trace := (list (obs S E)).

Definition hoare {A} (pre : S -> trace -> Prop) (p : prog S E A) (post : string + A -> S -> trace -> Prop) : Prop :=
  forall en s tr, pre s tr -> let '(o, s', tr') := run en p s tr in post o s' tr'.

Definition stable {A} (J : S -> trace -> Prop) (p : prog S E A) : Prop := hoare J p (fun _ => J).

Lemma hoare_conseq {A} (pre pre' : S -> trace -> Prop) (p : prog S E A) (post post' : string + A -> S -> trace -> Prop) :
  hoare pre p post -> (forall s tr, pre' s tr -> pre s tr) -> (forall o s tr, post o s tr -> post' o s tr) ->
  hoare pre' p post'.
Proof.
  intros Hp Hpre Hpost en s tr H. specialize (Hp en s tr (Hpre _ _ H)).
  destruct (run en p s tr) as [[o s'] tr']. by apply Hpost.
Qed.

Lemma hoare_pre {A} (pre pre' : S -> trace -> Prop) (p : prog S E A) (post : string + A -> S -> trace -> Prop) :
  hoare pre p post -> (forall s tr, pre' s tr -> pre s tr) -> hoare pre' p post.
Proof. intros Hp Hpre en s tr H. by apply Hp, Hpre. Qed.

Lemma hoare_ret {A} (a : A) (pre : S -> trace -> Prop) post :
  (forall s tr, pre s tr -> post (inr a) s tr) -> hoare pre (Ret a) post.
Proof. intros H en s tr. apply H. Qed.

Lemma hoare_throw {A} m (pre : S -> trace -> Prop) (post : string + A -> S -> trace -> Prop) :
  (forall s tr, pre s tr -> post (inl m) s tr) -> hoare pre (Throw m) post.
Proof. intros H en s tr. apply H. Qed.

Lemma hoare_bind {A B} (p : prog S E A) (k : A -> prog S E B) pre mid post :
  hoare pre p (fun o s tr => match o with inr a => mid a s tr | inl m => post (inl m) s tr end) ->
  (forall a, hoare (mid a) (k a) post) -> hoare pre (bind p k) post.
Proof.
  intros Hp Hk en s tr H. rewrite run_bind. specialize (Hp en s tr H).
  destruct (run en p s tr) as [[[m|a] s'] tr']; [done|]. by apply Hk.
Qed.

Lemma hoare_attempt {A} (p : prog S E A) pre post :
  hoare pre p (fun o => post (inr o)) -> hoare pre (attempt p) post.
Proof.
  intros Hp en s tr H. rewrite run_attempt. specialize (Hp en s tr H).
  by destruct (run en p s tr) as [[o s'] tr'].
Qed.

Lemma hoare_local {X} (f : Z -> Q -> S -> X * S) (pre : S -> trace -> Prop) post :
  (forall now rng s tr, pre s tr -> post (inr (f now rng s).1) (f now rng s).2 tr) -> hoare pre (local f) post.
Proof. intros H en s tr Hs. cbn. specialize (H (env_now en tr) (env_rng en tr) s tr Hs). by destruct (f _ _ s). Qed.

Lemma hoare_await {X} (c : E X) (pre : S -> trace -> Prop) post :
  (forall r s tr, pre s tr -> post r s (OCall c r :: tr)) -> hoare pre (await c) post.
Proof.
  intros H en s tr Hs. cbn. specialize (H (env_reply en _ tr c) s tr Hs).
  by destruct (env_reply en _ tr c).
Qed.

Lemma stable_bind {A B} J (p : prog S E A) (k : A -> prog S E B) :
  stable J p -> (forall a, stable J (k a)) -> stable J (bind p k).
Proof.
  intros Hp Hk. apply hoare_bind with (fun _ => J); [|done].
  eapply hoare_conseq; [exact Hp|done|]. by intros [].
Qed.

(** A part that keeps [J], then the rest. *)
Lemma hoare_after {A B} J (p : prog S E A) (k : A -> prog S E B) post :
  stable J p -> (forall m s tr, J s tr -> post (inl m) s tr) -> (forall a, hoare J (k a) post) ->
  hoare J (bind p k) post.
Proof.
  intros Hp Hm Hk. apply hoare_bind with (fun _ => J); [|done].
  eapply hoare_conseq; [exact Hp|done|]. intros [m|a] s tr H; [by apply Hm|done].
Qed.

Lemma stable_attempt {A} J (p : prog S E A) : stable J p -> stable J (attempt p).
Proof. intros Hp. by apply hoare_attempt. Qed.

Lemma stable_ret {A} J (a : A) : stable J (Ret a).
Proof. by apply hoare_ret. Qed.

Lemma stable_throw {A} J m : stable J (Throw m : prog S E A).
Proof. by apply hoare_throw. Qed.

Lemma stable_local {X} (J : S -> trace -> Prop) (f : Z -> Q -> S -> X * S) :
  (forall now rng s tr, J s tr -> J (f now rng s).2 tr) -> stable J (local f).
Proof. intros H. by apply hoare_local. Qed.

Lemma stable_reads {X} J (f : S -> X) : stable J (reads f).
Proof. by apply (stable_local J (fun _ _ s => (f s, s))). Qed.

Lemma stable_clock J : stable J clock.
Proof. by apply (stable_local J (fun now _ s => (now, s))). Qed.

Lemma stable_await {X} (J : S -> trace -> Prop) (c : E X) :
  (forall r s tr, J s tr -> J s (OCall c r :: tr)) -> stable J (await c).
Proof. intros H. by apply hoare_await. Qed.

Lemma hoare_forall {A T} (pre : T -> S -> trace -> Prop) (p : prog S E A) (post : T -> string + A -> S -> trace -> Prop) :
  (forall x, hoare (pre x) p (post x)) ->
  hoare (fun s tr => forall x, pre x s tr) p (fun o s tr => forall x, post x o s tr).
Proof.
  intros H en s tr Hs. pose proof (fun x => H x en s tr (Hs x)) as Hx.
  by destruct (run en p s tr) as [[o s'] tr'].
Qed.

Lemma stable_and {A} J J' (p : prog S E A) :
  stable J p -> stable J' p -> stable (fun s tr => J s tr /\ J' s tr) p.
Proof.
  intros H H' en s tr [Hs Hs']. specialize (H en s tr Hs). specialize (H' en s tr Hs').
  by destruct (run en p s tr) as [[o s'] tr'].
Qed.

Lemma hoare_and {A} (pre pre' : S -> trace -> Prop) (p : prog S E A) post post' :
  hoare pre p post -> hoare pre' p post' ->
  hoare (fun s tr => pre s tr /\ pre' s tr) p (fun o s tr => post o s tr /\ post' o s tr).
Proof.
  intros H H' en s tr [Hs Hs']. specialize (H en s tr Hs). specialize (H' en s tr Hs').
  by destruct (run en p s tr) as [[o s'] tr'].
Qed.

(** What more observations do not undo. *)
Lemma stable_mono {A} (P : trace -> Prop) (p : prog S E A) :
  (forall t tr, P tr -> P (t ++ tr)) -> stable (fun _ tr => P tr) p.
Proof.
  intros H en s tr Hs. destruct (run_extends en p s tr) as [t Ht].
  destruct (run en p s tr) as [[o s'] tr']. cbn in Ht. rewrite Ht. by apply H.
Qed.

Lemma stable_run {A} J en (p : prog S E A) s tr : stable J p -> J s tr -> J (run en p s tr).1.2 (run en p s tr).2.
Proof. intros Hp H. specialize (Hp en s tr H). by destruct (run en p s tr) as [[o s'] tr']. Qed.

Lemma stable_intro {A} J (p : prog S E A) :
  (forall en s tr, J s tr -> J (run en p s tr).1.2 (run en p s tr).2) -> stable J p.
Proof. intros H en s tr Hs. specialize (H en s tr Hs). by destruct (run en p s tr) as [[o s'] tr']. Qed.

(** [P] holds of every observation and what preceded it. *)
Fixpoint trace_ok (P : obs S E -> trace -> Prop) (tr : trace) : Prop :=
  match tr with [] => True | o :: rest => P o rest /\ trace_ok P rest end.

(** [p] always returns, with a result in [post]. *)
Definition returns {A} (p : prog S E A) (post : A -> Prop) : Prop :=
  hoare (fun _ _ => True) p (fun o _ _ => exists a, o = inr a /\ post a).

Lemma returns_ret {A} (a : A) (post : A -> Prop) : post a -> returns (Ret a) post.
Proof. intros H. apply hoare_ret. eauto. Qed.

Lemma returns_bind {A B} (p : prog S E A) (k : A -> prog S E B) mid post :
  returns p mid -> (forall a, mid a -> returns (k a) post) -> returns (bind p k) post.
Proof.
  intros Hp Hk. apply hoare_bind with (fun a _ _ => mid a).
  - eapply hoare_conseq; [exact Hp|done|]. by intros o s tr (a & -> & Ha).
  - intros a en s tr Ha. by apply Hk.
Qed.

Lemma returns_attempt {A} (p : prog S E A) (post : string + A -> Prop) :
  (forall r, post r) -> returns (attempt p) post.
Proof. intros H en s tr _. rewrite run_attempt. destruct (run en p s tr) as [[o s'] tr']. eauto. Qed.

Lemma returns_local {X} (f : Z -> Q -> S -> X * S) (post : X -> Prop) :
  (forall now rng s, post (f now rng s).1) -> returns (local f) post.
Proof. intros H. apply hoare_local. eauto. Qed.
End hoare.

(** Split a boring program into its parts; what is left are the awaited calls. *)
Ltac stable_step :=
  first [ apply stable_ret | apply stable_throw | apply stable_reads | apply stable_clock | apply stable_attempt
        | (apply stable_bind; [|intros ?]) | (apply stable_local; intros; assumption) ].

Declare Scope prog_scope.
Delimit Scope prog_scope with prog.
Notation "x <-- p ;; k" := (bind p (fun x => k))
  (at level 100, p at next level, right associativity) : prog_scope.
Notation "' x <-- p ;; k" := (bind p (fun y => match y with x => k end))
  (at level 100, x pattern, p at next level, right associativity) : prog_scope.
Notation "p ;;; k" := (bind p (fun _ => k)) (at level 100, right associativity) : prog_scope.

#[export] Hint Resolve safe_bind safe_attempt safe_reads safe_await : relayer_state.
