(* ===== verification/Persistence.v ===== *)
(** * Supabase persistence ([persistence.js])

    The durable job store the relayer talks to over HTTP.  The process-wide
    backoff window is state; a REST request is an awaited call whose reply is
    the HTTP status and body.  Time stamps are instants, a JSON body that is an
    array of job rows is given as the rows. *)
From S2P Require Import Prelude Numbers Strings Values State StateFacts Effects.

(** ** Error classes *)

Definition isSupabaseQuotaRestrictedError (message : string) : bool :=
  let normalized := toLowerCase message in
  existsb (includes normalized)
    ["exceed_db_size_quota"; "database size quota"; "quota exceeded";
     "402 payment required"; "failed: 402"].

Definition isSupabaseConnectivityError (message : string) : bool :=
  if isSupabaseQuotaRestrictedError message then false
  else
    let normalized := toLowerCase message in
    existsb (includes normalized)
      ["pgrst002"; "schema cache"; "failed: 503"; "failed: 502"; "failed: 504";
       " 503 "; " 502 "; " 504 "; "timed out"; "timeout"; "econnreset"; "econnrefused";
       "eauthquery"; "connection to database not available"; "fetch failed"; "network";
       "unavailable"].

(** ** The backoff window *)

(** What the functions read from the process environment. *)
Record penv := PEnv {
  pe_has_supabase : bool;
  pe_backoff_ms : jsnum;
  pe_transient_backoff_ms : jsnum;
  pe_network : string;
}.

Record backoff := Backoff {
  bk_until : Z;
  bk_reason : string;
}.

Definition initial_backoff : backoff := Backoff 0 "".

Definition positive_or (n : jsnum) (fallback : Z) : Z :=
  match n with Fin z => if 0 <? z then z else fallback | _ => fallback end.

Definition resolveSupabaseBackoffMs (pe : penv) : Z := positive_or (pe_backoff_ms pe) 300000.
Definition resolveSupabaseTransientBackoffMs (pe : penv) : Z :=
  positive_or (pe_transient_backoff_ms pe) 30000.

Definition resolveSupabaseNetwork (pe : penv) : string :=
  if (trim (pe_network pe ||s "testnet") =? "mainnet")%string then "mainnet" else "testnet".

Definition markSupabasePersistenceUnavailable (pe : penv) (message : string) (nowMs : Z)
    (b : backoff) : bool * backoff :=
  if isSupabaseQuotaRestrictedError message then
    (true, Backoff (Z.max (bk_until b) (nowMs + resolveSupabaseBackoffMs pe)) "quota_restricted")
  else if isSupabaseConnectivityError message then
    let nextUntil := nowMs + resolveSupabaseTransientBackoffMs pe in
    (true,
     if bk_until b <? nextUntil
     then Backoff nextUntil
            (if (bk_reason b =? "quota_restricted")%string then bk_reason b else "connectivity")
     else b)
  else (false, b).

(** [None]: not active; [Some (reason, remaining)]. *)
Definition getSupabasePersistenceBackoff (nowMs : Z) (b : backoff) : option (string * Z) :=
  if bk_until b <=? nowMs then None
  else Some (bk_reason b ||s "temporarily_unavailable", bk_until b - nowMs).

Definition shouldSkipSupabasePersistence (nowMs : Z) (b : backoff) : bool :=
  match getSupabasePersistenceBackoff nowMs b with Some _ => true | None => false end.

(** ** Records sent and received *)

Fixpoint strip_nul (s : string) : string :=
  match s with
  | "" => ""
  | String a s' => if code a =? 0 then strip_nul s' else String a (strip_nul s')
  end.

Fixpoint sanitizeForPostgres (v : val) : val :=
  match v with
  | VStr s => VStr (strip_nul s)
  | VArr l => VArr (map sanitizeForPostgres l)
  | VObj kvs => VObj (map (fun kv => (kv.1, sanitizeForPostgres kv.2)) kvs)
  | v => v
  end.

Record job_details := JobDetails {
  d_event_key : string;
  d_status : string;
  d_attempts : Z;
  d_route : string;
  d_last_error : string;
  d_next_retry_at : option Z;
  d_worker_status : option Z;
  d_worker_response : val;
  d_fulfill_tx : val;
  d_completed_at : option Z;
}.

Record job_record := JobRecord {
  jb_network : string;
  jb_event_key : string;
  jb_chain : chain;
  jb_request_id : string;
  jb_request_type : string;
  jb_tx_hash : string;
  jb_block_number : option Z;
  jb_route : string;
  jb_status : string;
  jb_attempts : Z;
  jb_last_error : string;
  jb_next_retry_at : option Z;
  jb_worker_status : option Z;
  jb_worker_response : val;
  jb_fulfill_tx : val;
  jb_event : event;
  jb_updated_at : Z;
  jb_completed_at : option Z;
}.

Definition kernel_intent_val (i : kernel_intent) : val :=
  VObj [("module_id", VStr (moduleId i)); ("operation", VStr (operation i));
        ("legacy_request_type", VStr (legacyRequestType i))].

Definition buildRelayerJobRecord (pe : penv) (now : Z) (e : event) (d : job_details) : job_record :=
  let kernelIntent := resolveKernelIntent (ev_requestType e) in
  JobRecord (resolveSupabaseNetwork pe) (d_event_key d) (ev_chain e) (ev_requestId e ||s "0")
    (ev_requestType e) (ev_txHash e) (ev_blockNumber e) (d_route d) (d_status d ||s "queued")
    (d_attempts d) (d_last_error d) (d_next_retry_at d) (d_worker_status d)
    (if is_object (d_worker_response d)
     then VObj (spread [] (own_fields (d_worker_response d)
                           ++ [("kernel_intent", kernel_intent_val kernelIntent)]))
     else v_coalesce (d_worker_response d) VNull)
    (v_coalesce (d_fulfill_tx d) VNull) e now (d_completed_at d).

(** The fields of a PATCH. *)
Record job_patch := JobPatch {
  pt_status : string;
  pt_attempts : option Z;
  pt_last_error : string;
  pt_next_retry_at : option Z;
  pt_completed_at : option Z;
  pt_retry_meta : val;
  pt_updated_at : Z;
}.

(** A row read back; [jr_next_retry_at] and [jr_updated_at] are what
    [parseTimestampMs] makes of the column (0 when absent or unreadable). *)
Record job_row := JobRow {
  jr_event_key : string;
  jr_request_id : string;
  jr_status : string;
  jr_attempts : Z;
  jr_last_error : string;
  jr_next_retry_at : Z;
  jr_updated_at : Z;
  jr_created_at : option Z;
  jr_event : option event;
  jr_finalize_only : bool;
  jr_terminal_error : val;
  jr_durable_claimed : bool;
  jr_prepared_fulfillment : option prepared;
}.

(** One disjunct of the PostgREST [or=(...)] filter of a claim. *)
Inductive or_part :=
| StatusIn (statuses : list string)
| StatusStale (status : string) (before : Z).

Inductive sb_request :=
| SbUpsertJob (r : job_record)
| SbInsertJobIfAbsent (r : job_record)
| SbPatchJob (event_key : string) (f : job_patch)
| SbClaimJob (event_key network : string) (or_parts : list or_part) (f : job_patch)
| SbSelectJobs (network : string) (statuses : list string) (c : option chain) (limit : Z)
| SbQuarantine (network : string) (event_keys : list string) (last_error : string) (now : Z).

Definition sb_method (r : sb_request) : string :=
  match r with
  | SbUpsertJob _ | SbInsertJobIfAbsent _ => "POST"
  | SbPatchJob _ _ | SbClaimJob _ _ _ _ | SbQuarantine _ _ _ _ => "PATCH"
  | SbSelectJobs _ _ _ _ => "GET"
  end.

Record http_reply := HttpReply {
  hr_status : Z;
  hr_text : string;
  hr_rows : list job_row;
}.

Definition hr_ok (r : http_reply) : bool := (200 <=? hr_status r) && (hr_status r <=? 299).

(** ** Properties of the backoff window *)

Lemma positive_or_pos n d : 0 < d -> 0 < positive_or n d.
Proof. intros. unfold positive_or. repeat case_match; lia. Qed.

Lemma mark_monotone pe msg now b :
  bk_until b <= bk_until (markSupabasePersistenceUnavailable pe msg now b).2.
Proof. unfold markSupabasePersistenceUnavailable. repeat case_match; simpl; lia. Qed.

(** The outage window only ever grows: no error shortens it, and when an
    error is classified as an outage ([true]) persistence is skipped from that
    instant until at least the configured window of its class has elapsed; an
    unclassified error changes nothing. *)
Theorem supabase_backoff_window : forall pe msg now b,
  let '(marked, b') := markSupabasePersistenceUnavailable pe msg now b in
  bk_until b <= bk_until b' /\
  (marked = false -> b' = b) /\
  (marked = true -> forall t, t < now + (if isSupabaseQuotaRestrictedError msg
                                      then resolveSupabaseBackoffMs pe
                                      else resolveSupabaseTransientBackoffMs pe) ->
     shouldSkipSupabasePersistence t b' = true).
Proof.
  intros pe msg now b. pose proof (mark_monotone pe msg now b) as Hm.
  assert (forall t b0, t < bk_until b0 -> shouldSkipSupabasePersistence t b0 = true) as Hskip.
  { intros t b0 Ht. unfold shouldSkipSupabasePersistence, getSupabasePersistenceBackoff.
    by rewrite (proj2 (Z.leb_gt _ _)) by lia. }
  unfold markSupabasePersistenceUnavailable in *.
  destruct (isSupabaseQuotaRestrictedError msg), (isSupabaseConnectivityError msg);
    split_and!; try done; intros _ t Ht; apply Hskip; simpl in *; try lia;
    case_match; simpl in *; lia.
Qed.

Definition sample_penv : penv := PEnv true (Fin 300000) (Fin 30000) "testnet".

(** The reason of an expired quota window is never cleared: a later
    connectivity outage, long after the quota window closed, still reports
    [quota_restricted]. *)
Lemma stale_quota_reason :
  let b1 := (markSupabasePersistenceUnavailable sample_penv "failed: 402" 0 initial_backoff).2 in
  getSupabasePersistenceBackoff 400000 b1 = None /\
  let b2 := (markSupabasePersistenceUnavailable sample_penv "fetch failed" 400000 b1).2 in
  getSupabasePersistenceBackoff 400001 b2 = Some ("quota_restricted", 29999).
Proof. vm_compute. split; reflexivity. Qed.
