(* ===== verification/World.v ===== *)
(** * The relayer's world

    The state its asynchronous functions share (the relayer state and the
    Supabase backoff window), the calls they await, and the REST functions of
    [persistence.js] as programs over that state. *)
From S2P Require Import Prelude Numbers Strings Values Encoding Envelope State StateFacts Config Effects Persistence.
From Stdlib Require Import QArith.
#[local] Open Scope list_scope.
#[local] Open Scope Z_scope.

Record world := World {
  w_state : relayer_state;
  w_backoff : backoff;
}.

Definition on_state (f : relayer_state -> relayer_state) (w : world) : world :=
  World (f (w_state w)) (w_backoff w).

Record automation_response := AutomationResponse {
  ar_response : worker_response;
  ar_route : string;
}.

Record automation_guard := AutomationGuardResult {
  ag_blocked : bool;
  ag_automation_id : val;
  ag_job_status : string;
  ag_route : string;
  ag_error : string;
}.

(** What the relayer awaits. *)
Inductive rel_call : Type -> Type :=
| Supabase (r : sb_request) : rel_call http_reply
| CallNitro (path : string) (payload : val) (baseUrl : string) (allowFallback : bool)
    : rel_call worker_response
| EvmSign (digest : bytes) : rel_call string
| SubmitFulfillment (e : event) (f : fulfillment) (signature : string) : rel_call val
| AutomationControl (e : event) (payload : val) : rel_call automation_response
| AutomationGuard (e : event) : rel_call automation_guard
| RandomBytes (n : Z) : rel_call bytes
| LatestBlock (c : chain) : rel_call Z
| LatestRequestId (c : chain) : rel_call Z
| ScanBlocks (c : chain) (from to : Z) : rel_call (list event)
| ScanRequestIds (c : chain) (from to : jsnum) : rel_call (list event).

#[global] Notation rprog := (prog world rel_call).

(** Synchronous operations on the relayer state. *)
Definition update (f : relayer_state -> relayer_state) : rprog unit := modify (on_state f).
Definition update_at (f : Z -> relayer_state -> relayer_state) : rprog unit :=
  modify_at (fun now => on_state (f now)).
Definition query {X} (f : relayer_state -> X) : rprog X := reads (fun w => f (w_state w)).
Definition incr (name : string) (n : Z) : rprog unit := update (incrementMetric name n).

(** An operation that returns a value and reads the clock and the random source. *)
Definition op {X} (f : Z -> Q -> relayer_state -> X * relayer_state) : rprog X :=
  local (fun now rng w =>
    let '(x, s) := f now rng (w_state w) in (x, World s (w_backoff w))).

(** [persistState()] *)
Definition persistState : rprog unit := save.

Section store.
Context (pe : penv).
#[local] Open Scope prog_scope.

Definition markUnavailable (message : string) : rprog bool :=
  local (fun now _ w =>
    let '(r, b) := markSupabasePersistenceUnavailable pe message now (w_backoff w) in
    (r, World (w_state w) b)).

Definition skipPersistence : rprog bool :=
  local (fun now _ w => (shouldSkipSupabasePersistence now (w_backoff w), w)).

Definition hasSupabasePersistence : bool := pe_has_supabase pe.

(** [supabaseRequest]: [None] when persistence is not configured; a rejected
    [fetch] propagates; an error status marks the outage and throws. *)
Definition supabaseRequest (table : string) (r : sb_request) : rprog (option http_reply) :=
  if negb hasSupabasePersistence then Ret None
  else
    response <-- await (Supabase r) ;;
    if hr_ok response then Ret (Some response)
    else
      let error := trim ("supabase " +:+ table +:+ " " +:+ sb_method r +:+ " failed: "
                         +:+ num_to_string (hr_status response) +:+ " " +:+ hr_text response) in
      markUnavailable error ;;;
      Throw error.

#[local] Abbreviation jobs := "morpheus_relayer_jobs".

Definition upsertRelayerJob (r : job_record) : rprog (option http_reply) :=
  supabaseRequest jobs (SbUpsertJob r).

Definition insertRelayerJobIfAbsent (r : job_record) : rprog (option http_reply) :=
  supabaseRequest jobs (SbInsertJobIfAbsent r).

Definition patchRelayerJob (event_key : string) (fields : Z -> job_patch) : rprog (option http_reply) :=
  now <-- clock ;;
  supabaseRequest jobs (SbPatchJob event_key (fields now)).

(** The rows of a representation; [None] without persistence or for an empty body. *)
Definition claimRelayerJob (event_key : string) (fields : Z -> job_patch)
    (readyStatuses staleStatuses : list string) (staleBefore : Z) : rprog (option job_row) :=
  now <-- clock ;;
  let orParts :=
    (match filter (fun s => s <> "") readyStatuses with [] => [] | l => [StatusIn l] end)
    ++ ((fun st => StatusStale st staleBefore) <$> filter (fun s => s <> "") staleStatuses) in
  response <-- supabaseRequest jobs
    (SbClaimJob event_key (resolveSupabaseNetwork pe) orParts (fields now)) ;;
  match response with
  | None => Ret None
  | Some r => Ret (head (hr_rows r))
  end.

Definition fetchRelayerJobsByStatuses (statuses : list string) (c : option chain) (limit : Z)
    : rprog (list job_row) :=
  match statuses with
  | [] => Ret []
  | _ =>
      response <-- supabaseRequest jobs
        (SbSelectJobs (resolveSupabaseNetwork pe) statuses c limit) ;;
      match response with
      | None => Ret []
      | Some r => Ret (hr_rows r)
      end
  end.

(** ** Quarantine below the request floor *)

Definition QUARANTINE_PATCH_CHUNK_SIZE : nat := 40.

(** [Number(row.request_id || 0) < threshold] *)
Definition below_threshold (threshold : Z) (row : job_row) : bool :=
  num_lt (if decide (jr_request_id row = "") then Fin 0 else js_Number (jr_request_id row))
         (Fin threshold).

Definition quarantine_error (note : string) (threshold : Z) (row : job_row) : string :=
  (note ||s ("quarantined below request cursor floor " +:+ num_to_string threshold))
  +:+ " :: " +:+ trim (jr_last_error row ||s "legacy open relayer job").

(** [Map] of error text to event keys, in first-insertion order. *)
Fixpoint group_push (k v : string) (groups : list (string * list string)) : list (string * list string) :=
  match groups with
  | [] => [(k, [v])]
  | (k', vs) :: rest => if decide (k = k') then (k', vs ++ [v]) :: rest else (k', vs) :: group_push k v rest
  end.

Definition group_rows (err : job_row -> string) (rows : list job_row) : list (string * list string) :=
  foldl (fun g row => group_push (err row) (jr_event_key row) g) [] rows.

(** The slices [offset .. offset + size) of a list; fuel is its length. *)
Fixpoint chunks (fuel : nat) (size : nat) (l : list string) : list (list string) :=
  match fuel, l with
  | O, _ | _, [] => []
  | S fuel, _ => take size l :: chunks fuel size (drop size l)
  end.

Fixpoint patch_chunks (last_error : string) (now : Z) (cs : list (list string)) (patched : Z) : rprog Z :=
  match cs with
  | [] => Ret patched
  | chunk :: cs =>
      supabaseRequest jobs (SbQuarantine (resolveSupabaseNetwork pe) chunk last_error now) ;;;
      patch_chunks last_error now cs (patched + Z.of_nat (length chunk))
  end.

Fixpoint patch_groups (now : Z) (groups : list (string * list string)) (patched : Z) : rprog Z :=
  match groups with
  | [] => Ret patched
  | (last_error, keys) :: groups =>
      n <-- patch_chunks last_error now (chunks (length keys) QUARANTINE_PATCH_CHUNK_SIZE keys) patched ;;
      patch_groups now groups n
  end.

Definition quarantineRelayerJobsBelowRequestId (c : chain) (ltRequestId : Z)
    (statuses : list string) (note : string) : rprog Z :=
  rows <-- fetchRelayerJobsByStatuses statuses (Some c) 5000 ;;
  let targetRows := filter (fun row => below_threshold ltRequestId row = true) rows in
  match targetRows with
  | [] => Ret 0
  | _ =>
      now <-- clock ;;
      patch_groups now (group_rows (quarantine_error note ltRequestId) targetRows) 0
  end.
End store.

(** ** Lemmas *)

(** An invariant of the relayer state, as one of the world. *)
Definition world_inv (I : relayer_state -> Prop) (w : world) : Prop := I (w_state w).
Abbreviation world_wf := (world_inv state_wf).

Section invariants.
Context {I : relayer_state -> Prop} `{HI : !StateInvariant I}.
#[local] Set Default Proof Using "All".

Lemma safe_update f : (forall s, I s -> I (f s)) -> safe (world_inv I) (update f).
Proof. intros H. apply safe_modify. intros w. apply H. Qed.

Lemma safe_update_at f : (forall t s, I s -> I (f t s)) -> safe (world_inv I) (update_at f).
Proof. intros H. apply safe_modify_at. intros t w. apply H. Qed.

Lemma safe_incr n d : safe (world_inv I) (incr n d).
Proof. apply safe_update. intros s. apply inv_metrics. Qed.

Lemma safe_query {X} (f : relayer_state -> X) : safe (world_inv I) (query f).
Proof. apply safe_reads. Qed.

Lemma safe_op {X} (f : Z -> Q -> relayer_state -> X * relayer_state) :
  (forall now rng s, I s -> I (f now rng s).2) -> safe (world_inv I) (op f).
Proof.
  intros H. apply safe_local. intros now rng w Hw. specialize (H now rng _ Hw).
  by destruct (f now rng (w_state w)).
Qed.

Lemma safe_mark pe m : safe (world_inv I) (markUnavailable pe m).
Proof.
  apply safe_local. intros now rng w Hw.
  by destruct (markSupabasePersistenceUnavailable pe m now (w_backoff w)).
Qed.

Lemma safe_skip : safe (world_inv I) skipPersistence.
Proof. by apply safe_local. Qed.

Lemma safe_clock : safe (world_inv I) (clock : rprog Z).
Proof. by apply safe_local. Qed.

End invariants.

(** Discharge [safe] goals along the structure of a program. *)
Ltac safe_tac :=
  repeat first
    [ done
    | progress intros
    | simple apply safe_bind | progress cbv zeta
    | simple apply safe_attempt
    | simple apply safe_await | simple apply safe_incr | simple apply safe_query | simple apply safe_mark | simple apply safe_skip
    | simple apply safe_clock
    | match goal with
      | |- safe _ (Ret _) => exact I
      | |- safe _ (Throw _) => exact I
      | |- safe _ save => exact I
      | |- safe _ persistState => exact I
      | |- safe _ (if ?b then _ else _) => destruct b eqn:?
      | |- safe _ (match ?x with _ => _ end) => destruct x eqn:?
      end
    | solve [eauto with relayer_state] ].

Section store_invariants.
Context {I : relayer_state -> Prop} `{HI : !StateInvariant I}.
#[local] Set Default Proof Using "All".

Lemma safe_supabase pe t r : safe (world_inv I) (supabaseRequest pe t r).
Proof. unfold supabaseRequest. safe_tac. Qed.
#[local] Hint Resolve safe_supabase safe_clock safe_incr safe_mark safe_skip : relayer_state.

Lemma safe_claim pe k f rs ss t : safe (world_inv I) (claimRelayerJob pe k f rs ss t).
Proof. unfold claimRelayerJob. safe_tac. Qed.

Lemma safe_fetch pe st c l : safe (world_inv I) (fetchRelayerJobsByStatuses pe st c l).
Proof. unfold fetchRelayerJobsByStatuses. safe_tac. Qed.
#[local] Hint Resolve safe_claim safe_fetch : relayer_state.

Lemma safe_patch_groups pe now gs n : safe (world_inv I) (patch_groups pe now gs n).
Proof.
  revert n. induction gs as [|[e ks] gs IH]; intros n; simpl; [done|].
  apply safe_bind; [|auto].
  generalize (chunks (length ks) QUARANTINE_PATCH_CHUNK_SIZE ks). intros cs. revert n.
  induction cs as [|ch cs IHc]; intros n; simpl; [done|]. apply safe_bind; auto with relayer_state.
Qed.
#[local] Hint Resolve safe_patch_groups : relayer_state.

Lemma safe_quarantine pe c l st note : safe (world_inv I) (quarantineRelayerJobsBelowRequestId pe c l st note).
Proof. unfold quarantineRelayerJobsBelowRequestId. safe_tac. Qed.
End store_invariants.
#[export] Hint Resolve safe_supabase safe_clock safe_incr safe_mark safe_skip safe_claim safe_fetch
  safe_patch_groups safe_quarantine : relayer_state.
