(* ===== verification/Cursor.v ===== *)
(** * Chain cursors ([chain-cursor.js], [resolveRequestCursor])

    Where the next scan of a chain starts: the block cursor, the request-id
    cursor, and the request-id floor below which queued work is dropped. *)
From S2P Require Import Prelude Numbers Strings Values State StateFacts Config.

(** [Number(x)] of a setting that may be absent: [Number(null)] is 0. *)
Definition number_or_zero (o : option jsnum) : jsnum := default (Fin 0) o.

Definition getRequestCursorFloor (cfg : config) (c : chain) : option Z :=
  match number_or_zero (cfg_startRequestIds cfg c) with
  | Fin raw => if 0 <? raw then Some raw else None
  | _ => None
  end.

(** [Number(item?.event?.requestId || 0)] *)
Definition item_request_number (item : retry_item) : jsnum :=
  let id := ev_requestId (ri_event item) in
  if decide (id = "") then Fin 0 else js_Number id.

Definition above_floor (minRequestId : Z) (item : retry_item) : bool :=
  let requestId := item_request_number item in
  negb (isFinite requestId) || num_le (Fin minRequestId) requestId.

Definition pruneRetryQueueBelowRequestFloor (c : chain) (minRequestId : option Z)
    (s : relayer_state) : Z * relayer_state :=
  match minRequestId with
  | None => (0, s)
  | Some m =>
      let cs := chain_at s c in
      let before := Z.of_nat (length (retry_queue cs)) in
      let q := filter (fun item => above_floor m item = true) (retry_queue cs) in
      (before - Z.of_nat (length q), set_chain c (set_retry_queue q cs) s)
  end.

(** The checkpoint as the code reads it, and the reset of an invalid one. *)
Definition resolveChainFromBlock (cfg : config) (c : chain) (confirmedTip : Z)
    (s : relayer_state) : jsnum * relayer_state :=
  let defaultStart := num_max (default (Fin 0) (cfg_startBlocks cfg c)) (Fin 0) in
  match last_block (chain_at s c) with
  | None => (defaultStart, s)
  | Some lastBlock =>
      let reset := set_chain c (set_last_block None (chain_at s c)) s in
      if negb (isFinite lastBlock) || num_lt lastBlock (Fin (-1)) then (defaultStart, reset)
      else if num_lt (Fin confirmedTip) lastBlock then (defaultStart, reset)
      else (num_add lastBlock 1, s)
  end.

(** [resolveRequestCursor] ([request-processor.js]); [optionsSafeNumber] maps an
    absent setting to [null]. *)
Definition resolveRequestCursor (cfg : config) (c : chain) (latestRequestId : Z)
    (s : relayer_state) : jsnum * relayer_state :=
  let configuredStart := cfg_startRequestIds cfg c in
  let defaultStart := num_max (default (Fin 1) configuredStart) (Fin 1) in
  let defaultTailStart :=
    match configuredStart with
    | None => Fin (Z.max (latestRequestId - Z.max (cfg_maxBlocksPerTick cfg - 1) 0) 1)
    | Some _ => defaultStart
    end in
  match last_request_id (chain_at s c) with
  | None => (defaultTailStart, s)
  | Some lastRequestId =>
      let reset := set_chain c (set_last_request_id None (chain_at s c)) s in
      if negb (isFinite lastRequestId) || num_lt lastRequestId (Fin 0) then (defaultTailStart, reset)
      else if num_lt (Fin latestRequestId) lastRequestId then (defaultTailStart, reset)
      else (num_add lastRequestId 1, s)
  end.

(** [Math.min(tip, from + maxBlocksPerTick - 1)]: the end of a scan window. *)
Definition window_end (tip from maxPerTick : Z) : Z := Z.min tip (from + maxPerTick - 1).

(** The same with a request cursor that need not be finite. *)
Definition request_window_end (latest : Z) (from : jsnum) (maxPerTick : Z) : jsnum :=
  num_min (Fin latest) (num_add from (maxPerTick - 1)).

(** ** Lemmas *)

Lemma request_window_fin latest from maxPerTick :
  request_window_end latest (Fin from) maxPerTick = Fin (window_end latest from maxPerTick).
Proof.
  unfold request_window_end, window_end. replace (from + maxPerTick - 1) with (from + (maxPerTick - 1)) by lia.
  simpl. case_match; f_equal; lia.
Qed.

Lemma resolveChain_checkpoint cfg c tip s b :
  last_block (chain_at s c) = Some (Fin b) -> -1 <= b <= tip ->
  resolveChainFromBlock cfg c tip s = (Fin (b + 1), s).
Proof.
  intros H Hb. unfold resolveChainFromBlock. rewrite H. simpl.
  rewrite (proj2 (Z.ltb_ge _ _)), (proj2 (Z.ltb_ge _ _)) by lia. done.
Qed.

Lemma resolveChain_wf cfg c tip s : state_wf s -> state_wf (resolveChainFromBlock cfg c tip s).2.
Proof.
  intros H. unfold resolveChainFromBlock. repeat case_match; simpl; try done;
    apply state_wf_set; try done; destruct (H c); by split.
Qed.

Lemma resolveRequest_checkpoint cfg c latest s b :
  last_request_id (chain_at s c) = Some (Fin b) -> 0 <= b <= latest ->
  resolveRequestCursor cfg c latest s = (Fin (b + 1), s).
Proof.
  intros H Hb. unfold resolveRequestCursor. rewrite H. simpl.
  rewrite (proj2 (Z.ltb_ge _ _)), (proj2 (Z.ltb_ge _ _)) by lia. done.
Qed.

Lemma resolveRequest_wf cfg c tip s : state_wf s -> state_wf (resolveRequestCursor cfg c tip s).2.
Proof.
  intros H. unfold resolveRequestCursor. repeat case_match; simpl; try done;
    apply state_wf_set; try done; destruct (H c); by split.
Qed.

Lemma pruneFloor_wf c m s : state_wf s -> state_wf (pruneRetryQueueBelowRequestFloor c m s).2.
Proof.
  intros H. unfold pruneRetryQueueBelowRequestFloor. case_match; simpl; [|done].
  apply state_wf_set; [done|]. pose proof (H c) as Hcs. pose proof Hcs as [].
  apply chain_wf_queue; auto with relayer_state.
Qed.

#[export] Hint Resolve resolveChain_wf resolveRequest_wf pruneFloor_wf : relayer_state.
