(* ===== verification/Concurrency.v ===== *)
(** * Bounded-concurrency map ([mapWithConcurrency], [packages/shared/src/utils.js])

    The pool of workers that share one cursor, as a transition system: every
    [await] is a point where another worker may run, so a step is one worker
    pulling an index, finishing its item, or throwing.  The theorems hold for
    every interleaving. *)
From S2P Require Import Prelude Numbers.

(** [resolveScanConcurrency] *)
Definition resolveScanConcurrency (limit : jsnum) : Z :=
  match limit with
  | Fin l => if 0 <? l then Z.min l 8 else 4
  | _ => 4
  end.

Section pool.
Context {A B : Type}.

(** A worker is at the head of its loop, awaiting [worker(items[i], i)],
    returned, or rejected. *)
Inductive wstate := Idle | Busy (i : nat) | Returned | Crashed.

Record pool := Pool {
  pl_cursor : nat;
  pl_failed : bool;
  pl_results : gmap nat B;
  pl_workers : list wstate;
  pl_started : list nat;
}.

(** [Math.max(Math.min(limit, items.length), 1)] *)
Definition width (limit : Z) (items : list A) : nat :=
  Z.to_nat (Z.max (Z.min limit (Z.of_nat (length items))) 1).

Definition init_pool (limit : Z) (items : list A) : pool :=
  Pool 0 false ∅ (replicate (width limit items) Idle) [].

Inductive pool_step (items : list A) (worker : A -> nat -> option B -> Prop) : pool -> pool -> Prop :=
| pool_stop w p :
    pl_workers p !! w = Some Idle -> pl_failed p = true ->
    pool_step items worker p
      (Pool (pl_cursor p) (pl_failed p) (pl_results p) (<[w := Returned]> (pl_workers p)) (pl_started p))
| pool_drain w p :
    pl_workers p !! w = Some Idle -> pl_failed p = false -> (length items <= pl_cursor p)%nat ->
    pool_step items worker p
      (Pool (S (pl_cursor p)) (pl_failed p) (pl_results p) (<[w := Returned]> (pl_workers p)) (pl_started p))
| pool_pull w p :
    pl_workers p !! w = Some Idle -> pl_failed p = false -> (pl_cursor p < length items)%nat ->
    pool_step items worker p
      (Pool (S (pl_cursor p)) (pl_failed p) (pl_results p)
        (<[w := Busy (pl_cursor p)]> (pl_workers p)) (pl_started p ++ [pl_cursor p]))
| pool_finish w i x y p :
    pl_workers p !! w = Some (Busy i) -> items !! i = Some x -> worker x i (Some y) ->
    pool_step items worker p
      (Pool (pl_cursor p) (pl_failed p) (<[i := y]> (pl_results p)) (<[w := Idle]> (pl_workers p)) (pl_started p))
| pool_throw w i x p :
    pl_workers p !! w = Some (Busy i) -> items !! i = Some x -> worker x i None ->
    pool_step items worker p
      (Pool (pl_cursor p) true (pl_results p) (<[w := Crashed]> (pl_workers p)) (pl_started p)).

(** [Promise.all] resolves when every worker returned. *)
Definition resolved (p : pool) : Prop := Forall (fun w => w = Returned) (pl_workers p).

Definition in_flight (ws : list wstate) : list nat :=
  omap (fun w => match w with Busy i => Some i | _ => None end) ws.

(** ** Invariant *)

Section invariant.
Context (items : list A) (worker : A -> nat -> option B -> Prop).

Definition crashed (p : pool) : Prop := Crashed ∈ pl_workers p.

Record pool_inv (n : nat) (p : pool) : Prop := {
  inv_width : length (pl_workers p) = n;
  inv_started : pl_started p = seq 0 (min (pl_cursor p) (length items));
  inv_failed : pl_failed p = true <-> crashed p;
  inv_accounted : pl_failed p = false -> forall i, i ∈ pl_started p ->
    is_Some (pl_results p !! i) \/ i ∈ in_flight (pl_workers p);
  inv_results : forall i y, pl_results p !! i = Some y ->
    exists x, items !! i = Some x /\ worker x i (Some y);
  inv_returned : pl_failed p = false -> Returned ∈ pl_workers p -> (length items <= pl_cursor p)%nat;
}.

Lemma in_flight_elem i (ws : list wstate) : i ∈ in_flight ws <-> Busy i ∈ ws.
Proof.
  unfold in_flight. rewrite list_elem_of_omap. split.
  - intros ([] & Hw & Hs); simplify_eq. done.
  - intros H. by exists (Busy i).
Qed.

Lemma elem_insert (w : nat) (x y z : wstate) (ws : list wstate) :
  ws !! w = Some y -> z ∈ <[w := x]> ws -> z = x \/ z ∈ ws.
Proof.
  intros Hw [j Hj]%list_elem_of_lookup. destruct (decide (w = j)) as [->|].
  - rewrite list_lookup_insert_eq in Hj by (by eapply lookup_lt_Some). left. congruence.
  - rewrite list_lookup_insert_ne in Hj by done. right. by eapply list_elem_of_lookup_2.
Qed.

Lemma elem_insert_old (w : nat) (x y z : wstate) (ws : list wstate) :
  ws !! w = Some y -> z <> y -> z ∈ ws -> z ∈ <[w := x]> ws.
Proof.
  intros Hw Hne [j Hj]%list_elem_of_lookup. destruct (decide (w = j)) as [->|]; [congruence|].
  eapply (list_elem_of_lookup_2 _ j). by rewrite list_lookup_insert_ne.
Qed.

Lemma elem_insert_new (w : nat) (x y : wstate) (ws : list wstate) : ws !! w = Some y -> x ∈ <[w := x]> ws.
Proof.
  intros Hw. eapply (list_elem_of_lookup_2 _ w), list_lookup_insert_eq. by eapply lookup_lt_Some.
Qed.

Lemma init_inv limit : pool_inv (width limit items) (init_pool limit items).
Proof.
  split; simpl.
  - by rewrite length_replicate.
  - done.
  - split; [done|]. unfold crashed. simpl. by intros [? _]%elem_of_replicate.
  - intros _ i. by intros ?%elem_of_nil.
  - done.
  - intros _ [? _]%elem_of_replicate. done.
Qed.

Lemma step_inv n p p' : pool_step items worker p p' -> pool_inv n p -> pool_inv n p'.
Proof.
  intros Hs [Hw Hst Hf Hacc Hres Hret]. unfold crashed in *.
  destruct Hs as [w p Hi Hfail|w p Hi Hfail Hlen|w p Hi Hfail Hlen|w i x y p Hb Hx Hy|w i x p Hb Hx Hy];
    split; cbn [pl_cursor pl_failed pl_results pl_workers pl_started];
    rewrite ?length_insert; try done; try congruence; unfold crashed;
    cbn [pl_cursor pl_failed pl_results pl_workers pl_started].
  - rewrite Hf. split; intros H.
    + by eapply elem_insert_old.
    + by eapply elem_insert in H as [|].
  - rewrite Hst. f_equal. lia.
  - rewrite Hf. split; intros H.
    + by eapply elem_insert_old.
    + by eapply elem_insert in H as [|].
  - intros _ j Hj. destruct (Hacc Hfail j Hj) as [|H]; [by left|right].
    rewrite in_flight_elem in *. by eapply elem_insert_old.
  - lia.
  - rewrite Hst. replace (pl_cursor p `min` length items)%nat with (pl_cursor p) by lia.
    replace (S (pl_cursor p) `min` length items)%nat with (S (pl_cursor p)) by lia.
    by rewrite seq_S.
  - rewrite Hf. split; intros H.
    + by eapply elem_insert_old.
    + by eapply elem_insert in H as [|].
  - intros _ j [Hj| ->%list_elem_of_singleton]%elem_of_app.
    + destruct (Hacc Hfail j Hj) as [|H]; [by left|right].
      rewrite in_flight_elem in *. by eapply elem_insert_old.
    + right. rewrite in_flight_elem. by eapply elem_insert_new.
  - intros _ H. eapply elem_insert in H as [|H]; [done| |done]. specialize (Hret Hfail H). lia.
  - rewrite Hf. split; intros H.
    + by eapply elem_insert_old.
    + by eapply elem_insert in H as [|].
  - intros Hfail j Hj. destruct (decide (j = i)) as [->|Hne].
    + left. rewrite lookup_insert_eq. eauto.
    + rewrite lookup_insert_ne by done. destruct (Hacc Hfail j Hj) as [|H]; [by left|right].
      rewrite in_flight_elem in *. eapply elem_insert_old; [done| |done]. congruence.
  - intros j z. destruct (decide (j = i)) as [->|].
    + rewrite lookup_insert_eq. intros [= <-]. eauto.
    + rewrite lookup_insert_ne by done. apply Hres.
  - intros Hfail H. eapply elem_insert in H as [|H]; [done| |done]. eauto.
  - split; [|done]. intros _. by eapply elem_insert_new.
Qed.

Lemma steps_inv limit p :
  rtc (pool_step items worker) (init_pool limit items) p -> pool_inv (width limit items) p.
Proof.
  apply (rtc_ind_r (fun p => pool_inv (width limit items) p)); [apply init_inv|].
  intros; eauto using step_inv.
Qed.

Lemma busy_bound ws : (length (in_flight ws) <= length ws)%nat.
Proof. induction ws as [|[] ws IH]; csimpl; lia. Qed.

(** Progress measure: remaining indices, then unfinished workers. *)
Definition wweight (w : wstate) : nat :=
  match w with Idle => 1 | Busy _ => 2 | Returned | Crashed => 0 end.

Definition pool_measure (p : pool) : nat :=
  2 * (length items - pl_cursor p) + sum_list_with wweight (pl_workers p).

Lemma sum_insert (ws : list wstate) w x y :
  ws !! w = Some y ->
  (sum_list_with wweight (<[w := x]> ws) + wweight y = sum_list_with wweight ws + wweight x)%nat.
Proof.
  revert w. induction ws as [|z ws IH]; intros [|w] H; simplify_eq/=; [lia|].
  specialize (IH w H). lia.
Qed.

Lemma step_measure p p' : pool_step items worker p p' -> (pool_measure p' < pool_measure p)%nat.
Proof.
  intros Hs. unfold pool_measure.
  destruct Hs as [w p Hi|w p Hi|w p Hi|w i x y p Hb|w i x p Hb]; simpl;
    match goal with
    | |- context [<[w := ?x]> _] =>
        first [ pose proof (sum_insert _ w x _ Hi) as Hsum | pose proof (sum_insert _ w x _ Hb) as Hsum ]
    end; simpl in Hsum; lia.
Qed.
End invariant.
End pool.
Arguments pool : clear implicits.

(** The results of all items, as a list. *)
Lemma results_list {A B} (worker : A -> nat -> option B -> Prop) (results : gmap nat B) (items : list A) :
  (forall i y, results !! i = Some y -> exists x, items !! i = Some x /\ worker x i (Some y)) ->
  (forall i, (i < length items)%nat -> is_Some (results !! i)) ->
  exists ys, (forall i, results !! i = ys !! i) /\
    length ys = length items /\ forall i x y, items !! i = Some x -> ys !! i = Some y -> worker x i (Some y).
Proof.
  intros Hres Hall. exists (omap (fun i => results !! i) (seq 0 (length items))).
  assert (forall n k, (forall i, (k <= i < k + n)%nat -> is_Some (results !! i)) ->
    length (omap (fun i => results !! i) (seq k n)) = n /\
    forall i, (i < n)%nat -> omap (fun i => results !! i) (seq k n) !! i = results !! (k + i)%nat) as Hgen.
  { induction n as [|n IH]; intros k Hk; [split; [done|lia]|]. cbn [seq]. destruct (Hk k) as [y Hy]; [lia|].
    csimpl. rewrite Hy. destruct (IH (S k)) as [Hl Hi]; [intros; apply Hk; lia|]. csimpl. split; [by rewrite Hl|].
    intros [|i] Hi'; csimpl; [by rewrite Nat.add_0_r|]. rewrite Hi by lia. f_equal. lia. }
  destruct (Hgen (length items) 0%nat) as [Hl Hi]; [intros; apply Hall; lia|]. cbn [Nat.add] in Hi. split_and!; [|done|].
  - intros i. destruct (decide (i < length items)%nat) as [Hlt|Hge]; [by rewrite Hi|].
    rewrite (lookup_ge_None_2 (omap _ _)) by lia. destruct (results !! i) as [y|] eqn:Hy; [|done].
    destruct (Hres i y Hy) as (x & Hx & _). apply lookup_lt_Some in Hx. lia.
  - intros i x y Hx Hy. rewrite Hi in Hy by (by eapply lookup_lt_Some). destruct (Hres i y Hy) as (x' & Hx' & Hw). congruence.
Qed.

(** C40.  In every interleaving of the workers: the indices are started in order,
    each once, at most [max(min(limit, length), 1)] items are in flight, a result
    written at an index is a result of the worker on that item, after a failure
    no further item is started, and when all workers returned none had failed
    and the array is that of the sequential map: one result per item, in input
    order. *)
Theorem mapWithConcurrency_correct :
  forall (A B : Type) (items : list A) (worker : A -> nat -> option B -> Prop) limit p,
  rtc (pool_step items worker) (init_pool limit items) p ->
  pl_started p = seq 0 (length (pl_started p)) /\ (length (pl_started p) <= length items)%nat /\
  (length (in_flight (pl_workers p)) <= width limit items)%nat /\
  (forall i y, pl_results p !! i = Some y -> exists x, items !! i = Some x /\ worker x i (Some y)) /\
  (forall p', pl_failed p = true -> pool_step items worker p p' -> pl_started p' = pl_started p) /\
  (resolved p -> pl_failed p = false /\
     exists ys, (forall i, pl_results p !! i = ys !! i) /\ length ys = length items /\
       forall i x y, items !! i = Some x -> ys !! i = Some y -> worker x i (Some y)).
Proof.
  intros A B items worker limit p Hr. pose proof (steps_inv _ _ _ _ Hr) as [Hw Hst Hf Hacc Hres Hret].
  split_and!; [rewrite Hst; by rewrite length_seq|rewrite Hst, length_seq; lia|rewrite <-Hw; apply busy_bound|done| |].
  - intros p' Hfail Hs. by destruct Hs; simplify_eq/=; try congruence.
  - intros Hall. unfold resolved in Hall. rewrite Forall_forall in Hall.
    assert (pl_failed p = false) as Hfail.
    { apply not_true_iff_false. rewrite Hf. intros Hc. by apply Hall in Hc. }
    split; [done|]. apply results_list; [done|]. intros i Hi.
    assert (Returned ∈ pl_workers p) as Hre.
    { destruct (pl_workers p) as [|w0 ws] eqn:E; [simpl in Hw; unfold width in Hw; lia|].
      rewrite (Hall w0) by set_solver. set_solver. }
    specialize (Hret Hfail Hre).
    destruct (Hacc Hfail i) as [|Hb]; [|done|].
    + rewrite Hst. apply elem_of_seq. lia.
    + rewrite in_flight_elem in Hb. by apply Hall in Hb.
Qed.

(** A worker that rejects 6. *)
Definition sample_worker (x i : nat) (r : option nat) : Prop := r = if (x =? 6)%nat then None else Some (S x).

(** Two workers; the second finishes first. *)
Lemma resolving_run :
  rtc (pool_step [5; 7]%nat sample_worker) (init_pool 2 [5; 7]%nat)
    (Pool 4 false {[0%nat := 6%nat; 1%nat := 8%nat]} [Returned; Returned] [0; 1]%nat).
Proof.
  eapply rtc_l; [apply (pool_pull _ _ 0%nat); (reflexivity || (vm_compute; lia))|].
  eapply rtc_l; [apply (pool_pull _ _ 1%nat); (reflexivity || (vm_compute; lia))|].
  eapply rtc_l; [apply (pool_finish _ _ 1%nat 1%nat 7%nat 8%nat); reflexivity|].
  eapply rtc_l; [apply (pool_drain _ _ 1%nat); (reflexivity || (vm_compute; lia))|].
  eapply rtc_l; [apply (pool_finish _ _ 0%nat 0%nat 5%nat 6%nat); reflexivity|].
  eapply rtc_l; [apply (pool_drain _ _ 0%nat); (reflexivity || (vm_compute; lia))|].
  apply rtc_refl.
Qed.

(** The second of three items is rejected while the first is in flight. *)
Lemma failing_run :
  rtc (pool_step [5; 6; 9]%nat sample_worker) (init_pool 2 [5; 6; 9]%nat)
    (Pool 2 true {[0%nat := 6%nat]} [Idle; Crashed] [0; 1]%nat).
Proof.
  eapply rtc_l; [apply (pool_pull _ _ 0%nat); (reflexivity || (vm_compute; lia))|].
  eapply rtc_l; [apply (pool_pull _ _ 1%nat); (reflexivity || (vm_compute; lia))|].
  eapply rtc_l; [apply (pool_throw _ _ 1%nat 1%nat 6%nat); reflexivity|].
  eapply rtc_l; [apply (pool_finish _ _ 0%nat 0%nat 5%nat 6%nat); reflexivity|].
  apply rtc_refl.
Qed.

Example mapWithConcurrency_correct_witness :
  (exists ys, (forall i, ({[0%nat := 6%nat; 1%nat := 8%nat]} : gmap nat nat) !! i = ys !! i) /\ length ys = 2%nat) /\
  (forall p', pool_step [5; 6; 9]%nat sample_worker (Pool 2 true {[0%nat := 6%nat]} [Idle; Crashed] [0; 1]%nat) p' ->
     pl_started p' = [0; 1]%nat).
Proof.
  split.
  - destruct (mapWithConcurrency_correct nat nat [5; 7]%nat sample_worker 2 _ resolving_run)
      as (_ & _ & _ & _ & _ & H). destruct H as [_ (ys & H1 & H2 & _)]; [by repeat constructor|]. by exists ys.
  - destruct (mapWithConcurrency_correct nat nat [5; 6; 9]%nat sample_worker 2 _ failing_run) as (_ & _ & _ & _ & H & _).
    intros p' Hp. exact (H p' eq_refl Hp).
Defined.

(** The pool terminates: every interleaving takes at most
    [2 * length + 1 * width] further steps, so the promise settles as soon as
    each started call settles. *)
Theorem mapWithConcurrency_terminates :
  forall (A B : Type) (items : list A) (worker : A -> nat -> option B -> Prop) limit n p,
  nsteps (pool_step items worker) n (init_pool limit items) p ->
  (n <= 2 * length items + width limit items)%nat.
Proof.
  intros A B items worker limit n p Hn.
  assert (forall p0, nsteps (pool_step items worker) n p0 p -> (n <= pool_measure items p0)%nat) as H.
  { clear. induction n as [|n IH]; intros p0 Hn; [lia|].
    inversion Hn as [|? ? ? p1 Hs Hrest]; subst.
    apply step_measure in Hs. apply IH in Hrest. lia. }
  apply H in Hn. etransitivity; [exact Hn|]. unfold pool_measure, init_pool. simpl.
  assert (forall k, sum_list_with wweight (replicate k Idle) = k) as ->.
  { induction k as [|k IH]; simpl; [done|]. by rewrite IH. }
  lia.
Qed.

Example mapWithConcurrency_terminates_witness :
  (0 <= 2 * length [5%nat; 6%nat] + width 2 [5%nat; 6%nat])%nat.
Proof.
  apply (mapWithConcurrency_terminates nat nat [5%nat; 6%nat] (fun x _ r => r = Some (S x)) 2 0
    (init_pool 2 [5%nat; 6%nat])).
  constructor.
Defined.
