(* ===== verification/Upkeep.v ===== *)
(** * Automation upkeep dispatch ([automation-supervisor.js] of [packages/shared])

    The identifiers of one automation execution.  Two lanes dispatch executions
    (the relayer and the control plane); the kernel deduplicates them by the
    [request_id] built here. *)
From S2P Require Import Prelude Numbers Strings Values.
#[local] Open Scope list_scope.
#[local] Open Scope Z_scope.

(** [Number(v)] truncated towards zero; a decimal numeral keeps its integral part. *)
Fixpoint before_point (s : string) : string :=
  match s with
  | "" => ""
  | String a s' => if Ascii.eqb a "." then "" else String a (before_point s')
  end.

Definition numeric (v : val) : jsnum :=
  match v with
  | VNum n => Fin n
  | VFloat t => js_Number (before_point t)
  | VStr s => js_Number s
  | VBool b => Fin (if b then 1 else 0)
  | VNull => Fin 0
  | _ => NaN
  end.

Definition parseNonNegativeInteger (v : val) : Z :=
  match numeric v with Fin n => if n <? 0 then 0 else n | _ => 0 end.

Definition normalizeWorkflowVersion (v : val) : Z :=
  match numeric v with Fin n => if n <=? 0 then 1 else n | _ => 1 end.

Record upkeep := Upkeep {
  up_workflow_id : string;
  up_workflow_version : Z;
  up_automation_id : string;
  up_execution_count : Z;
  up_next_execution_count : Z;
  up_execution_id : string;
  up_request_id : string;
  up_idempotency_key : string;
  up_replay_window : string;
  up_delivery_mode : string;
}.

(** [trimString(job[snake] || job[camel] || '')] *)
Definition field2 (job : val) (snake camel : string) : string :=
  trimString (v_or (v_or (get job snake) (get job camel)) (VStr "")).

Definition buildUpkeepDispatch (job : val) : string + upkeep :=
  let automationId := field2 job "automation_id" "automationId" in
  if (automationId =? "")%string then inl "automation_id is required"
  else
    let workflowId := field2 job "workflow_id" "workflowId" ||s "automation.upkeep" in
    let workflowVersion := normalizeWorkflowVersion (v_or (get job "workflow_version") (get job "workflowVersion")) in
    let executionCount := parseNonNegativeInteger (v_or (get job "execution_count") (get job "executionCount")) in
    let nextExecutionCount := executionCount + 1 in
    let chain := trimString (v_or (get job "chain") (VStr "")) ||s "unknown" in
    let count := num_to_string nextExecutionCount in
    let executionId := field2 job "execution_id" "executionId"
                       ||s join ":" [workflowId; automationId; count] in
    inr (Upkeep workflowId workflowVersion automationId executionCount nextExecutionCount executionId
      (field2 job "request_id" "requestId" ||s join ":" ["automation"; chain; automationId; count])
      (field2 job "idempotency_key" "idempotencyKey" ||s join ":" [workflowId; automationId; count])
      (field2 job "replay_window" "replayWindow" ||s "strict")
      (field2 job "delivery_mode" "deliveryMode" ||s "onchain_callback")).

Definition buildUpkeepExecutionPayload (payload job : val) : string + val :=
  let basePayload := match payload with VObj kvs => kvs | _ => [] end in
  match buildUpkeepDispatch job with
  | inl e => inl e
  | inr d =>
      inr (VObj (spread basePayload
        [("automation_id", VStr (up_automation_id d)); ("workflow_id", VStr (up_workflow_id d));
         ("workflow_version", VNum (up_workflow_version d)); ("execution_id", VStr (up_execution_id d));
         ("idempotency_key", VStr (up_idempotency_key d));
         ("replay_window", VStr (up_replay_window d)); ("delivery_mode", VStr (up_delivery_mode d))]))
  end.

(** ** Cross-lane deduplication *)

Definition execution_count_of (job : val) : Z :=
  parseNonNegativeInteger (v_or (get job "execution_count") (get job "executionCount")).

Definition chain_of (job : val) : string := trimString (v_or (get job "chain") (VStr "")) ||s "unknown".

Lemma str_app_inj s t t' : s +:+ t = s +:+ t' -> t = t'.
Proof.
  induction s as [|a s IH]; [done|]. change (String a s +:+ ?x) with (String a (s +:+ x)).
  intros [= H]. auto.
Qed.

Lemma num_to_string_inj n m : num_to_string n = num_to_string m -> n = m.
Proof. apply (inj pretty). Qed.

(** Two strings that end in a separator and a numeral: the last separator splits
    them, as the numerals contain none. *)
Lemma last_sep_inj s s' n m :
  s +:+ String ":" (num_to_string n) = s' +:+ String ":" (num_to_string m) -> s = s' /\ n = m.
Proof.
  revert s'. induction s as [|a s IH]; intros [|a' s'] H.
  - split; [done|]. injection H as H. by apply num_to_string_inj.
  - change ("" +:+ ?x) with x in H. change (String a' s' +:+ ?x) with (String a' (s' +:+ x)) in H.
    injection H as _ H. pose proof (num_to_string_no_colon n) as Hn.
    rewrite H, str_forall_app in Hn. apply andb_true_iff in Hn as [_ Hn]. discriminate Hn.
  - change ("" +:+ ?x) with x in H. change (String a s +:+ ?x) with (String a (s +:+ x)) in H.
    injection H as _ H. pose proof (num_to_string_no_colon m) as Hm.
    rewrite <-H, str_forall_app in Hm. apply andb_true_iff in Hm as [_ Hm]. discriminate Hm.
  - change (String a s +:+ ?x) with (String a (s +:+ x)) in H.
    change (String a' s' +:+ ?x) with (String a' (s' +:+ x)) in H.
    injection H as -> H. destruct (IH s' H) as [-> ->]. done.
Qed.

Lemma join4 a b c d :
  a +:+ ":" +:+ b +:+ ":" +:+ c +:+ ":" +:+ d = (a +:+ String ":" (b +:+ String ":" c)) +:+ String ":" d.
Proof.
  assert (forall x y z, x +:+ (y +:+ z) = (x +:+ y) +:+ z) as Hassoc.
  { intros x y z. induction x as [|h x IH]; [done|].
    change (String h x +:+ ?w) with (String h (x +:+ w)).
    change (String h (x +:+ y) +:+ z) with (String h ((x +:+ y) +:+ z)). by rewrite IH. }
  change (":" +:+ ?x) with (String ":" x). rewrite <-!Hassoc.
  change (String ":" ?x +:+ ?y) with (String ":" (x +:+ y)). by rewrite <-Hassoc.
Qed.

(** The on-chain request id deduplicates executions across lanes: for jobs
    that carry no explicit request id, whatever their execution id, workflow or
    other fields, two dispatches of the same automation on the same chain mint
    the same request id exactly when they are for the same execution count. *)
Theorem upkeep_request_id_dedup : forall job job' d d',
  buildUpkeepDispatch job = inr d -> buildUpkeepDispatch job' = inr d' ->
  field2 job "request_id" "requestId" = "" -> field2 job' "request_id" "requestId" = "" ->
  up_automation_id d = up_automation_id d' -> chain_of job = chain_of job' ->
  (up_request_id d = up_request_id d' <-> execution_count_of job = execution_count_of job').
Proof.
  intros job job' d d' Hd Hd' Hr Hr'. unfold buildUpkeepDispatch in Hd, Hd'.
  destruct (field2 job "automation_id" "automationId" =? "")%string; [done|].
  destruct (field2 job' "automation_id" "automationId" =? "")%string; [done|].
  injection Hd as <-. injection Hd' as <-. cbn [up_automation_id up_request_id].
  rewrite Hr, Hr', !or_str_empty. unfold chain_of. intros -> ->.
  fold (execution_count_of job) (execution_count_of job'). rewrite !join4. split; [|by intros ->].
  intros [_ H]%last_sep_inj. lia.
Qed.

Definition sample_job (count : Z) (execution_id : string) : val :=
  VObj [("automation_id", VStr "auto-1"); ("chain", VStr "neo_n3"); ("execution_count", VNum count);
        ("execution_id", VStr execution_id)].

Definition sample_upkeep (count : Z) (execution_id : string) : upkeep :=
  match buildUpkeepDispatch (sample_job count execution_id) with
  | inr d => d
  | inl _ => Upkeep "" 0 "" 0 0 "" "" "" "" ""
  end.

Example upkeep_request_id_dedup_witness :
  up_request_id (sample_upkeep 3 "") = up_request_id (sample_upkeep 3 "edge-random").
Proof.
  apply (upkeep_request_id_dedup (sample_job 3 "") (sample_job 3 "edge-random"));
    vm_compute; reflexivity.
Defined.
