(* ===== verification/Stringify.v ===== *)
(** * Canonical JSON ([stableStringify] of [packages/shared/src/utils.js])

    The text behind the worker's signed [output_hash] digests and idempotency
    keys.  The order of the keys is that of [Intl.Collator], a parameter.  Two
    theorems: the text determines the value, and it does not depend on the order
    in which the properties were added, as long as the collator tells the keys of
    each object apart. *)
From stdpp Require Import sorting.
From Stdlib Require Import Morphisms.
From S2P Require Import Prelude Numbers Strings Values Encoding Text.
#[local] Open Scope list_scope.
#[local] Open Scope Z_scope.

Section stringify.
Context (collate : string -> string -> comparison).

Definition key_le {A} (x y : string * A) : bool :=
  match collate x.1 y.1 with Gt => false | _ => true end.

(** [entries.sort(...)]: stable. *)
Fixpoint insert_entry {A} (x : string * A) (l : list (string * A)) : list (string * A) :=
  match l with
  | [] => [x]
  | y :: l' => if key_le x y then x :: l else y :: insert_entry x l'
  end.

Definition sort_entries {A} (l : list (string * A)) : list (string * A) := foldr insert_entry [] l.

(** [Object.entries(v).filter(([, v]) => v !== undefined)], mapped. *)
Definition live {A} (f : val -> A) (kvs : list (string * val)) : list (string * A) :=
  omap (fun kv => if is_undefined kv.2 then None else Some (kv.1, f kv.2)) kvs.

Definition entry_text (e : string * string) : string := json_quote e.1 +:+ ":" +:+ e.2.

Fixpoint stableStringify (v : val) : string :=
  match v with
  | VNull | VUndef => "null"
  | VArr l => "[" +:+ join "," (map stableStringify l) +:+ "]"
  | VObj kvs =>
      "{" +:+ join "," (map entry_text (sort_entries (live stableStringify kvs))) +:+ "}"
  | v => default "" (json_stringify v)
  end.

(** ** The value a text stands for *)

(** What the text keeps: a value without undefined entries, with sorted keys. *)
Fixpoint canonical (v : val) : val :=
  match v with
  | VNull | VUndef | VNaN => VNull
  | VArr l => VArr (map canonical l)
  | VObj kvs => VObj (sort_entries (live canonical kvs))
  | v => v
  end.

(** The text of a canonical value, read off in order. *)
Fixpoint text (v : val) : string :=
  match v with
  | VArr l => "[" +:+ join "," (map text l) +:+ "]"
  | VObj kvs => "{" +:+ join "," (map (fun kv => entry_text (kv.1, text kv.2)) kvs) +:+ "}"
  | v => default "" (json_stringify v)
  end.

Lemma insert_fmap {A B} (f : A -> B) x l :
  insert_entry (prod_map id f x) (map (prod_map id f) l) = map (prod_map id f) (insert_entry x l).
Proof.
  induction l as [|y l IH]; [done|]. simpl. unfold key_le. simpl.
  destruct (collate _ _); simpl; by rewrite <-?IH.
Qed.

Lemma sort_fmap {A B} (f : A -> B) l :
  sort_entries (map (prod_map id f) l) = map (prod_map id f) (sort_entries l).
Proof. induction l as [|x l IH]; [done|]. simpl. by rewrite IH, insert_fmap. Qed.

Lemma live_map {A B} (f : val -> B) (g : A -> B) (h : val -> A) kvs :
  Forall (fun kv => f kv.2 = g (h kv.2)) kvs -> live f kvs = map (prod_map id g) (live h kvs).
Proof.
  induction 1 as [|[k v] kvs Hv _ IH]; [done|]. unfold live in *. cbn [omap list_omap fst snd] in *.
  destruct (is_undefined v); [done|]. cbn [map prod_map fst snd id]. by rewrite Hv, IH.
Qed.

Lemma stableStringify_text v : stableStringify v = text (canonical v).
Proof.
  induction v as [| | | | | | |l IH|kvs IH] using val_ind; try done.
  - simpl. f_equal. f_equal. f_equal. induction IH as [|v l Hv _ IHl]; [done|]. simpl. by rewrite Hv, IHl.
  - cbn [stableStringify canonical text]. f_equal. f_equal. f_equal.
    rewrite (live_map _ text canonical) by done. rewrite sort_fmap, map_map. apply map_ext. by intros [k v].
Qed.
End stringify.

(** ** The text determines the canonical value *)

Definition number_char (a : ascii) : bool :=
  (digit_value a <? 10) || existsb (Ascii.eqb a) ["-"; "+"; "."; "e"]%char.

(** The text of a number that is not an integer. *)
Definition float_text (t : string) : bool :=
  str_forall number_char t && str_exists (fun a => Ascii.eqb a "." || Ascii.eqb a "e") t.

(** Values as [JSON.parse] and arithmetic make them. *)
Fixpoint json_value (v : val) : bool :=
  match v with
  | VFloat t => float_text t
  | VArr l => forallb json_value l
  | VObj kvs => forallb (fun kv => json_value kv.2) kvs
  | _ => true
  end.

Fixpoint plain (v : val) : bool :=
  match v with
  | VUndef | VNaN => false
  | VFloat t => float_text t
  | VArr l => forallb plain l
  | VObj kvs => forallb (fun kv => plain kv.2) kvs
  | _ => true
  end.

Lemma Forall_sort_entries {A} collate (P : string * A -> Prop) l :
  Forall P l -> Forall P (sort_entries collate l).
Proof.
  assert (forall x l, P x -> Forall P l -> Forall P (insert_entry collate x l)) as Hins.
  { intros x l' Hx Hl. induction Hl as [|y l' Hy Hl IH]; simpl; [by constructor|].
    case_match; by repeat constructor. }
  induction 1 as [|x l Hx _ IH]; simpl; auto.
Qed.

Lemma canonical_plain collate v : json_value v = true -> plain (canonical collate v) = true.
Proof.
  induction v as [| | | | | | |l IH|kvs IH] using val_ind; try done; intros Hv; simpl in *.
  - rewrite forallb_forall in *. intros x (y & <- & Hy)%in_map_iff.
    rewrite Forall_forall in IH. apply IH; [by apply list_elem_of_In|auto].
  - apply forallb_forall. intros x Hx%list_elem_of_In. revert x Hx. apply Forall_forall.
    apply Forall_sort_entries, Forall_forall. intros x ([k v] & Hin & Hx)%list_elem_of_omap.
    simpl in Hx. destruct (is_undefined v); [done|]. injection Hx as <-. simpl.
    rewrite Forall_forall in IH. apply (IH (k, v)); [done|].
    rewrite forallb_forall in Hv. apply (Hv (k, v)). by apply list_elem_of_In.
Qed.

Definition closing (a : ascii) : bool := existsb (Ascii.eqb a) [","; "]"; "}"]%char.
Definition stops (s : string) : bool := match s with "" => true | String a _ => closing a end.

(** [f x] can be told apart from any other item's text by what follows. *)
Definition unambiguous {A} (P : A -> Prop) (f : A -> string) (x : A) : Prop :=
  forall y s t, P y -> stops s = true -> stops t = true -> f x +:+ s = f y +:+ t -> x = y /\ s = t.

Definition opens (s : string) : Prop := exists a r, s = String a r /\ closing a = false.

Lemma opens_app s t : opens s -> opens (s +:+ t).
Proof. intros (a & r & -> & Ha). exists a, (r +:+ t). done. Qed.

Lemma list_unambiguous {A} (P : A -> Prop) (f : A -> string) c l l' s t :
  closing c = true -> c <> ","%char ->
  Forall (fun x => unambiguous P f x /\ opens (f x)) l -> Forall (fun y => P y /\ opens (f y)) l' ->
  join "," (map f l) +:+ String c s = join "," (map f l') +:+ String c t -> l = l' /\ s = t.
Proof.
  intros Hc Hcomma Hl Hl'. revert l' Hl' s t.
  assert (forall z u v, closing z = true -> opens u -> String z v = u -> False) as Hop.
  { intros z u v Hz (a & r & -> & Ha) [= -> ->]. congruence. }
  induction Hl as [|x l [Hx Hox] Hl IH]; intros l' Hl' s t Heq.
  - destruct l' as [|y l']; [by injection Heq as ->|]. exfalso.
    apply Forall_cons in Hl' as [[_ Hy] _]. refine (Hop c _ s Hc _ Heq).
    destruct l'; cbn [map]; rewrite ?join_cons, <-?str_app_assoc; by apply opens_app.
  - destruct l' as [|y l'].
    { exfalso. refine (Hop c _ t Hc _ (eq_sym Heq)).
      destruct l; cbn [map]; rewrite ?join_cons, <-?str_app_assoc; by apply opens_app. }
    apply Forall_cons in Hl' as [[HPy Hoy] Hl'].
    assert (forall (z : A) zs u, join "," (map f (z :: zs)) +:+ String c u
              = f z +:+ (match zs with [] => String c u | _ => String "," (join "," (map f zs) +:+ String c u) end)) as Hj.
    { intros z [|z' zs] u; [done|]. cbn [map]. rewrite join_cons, <-!str_app_assoc. done. }
    rewrite !Hj in Heq. apply Hx in Heq as [-> Heq]; [|done|by destruct l|by destruct l'].
    destruct l as [|x' l], l' as [|y' l'].
    + by injection Heq as ->.
    + injection Heq as -> _. done.
    + injection Heq as <- _. done.
    + injection Heq as Heq. destruct (IH (y' :: l') Hl' s t Heq) as [-> ->]. done.
Qed.

(** ** Strings *)

Lemma json_escape_prefix a b :
  a <> b -> startsWith (json_escape_char b) (json_escape_char a) = false.
Proof.
  intros Hab. destruct (startsWith _ _) eqn:E; [|done]. exfalso. apply Hab, Ascii.eqb_eq.
  assert (forall a, forallb (fun b => implb (startsWith (json_escape_char b) (json_escape_char a)) (Ascii.eqb a b))
            (map ascii_of_nat (seq 0 256)) = true) as H.
  { apply ascii_all. vm_compute. reflexivity. }
  specialize (H a). pose proof (ascii_all _ H b) as Hb. simpl in Hb. by rewrite E in Hb.
Qed.

Lemma app_prefix p q u v : p +:+ u = q +:+ v -> startsWith q p = true \/ startsWith p q = true.
Proof.
  revert q. induction p as [|a p IH]; intros [|b q]; try (by left) || (by right).
  rewrite !str_cons_app. intros [= -> H]. unfold startsWith in *. simpl.
  destruct (ascii_dec b b); [|done]. auto.
Qed.

Lemma app_cancel p u v : p +:+ u = p +:+ v -> u = v.
Proof. induction p as [|a p IH]; [done|]. rewrite !str_cons_app. intros [= H]. auto. Qed.

Lemma json_escape_unambiguous s s' x y :
  json_escape s +:+ dquote +:+ x = json_escape s' +:+ dquote +:+ y -> s = s' /\ x = y.
Proof.
  assert (forall a u v, json_escape_char a +:+ u <> dquote +:+ v) as Hq.
  { intros a u v H. assert (startsWith (json_escape_char a) dquote = false /\ startsWith dquote (json_escape_char a) = false) as [H1 H2].
    { split; apply negb_true_iff; revert a H; intros a _; revert a; apply ascii_all; vm_compute; reflexivity. }
    apply app_prefix in H as [H|H]; congruence. }
  revert s'. induction s as [|a s IH]; intros [|b s'] H.
  - apply (app_cancel dquote) in H as ->. done.
  - exfalso. cbn [json_escape] in H. rewrite <-str_app_assoc in H. symmetry in H. by apply Hq in H.
  - exfalso. cbn [json_escape] in H. rewrite <-str_app_assoc in H. by apply Hq in H.
  - cbn [json_escape] in H. rewrite <-!str_app_assoc in H.
    destruct (ascii_dec a b) as [->|Hab].
    + apply app_cancel in H. destruct (IH s' H) as [-> ->]. done.
    + apply app_prefix in H as [H|H]; rewrite json_escape_prefix in H; done.
Qed.

Lemma json_quote_unambiguous s s' x y : json_quote s +:+ x = json_quote s' +:+ y -> s = s' /\ x = y.
Proof.
  unfold json_quote. rewrite <-!str_app_assoc. intros H%(app_cancel dquote).
  by apply json_escape_unambiguous.
Qed.

(** ** Numbers *)

Lemma number_not_closing a : number_char a = true -> closing a = false.
Proof.
  assert (forall a, implb (number_char a) (negb (closing a)) = true) as H.
  { apply ascii_all. vm_compute. reflexivity. }
  specialize (H a). intros Ha. rewrite Ha in H. by apply negb_true_iff in H.
Qed.

Lemma number_unambiguous p q u v :
  str_forall number_char p = true -> str_forall number_char q = true ->
  stops u = true -> stops v = true -> p +:+ u = q +:+ v -> p = q /\ u = v.
Proof.
  intros Hp Hq Hu Hv. revert q Hq. induction p as [|a p IH]; intros [|b q] Hq H.
  - done.
  - exfalso. simpl in Hq. apply andb_true_iff in Hq as [Hb _].
    change ("" +:+ u) with u in H. subst u. simpl in Hu. rewrite number_not_closing in Hu; done.
  - exfalso. simpl in Hp. apply andb_true_iff in Hp as [Ha _].
    change ("" +:+ v) with v in H. subst v. simpl in Hv. rewrite number_not_closing in Hv; done.
  - simpl in Hp, Hq. apply andb_true_iff in Hp as [_ Hp], Hq as [_ Hq].
    rewrite !str_cons_app in H. injection H as -> H. destruct (IH Hp q Hq H) as [-> ->]. done.
Qed.

Lemma num_text_chars n : str_forall number_char (num_to_string n) = true.
Proof. apply num_to_string_forall; [|done]. intros m. unfold pretty_N_char. by repeat case_match. Qed.

Lemma num_text_integer n : str_exists (fun a => Ascii.eqb a "." || Ascii.eqb a "e") (num_to_string n) = false.
Proof.
  unfold str_exists. apply negb_false_iff, num_to_string_forall; [|done].
  intros m. unfold pretty_N_char. by repeat case_match.
Qed.

(** ** Values *)

(** The first character tells the constructors apart. *)
Definition tag (a : ascii) : Z :=
  if Ascii.eqb a "n" then 0 else if Ascii.eqb a "t" then 1 else if Ascii.eqb a "f" then 2
  else if number_char a then 3 else if code a =? 34 then 4
  else if Ascii.eqb a "[" then 5 else if Ascii.eqb a "{" then 6 else 7.

Definition val_tag (v : val) : Z :=
  match v with
  | VUndef | VNull | VNaN => 0 | VBool true => 1 | VBool false => 2
  | VNum _ | VFloat _ => 3 | VStr _ => 4 | VArr _ => 5 | VObj _ => 6
  end.

Lemma number_tag a : number_char a = true -> tag a = 3.
Proof.
  assert (forall a, implb (number_char a) (tag a =? 3) = true) as H.
  { apply ascii_all. vm_compute. reflexivity. }
  specialize (H a). intros Ha. rewrite Ha in H. simpl in H. lia.
Qed.

Lemma text_tag v : plain v = true -> exists a r, text v = String a r /\ tag a = val_tag v.
Proof.
  destruct v as [| |[]|n|t| |s|l|kvs]; try done; intros Hp; cbn [text json_stringify default from_option id];
    try (by eexists _, _).
  - destruct (num_to_string n) as [|a r] eqn:E; [by apply num_to_string_ne in E|].
    exists a, r. split; [done|]. apply number_tag. pose proof (num_text_chars n) as H. rewrite E in H.
    simpl in H. by apply andb_true_iff in H as [? _].
  - simpl in Hp. unfold float_text in Hp. apply andb_true_iff in Hp as [Hc He].
    destruct t as [|a r]; [done|]. exists a, r. split; [done|]. apply number_tag.
    simpl in Hc. by apply andb_true_iff in Hc as [? _].
Qed.

Lemma text_opens v : plain v = true -> opens (text v).
Proof.
  intros (a & r & -> & Ha)%text_tag. exists a, r. split; [done|].
  assert (forall a, implb (closing a) (tag a =? 7) = true) as H.
  { apply ascii_all. vm_compute. reflexivity. }
  specialize (H a). destruct (closing a); [|done]. simpl in H. destruct v as [| |[]| | | | | |]; simpl in Ha; lia.
Qed.

Lemma text_unambiguous v : plain v = true -> unambiguous (fun w => plain w = true) text v.
Proof.
  induction v as [| |b|n|t| |s0|l IH|kvs IH] using val_ind; intros Hv w s t' Hw Hs Ht Heq.
  all: destruct (text_tag w Hw) as (aw & rw & Ew & Tw); destruct (text_tag _ Hv) as (av & rv & Ev & Tv).
  all: assert (av = aw) as Haw by (rewrite Ev, Ew, !str_cons_app in Heq; by injection Heq).
  all: rewrite Haw, Tw in Tv; clear Ew Ev Tw Haw.
  all: destruct w as [| |[]|m|t2| |s2|l2|kvs2]; try done; try (destruct b; done).
  - by apply (app_cancel "null") in Heq.
  - destruct b; [|done]. by apply (app_cancel "true") in Heq.
  - destruct b; [done|]. by apply (app_cancel "false") in Heq.
  - apply number_unambiguous in Heq as [Hnm ->]; try done; [|apply num_text_chars..].
    split; [|done]. f_equal. by apply (inj pretty).
  - exfalso. simpl in Hw. unfold float_text in Hw. apply andb_true_iff in Hw as [Hc He].
    apply number_unambiguous in Heq as [Hnm _]; try done; [|apply num_text_chars].
    cbn in Hnm. by rewrite <-Hnm, num_text_integer in He.
  - exfalso. simpl in Hv. unfold float_text in Hv. apply andb_true_iff in Hv as [Hc He].
    apply number_unambiguous in Heq as [Hnm _]; try done; [|apply num_text_chars].
    cbn in Hnm. by rewrite Hnm, num_text_integer in He.
  - simpl in Hv, Hw. unfold float_text in Hv, Hw. apply andb_true_iff in Hv as [Hc _], Hw as [Hc2 _].
    apply number_unambiguous in Heq as [Hnm ->]; try done. cbn in Hnm. by subst.
  - cbn in Heq. apply json_quote_unambiguous in Heq as [-> ->]. done.
  - cbn [text] in Heq. rewrite <-!str_app_assoc in Heq. apply (app_cancel "[") in Heq.
    simpl in Hv, Hw. apply (list_unambiguous (fun w => plain w = true) text "]") in Heq as [-> ->]; [done|done|done| |].
    + apply Forall_forall. intros x Hx. rewrite Forall_forall in IH.
      assert (plain x = true) as Hpx by (rewrite forallb_forall in Hv; by apply Hv, list_elem_of_In).
      split; [by apply IH|by apply text_opens].
    + apply Forall_forall. intros x Hx.
      assert (plain x = true) as Hpx by (rewrite forallb_forall in Hw; by apply Hw, list_elem_of_In).
      split; [done|by apply text_opens].
  - cbn [text] in Heq. rewrite <-!str_app_assoc in Heq. apply (app_cancel "{") in Heq.
    simpl in Hv, Hw.
    apply (list_unambiguous (fun kv => plain kv.2 = true) (fun kv => entry_text (kv.1, text kv.2)) "}")
      in Heq as [-> ->]; [done|done|done| |].
    + apply Forall_forall. intros [k x] Hx. rewrite Forall_forall in IH.
      assert (plain x = true) as Hpx by (rewrite forallb_forall in Hv; apply (Hv (k, x)); by apply list_elem_of_In).
      split; [|by eexists _, _]. intros [k' y] u u' Hy Hu Hu' He. unfold entry_text in He. cbn [fst snd] in *.
      rewrite <-!str_app_assoc in He. apply json_quote_unambiguous in He as [-> He].
      apply (app_cancel ":") in He. pose proof (IH (k', x) Hx) as IHx. cbn [snd] in IHx.
      by destruct (IHx Hpx y u u' Hy Hu Hu' He) as [-> ->].
    + apply Forall_forall. intros [k x] Hx.
      assert (plain x = true) as Hpx by (rewrite forallb_forall in Hw; apply (Hw (k, x)); by apply list_elem_of_In).
      split; [done|]. by eexists _, _.
Qed.

Lemma stringify_inj collate v w :
  json_value v = true -> json_value w = true ->
  stableStringify collate v = stableStringify collate w -> canonical collate v = canonical collate w.
Proof.
  intros Hv Hw. rewrite !stableStringify_text. intros H.
  apply (text_unambiguous _ (canonical_plain collate v Hv) (canonical collate w) "" "");
    [by apply canonical_plain|done..|]. by rewrite !str_app_nil.
Qed.

(** ** Order independence *)

(** The same JSON value up to the order of object entries, where the collator
    tells the keys of each object apart. *)
Inductive json_same (collate : string -> string -> comparison) : val -> val -> Prop :=
| same_refl v : json_same collate v v
| same_arr l l' : Forall2 (json_same collate) l l' -> json_same collate (VArr l) (VArr l')
| same_obj kvs kvs' kvs'' :
    Forall2 (fun kv kv' => kv.1 = kv'.1 /\ json_same collate kv.2 kv'.2) kvs kvs' ->
    kvs' ≡ₚ kvs'' ->
    (forall x y, x ∈ kvs' -> y ∈ kvs' -> collate x.1 y.1 = Eq -> x = y) ->
    json_same collate (VObj kvs) (VObj kvs'').

(** A comparison that is a total preorder, as [Intl.Collator.compare] is. *)
Class Collation (collate : string -> string -> comparison) : Prop := {
  collate_opp a b : collate b a = CompOpp (collate a b);
  collate_trans a b c : collate a b <> Gt -> collate b c <> Gt -> collate a c <> Gt;
}.

Section order.
Context (collate : string -> string -> comparison) `{!Collation collate}.
#[local] Set Default Proof Using "Collation0".

Definition entry_le {A} (x y : string * A) : Prop := key_le collate x y = true.

Lemma entry_le_total {A} (x y : string * A) : entry_le x y \/ entry_le y x.
Proof. unfold entry_le, key_le. rewrite (collate_opp x.1 y.1). destruct (collate x.1 y.1); auto. Qed.

Lemma entry_le_trans {A} (x y z : string * A) : entry_le x y -> entry_le y z -> entry_le x z.
Proof.
  unfold entry_le, key_le. pose proof (collate_trans x.1 y.1 z.1) as H.
  destruct (collate x.1 y.1), (collate y.1 z.1), (collate x.1 z.1); try done; intros _ _; by destruct H.
Qed.

Lemma insert_perm {A} (x : string * A) l : insert_entry collate x l ≡ₚ x :: l.
Proof using Type.
  induction l as [|y l IH]; [done|]. simpl. case_match; [done|]. rewrite IH. apply Permutation_swap.
Qed.

Lemma sort_perm {A} (l : list (string * A)) : sort_entries collate l ≡ₚ l.
Proof using Type. induction l as [|x l IH]; [done|]. simpl. by rewrite insert_perm, IH. Qed.

Lemma sort_sorted {A} (l : list (string * A)) : StronglySorted entry_le (sort_entries collate l).
Proof.
  induction l as [|x l IH]; [constructor|]. simpl. set (s := sort_entries collate l) in *. clearbody s.
  induction IH as [|y s Hs IHs Hy]; simpl; [by repeat constructor|]. destruct (key_le collate x y) eqn:E.
  - constructor; [by constructor|]. constructor; [done|].
    eapply Forall_impl; [exact Hy|]. intros z Hz. by eapply entry_le_trans.
  - constructor; [done|]. rewrite insert_perm. constructor; [|done].
    destruct (entry_le_total x y) as [H|H]; [|done]. unfold entry_le in H. congruence.
Qed.

Lemma sort_unique {A} (l l' : list (string * A)) :
  l ≡ₚ l' -> (forall x y, x ∈ l -> y ∈ l -> collate x.1 y.1 = Eq -> x = y) ->
  sort_entries collate l = sort_entries collate l'.
Proof.
  intros Hp Hd. apply (StronglySorted_unique_strong entry_le).
  - intros x y Hx Hy Hxy Hyx. rewrite (sort_perm l) in Hx. rewrite (sort_perm l'), <-Hp in Hy.
    apply Hd; [done..|]. unfold entry_le, key_le in *. rewrite (collate_opp x.1 y.1) in Hyx.
    by destruct (collate x.1 y.1).
  - apply sort_sorted.
  - apply sort_sorted.
  - by rewrite !sort_perm.
Qed.

Lemma live_cons {A} (f : val -> A) k v kvs :
  live f ((k, v) :: kvs) = if is_undefined v then live f kvs else (k, f v) :: live f kvs.
Proof using Type. unfold live. cbn [omap list_omap fst snd]. by destruct (is_undefined v). Qed.

Lemma live_perm {A} (f : val -> A) kvs kvs' : kvs ≡ₚ kvs' -> live f kvs ≡ₚ live f kvs'.
Proof using Type. intros H. unfold live. by rewrite H. Qed.

Lemma canonical_same v w : json_same collate v w -> canonical collate v = canonical collate w.
Proof.
  revert w. induction v as [| | | | | | |l IH|kvs IH] using val_ind; intros w Hs;
    inversion Hs as [|l1 l2 Hl|kvs1 kvs2 kvs3 Hl Hp Hd]; subst; try done.
  - cbn [canonical]. f_equal. clear Hs. induction Hl as [|x y l l2 Hxy _ IHl]; [done|].
    apply Forall_cons in IH as [Hx IH]. cbn [map]. by rewrite (Hx y Hxy), IHl.
  - cbn [canonical]. f_equal.
    assert (live (canonical collate) kvs = live (canonical collate) kvs2) as ->.
    { clear -Hl IH. induction Hl as [|[k x] [k' y] kvs kvs2 [Hk Hxy] _ IHl]; [done|].
      apply Forall_cons in IH as [Hx IH]. simpl in Hk, Hxy, Hx. subst k'.
      assert (is_undefined x = is_undefined y) as Hu by (by inversion Hxy; subst).
      by rewrite !live_cons, Hu, (Hx y Hxy), (IHl IH). }
    apply sort_unique; [by apply live_perm|].
    intros x y (e & He & Hex)%list_elem_of_omap (e' & He' & Hey)%list_elem_of_omap Hc.
    destruct (is_undefined e.2); [done|]. destruct (is_undefined e'.2); [done|].
    injection Hex as <-. injection Hey as <-. simpl in Hc. by rewrite (Hd e e' He He' Hc).
Qed.

(** Rewriting with the equivalence under the digest text. *)
#[global] Instance stringify_proper : Proper (json_same collate ==> eq) (stableStringify collate).
Proof. intros v w Hs. by rewrite !stableStringify_text, (canonical_same _ _ Hs). Qed.
End order.

(** Two entries whose keys the collator does not tell apart: their order shows. *)
Lemma collided_order collate `{!Collation collate} k1 k2 x y :
  collate k1 k2 = Eq -> k1 <> k2 -> is_undefined x = false -> is_undefined y = false ->
  canonical collate (VObj [(k1, x); (k2, y)]) <> canonical collate (VObj [(k2, y); (k1, x)]).
Proof.
  intros Hc Hk Hx Hy. cbn [canonical]. rewrite !live_cons, Hx, Hy.
  assert (collate k2 k1 = Eq) as Hc' by by rewrite collate_opp, Hc.
  unfold sort_entries, live. cbn. unfold key_le. cbn. rewrite Hc, Hc'. congruence.
Qed.

(** C21.  A signed digest text binds the value and nothing but the value, up to
    the collator.  For values as JSON and arithmetic make them, equal texts
    come exactly from equal canonical values (no undefined entries, keys in
    collation order, keys the collator does not tell apart in their given
    order); two values that differ in the order of object entries alone have
    the same text provided the collator tells the keys of each object apart;
    and two entries whose keys it does not tell apart have another text in the
    other order. *)
Theorem stableStringify_binds : forall collate, Collation collate -> forall v w,
  json_value v = true -> json_value w = true ->
  (stableStringify collate v = stableStringify collate w <-> canonical collate v = canonical collate w) /\
  (json_same collate v w -> stableStringify collate v = stableStringify collate w) /\
  (forall k1 k2, collate k1 k2 = Eq -> k1 <> k2 -> is_undefined v = false -> is_undefined w = false ->
     stableStringify collate (VObj [(k1, v); (k2, w)]) <> stableStringify collate (VObj [(k2, w); (k1, v)])).
Proof.
  intros collate HC v w Hv Hw. split_and!; [split| |].
  - by apply stringify_inj.
  - rewrite !stableStringify_text. by intros ->.
  - intros Hs. by rewrite Hs.
  - intros k1 k2 Hc Hk H1 H2 He%stringify_inj; [|cbn; by rewrite Hv, Hw..].
    revert He. by apply collided_order.
Qed.

(** A collation: by the first characters' codes, shorter strings first. *)
Fixpoint code_order (a b : string) : comparison :=
  match a, b with
  | "", "" => Eq
  | "", _ => Lt
  | _, "" => Gt
  | String x a, String y b => match code x ?= code y with Eq => code_order a b | c => c end
  end.

#[global] Instance code_collation : Collation code_order.
Proof.
  split.
  - induction a as [|x a IH]; intros [|y b]; try done. simpl.
    rewrite (Z.compare_antisym (code x)). destruct (code x ?= code y); simpl; auto.
  - induction a as [|x a IH]; intros [|y b] [|z c]; simpl; try done.
    destruct (Z.compare_spec (code x) (code y)), (Z.compare_spec (code y) (code z)),
      (Z.compare_spec (code x) (code z)); try done; try lia. apply IH.
Qed.

Definition sample_json : val := VObj [("b", VNum 1); ("a", VArr [VStr "x"; VUndef])].
Definition sample_json_reordered : val := VObj [("a", VArr [VStr "x"; VUndef]); ("b", VNum 1)].

Lemma stableStringify_binds_witness :
  stableStringify code_order sample_json = stableStringify code_order sample_json_reordered /\
  sample_json <> sample_json_reordered.
Proof.
  split; [|discriminate].
  apply (proj1 (proj2 (stableStringify_binds code_order code_collation sample_json sample_json_reordered eq_refl eq_refl))).
  eapply same_obj with (kvs' := [("b", VNum 1); ("a", VArr [VStr "x"; VUndef])]).
  - repeat constructor.
  - apply Permutation_swap.
  - intros x y Hx Hy. rewrite !elem_of_cons, elem_of_nil in Hx, Hy.
    destruct Hx as [->|[->|[]]], Hy as [->|[->|[]]]; done.
Defined.

(** A collator that ignores control characters, as the default collation does. *)
Fixpoint visible (s : string) : string :=
  match s with
  | "" => ""
  | String a s' => if code a <? 32 then visible s' else String a (visible s')
  end.

(** Keys the collator does not tell apart keep their insertion order, so the
    text is not canonical for them. *)
Lemma insertion_order_leaks :
  let collate a b := code_order (visible a) (visible b) in
  let k := String (chr 1) "a" in
  stableStringify collate (VObj [("a", VNum 1); (k, VNum 2)])
  <> stableStringify collate (VObj [(k, VNum 2); ("a", VNum 1)]).
Proof. vm_compute. discriminate. Qed.
