(* ===== verification/Doubles.v ===== *)
(** * Binary64 numbers

    The doubles of the price code, exactly.  Every finite double is a multiple
    of 2^-1074, so a finite double is the integer [n] of [n * 2^-1074]; an
    operation computes the exact rational and rounds it to 53 significant bits,
    ties to even, with overflow to infinity.  The two zeros are one. *)
From S2P Require Import Prelude Numbers Values Text.
#[local] Open Scope list_scope.
#[local] Open Scope Z_scope.

Inductive dbl := DNaN | DInf (negative : bool) | DFin (n : Z).
#[global] Instance dbl_eq_dec : EqDecision dbl.
Proof. solve_decision. Defined.

(** The double 1, and the largest finite magnitude. *)
Definition ONE : Z := 2 ^ 1074.
Definition MAX_FINITE : Z := (2 ^ 53 - 1) * 2 ^ 2045.

(** [a / d] to the nearest integer, ties to even. *)
Definition half_even (a d : Z) : Z :=
  let q := a / d in
  let r := a mod d in
  if 2 * r <? d then q else if d <? 2 * r then q + 1 else if Z.even q then q else q + 1.

(** The spacing of the doubles around a magnitude of integer part [q]. *)
Definition ulp (q : Z) : Z := 2 ^ Z.max 0 (Z.log2 q - 52).

(** The nearest multiple of the spacing to [a / d >= 0]. *)
Definition round_mag (a d : Z) : Z := half_even a (d * ulp (a / d)) * ulp (a / d).

Definition of_ratio (a d : Z) : dbl :=
  let m := round_mag (Z.abs a) (Z.abs d) in
  if MAX_FINITE <? m then DInf (Z.sgn a * Z.sgn d <? 0) else DFin (Z.sgn a * Z.sgn d * m).

Definition of_Z (z : Z) : dbl := of_ratio (z * ONE) 1.
(** [m * 10 ^ e] *)
Definition of_decimal (m e : Z) : dbl :=
  if 0 <=? e then of_ratio (m * 10 ^ e * ONE) 1 else of_ratio (m * ONE) (10 ^ (- e)).

Definition dneg (x : dbl) : dbl :=
  match x with DNaN => DNaN | DInf s => DInf (negb s) | DFin n => DFin (- n) end.
Definition dabs (x : dbl) : dbl :=
  match x with DNaN => DNaN | DInf _ => DInf false | DFin n => DFin (Z.abs n) end.

Definition dadd (x y : dbl) : dbl :=
  match x, y with
  | DNaN, _ | _, DNaN => DNaN
  | DInf s, DInf t => if Bool.eqb s t then DInf s else DNaN
  | DInf s, _ | _, DInf s => DInf s
  | DFin a, DFin b => of_ratio (a + b) 1
  end.
Definition dsub (x y : dbl) : dbl := dadd x (dneg y).

Definition dsign (x : dbl) : Z :=
  match x with DNaN => 0 | DInf s => if s then -1 else 1 | DFin n => Z.sgn n end.

Definition dmul (x y : dbl) : dbl :=
  match x, y with
  | DNaN, _ | _, DNaN => DNaN
  | DFin a, DFin b => of_ratio (a * b) ONE
  | _, _ => if dsign x * dsign y =? 0 then DNaN else DInf (dsign x * dsign y <? 0)
  end.

Definition ddiv (x y : dbl) : dbl :=
  match x, y with
  | DNaN, _ | _, DNaN | DInf _, DInf _ => DNaN
  | DFin a, DFin b =>
      if b =? 0 then (if a =? 0 then DNaN else DInf (a <? 0)) else of_ratio (a * ONE) b
  | DFin _, DInf _ => DFin 0
  | DInf s, DFin b => DInf (if b <? 0 then negb s else s)
  end.

Definition dlt (x y : dbl) : bool :=
  match x, y with
  | DNaN, _ | _, DNaN => false
  | DFin a, DFin b => a <? b
  | DInf s, DInf t => s && negb t
  | DInf s, DFin _ => s
  | DFin _, DInf t => negb t
  end.
Definition dle (x y : dbl) : bool :=
  match x, y with
  | DNaN, _ | _, DNaN => false
  | DFin a, DFin b => a <=? b
  | DInf s, DInf t => s || negb t
  | DInf s, DFin _ => s
  | DFin _, DInf t => negb t
  end.
Definition dfinite (x : dbl) : bool := match x with DFin _ => true | _ => false end.

(** [Math.max(a, b)] *)
Definition dmax (x y : dbl) : dbl :=
  match x, y with DNaN, _ | _, DNaN => DNaN | _, _ => if dlt x y then y else x end.

(** [Math.round], [Math.trunc] and [Math.floor]. *)
Definition dround (x : dbl) : dbl :=
  match x with DFin n => of_Z ((2 * n + ONE) / (2 * ONE)) | _ => x end.
Definition dfloor (x : dbl) : dbl := match x with DFin n => of_Z (n / ONE) | _ => x end.
Definition dtrunc (x : dbl) : dbl := match x with DFin n => of_Z (Z.quot n ONE) | _ => x end.

(** ** Text *)

Definition is_decimal_digit (a : ascii) : bool := (48 <=? code a) && (code a <=? 57).

(** [ddd.ddd] with at least one digit: the digits as an integer and how many are
    fractional. *)
Definition read_mantissa (s : string) : option (Z * Z) :=
  let '(whole, fraction) := match cut "." s with Some wf => wf | None => (s, "") end in
  if ((whole +:+ fraction) =? "")%string then None
  else (fun m => (m, str_length fraction)) <$> read_digits 10 0 (whole +:+ fraction).

Definition read_exponent (s : string) : option Z :=
  match s with
  | String a t =>
      if Ascii.eqb a "-" then Z.opp <$> read_digits1 10 t
      else if Ascii.eqb a "+" then read_digits1 10 t else read_digits1 10 s
  | "" => None
  end.

(** [(mantissa)([eE]exponent)?] *)
Definition read_decimal (s : string) : option dbl :=
  match (match cut "e" s with Some me => Some me | None => cut "E" s end) with
  | Some (m, e) =>
      match read_mantissa m, read_exponent e with
      | Some (n, f), Some x => Some (of_decimal n (x - f))
      | _, _ => None
      end
  | None => (fun nf => of_decimal nf.1 (- nf.2)) <$> read_mantissa s
  end.

(** [Number(s)] *)
Definition to_double (s : string) : dbl :=
  match read_integer s with
  | Some z => of_Z z
  | None =>
      let t := trim s in
      let '(negative, u) :=
        match t with
        | String a u => if Ascii.eqb a "-" then (true, u) else if Ascii.eqb a "+" then (false, u) else (false, t)
        | "" => (false, t)
        end in
      if (u =? "Infinity")%string then DInf negative
      else match read_decimal u with
           | Some x => if negative then dneg x else x
           | None => DNaN
           end
  end.

Fixpoint zeros (n : nat) : string := match n with O => "" | S n => String "0" (zeros n) end.

(** [s.padStart(n, '0')] *)
Definition pad_start (n : nat) (s : string) : string := zeros (n - String.length s) +:+ s.

Definition take_str (n : nat) (s : string) : string := String.substring 0 n s.
Definition drop_str (n : nat) (s : string) : string := String.substring n (String.length s - n) s.

(** [n] with [f] fractional digits: [n * 10 ^ -f]. *)
Definition fixed_text (f : nat) (n : Z) : string :=
  let digits := pad_start (S f) (num_to_string n) in
  let w := (String.length digits - f)%nat in
  match f with O => digits | _ => take_str w digits +:+ "." +:+ drop_str w digits end.

(** The least [n] with [m < 10 ^ n], [m] being a magnitude in units. *)
Definition decimal_exponent (m : Z) : Z :=
  default 309 (find (fun n => if 0 <=? n then m <? 10 ^ n * ONE else m * 10 ^ (- n) <? ONE)
    (seqZ (-323) 633)).

(** The digits [s] of the shortest [s * 10 ^ (n - k)] that reads as the double,
    the closest one when there are two, with [k] and [n]. *)
Definition shortest (m : Z) : Z * Z * Z :=
  let n := decimal_exponent m in
  let candidates :=
    k ← seqZ 1 17;
    let num := if 0 <=? k - n then m * 10 ^ (k - n) else m in
    let den := if 0 <=? k - n then ONE else ONE * 10 ^ (n - k) in
    let low := num / den in
    let closest := half_even num den in
    s ← [closest; if closest =? low then low + 1 else low];
    if bool_decide (of_decimal s (n - k) = DFin m)
    then [if s =? 10 ^ k then (10 ^ (k - 1), k, n + 1) else (s, k, n)] else [] in
  default (0, 1, 1) (head candidates).

Definition exponent_text (e : Z) : string :=
  (if e <? 0 then "e-" else "e+") +:+ num_to_string (Z.abs e).

(** [String(x)] *)
Definition dbl_text (x : dbl) : string :=
  match x with
  | DNaN => "NaN"
  | DInf s => if s then "-Infinity" else "Infinity"
  | DFin 0 => "0"
  | DFin m =>
      let '(s, k, n) := shortest (Z.abs m) in
      let digits := num_to_string s in
      (if m <? 0 then "-" else "") +:+
      (if (k <=? n) && (n <=? 21) then digits +:+ zeros (Z.to_nat (n - k))
       else if (0 <? n) && (n <=? 21) then
         take_str (Z.to_nat n) digits +:+ "." +:+ drop_str (Z.to_nat n) digits
       else if (-6 <? n) && (n <=? 0) then "0." +:+ zeros (Z.to_nat (- n)) +:+ digits
       else if k =? 1 then digits +:+ exponent_text (n - 1)
       else take_str 1 digits +:+ "." +:+ drop_str 1 digits +:+ exponent_text (n - 1))
  end.

(** The JavaScript value of a double: integral ones below 1e21 are [VNum]. *)
Definition dbl_val (x : dbl) : val :=
  match x with
  | DNaN => VNaN
  | DFin n => if (n mod ONE =? 0) && (Z.abs n <? 10 ^ 21 * ONE) then VNum (n / ONE) else VFloat (dbl_text x)
  | _ => VFloat (dbl_text x)
  end.

(** [Number(v)] of a primitive value, of [null] and of [undefined]. *)
Definition val_double (v : val) : dbl :=
  match v with
  | VUndef | VNaN => DNaN
  | VNull => DFin 0
  | VBool b => if b then DFin ONE else DFin 0
  | VNum n => of_Z n
  | VFloat t => to_double t
  | VStr s => to_double s
  | VArr _ | VObj _ => to_double (js_String v)
  end.

(** [x.toFixed(f)] *)
Definition to_fixed (f : nat) (x : dbl) : string :=
  match x with
  | DFin n =>
      if 10 ^ 21 * ONE <=? Z.abs n then dbl_text x
      else
        let scaled := (2 * Z.abs n * 10 ^ Z.of_nat f + ONE) / (2 * ONE) in
        (if n <? 0 then "-" else "") +:+ fixed_text f scaled
  | _ => dbl_text x
  end.

Example doubles_ex :
  bool_decide (dadd (to_double "0.1") (to_double "0.2") = to_double "0.30000000000000004")
  && bool_decide (to_double "1e309" = DInf false) && bool_decide (to_double "5e-324" = DFin 1)
  && bool_decide (to_fixed 2 (to_double "1.005") = "1.00") && bool_decide (to_fixed 0 (to_double "2.5") = "3")
  && bool_decide ((fun s => dbl_text (to_double s)) <$> ["0.1"; "1e21"] = ["0.1"; "1e+21"]) = true.
Proof. vm_compute. reflexivity. Qed.

(** ** Rounding *)

Lemma half_even_exact k d : 0 < d -> half_even (k * d) d = k.
Proof.
  intros Hd. unfold half_even. rewrite Z.div_mul, Z.mod_mul by lia.
  by replace (2 * 0 <? d) with true by lia.
Qed.

Lemma half_even_mono a b d : 0 < d -> a <= b -> half_even a d <= half_even b d.
Proof.
  intros Hd Hab. unfold half_even.
  pose proof (Z.div_le_mono a b d Hd Hab) as Hq.
  pose proof (Z.div_mod a d ltac:(lia)) as Ha. pose proof (Z.div_mod b d ltac:(lia)) as Hb.
  pose proof (Z.mod_pos_bound a d Hd). pose proof (Z.mod_pos_bound b d Hd).
  destruct (decide (a / d = b / d)) as [He|]; [rewrite He in *; repeat case_match; nia|].
  repeat case_match; lia.
Qed.

Lemma half_even_scale k a d : 0 < k -> 0 < d -> half_even (k * a) (k * d) = half_even a d.
Proof.
  intros Hk Hd. unfold half_even. rewrite Z.div_mul_cancel_l, Z.mul_mod_distr_l by lia.
  replace (2 * (k * (a mod d)) <? k * d) with (2 * (a mod d) <? d) by nia.
  by replace (k * d <? 2 * (k * (a mod d))) with (d <? 2 * (a mod d)) by nia.
Qed.

Lemma round_mag_scale k a d : 0 < k -> 0 < d -> round_mag (k * a) (k * d) = round_mag a d.
Proof.
  intros Hk Hd. unfold round_mag. rewrite Z.div_mul_cancel_l by lia. rewrite <-Z.mul_assoc.
  rewrite half_even_scale; [done|done|]. unfold ulp. nia.
Qed.

Lemma ulp_pos q : 0 < ulp q.
Proof. unfold ulp. apply Z.pow_pos_nonneg; lia. Qed.

Lemma log2_bounds q : 0 <= q -> q < 2 ^ Z.succ (Z.log2 q) /\ (0 < q -> 2 ^ Z.log2 q <= q).
Proof.
  intros Hq. destruct (decide (q = 0)) as [->|]; [by split|].
  pose proof (Z.log2_spec q ltac:(lia)). lia.
Qed.

Lemma pow2_split a b : 0 <= a -> 0 <= b -> 2 ^ (a + b) = 2 ^ a * 2 ^ b.
Proof. apply Z.pow_add_r. Qed.

(** The rounded significand is at most 2^53, and at least 2^52 as soon as the
    spacing is more than one unit. *)
Lemma round_mag_upper a d : 0 <= a -> 0 < d -> round_mag a d <= 2 ^ 53 * ulp (a / d).
Proof.
  intros Ha Hd. unfold round_mag. pose proof (ulp_pos (a / d)) as Hu.
  apply Z.mul_le_mono_nonneg_r; [lia|].
  rewrite <-(half_even_exact (2 ^ 53) (d * ulp (a / d))) by nia.
  apply half_even_mono; [nia|].
  assert (a / d < 2 ^ 53 * ulp (a / d)) as Hq.
  { pose proof (Z.div_pos a d Ha Hd) as Hq0. destruct (log2_bounds _ Hq0) as [Hlt _].
    eapply Z.lt_le_trans; [exact Hlt|]. unfold ulp. rewrite <-pow2_split by lia.
    apply Z.pow_le_mono_r; lia. }
  pose proof (Z.div_mod a d ltac:(lia)). pose proof (Z.mod_pos_bound a d Hd). nia.
Qed.

Lemma round_mag_lower a d :
  0 <= a -> 0 < d -> 1 < ulp (a / d) -> 2 ^ 52 * ulp (a / d) <= round_mag a d.
Proof.
  intros Ha Hd Hu. unfold round_mag.
  apply Z.mul_le_mono_nonneg_r; [lia|].
  rewrite <-(half_even_exact (2 ^ 52) (d * ulp (a / d))) at 1 by nia.
  apply half_even_mono; [nia|].
  assert (2 ^ 52 * ulp (a / d) <= a / d) as Hq.
  { pose proof (Z.div_pos a d Ha Hd) as Hq0.
    assert (0 < Z.log2 (a / d) - 52) as Hl.
    { unfold ulp in Hu. destruct (decide (0 < Z.log2 (a / d) - 52)); [done|].
      rewrite Z.max_l in Hu by lia. by destruct (Z.lt_irrefl 1). }
    unfold ulp. rewrite Z.max_r, <-pow2_split by lia.
    replace (52 + (Z.log2 (a / d) - 52)) with (Z.log2 (a / d)) by lia.
    apply log2_bounds; [done|]. destruct (decide (a / d = 0)) as [He|]; [by rewrite He in Hl|lia]. }
  pose proof (Z.div_mod a d ltac:(lia)). pose proof (Z.mod_pos_bound a d Hd). nia.
Qed.

Lemma round_mag_mono a b d : 0 <= a -> a <= b -> 0 < d -> round_mag a d <= round_mag b d.
Proof.
  intros Ha Hab Hd. pose proof (Z.div_le_mono a b d Hd Hab) as Hq.
  pose proof (Z.log2_le_mono _ _ Hq) as Hl.
  destruct (decide (ulp (a / d) = ulp (b / d))) as [He|Hne].
  - unfold round_mag. rewrite He. pose proof (ulp_pos (b / d)).
    apply Z.mul_le_mono_nonneg_r; [lia|]. apply half_even_mono; [nia|done].
  - assert (2 * ulp (a / d) <= ulp (b / d)) as H2.
    { unfold ulp in *. rewrite <-(Z.pow_1_r 2) at 1. rewrite <-pow2_split by lia.
      apply Z.pow_le_mono_r; [lia|].
      destruct (decide (Z.max 0 (Z.log2 (a / d) - 52) = Z.max 0 (Z.log2 (b / d) - 52))) as [He|]; [|lia].
      by rewrite He in Hne. }
    pose proof (ulp_pos (a / d)). pose proof (round_mag_upper a d Ha Hd).
    pose proof (round_mag_lower b d ltac:(lia) Hd ltac:(lia)). lia.
Qed.

(** A magnitude of at most 53 significant bits. *)
Definition representable (n : Z) : Prop := exists k e, 0 <= e /\ Z.abs k < 2 ^ 53 /\ n = k * 2 ^ e.

Lemma round_exact n : 0 <= n -> representable n -> round_mag n 1 = n.
Proof.
  intros Hn (k & e & He & Hk & ->). unfold round_mag. rewrite Z.div_1_r, Z.mul_1_l.
  assert (Z.max 0 (Z.log2 (k * 2 ^ e) - 52) <= e) as Hle.
  { destruct (decide (k = 0)) as [->|]; [by rewrite Z.mul_0_l, Z.max_l|].
    assert (0 < 2 ^ e) by (apply Z.pow_pos_nonneg; lia).
    assert (Z.log2 (k * 2 ^ e) < 53 + e); [|lia].
    apply Z.log2_lt_pow2; [nia|]. rewrite pow2_split by lia. nia. }
  unfold ulp. set (m := Z.max 0 _) in *.
  assert (k * 2 ^ e = k * 2 ^ (e - m) * 2 ^ m) as Heq.
  { rewrite <-Z.mul_assoc, <-pow2_split by lia. f_equal. f_equal. lia. }
  rewrite Heq. rewrite half_even_exact; [done|]. apply Z.pow_pos_nonneg; lia.
Qed.

Lemma round_mag_0 d : 0 < d -> round_mag 0 d = 0.
Proof.
  intros Hd. transitivity (round_mag (d * 0) (d * 1)); [f_equal; lia|].
  rewrite round_mag_scale by lia. apply round_exact; [lia|]. by exists 0, 0.
Qed.

Lemma round_mag_nonneg a d : 0 <= a -> 0 < d -> 0 <= round_mag a d.
Proof. intros. rewrite <-(round_mag_0 d) by done. by apply round_mag_mono. Qed.

Lemma round_representable a d : 0 <= a -> 0 < d -> representable (round_mag a d).
Proof.
  intros Ha Hd. pose proof (round_mag_upper a d Ha Hd) as Hu. pose proof (round_mag_nonneg a d Ha Hd) as H0.
  unfold round_mag in *. set (k := half_even _ _) in *. pose proof (ulp_pos (a / d)).
  unfold ulp in *. set (e := Z.max 0 _) in *.
  destruct (decide (k = 2 ^ 53)) as [->|].
  - exists (2 ^ 52), (e + 1). repeat split; [lia|]. rewrite pow2_split by lia. lia.
  - exists k, e. repeat split; [lia|]. nia.
Qed.

Lemma representable_opp n : representable n -> representable (- n).
Proof. intros (k & e & He & Hk & ->). exists (- k), e. repeat split; lia. Qed.

Lemma representable_double n : representable n -> representable (2 * n).
Proof.
  intros (k & e & He & Hk & ->). exists k, (e + 1). repeat split; [lia..|]. rewrite pow2_split by lia. lia.
Qed.

Lemma representable_abs n : representable n -> representable (Z.abs n).
Proof. destruct (Z.abs_eq_or_opp n) as [->| ->]; auto using representable_opp. Qed.

(** ** Rounding of signed ratios *)

Definition rnd (a d : Z) : Z := Z.sgn a * round_mag (Z.abs a) d.

Lemma rnd_mono a b d : 0 < d -> a <= b -> rnd a d <= rnd b d.
Proof.
  intros Hd Hab. unfold rnd.
  pose proof (round_mag_nonneg (Z.abs a) d ltac:(lia) Hd). pose proof (round_mag_nonneg (Z.abs b) d ltac:(lia) Hd).
  destruct (Z.sgn_spec a) as [[? ->]|[[? ->]|[? ->]]], (Z.sgn_spec b) as [[? ->]|[[? ->]|[? ->]]]; try lia.
  - pose proof (round_mag_mono (Z.abs a) (Z.abs b) d). lia.
  - pose proof (round_mag_mono (Z.abs b) (Z.abs a) d). lia.
Qed.

Lemma rnd_exact n : representable n -> rnd n 1 = n.
Proof.
  intros Hn. unfold rnd. rewrite round_exact; [lia|lia|]. by apply representable_abs.
Qed.

Lemma rnd_scale k a d : 0 < k -> 0 < d -> rnd (k * a) (k * d) = rnd a d.
Proof.
  intros Hk Hd. unfold rnd. rewrite Z.abs_mul, (Z.abs_eq k), round_mag_scale by lia.
  rewrite Z.sgn_mul, (Z.sgn_pos k) by lia. lia.
Qed.

Lemma rnd_representable a d : 0 < d -> representable (rnd a d).
Proof.
  intros Hd. unfold rnd. pose proof (round_representable (Z.abs a) d ltac:(lia) Hd) as Hr.
  destruct (Z.sgn_spec a) as [[? ->]|[[? ->]|[? ->]]].
  - by rewrite Z.mul_1_l.
  - by exists 0, 0.
  - replace (-1 * round_mag (Z.abs a) d) with (- round_mag (Z.abs a) d) by lia. by apply representable_opp.
Qed.

Lemma of_ratio_spec a d :
  0 < d -> of_ratio a d = if MAX_FINITE <? Z.abs (rnd a d) then DInf (a <? 0) else DFin (rnd a d).
Proof.
  intros Hd. unfold of_ratio, rnd. rewrite (Z.abs_eq d), (Z.sgn_pos d) by lia.
  pose proof (round_mag_nonneg (Z.abs a) d ltac:(lia) Hd) as H0.
  rewrite Z.mul_1_r. rewrite Z.abs_mul, (Z.abs_eq (round_mag _ _)) by done.
  destruct (Z.sgn_spec a) as [[? Hs]|[[? Hs]|[? Hs]]]; rewrite Hs; cbn [Z.abs].
  - rewrite !Z.mul_1_l. by replace (a <? 0) with false by lia.
  - subst a. cbn [Z.abs]. by rewrite round_mag_0 by done.
  - rewrite !Z.mul_1_l. by replace (a <? 0) with true by lia.
Qed.

(** ** Integers below [2 ^ 53] *)

Lemma of_Z_exact z : Z.abs z < 2 ^ 53 -> of_Z z = DFin (z * ONE).
Proof.
  intros Hz. unfold of_Z. assert (0 < ONE) as HO by (apply Z.pow_pos_nonneg; lia).
  assert (representable (z * ONE)) as Hr by (exists z, 1074; unfold ONE; split_and!; lia).
  rewrite of_ratio_spec, rnd_exact by (done || lia).
  assert (2 ^ 53 * ONE <= MAX_FINITE) as Hm by (apply Z.leb_le; vm_compute; reflexivity).
  set (M := MAX_FINITE) in *. set (P := 2 ^ 53) in *. clearbody M P. set (O := ONE) in *. clearbody O.
  assert (Z.abs (z * O) <= M) as Ha by nia. by rewrite (proj2 (Z.ltb_ge _ _) Ha).
Qed.

Lemma dsub_Z a b : Z.abs a < 2 ^ 52 -> Z.abs b < 2 ^ 52 -> dsub (of_Z a) (of_Z b) = of_Z (a - b).
Proof.
  intros Ha Hb. assert (2 ^ 53 = 2 * 2 ^ 52) as Hp by reflexivity.
  rewrite !of_Z_exact by lia. cbn [dsub dneg dadd].
  transitivity (of_ratio ((a - b) * ONE) 1); [f_equal; lia|].
  change (of_ratio ((a - b) * ONE) 1) with (of_Z (a - b)). by rewrite of_Z_exact by lia.
Qed.

Lemma dadd_Z a b : Z.abs a < 2 ^ 52 -> Z.abs b < 2 ^ 52 -> dadd (of_Z a) (of_Z b) = of_Z (a + b).
Proof.
  intros Ha Hb. assert (2 ^ 53 = 2 * 2 ^ 52) as Hp by reflexivity.
  rewrite !of_Z_exact by lia. cbn [dadd].
  transitivity (of_ratio ((a + b) * ONE) 1); [f_equal; lia|].
  change (of_ratio ((a + b) * ONE) 1) with (of_Z (a + b)). by rewrite of_Z_exact by lia.
Qed.

Lemma dlt_Z a b : Z.abs a < 2 ^ 53 -> Z.abs b < 2 ^ 53 -> dlt (of_Z a) (of_Z b) = (a <? b).
Proof.
  intros Ha Hb. rewrite !of_Z_exact by done. cbn [dlt]. assert (0 < ONE) by (apply Z.pow_pos_nonneg; lia).
  destruct (Z.ltb_spec a b); [apply Z.ltb_lt|apply Z.ltb_ge]; nia.
Qed.

Lemma dle_Z a b : Z.abs a < 2 ^ 53 -> Z.abs b < 2 ^ 53 -> dle (of_Z a) (of_Z b) = (a <=? b).
Proof.
  intros Ha Hb. rewrite !of_Z_exact by done. cbn [dle]. assert (0 < ONE) by (apply Z.pow_pos_nonneg; lia).
  destruct (Z.leb_spec a b); [apply Z.leb_le|apply Z.leb_gt]; nia.
Qed.

Lemma zero_Z : DFin 0 = of_Z 0.
Proof. by rewrite of_Z_exact. Qed.
