(* ===== verification/Buffers.v ===== *)
(** * Buffers and big integers of JSON values

    [Buffer.from(v, 'base64')] and [BigInt(v)] of a value that came from JSON. *)
From S2P Require Import Prelude Numbers Values Encoding Doubles.
#[local] Open Scope list_scope.
#[local] Open Scope Z_scope.

(** A number as a byte. *)
Definition to_byte (v : val) : Z := match val_double v with DFin n => Z.quot n ONE mod 256 | _ => 0 end.

(** [Buffer.from(v, 'base64')]: a text is decoded, an array is one of bytes. *)
Definition buffer_base64 (v : val) : string + bytes :=
  match v with
  | VStr s => inr (base64_decode s)
  | VArr l => inr (to_byte <$> l)
  | _ => inl "The first argument must be of type string or an instance of Buffer"
  end.

(** [BigInt(String(v))] *)
Definition BigInt (v : val) : string + Z :=
  match js_BigInt (js_String v) with
  | Some z => inr z
  | None => inl ("Cannot convert " +:+ js_String v +:+ " to a BigInt")
  end.

(** [BigInt(x)] of a number: only integers have one. *)
Definition dbl_BigInt (x : dbl) : string + Z :=
  match x with
  | DFin n => if n mod ONE =? 0 then inr (n / ONE)
              else inl ("The number " +:+ dbl_text x +:+ " cannot be converted to a BigInt because it is not an integer")
  | _ => inl ("The number " +:+ dbl_text x +:+ " cannot be converted to a BigInt because it is not an integer")
  end.

(** [BigInt(v)] *)
Definition val_BigInt (v : val) : string + Z :=
  match v with
  | VBool b => inr (if b then 1 else 0)
  | VNum n => inr n
  | VFloat _ | VNaN => dbl_BigInt (val_double v)
  | _ => BigInt v
  end.

(** ** URLs *)

Definition uri_unreserved (a : ascii) : bool :=
  let c := code a in
  ((65 <=? c) && (c <=? 90)) || ((97 <=? c) && (c <=? 122)) || is_decimal_digit a
  || existsb (Ascii.eqb a) ["-"; "_"; "."; "!"; "~"; "*"; "'"; "("; ")"]%char.

Definition upper_hex_digit (z : Z) : ascii := if z <? 10 then chr (48 + z) else chr (55 + z).

Definition percent_byte (b : Z) : string := String "%" (String (upper_hex_digit (b / 16)) (String (upper_hex_digit (b mod 16)) "")).

Fixpoint encodeURIComponent (s : string) : string :=
  match s with
  | "" => ""
  | String a s =>
      (if uri_unreserved a then String a "" else foldr (fun b t => percent_byte b +:+ t) "" (utf8_char a)) +:+ encodeURIComponent s
  end.

Example uri_ex : encodeURIComponent "NEO/USD,A b" = "NEO%2FUSD%2CA%20b".
Proof. reflexivity. Qed.
