(* ===== verification/Decimal.v ===== *)
(** * Decimal prices ([oracle/feeds/decimal.js])

    The price texts of the feeds and their integer units on chain. *)
From S2P Require Import Prelude Numbers Strings Values Text Doubles.
#[local] Open Scope list_scope.
#[local] Open Scope Z_scope.

Definition FEED_PRICE_DECIMALS : nat := 6.

(** [raw.replace(/^[+-]/, '')] *)
Definition strip_sign (raw : string) : string :=
  match raw with
  | String a s => if Ascii.eqb a "+" || Ascii.eqb a "-" then s else raw
  | "" => ""
  end.

(** A text of digits, not empty. *)
Definition all_digits (s : string) : bool := negb (s =? "")%string && str_forall is_decimal_digit s.

(** [/^\d+(\.\d+)?$/], then [split('.')]: the two parts. *)
Definition decimal_parts (normalized : string) : option (string * string) :=
  match cut "." normalized with
  | Some (whole, fraction) => if all_digits whole && all_digits fraction then Some (whole, fraction) else None
  | None => if all_digits normalized then Some (normalized, "") else None
  end.

(** [BigInt] of a text of digits. *)
Definition digits_value (s : string) : Z := default 0 (read_digits 10 0 s).

Definition decimalToIntegerString (value : val) (decimals : nat) : string + string :=
  let raw := coerceTrim value in
  if (raw =? "")%string then inl "decimal value required"
  else
    let sign := if startsWith raw "-" then -1 else 1 in
    match decimal_parts (strip_sign raw) with
    | None => inl ("invalid decimal value: " +:+ js_String value)
    | Some (wholePart, fractionPart) =>
        let whole := digits_value wholePart in
        let fraction := take_str decimals (fractionPart +:+ zeros decimals) in
        let fractionValue := digits_value fraction in
        let scale := 10 ^ Z.of_nat decimals in
        inr (num_to_string ((whole * scale + fractionValue) * sign))
    end.

(** [s.slice(0, -n)] and [s.slice(-n)]: nothing and everything for [n = 0]. *)
Definition slice_front (s : string) (n : nat) : string :=
  match n with O => "" | _ => take_str (String.length s - n) s end.
Definition slice_back (s : string) (n : nat) : string :=
  match n with O => s | _ => drop_str (String.length s - n) s end.

Definition integerToDecimalString (value : val) (decimals : nat) : string :=
  let raw := js_String (v_coalesce value (VStr "0")) in
  let negative := startsWith raw "-" in
  let digits := strip_sign raw ||s "0" in
  let padded := pad_start (S decimals) digits in
  let whole := slice_front padded decimals ||s "0" in
  let fraction := slice_back padded decimals in
  (if negative then "-" else "") +:+ whole +:+ "." +:+ fraction.

(** [s.replace(/0+$/, '')] and [s.replace(/\.?0+$/, '')] *)
Fixpoint strip_zeros (s : string) : string :=
  match s with
  | "" => ""
  | String a s' =>
      let r := strip_zeros s' in
      if (r =? "")%string && Ascii.eqb a "0" then "" else String a r
  end.

Definition strip_decimal_zeros (s : string) : string :=
  let r := strip_zeros s in
  if (String.length r =? String.length s)%nat then s
  else if endsWith r "." then take_str (String.length r - 1) r else r.

Definition multiplyDecimalString (value multiplier : val) : string + string :=
  let raw := coerceTrim value in
  let factor := val_double multiplier in
  if (raw =? "")%string then inl "decimal value required"
  else if negb (dfinite factor) || dle factor (DFin 0) then
    inl ("invalid multiplier: " +:+ js_String multiplier)
  else if bool_decide (factor = DFin ONE) then inr raw
  else
    let sign := if startsWith raw "-" then "-" else "" in
    match decimal_parts (strip_sign raw) with
    | None => inl ("invalid decimal value: " +:+ js_String value)
    | Some (wholePart, fractionPart) =>
        let base := digits_value (wholePart +:+ fractionPart) in
        let scaled := base * (match factor with DFin n => Z.quot n ONE | _ => 0 end) in
        let f := String.length fractionPart in
        let digits := pad_start (S f) (num_to_string scaled) in
        let whole := if (0 <? f)%nat then slice_front digits f else digits in
        let fraction := if (0 <? f)%nat then strip_zeros (slice_back digits f) else "" in
        inr (sign +:+ (if (fraction =? "")%string then whole else whole +:+ "." +:+ fraction))
    end.

Definition normalizeDecimalNumberString (numeric : dbl) (precision : nat) : string + string :=
  if negb (dfinite numeric) then inl ("invalid numeric value: " +:+ dbl_text numeric)
  else inr (strip_decimal_zeros (to_fixed precision numeric)).

Definition transformDecimalString (value : val) (transform : string) (multiplier : val) : string + string :=
  let numeric := to_double (coerceTrim value) in
  if negb (dfinite numeric) || dle numeric (DFin 0) then
    inl ("invalid decimal value: " +:+ js_String value)
  else
    let numeric := if (transform =? "inverse")%string then ddiv (DFin ONE) numeric else numeric in
    let factor := val_double multiplier in
    let numeric := if bool_decide (factor = DFin ONE) then numeric else dmul numeric factor in
    normalizeDecimalNumberString numeric 12.

Example decimal_ex :
  (decimalToIntegerString (VStr " -12.3456789") 6, integerToDecimalString (VStr "-5") 6,
   multiplyDecimalString (VStr "1.50") (VNum 2), transformDecimalString (VStr "151.23") "inverse" (VNum 1),
   transformDecimalString (VStr "10.500") "" (VNum 1), decimalToIntegerString (VStr "1e5") 6)
  = (inr "-12345678", "-0.000005", inr "3", inr "0.006612444621", inr "10.5",
     inl "invalid decimal value: 1e5").
Proof. vm_compute. reflexivity. Qed.

(** ** Lemmas: texts of digits *)

Lemma digits_value_num z : 0 <= z -> digits_value (num_to_string z) = z.
Proof. intros. unfold digits_value. by rewrite read_num. Qed.


Lemma decimal_digit a : is_decimal_digit a = (digit_value a <? 10).
Proof.
  apply (Bool.eqb_prop (is_decimal_digit a) (digit_value a <? 10)). revert a.
  apply (ascii_all (fun a => Bool.eqb (is_decimal_digit a) (digit_value a <? 10))). vm_compute. reflexivity.
Qed.

Lemma digits_read s acc : str_forall is_decimal_digit s = true -> exists n, read_digits 10 acc s = Some n.
Proof.
  revert acc. induction s as [|a s IH]; intros acc; simpl; [by eauto|].
  rewrite decimal_digit. intros [-> Hs]%andb_true_iff. by apply IH.
Qed.

Lemma read_digits_acc s acc :
  str_forall is_decimal_digit s = true ->
  read_digits 10 acc s = Some (acc * 10 ^ str_length s + digits_value s).
Proof.
  intros Hs. revert acc. unfold digits_value, str_length.
  induction s as [|a s IH]; intros acc; [simpl; f_equal; lia|].
  apply andb_true_iff in Hs as [Ha Hs]. rewrite decimal_digit in Ha. cbn [read_digits String.length]. rewrite Ha.
  rewrite (IH Hs (acc * 10 + digit_value a)), (IH Hs (0 * 10 + digit_value a)). unfold default, from_option, id. rewrite Nat2Z.inj_succ, Z.pow_succ_r by lia. f_equal. ring.
Qed.

Lemma digits_value_app s t :
  str_forall is_decimal_digit s = true -> str_forall is_decimal_digit t = true ->
  digits_value (s +:+ t) = digits_value s * 10 ^ str_length t + digits_value t.
Proof.
  intros Hs Ht. unfold digits_value at 1. rewrite read_digits_app, read_digits_acc by done.
  rewrite (read_digits_acc t) by done. unfold default, from_option, id.
  pose proof (read_digits_acc s 0 Hs) as H0. unfold digits_value at 1. by rewrite H0.
Qed.

Lemma digits_value_range s :
  str_forall is_decimal_digit s = true -> 0 <= digits_value s < 10 ^ str_length s.
Proof.
  intros Hs. pose proof (read_digits_acc s 0 Hs) as H.
  apply read_digits_range in H; unfold str_length in *; lia.
Qed.

Lemma zeros_digits n : str_forall is_decimal_digit (zeros n) = true /\ digits_value (zeros n) = 0 /\ String.length (zeros n) = n.
Proof.
  induction n as [|n (IH1 & IH2 & IH3)]; [done|]. cbn [zeros]. split_and!; [done| |simpl; by rewrite IH3].
  change (String "0" (zeros n)) with ("0" +:+ zeros n). rewrite digits_value_app by done. by rewrite IH2.
Qed.

Lemma string_length_app s t : String.length (s +:+ t) = (String.length s + String.length t)%nat.
Proof. induction s as [|a s IH]; [done|]. rewrite str_cons_app. simpl. by rewrite IH. Qed.

Lemma take_all s : take_str (String.length s) s = s.
Proof. unfold take_str. induction s as [|a s IH]; [done|]. simpl. by rewrite IH. Qed.

Lemma take_app s t : take_str (String.length s) (s +:+ t) = s.
Proof. unfold take_str. induction s as [|a s IH]; [by destruct t|]. rewrite str_cons_app. simpl. by rewrite IH. Qed.

Lemma drop_app s t : drop_str (String.length s) (s +:+ t) = t.
Proof.
  unfold drop_str. rewrite string_length_app. replace (_ + _ - _)%nat with (String.length t) by lia.
  induction s as [|a s IH]; [apply take_all|]. rewrite str_cons_app. simpl. done.
Qed.

Lemma str_split n s : (n <= String.length s)%nat -> exists u v, s = u +:+ v /\ String.length u = n.
Proof.
  revert n. induction s as [|a s IH]; intros [|n] Hn; simpl in Hn; try lia; try by exists "", "".
  - by exists "", (String a s).
  - destruct (IH n ltac:(lia)) as (u & v & -> & <-). by exists (String a u), v.
Qed.

Lemma zeros_add n m : zeros (n + m) = zeros n +:+ zeros m.
Proof. induction n as [|n IH]; [done|]. simpl. by rewrite IH. Qed.

Lemma cut_app c w f : str_forall (not_char c) w = true -> cut c (w +:+ String c f) = Some (w, f).
Proof.
  induction w as [|a w IH]; [by simpl; rewrite Ascii.eqb_refl|]. rewrite str_cons_app. simpl.
  intros [Ha Hw]%andb_true_iff. unfold not_char in Ha. apply negb_true_iff in Ha as ->. by rewrite IH.
Qed.

Lemma cut_free c w : str_forall (not_char c) w = true -> cut c w = None.
Proof.
  induction w as [|a w IH]; [done|]. simpl. intros [Ha Hw]%andb_true_iff.
  unfold not_char in Ha. apply negb_true_iff in Ha as ->. by rewrite IH.
Qed.

Lemma cut_some c t w f : cut c t = Some (w, f) -> t = w +:+ String c f.
Proof.
  revert w. induction t as [|a t IH]; intros w; simpl; [done|].
  destruct (Ascii.eqb_spec a c) as [->|]; [by intros [= <- <-]|].
  destruct (cut c t) as [[b r]|]; [|done]. intros [= <- <-]. by rewrite (IH b).
Qed.

Lemma digits_no_dot w : str_forall is_decimal_digit w = true -> str_forall (not_char ".") w = true.
Proof.
  apply str_forall_impl.
  assert (forall a, implb (is_decimal_digit a) (not_char "." a) = true) as H
    by (apply (ascii_all (fun a => implb (is_decimal_digit a) (not_char "." a))); vm_compute; reflexivity).
  intros a Ha. specialize (H a). by rewrite Ha in H.
Qed.

Lemma all_digits_iff s : all_digits s = true <-> s <> "" /\ str_forall is_decimal_digit s = true.
Proof. unfold all_digits. rewrite andb_true_iff, negb_true_iff, String.eqb_neq. done. Qed.

(** The text [w] or [w.f]. *)
Definition decimal_text (w f : string) : string := if (f =? "")%string then w else w +:+ "." +:+ f.

Definition decimal_form (w f : string) : Prop :=
  all_digits w = true /\ str_forall is_decimal_digit f = true.

Lemma decimal_parts_text w f : decimal_form w f -> decimal_parts (decimal_text w f) = Some (w, f).
Proof.
  intros [Hw Hf]. pose proof Hw as [Hne Hd]%all_digits_iff. unfold decimal_text, decimal_parts.
  destruct (String.eqb_spec f "") as [->|Hf0].
  - rewrite cut_free by by apply digits_no_dot. by rewrite Hw.
  - change ("." +:+ f) with (String "." f). rewrite cut_app by by apply digits_no_dot.
    by rewrite Hw, (proj2 (all_digits_iff f)).
Qed.

Lemma decimal_parts_inv t w f : decimal_parts t = Some (w, f) -> decimal_form w f /\ t = decimal_text w f.
Proof.
  unfold decimal_parts, decimal_form, decimal_text. destruct (cut "." t) as [[w' f']|] eqn:Hc.
  - destruct (all_digits w') eqn:Hw; [|done]. destruct (all_digits f') eqn:Hf; [|done]. intros [= -> ->].
    apply all_digits_iff in Hf as [Hf0 Hf]. rewrite (proj2 (String.eqb_neq f "") Hf0).
    split; [done|]. by apply cut_some.
  - destruct (all_digits t) eqn:Ht; [|done]. by intros [= -> <-].
Qed.

(** The first [d] fractional digits are the truncation to [d] digits. *)
Lemma fraction_truncates f d :
  str_forall is_decimal_digit f = true ->
  digits_value (take_str d (f +:+ zeros d)) = digits_value f * 10 ^ Z.of_nat d / 10 ^ str_length f.
Proof.
  intros Hf. unfold str_length. destruct (decide (d <= String.length f)%nat) as [Hle|Hlt].
  - destruct (str_split d f Hle) as (u & v & -> & <-). rewrite str_forall_app in Hf.
    apply andb_true_iff in Hf as [Hu Hv]. rewrite <-str_app_assoc, take_app, digits_value_app by done.
    rewrite string_length_app, Nat2Z.inj_add, Z.pow_add_r by lia. fold (str_length u) (str_length v).
    pose proof (digits_value_range v Hv). assert (0 < 10 ^ str_length u) by (apply Z.pow_pos_nonneg; unfold str_length; lia).
    rewrite (Z.mul_comm (10 ^ str_length u) (10 ^ str_length v)), Z.div_mul_cancel_r by lia.
    symmetry. rewrite Z.div_add_l by lia. rewrite Z.div_small by lia. lia.
  - replace d with (String.length f + (d - String.length f))%nat at 2 by lia.
    rewrite Nat.add_comm, zeros_add, str_app_assoc.
    replace d with (String.length (f +:+ zeros (d - String.length f))) at 1
      by (rewrite string_length_app; pose proof (zeros_digits (d - String.length f)) as (_ & _ & ->); lia).
    rewrite take_app. pose proof (zeros_digits (d - String.length f)) as (H1 & H2 & H3).
    rewrite digits_value_app by done. unfold str_length at 1. rewrite H2, H3, Z.add_0_r.
    replace (Z.of_nat d) with (Z.of_nat (d - String.length f) + Z.of_nat (String.length f)) by lia.
    rewrite Z.pow_add_r, Z.mul_assoc by lia. rewrite Z.div_mul; [done|]. apply Z.pow_nonzero; lia.
Qed.

(** ** Units *)

Inductive sign_text : string -> Z -> Prop :=
| sign_none : sign_text "" 1
| sign_plus : sign_text "+" 1
| sign_minus : sign_text "-" (-1).

Lemma decimal_no_sign w f c t : decimal_form w f -> decimal_text w f = String c t -> is_decimal_digit c = true.
Proof.
  intros [[Hne Hd]%all_digits_iff _]. unfold decimal_text. destruct w as [|a w]; [done|].
  simpl in Hd. apply andb_true_iff in Hd as [Ha _].
  destruct (f =? "")%string; rewrite ?str_cons_app; by intros [= <- _].
Qed.

Lemma sign_read sg s w f :
  sign_text sg s -> decimal_form w f ->
  strip_sign (sg +:+ decimal_text w f) = decimal_text w f /\
  (if startsWith (sg +:+ decimal_text w f) "-" then -1 else 1) = s.
Proof.
  intros [] Hf; [|split; [reflexivity|]..]; [|reflexivity|unfold startsWith; simpl; by destruct (decimal_text w f)]. rewrite str_nil_app.
  destruct (decimal_text w f) as [|a t] eqn:Ht; [done|].
  pose proof (decimal_no_sign _ _ _ _ Hf Ht) as Ha. unfold startsWith. cbn [String.prefix strip_sign].
  destruct (Ascii.ascii_dec "-" a) as [<-|]; [done|].
  destruct (Ascii.eqb_spec a "+") as [->|]; [done|]. destruct (Ascii.eqb_spec a "-") as [->|]; [done|]. done.
Qed.

Lemma text_trimmed sg s w f :
  sign_text sg s -> decimal_form w f -> trim (sg +:+ decimal_text w f) = sg +:+ decimal_text w f.
Proof.
  intros Hs [[_ Hw]%all_digits_iff Hf]. apply trim_no_space.
  assert (forall t, str_forall is_decimal_digit t = true -> str_forall (fun a => negb (js_space a)) t = true) as Hd.
  { intros t. apply str_forall_impl.
    assert (forall a, implb (is_decimal_digit a) (negb (js_space a)) = true) as H
      by (apply (ascii_all (fun a => implb (is_decimal_digit a) (negb (js_space a)))); vm_compute; reflexivity).
    intros a Ha. specialize (H a). by rewrite Ha in H. }
  rewrite str_forall_app. apply andb_true_iff. split; [by destruct Hs|].
  unfold decimal_text. destruct (f =? "")%string; [by apply Hd|].
  rewrite str_forall_app, (Hd w) by done. simpl. by apply Hd.
Qed.

Lemma units_of_text sg s w f d :
  sign_text sg s -> decimal_form w f ->
  decimalToIntegerString (VStr (sg +:+ decimal_text w f)) d
  = inr (num_to_string ((digits_value (w +:+ f) * 10 ^ Z.of_nat d / 10 ^ str_length f) * s)).
Proof.
  intros Hs Hf. pose proof (sign_read _ _ _ _ Hs Hf) as [H1 H2].
  pose proof Hf as [[Hne Hw]%all_digits_iff Hfd].
  assert (decimal_text w f <> "") as Ht.
  { unfold decimal_text. destruct (f =? "")%string; [done|]. by destruct w. }
  unfold decimalToIntegerString, coerceTrim, v_or. cbn [truthy js_String].
  assert (sg +:+ decimal_text w f <> "") as Hne2 by (destruct Hs; [by rewrite str_nil_app|done..]).
  rewrite (proj2 (String.eqb_neq _ _) Hne2). cbn [negb js_String].
  rewrite (text_trimmed _ _ _ _ Hs Hf), (proj2 (String.eqb_neq _ _) Hne2), H1, H2.
  rewrite decimal_parts_text by done. rewrite fraction_truncates by done.
  rewrite digits_value_app by done. do 3 f_equal.
  assert (0 < 10 ^ str_length f) by (apply Z.pow_pos_nonneg; unfold str_length; lia).
  rewrite Z.mul_add_distr_r. rewrite <-Z.mul_assoc, (Z.mul_comm (10 ^ str_length f)), Z.mul_assoc.
  rewrite Z.div_add_l by lia. lia.
Qed.

Lemma num_all_digits n : 0 <= n -> all_digits (num_to_string n) = true.
Proof.
  intros Hn. apply all_digits_iff. split; [apply num_to_string_ne|].
  pose proof (read_num n Hn) as Hr. apply read_digits_chars in Hr.
  revert Hr. apply str_forall_impl. intros a Ha. by rewrite decimal_digit.
Qed.

(** A numeral is a sign and the digits of its magnitude. *)
Lemma num_sign n :
  exists sg s, sign_text sg s /\ num_to_string n = sg +:+ num_to_string (Z.abs n) /\ s * Z.abs n = n /\
    sg = (if startsWith (num_to_string n) "-" then "-" else "").
Proof.
  destruct (decide (0 <= n)) as [Hn|Hn].
  - exists "", 1. rewrite Z.abs_eq by done. split_and!; [constructor|done|lia|].
    pose proof (sign_read "" 1 (num_to_string n) "" sign_none) as H.
    destruct H as [_ H]; [split; [by apply num_all_digits|done]|].
    change (decimal_text (num_to_string n) "") with (num_to_string n) in H. rewrite str_nil_app in H.
    by destruct (startsWith _ _).
  - exists "-", (-1). destruct n as [|p|p]; [lia|lia|]. split_and!; [constructor|done|done|].
    change (num_to_string (Z.neg p)) with (String "-" (pretty (N.pos p))).
    by destruct (pretty (N.pos p)).
Qed.

(** Padding to more than [d] digits leaves a whole part and [d] digits. *)
Lemma padded_split ds d :
  all_digits ds = true ->
  exists u v, pad_start (S d) ds = u +:+ v /\ String.length v = d /\ decimal_form u v /\
    digits_value (u +:+ v) = digits_value ds.
Proof.
  intros [Hne Hdig]%all_digits_iff. set (padded := pad_start (S d) _).
  assert (str_forall is_decimal_digit padded = true /\ digits_value padded = digits_value ds /\
          (S d <= String.length padded)%nat) as (Hp1 & Hp2 & Hp3).
  { unfold padded, pad_start. set (k := (S d - _)%nat). destruct (zeros_digits k) as (Hz1 & Hz2 & Hz3).
    rewrite str_forall_app, Hz1, Hdig. rewrite digits_value_app, Hz2 by done.
    rewrite string_length_app, Hz3. split_and!; [done|lia|lia]. }
  destruct (str_split (String.length padded - d) padded) as (u & v & Huv & Hlen); [lia|].
  exists u, v. rewrite Huv in Hp1. rewrite str_forall_app in Hp1. apply andb_true_iff in Hp1 as [Hu Hvd].
  split_and!; [done|pose proof (string_length_app u v); rewrite <-Huv in *; lia| |by rewrite <-Huv].
  split; [|done]. apply all_digits_iff. split; [|done]. intros ->. simpl in Hlen. lia.
Qed.

Lemma slices u v d :
  (0 < d)%nat -> String.length v = d -> slice_front (u +:+ v) d = u /\ slice_back (u +:+ v) d = v.
Proof.
  intros Hd Hv. unfold slice_front, slice_back. destruct d; [lia|]. rewrite string_length_app, Hv.
  replace (String.length u + S d - S d)%nat with (String.length u) by lia. by rewrite take_app, drop_app.
Qed.

Lemma point_text u v d : (0 < d)%nat -> String.length v = d -> u +:+ "." +:+ v = decimal_text u v.
Proof. intros Hd Hv. unfold decimal_text. rewrite (proj2 (String.eqb_neq v "")); [done|]. intros ->. simpl in Hv. lia. Qed.

Lemma fixed_text_form n d :
  0 <= n -> (0 < d)%nat ->
  exists u v, decimal_form u v /\ String.length v = d /\ digits_value (u +:+ v) = n /\ fixed_text d n = decimal_text u v.
Proof.
  intros Hn Hd. destruct (padded_split (num_to_string n) d (num_all_digits n Hn)) as (u & v & Hp & Hv & Hf & Hval).
  exists u, v. split_and!; [done|done|by rewrite Hval, digits_value_num|].
  rewrite <-(point_text u v d Hd Hv). destruct (slices u v d Hd Hv) as [Hs1 Hs2].
  unfold fixed_text. rewrite Hp. destruct d as [|d]; [lia|]. unfold slice_front, slice_back in *. by rewrite Hs1, Hs2.
Qed.

Lemma integerToDecimal_text n d :
  (0 < d)%nat ->
  exists sg s u v, sign_text sg s /\ s * Z.abs n = n /\ decimal_form u v /\ String.length v = d /\
    digits_value (u +:+ v) = Z.abs n /\
    integerToDecimalString (VStr (num_to_string n)) d = sg +:+ decimal_text u v.
Proof.
  intros Hd. destruct (num_sign n) as (sg & s & Hs & Hn & Habs & Hsg). exists sg, s.
  pose proof (num_all_digits (Z.abs n) ltac:(lia)) as Hdig.
  destruct (sign_read sg s (num_to_string (Z.abs n)) "" Hs) as [H1 H2]; [by split|].
  change (decimal_text (num_to_string (Z.abs n)) "") with (num_to_string (Z.abs n)) in H1, H2.
  rewrite <-Hn in H1, H2. unfold integerToDecimalString. cbn [v_coalesce js_String].
  rewrite H1, <-Hsg. rewrite (or_str_nonempty (num_to_string _)) by apply num_to_string_ne.
  destruct (padded_split _ d Hdig) as (u & v & -> & Hv & Hf & Hval). destruct (slices u v d Hd Hv) as [-> ->].
  exists u, v. split_and!; try done; [by rewrite Hval, digits_value_num by lia|].
  rewrite or_str_nonempty by (by destruct Hf as [[? _]%all_digits_iff _]). by rewrite (point_text _ _ d).
Qed.

Lemma units_read_back n d :
  (0 < d)%nat ->
  decimalToIntegerString (VStr (integerToDecimalString (VStr (num_to_string n)) d)) d = inr (num_to_string n).
Proof.
  intros Hd. destruct (integerToDecimal_text n d Hd) as (sg & s & u & v & Hs & Habs & Hf & Hv & Hval & ->).
  rewrite (units_of_text _ s) by done. unfold str_length. rewrite Hval, Hv.
  rewrite Z.div_mul by (apply Z.pow_nonzero; lia). do 2 f_equal. lia.
Qed.

(** The price text of an integer number of units reads back as that number
    of units, for every scale. *)
Theorem units_roundtrip : forall n d,
  (0 < d)%nat ->
  decimalToIntegerString (VStr (integerToDecimalString (VStr (num_to_string n)) d)) d = inr (num_to_string n).
Proof. exact units_read_back. Qed.

Lemma units_roundtrip_witness :
  integerToDecimalString (VStr "-1234567") 6 = "-1.234567" /\
  decimalToIntegerString (VStr (integerToDecimalString (VStr (num_to_string (-1234567))) 6)) 6
  = inr (num_to_string (-1234567)).
Proof. split; [vm_compute; reflexivity|]. apply (units_roundtrip (-1234567) 6). lia. Defined.

(** A price converts to units exactly when it is an optional sign and
    digits with an optional fraction, and then to the number it denotes times
    the scale, truncated towards zero: no rounding up and no precision lost to
    floating point. *)
Theorem units_truncate :
  (forall sg s w f d, sign_text sg s -> decimal_form w f ->
     decimalToIntegerString (VStr (sg +:+ decimal_text w f)) d
     = inr (num_to_string (digits_value (w +:+ f) * 10 ^ Z.of_nat d / 10 ^ str_length f * s))) /\
  (forall v d r, decimalToIntegerString v d = inr r ->
     exists sg s w f, sign_text sg s /\ decimal_form w f /\ coerceTrim v = sg +:+ decimal_text w f).
Proof.
  split; [intros; by apply units_of_text|]. intros v d r. unfold decimalToIntegerString.
  destruct (coerceTrim v) as [|a t] eqn:Hv; [done|]. cbn [strip_sign String.eqb].
  destruct (Ascii.eqb_spec a "+") as [->|]; [|destruct (Ascii.eqb_spec a "-") as [->|]]; cbn [orb];
    (destruct (decimal_parts _) as [[w f]|] eqn:Hp; [|done]); intros _;
    apply decimal_parts_inv in Hp as [Hf Ht].
  - exists "+", 1, w, f. split_and!; [constructor|done|by rewrite <-Ht].
  - exists "-", (-1), w, f. split_and!; [constructor|done|by rewrite <-Ht].
  - exists "", 1, w, f. split_and!; [constructor|done|by rewrite str_nil_app].
Qed.

(** [toFixed] rounds to the nearest unit. *)
Lemma units_of_fixed n d :
  (0 < d)%nat -> Z.abs n < 10 ^ 21 * ONE ->
  exists u, decimalToIntegerString (VStr (to_fixed d (DFin n))) d = inr (num_to_string u) /\
    Z.abs (2 * (u * ONE - n * 10 ^ Z.of_nat d)) <= ONE.
Proof.
  intros Hd Hn. unfold to_fixed. rewrite (proj2 (Z.leb_gt _ _) Hn).
  assert (0 < ONE) as HO by (apply Z.pow_pos_nonneg; lia). set (p := 10 ^ Z.of_nat d).
  assert (0 < p) as Hp by (apply Z.pow_pos_nonneg; lia).
  set (scaled := (2 * Z.abs n * p + ONE) / (2 * ONE)).
  assert (0 <= scaled /\ Z.abs (2 * (scaled * ONE - Z.abs n * p)) <= ONE) as [Hs0 Hs].
  { unfold scaled. pose proof (Z.div_mod (2 * Z.abs n * p + ONE) (2 * ONE) ltac:(lia)).
    pose proof (Z.mod_pos_bound (2 * Z.abs n * p + ONE) (2 * ONE) ltac:(lia)).
    split; [apply Z.div_pos; nia|]. lia. }
  destruct (fixed_text_form scaled d Hs0 Hd) as (u & v & Hf & Hv & Hval & ->).
  assert (str_length v = Z.of_nat d) as Hlen by by rewrite <-Hv.
  destruct (Z.ltb_spec n 0).
  - exists (scaled * -1). rewrite (units_of_text "-" (-1)), Hval, Hlen by (done || constructor).
    fold p. rewrite Z.div_mul by lia. split; [done|]. lia.
  - exists (scaled * 1). rewrite (units_of_text "" 1), Hval, Hlen by (done || constructor).
    fold p. rewrite Z.div_mul by lia. split; [done|]. lia.
Qed.
