(* ===== verification/Aggregate.v ===== *)
(** * Aggregation of price quotes ([oracle/aggregation.js])

    Median and trimmed mean of finite doubles, and the rejection of outliers. *)
From stdpp Require Import sorting.
From S2P Require Import Prelude Numbers Strings Values Text Doubles.
#[local] Open Scope list_scope.
#[local] Open Scope Z_scope.

(** A quote: its provider and [Number(price)], [None] for a price that is
    [null] or [undefined]. *)
Record agg_quote := AggQuote {
  aq_provider : string;
  aq_price : option dbl;
}.

Record aggregation := Aggregation {
  ag_price : dbl;
  ag_method : string;
  ag_providers_used : list string;
  ag_providers_rejected : list string;
  ag_deviation_pct : dbl;
  ag_confidence : string;
}.

(** [[...values].sort((a, b) => a - b)] on finite doubles. *)
Definition sorted_prices (values : list Z) : list Z := merge_sort Z.le values.

Definition nth_price (l : list Z) (i : nat) : dbl := match l !! i with Some z => DFin z | None => DNaN end.

Definition median (values : list Z) : string + dbl :=
  if bool_decide (values = []) then inl "median requires at least one value"
  else
    let sorted := sorted_prices values in
    let mid := (length sorted / 2)%nat in
    inr (if Nat.even (length sorted)
         then ddiv (dadd (nth_price sorted (mid - 1)) (nth_price sorted mid)) (of_Z 2)
         else nth_price sorted mid).

(** [trimPct] is 0.1. *)
Definition trimmedMean (values : list Z) : string + dbl :=
  if bool_decide (values = []) then inl "trimmedMean requires at least one value"
  else
    let sorted := sorted_prices values in
    let n := length sorted in
    let trimCount :=
      match dfloor (dmul (of_Z (Z.of_nat n)) (to_double "0.1")) with DFin c => Z.to_nat (c / ONE) | _ => 0%nat end in
    if (n <=? trimCount * 2)%nat then median sorted
    else
      let trimmed := take (n - trimCount - trimCount) (drop trimCount sorted) in
      inr (ddiv (foldl (fun sum v => dadd sum (DFin v)) (DFin 0) trimmed) (of_Z (Z.of_nat (length trimmed)))).

Definition CANONICAL_AGGREGATE_MIN_PROVIDERS : Z := 2.

Definition countDistinctProviders (a : aggregation) : Z :=
  Z.of_nat (length (remove_dups (filter (fun id => id <> "")
    ((fun provider => toLowerCase (trim provider)) <$> ag_providers_used a)))).

Definition meetsMinProviders (a : aggregation) (minProviders : Z) : bool :=
  minProviders <=? countDistinctProviders a.

(** [q.price !== null && q.price !== undefined && Number.isFinite(Number(q.price))] *)
Definition valid_quote (q : agg_quote) : option (string * Z) :=
  match aq_price q with Some (DFin n) => Some (aq_provider q, n) | _ => None end.

(** [Math.round(x * 100) / 100] *)
Definition round_pct (x : dbl) : dbl := ddiv (dround (dmul x (of_Z 100))) (of_Z 100).

(** [med > 0 ? (Math.abs(price - med) / med) * 100 : 0] *)
Definition deviation_from (med : dbl) (price : Z) : dbl :=
  if dlt (DFin 0) med then dmul (ddiv (dabs (dsub (DFin price) med)) med) (of_Z 100) else DFin 0.

Definition rejected_by (maxDeviationPct med : dbl) (q : string * Z) : bool :=
  dlt maxDeviationPct (deviation_from med q.2).

Definition two_sources (q0 q1 : string * Z) (maxDeviationPct : dbl) : aggregation :=
  let avg := ddiv (dadd (DFin q0.2) (DFin q1.2)) (of_Z 2) in
  let deviation := dmul (ddiv (dabs (dsub (DFin q0.2) (DFin q1.2))) avg) (of_Z 100) in
  if dlt maxDeviationPct deviation then
    let '(kept, other) := if q0.2 <=? q1.2 then (q0, q1) else (q1, q0) in
    Aggregation (DFin kept.2) "two-source-divergent" [kept.1] [other.1] (round_pct deviation) "low"
  else Aggregation avg "mean" [q0.1; q1.1] [] (round_pct deviation) "medium".

Definition many_sources (quotes : list (string * Z)) (method : string) (maxDeviationPct : dbl) : string + aggregation :=
  match median (snd <$> quotes) with
  | inl e => inl e
  | inr med =>
      let rejected := filter (fun q => rejected_by maxDeviationPct med q = true) quotes in
      let kept := filter (fun q => rejected_by maxDeviationPct med q = false) quotes in
      if bool_decide (kept = []) then
        inr (Aggregation med "median-fallback" (fst <$> quotes) [] (DFin 0) "low")
      else
        let keptPrices := snd <$> kept in
        match (if (method =? "trimmed-mean")%string then trimmedMean keptPrices else median keptPrices),
              median keptPrices with
        | inr aggregatedPrice, inr keptMed =>
            let maxDeviation := foldl (fun max p => dmax max (deviation_from keptMed p)) (DFin 0) keptPrices in
            let confidence :=
              if (3 <=? length kept)%nat then "high" else if (length kept =? 2)%nat then "medium" else "low" in
            inr (Aggregation aggregatedPrice (if (method =? "trimmed-mean")%string then "trimmed-mean" else "median")
                   (fst <$> kept) (fst <$> rejected) (round_pct maxDeviation) confidence)
        | inl e, _ | _, inl e => inl e
        end
  end.

Definition aggregateQuotes (quotes : list agg_quote) (method : string) (maxDeviationPct : dbl) (minProviders : Z)
    : string + aggregation :=
  if bool_decide (quotes = []) then inl "aggregateQuotes requires at least one quote"
  else
    let validQuotes := omap valid_quote quotes in
    let n := Z.of_nat (length validQuotes) in
    match validQuotes with
    | [] => inl "no valid quotes to aggregate"
    | q0 :: rest =>
        if n <? minProviders then
          inl ("only " +:+ num_to_string n +:+ " providers available, minimum "
               +:+ num_to_string minProviders +:+ " required")
        else
          match rest with
          | [] => inr (Aggregation (DFin q0.2) "single-source" [q0.1] [] (DFin 0) "single-source")
          | [q1] => inr (two_sources q0 q1 maxDeviationPct)
          | _ => many_sources validQuotes method maxDeviationPct
          end
    end.

Definition sample_quotes (ps : list (string * string)) : list agg_quote :=
  (fun p => AggQuote p.1 (Some (to_double p.2))) <$> ps.

Example aggregate_ex :
  match aggregateQuotes (sample_quotes [("a", "10.5"); ("b", "10.5"); ("c", "99")]) "median" (of_Z 25) 1 with
  | inr a => (bool_decide (ag_price a = to_double "10.5"), ag_method a, ag_providers_used a, ag_providers_rejected a)
  | inl e => (false, e, [], [])
  end = (true, "median", ["a"; "b"], ["c"]).
Proof. vm_compute. reflexivity. Qed.

(** ** Lemmas: the middle of the sorted prices *)

Lemma sorted_strong (l : list Z) : StronglySorted Z.le (sorted_prices l).
Proof. apply Sorted_StronglySorted; [intros ???; lia|]. apply Sorted_merge_sort. intros ??; lia. Qed.

Lemma sorted_perm (l : list Z) : sorted_prices l ≡ₚ l.
Proof. apply merge_sort_Permutation. Qed.

Lemma sorted_lookup (l : list Z) i j x y :
  StronglySorted Z.le l -> l !! i = Some x -> l !! j = Some y -> (i <= j)%nat -> x <= y.
Proof.
  intros Hs. revert i j. induction Hs as [|a l Hl IH Ha]; intros i j Hx Hy Hij; [done|].
  destruct i as [|i], j as [|j]; simpl in *; [naive_solver lia| |lia|eapply IH; eauto; lia].
  injection Hx as <-. rewrite Forall_forall in Ha. apply Ha. by eapply list_elem_of_lookup_2.
Qed.

(** A double whose double does not overflow. *)
Definition ordinary (z : Z) : Prop := representable z /\ Z.abs z <= 2 ^ 2096.

Lemma max_finite_big : 2 * 2 ^ 2096 <= MAX_FINITE.
Proof. apply Z.leb_le. vm_compute. reflexivity. Qed.

Lemma mean_between a b :
  ordinary a -> ordinary b -> a <= b ->
  exists m, ddiv (dadd (DFin a) (DFin b)) (of_Z 2) = DFin m /\ a <= m <= b.
Proof.
  intros [Ha Ha'] [Hb Hb'] Hab. pose proof max_finite_big as Hbig. set (M := 2 ^ 2096) in *. clearbody M.
  assert (of_Z 2 = DFin (2 * ONE)) as -> by (vm_compute; reflexivity).
  assert (0 < ONE) as HO by (apply Z.pow_pos_nonneg; lia).
  cbn [dadd]. rewrite of_ratio_spec by lia.
  assert (2 * a <= rnd (a + b) 1 <= 2 * b) as Hs.
  { rewrite <-(rnd_exact (2 * a)), <-(rnd_exact (2 * b)) by by apply representable_double.
    split; apply rnd_mono; lia. }
  replace (MAX_FINITE <? Z.abs (rnd (a + b) 1)) with false by lia.
  set (s := rnd (a + b) 1) in *. clearbody s. cbn [ddiv].
  replace (2 * ONE =? 0) with false by lia. rewrite of_ratio_spec by lia.
  rewrite (Z.mul_comm s), (Z.mul_comm 2 ONE), rnd_scale by lia.
  assert (a <= rnd s 2 <= b) as Hm.
  { rewrite <-(rnd_exact a), <-(rnd_exact b) by done. rewrite <-(rnd_scale 2 a 1), <-(rnd_scale 2 b 1) by lia.
    split; apply rnd_mono; lia. }
  replace (MAX_FINITE <? Z.abs (rnd s 2)) with false by lia. by eexists.
Qed.

Lemma half_index n : Nat.even n = true -> (0 < n)%nat -> (n / 2 - 1 = (n - 1) / 2)%nat.
Proof.
  intros [k Hk]%Nat.even_spec Hn. subst n. replace (2 * k - 1)%nat with (1 + (k - 1) * 2)%nat by lia.
  rewrite Nat.div_add by lia. rewrite (Nat.mul_comm 2 k), Nat.div_mul by lia. simpl. lia.
Qed.

Lemma odd_index n : Nat.even n = false -> ((n - 1) / 2 = n / 2)%nat.
Proof.
  intros He. assert (Nat.odd n = true) as [k ->]%Nat.odd_spec by (rewrite <-Nat.negb_even, He; done).
  replace (2 * k + 1 - 1)%nat with (k * 2)%nat by lia. replace (2 * k + 1)%nat with (1 + k * 2)%nat by lia.
  rewrite Nat.div_add, Nat.div_mul by lia. done.
Qed.

Lemma median_between l :
  l <> [] -> Forall ordinary l ->
  exists a b m, sorted_prices l !! ((length l - 1) / 2)%nat = Some a /\ sorted_prices l !! (length l / 2)%nat = Some b /\
    median l = inr (DFin m) /\ a <= m <= b.
Proof.
  intros Hne Hord. unfold median. rewrite bool_decide_false by done.
  pose proof (sorted_strong l) as Hs. pose proof (sorted_perm l) as Hp.
  assert (length (sorted_prices l) = length l) as Hlen by by rewrite Hp.
  assert (Forall ordinary (sorted_prices l)) as Hord' by by rewrite Hp.
  assert (0 < length l)%nat as Hpos by (destruct l; [done|simpl; lia]).
  rewrite Hlen. destruct (lookup_lt_is_Some_2 (sorted_prices l) (length l / 2)) as [b Hb].
  { rewrite Hlen. apply Nat.div_lt; lia. }
  destruct (lookup_lt_is_Some_2 (sorted_prices l) ((length l - 1) / 2)) as [a Ha].
  { rewrite Hlen. eapply Nat.le_lt_trans; [apply (Nat.Div0.div_le_mono _ (length l)); lia|]. apply Nat.div_lt; lia. }
  unfold nth_price. destruct (Nat.even (length l)) eqn:He.
  - rewrite half_index, Ha, Hb by done.
    destruct (mean_between a b) as (m & Hm & Hab).
    + by eapply Forall_lookup_1.
    + by eapply Forall_lookup_1.
    + eapply (sorted_lookup _ _ _ _ _ Hs Ha Hb). apply Nat.Div0.div_le_mono. lia.
    + rewrite Hm. by exists a, b, m.
  - rewrite odd_index in Ha by done. rewrite Ha in Hb. injection Hb as ->. rewrite odd_index, Ha by done.
    exists b, b, b. split_and!; done.
Qed.

(** Values shared by more than half of the list bound its middle. *)
Lemma majority_middle (l : list Z) lo hi a b :
  StronglySorted Z.le l -> l !! ((length l - 1) / 2)%nat = Some a -> l !! (length l / 2)%nat = Some b ->
  (length l < 2 * length (filter (fun z => (lo <= z)%Z /\ (z <= hi)%Z) l))%nat ->
  lo <= a /\ b <= hi.
Proof.
  intros Hs Ha Hb Hmaj. set (P := fun z => (lo <= z)%Z /\ (z <= hi)%Z) in *.
  assert (forall k, (forall i x, l !! i = Some x -> (k <= i)%nat -> ~ P x) -> (length (filter P l) <= k)%nat) as Htail.
  { intros k Hk. rewrite <-(take_drop k l), filter_app, length_app.
    rewrite (filter_none P (drop k l)); cycle 1.
    { intros x [i Hx]%list_elem_of_lookup. rewrite lookup_drop in Hx. eapply Hk; [done|lia]. }
    pose proof (length_filter P (take k l)). rewrite length_take in *. simpl. lia. }
  assert (forall k, (forall i x, l !! i = Some x -> (i < k)%nat -> ~ P x) ->
    (length (filter P l) <= length l - k)%nat) as Hhead.
  { intros k Hk. rewrite <-(take_drop k l) at 1. rewrite filter_app, length_app.
    rewrite (filter_none P (take k l)); cycle 1.
    { intros x [i Hx]%list_elem_of_lookup. rewrite lookup_take_Some in Hx. destruct Hx. by eapply Hk. }
    pose proof (length_filter P (drop k l)). rewrite length_drop in *. simpl. lia. }
  split; apply Z.nlt_ge; intros Hlt.
  - specialize (Hhead ((length l - 1) / 2 + 1)%nat). cut (length (filter P l) <= length l / 2)%nat.
    { pose proof (Nat.Div0.mul_div_le (length l) 2). lia. }
    etransitivity; [apply Hhead|].
    + intros i x Hx Hi [HP _]. pose proof (sorted_lookup _ _ _ _ _ Hs Hx Ha ltac:(lia)). lia.
    + pose proof (Nat.div_mod (length l) 2 ltac:(lia)). pose proof (Nat.div_mod (length l - 1) 2 ltac:(lia)).
      pose proof (Nat.mod_upper_bound (length l) 2 ltac:(lia)). pose proof (Nat.mod_upper_bound (length l - 1) 2 ltac:(lia)).
      apply lookup_lt_Some in Ha. lia.
  - specialize (Htail (length l / 2)%nat). cut (length (filter P l) <= length l / 2)%nat.
    { pose proof (Nat.Div0.mul_div_le (length l) 2). lia. }
    apply Htail. intros i x Hx Hi [_ HP]. pose proof (sorted_lookup _ _ _ _ _ Hs Hb Hx ltac:(lia)). lia.
Qed.

Lemma median_majority l lo hi :
  l <> [] -> Forall ordinary l ->
  (length l < 2 * length (filter (fun z => (lo <= z)%Z /\ (z <= hi)%Z) l))%nat ->
  exists m, median l = inr (DFin m) /\ lo <= m <= hi.
Proof.
  intros Hne Hord Hmaj. destruct (median_between l Hne Hord) as (a & b & m & Ha & Hb & Hm & Hab).
  pose proof (sorted_perm l) as Hp. pose proof (Permutation_length Hp) as Hlen. rewrite <-Hlen in Ha, Hb.
  destruct (majority_middle (sorted_prices l) lo hi a b) as [? ?]; [apply sorted_strong|done|done| |].
  - rewrite Hlen. by rewrite Hp.
  - exists m. split; [done|lia].
Qed.

(** The median lies between two of the values. *)
Lemma median_member l :
  l <> [] -> Forall ordinary l -> exists a b m, a ∈ l /\ b ∈ l /\ median l = inr (DFin m) /\ a <= m <= b.
Proof.
  intros Hne Hord. destruct (median_between l Hne Hord) as (a & b & m & Ha & Hb & Hm & Hab).
  exists a, b, m. apply list_elem_of_lookup_2 in Ha, Hb. rewrite (sorted_perm l) in Ha, Hb. done.
Qed.

Lemma ordinary_one z : ordinary z -> exists a b m, a ∈ [z] /\ b ∈ [z] /\ DFin z = DFin m /\ a <= m <= b.
Proof. intros _. exists z, z, z. split_and!; (done || by left). Qed.

(** ** The aggregate *)

Definition price_of (q : string * Z) : Z := q.2.

(** What an aggregate claims about the quotes it was made from. *)
Record aggregate_of (valid used rejected : list (string * Z)) (a : aggregation) : Prop := {
  ao_parts : used ++ rejected ≡ₚ valid;
  ao_used : ag_providers_used a = fst <$> used;
  ao_rejected : ag_providers_rejected a = fst <$> rejected;
  ao_price : exists lo hi m, lo ∈ price_of <$> used /\ hi ∈ price_of <$> used /\
    ag_price a = DFin m /\ lo <= m <= hi;
}.

Lemma two_sources_sound q0 q1 pct :
  ordinary q0.2 -> ordinary q1.2 ->
  exists used rejected, aggregate_of [q0; q1] used rejected (two_sources q0 q1 pct).
Proof.
  intros H0 H1. unfold two_sources. destruct (dlt pct _).
  - destruct (Z.leb_spec q0.2 q1.2).
    + exists [q0], [q1]. split; try done. exists q0.2, q0.2, q0.2. split_and!; (done || by left).
    + exists [q1], [q0]. split; try done; [apply Permutation_swap|].
      exists q1.2, q1.2, q1.2. split_and!; (done || by left).
  - exists [q0; q1], []. split; try done.
    destruct (Z.le_ge_cases q0.2 q1.2) as [Hle|Hle].
    + destruct (mean_between q0.2 q1.2 H0 H1 Hle) as (m & Hm & Hab).
      exists q0.2, q1.2, m. cbn [ag_price]. rewrite Hm. split_and!; [set_solver|set_solver|done|lia|lia].
    + destruct (mean_between q1.2 q0.2 H1 H0 Hle) as (m & Hm & Hab).
      exists q1.2, q0.2, m. split_and!; [set_solver|set_solver| |lia|lia].
      cbn [ag_price]. rewrite <-Hm. unfold dadd. by rewrite Z.add_comm.
Qed.

Lemma filter_split {A} (f : A -> bool) (l : list A) :
  filter (fun x => f x = false) l ++ filter (fun x => f x = true) l ≡ₚ l.
Proof.
  induction l as [|x l IH]; [done|]. rewrite !filter_cons.
  destruct (f x) eqn:E; [rewrite decide_False, decide_True by done|rewrite decide_True, decide_False by done].
  - by rewrite <-Permutation_middle, IH.
  - by rewrite <-app_comm_cons, IH.
Qed.

Section median_aggregate.
Context (quotes : list (string * Z)) (pct : dbl).
Context (Hne : quotes <> []) (Hord : Forall ordinary (price_of <$> quotes)).
#[local] Set Default Proof Using "All".

Lemma fmap_ne {A B} (f : A -> B) (l : list A) : l <> [] -> f <$> l <> [].
Proof. by destruct l. Qed.

Lemma ordinary_filter (P : string * Z -> Prop) `{!forall x, Decision (P x)} :
  Forall ordinary (price_of <$> filter P quotes).
Proof.
  rewrite Forall_fmap in *. rewrite Forall_forall in *. intros q [_ Hq]%list_elem_of_filter. by apply Hord.
Qed.

Lemma many_sources_sound :
  exists a used rejected, many_sources quotes "median" pct = inr a /\ aggregate_of quotes used rejected a.
Proof.
  unfold many_sources. fold price_of. change (snd <$> quotes) with (price_of <$> quotes).
  destruct (median_member _ (fmap_ne _ _ Hne) Hord) as (lo & hi & med & Hlo & Hhi & -> & Hm).
  set (kept := filter (fun q => rejected_by pct (DFin med) q = false) quotes).
  set (rejected := filter (fun q => rejected_by pct (DFin med) q = true) quotes).
  case_bool_decide as Hk.
  - eexists _, quotes, []. split; [done|]. split; try done; [by rewrite app_nil_r|]. by exists lo, hi, med.
  - change (snd <$> kept) with (price_of <$> kept).
    destruct (median_member (price_of <$> kept)) as (lo' & hi' & m' & Hlo' & Hhi' & Hm' & Hb);
      [by apply fmap_ne|apply ordinary_filter|].
    rewrite Hm'. eexists _, kept, rejected. split; [done|]. split; try done; [apply filter_split|].
    by exists lo', hi', m'.
Qed.

Lemma filter_filter_impl {A} (P Q : A -> Prop) `{!forall x, Decision (P x)} `{!forall x, Decision (Q x)} (l : list A) :
  (forall x, P x -> Q x) -> filter P (filter Q l) = filter P l.
Proof.
  intros HPQ. induction l as [|x l IH]; [done|]. rewrite (filter_cons _ x l), (filter_cons _ x l).
  case_decide as HQ; [rewrite filter_cons, IH; done|]. case_decide as HP; [naive_solver|done].
Qed.

Lemma filter_fmap_length {A B} (f : A -> B) (P : B -> Prop) `{!forall x, Decision (P x)} (l : list A) :
  length (filter P (f <$> l)) = length (filter (P ∘ f) l).
Proof.
  induction l as [|x l IH]; [done|]. rewrite fmap_cons, !filter_cons. simpl. case_decide; simpl; by rewrite ?IH.
Qed.

Lemma many_sources_resist lo hi :
  let honest := fun q : string * Z => (lo <= q.2)%Z /\ (q.2 <= hi)%Z in
  (length quotes < 2 * length (filter honest quotes))%nat ->
  (forall m q, lo <= m <= hi -> honest q -> rejected_by pct (DFin m) q = false) ->
  exists a m, many_sources quotes "median" pct = inr a /\ ag_price a = DFin m /\ lo <= m <= hi /\
    forall q, q ∈ quotes -> honest q -> q.1 ∈ ag_providers_used a.
Proof.
  intros honest Hmaj Htol. unfold many_sources. change (snd <$> quotes) with (price_of <$> quotes).
  destruct (median_majority (price_of <$> quotes) lo hi (fmap_ne _ _ Hne) Hord) as (med & -> & Hmed).
  { rewrite length_fmap, filter_fmap_length. exact Hmaj. }
  set (kept := filter (fun q => rejected_by pct (DFin med) q = false) quotes).
  assert (filter honest kept = filter honest quotes) as Hkept.
  { apply filter_filter_impl. intros q Hq. by apply Htol. }
  assert (kept <> []) as Hk.
  { intros He. rewrite He in Hkept. rewrite <-Hkept in Hmaj. simpl in Hmaj. lia. }
  rewrite bool_decide_false by done. change (snd <$> kept) with (price_of <$> kept).
  destruct (median_majority (price_of <$> kept) lo hi) as (m' & Hm' & Hb);
    [by apply fmap_ne|apply ordinary_filter| |].
  { rewrite length_fmap, filter_fmap_length.
    change (length kept < 2 * length (filter honest kept))%nat. rewrite Hkept.
    assert (length kept <= length quotes)%nat by apply length_filter. lia. }
  rewrite Hm'. eexists _, m'. split; [done|]. split; [done|]. split; [done|].
  intros q Hq Hh. cbn [ag_providers_used]. apply list_elem_of_fmap. exists q. split; [done|].
  apply list_elem_of_filter. split; [by apply Htol|done].
Qed.
End median_aggregate.

(** What is aggregated comes from the quotes.  With the median method, the
    aggregation fails exactly when no quote has a finite price or fewer have one
    than required; otherwise the valid quotes split into those used and those
    rejected, the price lies between two prices that were used, and an aggregate
    of two distinct providers was made from at least two quotes. *)
Theorem aggregate_sound : forall quotes pct minProviders,
  let valid := omap valid_quote quotes in
  Forall ordinary (price_of <$> valid) ->
  if (1 <=? Z.of_nat (length valid)) && (minProviders <=? Z.of_nat (length valid)) then
    exists a used rejected,
      aggregateQuotes quotes "median" pct minProviders = inr a /\ aggregate_of valid used rejected a /\
      (meetsMinProviders a CANONICAL_AGGREGATE_MIN_PROVIDERS = true -> 2 <= length used)%nat
  else exists e, aggregateQuotes quotes "median" pct minProviders = inl e.
Proof.
  intros quotes pct minP valid Hord. unfold aggregateQuotes. fold valid.
  case_bool_decide as Hq.
  { assert (valid = []) as -> by (unfold valid; by rewrite Hq). by eexists. }
  destruct (minP <=? Z.of_nat (length valid)) eqn:Hmin; cycle 1.
  { rewrite andb_false_r. destruct valid; [by eexists|]. replace (_ <? minP) with true by lia. by eexists. }
  rewrite andb_true_r. destruct valid as [|q0 rest] eqn:Hv; [by eexists|].
  replace (1 <=? _) with true by (simpl length; lia). replace (_ <? minP) with false by lia.
  rewrite <-Hv in Hord |- *.
  assert (forall a, (exists used rejected, aggregate_of valid used rejected a) ->
    exists used rejected, aggregate_of valid used rejected a /\
      (meetsMinProviders a CANONICAL_AGGREGATE_MIN_PROVIDERS = true -> 2 <= length used)%nat) as Hcount.
  { intros a (used & rejected & Ha). exists used, rejected. split; [done|].
    unfold meetsMinProviders, countDistinctProviders. rewrite (ao_used _ _ _ _ Ha). intros Hm%Z.leb_le.
    unfold CANONICAL_AGGREGATE_MIN_PROVIDERS in Hm.
    set (ids := filter _ _) in Hm.
    assert (length (remove_dups ids) <= length ids)%nat as H1.
    { apply submseteq_length, NoDup_submseteq; [apply NoDup_remove_dups|]. intros x. by rewrite elem_of_remove_dups. }
    assert (length ids <= length used)%nat as H2.
    { unfold ids. etransitivity; [apply length_filter|]. by rewrite !length_fmap. }
    lia. }
  destruct rest as [|q1 [|q2 rest]].
  - edestruct (Hcount (Aggregation (DFin q0.2) "single-source" [q0.1] [] (DFin 0) "single-source"))
      as (used & rejected & Ha); [|by eexists _, used, rejected].
    exists [q0], []. rewrite Hv. split; try done. exists q0.2, q0.2, q0.2. split_and!; (done || by left).
  - edestruct (Hcount (two_sources q0 q1 pct)) as (used & rejected & Ha); [|by eexists _, used, rejected].
    rewrite Hv in Hord |- *. rewrite !fmap_cons, !Forall_cons in Hord. destruct Hord as (? & ? & _).
    by apply two_sources_sound.
  - destruct (many_sources_sound valid pct) as (a & Ha); [by rewrite Hv|done|].
    destruct Ha as (used & rejected & Hrun & Ha).
    destruct (Hcount a) as (used' & rejected' & Ha'); [by eauto|]. by exists a, used', rejected'.
Qed.

(** C38.  A minority cannot move the price.  Of at least three valid quotes, let
    more than half lie in a range so tight that none of its prices counts as an
    outlier of another; then whatever the other quotes say, the median
    aggregate lies in that range and uses every quote of it. *)
Theorem aggregate_resists_minority : forall quotes pct minProviders lo hi,
  let valid := omap valid_quote quotes in
  let honest := fun q : string * Z => (lo <= q.2)%Z /\ (q.2 <= hi)%Z in
  (3 <= length valid)%nat -> minProviders <= Z.of_nat (length valid) ->
  Forall ordinary (price_of <$> valid) ->
  (length valid < 2 * length (filter honest valid))%nat ->
  (forall m q, lo <= m <= hi -> honest q -> rejected_by pct (DFin m) q = false) ->
  exists a m, aggregateQuotes quotes "median" pct minProviders = inr a /\ ag_price a = DFin m /\
    lo <= m <= hi /\ forall q, q ∈ valid -> honest q -> q.1 ∈ ag_providers_used a.
Proof.
  intros quotes pct minP lo hi valid honest Hlen Hmin Hord Hmaj Htol. unfold aggregateQuotes. fold valid.
  rewrite bool_decide_false; cycle 1.
  { intros ->. simpl in Hlen. lia. }
  destruct (many_sources_resist valid pct) with (lo := lo) (hi := hi) as (a & m & Ha); [|done|done|done|].
  { intros He. rewrite He in Hlen. simpl in Hlen. lia. }
  exists a, m. destruct valid as [|q0 [|q1 [|q2 rest]]]; simpl in Hlen; try lia.
  by replace (_ <? minP) with false by lia.
Qed.

Lemma ordinary_int k : Z.abs k < 2 ^ 53 -> ordinary (k * 2 ^ 1074).
Proof.
  intros Hk. split; [by exists k, 1074|]. rewrite Z.abs_mul.
  assert (0 < 2 ^ 1074) as H1 by (by apply Z.pow_pos_nonneg).
  assert (2 ^ 53 * 2 ^ 1074 <= 2 ^ 2096) as H2.
  { rewrite <-Z.pow_add_r by lia. by apply Z.pow_le_mono_r. }
  rewrite (Z.abs_eq (2 ^ 1074)) by lia. set (M := 2 ^ 2096) in *. set (N := 2 ^ 1074) in *. clearbody M N. nia.
Qed.

Definition three_quotes : list agg_quote :=
  [AggQuote "a" (Some (DFin (10 * 2 ^ 1074))); AggQuote "b" (Some (DFin (99 * 2 ^ 1074)));
   AggQuote "c" (Some (DFin (10 * 2 ^ 1074)))].

Lemma three_ordinary : Forall ordinary (price_of <$> omap valid_quote three_quotes).
Proof.
  repeat constructor; (apply ordinary_int; vm_compute; reflexivity).
Qed.

Lemma aggregate_sound_witness :
  exists a used rejected,
    aggregateQuotes three_quotes "median" (of_Z 25) 1 = inr a /\
    aggregate_of (omap valid_quote three_quotes) used rejected a /\
    (meetsMinProviders a CANONICAL_AGGREGATE_MIN_PROVIDERS = true -> 2 <= length used)%nat.
Proof. exact (aggregate_sound three_quotes (of_Z 25) 1 three_ordinary). Defined.

Lemma aggregate_resists_minority_witness :
  exists a m, aggregateQuotes three_quotes "median" (of_Z 25) 1 = inr a /\ ag_price a = DFin m /\
    10 * 2 ^ 1074 <= m <= 10 * 2 ^ 1074 /\
    forall q, q ∈ omap valid_quote three_quotes ->
      (10 * 2 ^ 1074 <= q.2)%Z /\ (q.2 <= 10 * 2 ^ 1074)%Z -> q.1 ∈ ag_providers_used a.
Proof.
  apply (aggregate_resists_minority three_quotes (of_Z 25) 1 (10 * 2 ^ 1074) (10 * 2 ^ 1074)).
  - apply Nat.leb_le. vm_compute. reflexivity.
  - apply Z.leb_le. vm_compute. reflexivity.
  - exact three_ordinary.
  - apply Nat.ltb_lt. vm_compute. reflexivity.
  - intros m [p z] Hm [H1 H2]. cbn [snd] in *.
    assert (m = 10 * 2 ^ 1074) as -> by (apply Z.le_antisymm; apply Hm).
    assert (z = 10 * 2 ^ 1074) as -> by (by apply Z.le_antisymm). vm_compute. reflexivity.
Defined.
