(* ===== verification/Ssrf.v ===== *)
(** * The SSRF host classifier ([platform/ssrf.js] of the nitro worker)

    Which IP literals and resolved addresses an outbound request may target.
    [isIPv4] and [isIPv6] are Node's [net.isIP]: a reading of the literal as
    numbers, which is also the reference the classifier is compared with.  The
    DNS lookup is the environment's: its reply is an argument. *)
From S2P Require Import Prelude Numbers Strings Values Encoding Text.
#[local] Open Scope list_scope.
#[local] Open Scope Z_scope.

(** ** [net.isIP] *)

Definition decimal (s : string) : bool := str_forall (fun a => digit_value a <? 10) s.

(** A decimal octet without a leading zero. *)
Definition read_octet (s : string) : option Z :=
  if startsWith s "0" && (1 <? String.length s)%nat then None
  else if (String.length s <=? 3)%nat then
    match read_digits1 10 s with
    | Some n => if n <=? 255 then Some n else None
    | None => None
    end
  else None.

Definition read_ipv4 (s : string) : option (list Z) :=
  match split "." s with
  | [a; b; c; d] => mapM read_octet [a; b; c; d]
  | _ => None
  end.

Definition read_hextet (s : string) : option Z :=
  if (String.length s <=? 4)%nat then read_digits1 16 s else None.

(** The value of an octet list, big-endian. *)
Definition ip_value (octets : list Z) : Z := value 256 octets.

(** Groups between colons, the last one a dotted IPv4 address if [v4]. *)
Fixpoint read_groups (v4 : bool) (parts : list string) : option (list Z) :=
  match parts with
  | [] => Some []
  | p :: rest =>
      match read_hextet p with
      | Some n => cons n <$> read_groups v4 rest
      | None =>
          match v4, rest, read_ipv4 p with
          | true, [], Some o => Some [ip_value o / 65536; ip_value o mod 65536]
          | _, _, _ => None
          end
      end
  end.

Definition read_part (v4 : bool) (s : string) : option (list Z) :=
  if (s =? "")%string then Some [] else read_groups v4 (split ":" s).

(** Eight groups, or fewer around one [::]. *)
Definition read_ipv6 (s : string) : option (list Z) :=
  match split2 ":" s with
  | [s] => match read_part true s with
           | Some ns => if (length ns =? 8)%nat then Some ns else None
           | None => None
           end
  | [h; t] =>
      match read_part false h, read_part true t with
      | Some hs, Some ts =>
          if (length hs + length ts <=? 7)%nat
          then Some (hs ++ repeat 0 (8 - length hs - length ts) ++ ts) else None
      | _, _ => None
      end
  | _ => None
  end.

Definition zone_char (a : ascii) : bool :=
  (digit_value a <? 36) || Ascii.eqb a "-" || Ascii.eqb a "." || Ascii.eqb a ":".

Definition isIPv6 (s : string) : bool :=
  match cut "%" s with
  | None => bool_decide (is_Some (read_ipv6 s))
  | Some (b, z) => bool_decide (is_Some (read_ipv6 b)) && negb (z =? "")%string && str_forall zone_char z
  end.

Definition isIP (s : string) : Z :=
  if bool_decide (is_Some (read_ipv4 s)) then 4 else if isIPv6 s then 6 else 0.

(** ** The classifier *)

Definition blocked_ab (a b : Z) : bool :=
  (a =? 0) || (a =? 127) || (a =? 10) || ((a =? 172) && (16 <=? b) && (b <=? 31))
  || ((a =? 192) && (b =? 168)) || ((a =? 169) && (b =? 254))
  || ((a =? 100) && (64 <=? b) && (b <=? 127)) || (224 <=? a).

Definition isBlockedIpv4 (address : string) : bool :=
  match mapM (parse_int 10) (split "." address) with
  | Some [a; b; c; d] =>
      if existsb (fun part => (part <? 0) || (255 <? part)) [a; b; c; d] then true
      else blocked_ab a b
  | _ => true
  end.

(** [\d{1,3}\.\d{1,3}\.\d{1,3}\.\d{1,3}] on the whole text, and its leftmost
    match that ends the text. *)
Definition quad (s : string) : option (list string) :=
  match split "." s with
  | [a; b; c; d] =>
      if forallb (fun p => decimal p && (1 <=? String.length p)%nat && (String.length p <=? 3)%nat) [a; b; c; d]
      then Some [a; b; c; d] else None
  | _ => None
  end.

Fixpoint trailing_quad (s : string) : option (string * list string) :=
  match quad s with
  | Some parts => Some ("", parts)
  | None =>
      match s with
      | "" => None
      | String a s' => match trailing_quad s' with Some (p, parts) => Some (String a p, parts) | None => None end
      end
  end.

(** The dotted tail written as two hextets. *)
Definition undotted (address : string) : string :=
  match trailing_quad address with
  | Some (prefix, parts) =>
      match mapM (parse_int 10) parts with
      | Some [p0; p1; p2; p3] =>
          if forallb (fun part => (0 <=? part) && (part <=? 255)) [p0; p1; p2; p3] then
            prefix +:+ to_hex (Z.lor (Z.shiftl p0 8) p1) +:+ ":" +:+ to_hex (Z.lor (Z.shiftl p2 8) p3)
          else address
      | _ => address
      end
  | None => address
  end.

(** [text ? text.split(':').filter(Boolean) : []] *)
Definition colon_groups (text : string) : list string :=
  if (text =? "")%string then [] else filter (fun g => g <> "") (split ":" text).

(** The eight groups; a member is [None] where [parseInt] is [NaN]. *)
Definition expandIpv6 (address : string) : option (list (option Z)) :=
  let pieces := split2 ":" (undotted address) in
  let headGroups := colon_groups (default "" (head pieces)) in
  let groups :=
    match pieces !! 1%nat with
    | None => headGroups
    | Some tail =>
        let tailGroups := colon_groups tail in
        headGroups ++ repeat "0" (8 - length headGroups - length tailGroups) ++ tailGroups
    end in
  if (length groups =? 8)%nat then Some (parse_int 16 <$> groups) else None.

Definition dotted (a b c d : Z) : string :=
  join "." [num_to_string a; num_to_string b; num_to_string c; num_to_string d].

Definition isBlockedIpv6 (address : string) : bool :=
  match expandIpv6 address ≫= mapM id with
  | None => true
  | Some groups =>
      if existsb (fun g => (g <? 0) || (65535 <? g)) groups then true
      else
        let g i := nth i groups 0 in
        let isV4Mapped := forallb (fun i => g i =? 0) [0; 1; 2; 3; 4]%nat
                          && ((g 5%nat =? 0) || (g 5%nat =? 65535)) in
        let isNat64 := (g 0%nat =? 100) && (g 1%nat =? 65435) in
        if isV4Mapped || isNat64 then
          if (g 6%nat =? 0) && (g 7%nat =? 0) then true
          else isBlockedIpv4 (dotted (Z.shiftr (g 6%nat) 8) (Z.land (g 6%nat) 255)
                                     (Z.shiftr (g 7%nat) 8) (Z.land (g 7%nat) 255))
        else
          let first := g 0%nat in
          forallb (fun x => x =? 0) groups
          || (forallb (fun x => x =? 0) (take 7 groups) && (g 7%nat =? 1))
          || (Z.land first 65472 =? 65152) || (Z.land first 65472 =? 65216)
          || (Z.land first 65024 =? 64512) || (Z.land first 65280 =? 65280)
  end.

(** The text without its zone identifier. *)
Definition strip_zone (address : string) : string :=
  match cut "%" address with Some (b, _) => b | None => address end.

Definition isBlockedIpAddress (rawAddress : val) : bool :=
  let address := toLowerCase (trimString rawAddress) in
  if (address =? "")%string then true
  else
    let address := strip_zone address in
    let family := isIP address in
    if family =? 4 then isBlockedIpv4 address
    else if family =? 6 then isBlockedIpv6 address
    else true.

(** ** Resolution *)

(** What [dnsLookup] does: throw, or answer. *)
Inductive dns_reply := DnsFailed | DnsNoList | DnsRecords (records : list val).

Definition private_error : string := "private/internal URLs not allowed".

Definition resolvePinnedAddresses (allowUnresolved : bool) (hostname : val) (lookup : string -> dns_reply)
    : string + list val :=
  let host := toLowerCase (trimString hostname) in
  let literalHost :=
    if startsWith host "[" && endsWith host "]"
    then String.substring 1 (String.length host - 2) host else host in
  if (host =? "localhost")%string || (host =? "0.0.0.0")%string || endsWith host ".local"
  then inl private_error
  else if negb (isIP literalHost =? 0) then
    if isBlockedIpAddress (VStr literalHost) then inl private_error else inr []
  else
    match lookup literalHost with
    | DnsFailed => if allowUnresolved then inr [] else inl ("unable to resolve host: " +:+ literalHost)
    | DnsNoList => inr []
    | DnsRecords records =>
        if existsb (fun record => isBlockedIpAddress (get record "address")) records
        then inl private_error
        else inr ((fun record => VObj [("address", get record "address"); ("family", get record "family")])
                  <$> filter (fun record => truthy (get record "address") = true) records)
    end.

Example blocked_ex :
  (isBlockedIpAddress (VStr "10.1.2.3"), isBlockedIpAddress (VStr "8.8.8.8"),
   isBlockedIpAddress (VStr "::ffff:127.0.0.1"), isBlockedIpAddress (VStr "fe80::1%eth0"),
   isBlockedIpAddress (VStr "2001:4860:4860::8888"), isBlockedIpAddress (VStr "0177.0.0.1"),
   isBlockedIpAddress (VStr "64:ff9b::808:808"))
  = (true, false, true, true, false, true, false).
Proof. vm_compute. reflexivity. Qed.
