(* ===== verification/SsrfSpec.v ===== *)
(** * Specification of the SSRF host classifier

    The address ranges as CIDR blocks over 32-bit and 128-bit integers, the
    reading of IPv4 and IPv6 literals (the code's textual expansion yields the
    groups of the literal), then the classifier as the range check on the address
    and what a pinned connection can reach. *)
From S2P Require Import Prelude Numbers Strings Values Encoding Text Ssrf.
#[local] Open Scope list_scope.
#[local] Open Scope Z_scope.

(** ** The ranges *)

Definition in_cidr (width len base n : Z) : bool := n / 2 ^ (width - len) =? base / 2 ^ (width - len).

(** 0/8, 10/8, 100.64/10, 127/8, 169.254/16, 172.16/12, 192.168/16, 224/3 *)
Definition private4 (n : Z) : bool :=
  existsb (fun '(octets, len) => in_cidr 32 len (ip_value octets) n)
    [([0; 0; 0; 0], 8); ([10; 0; 0; 0], 8); ([100; 64; 0; 0], 10); ([127; 0; 0; 0], 8);
     ([169; 254; 0; 0], 16); ([172; 16; 0; 0], 12); ([192; 168; 0; 0], 16); ([224; 0; 0; 0], 3)].

Definition first_group (g : Z) : Z := g * 2 ^ 112.

(** ::/96, ::ffff:0:0/96 and 64:ff9b::/32 carry an IPv4 address in the low 32 bits. *)
Definition embeds_v4 (n : Z) : bool :=
  in_cidr 128 96 0 n || in_cidr 128 96 (65535 * 2 ^ 32) n
  || in_cidr 128 32 (value 65536 [100; 65435] * 2 ^ 96) n.

(** fe80::/10, fec0::/10, fc00::/7, ff00::/8 *)
Definition private6 (n : Z) : bool :=
  if embeds_v4 n then private4 (n mod 2 ^ 32)
  else existsb (fun '(g, len) => in_cidr 128 len (first_group g) n)
         [(65152, 10); (65216, 10); (64512, 7); (65280, 8)].

Inductive ip := V4 (n : Z) | V6 (n : Z).

Definition ip_reading (s : string) : option ip :=
  match read_ipv4 s with
  | Some o => Some (V4 (ip_value o))
  | None => V6 ∘ value 65536 <$> read_ipv6 s
  end.

Definition private_ip (i : ip) : bool := match i with V4 n => private4 n | V6 n => private6 n end.

(** ** IPv4 *)

Lemma trimStart_digits b s :
  b <= 36 -> str_forall (fun a => digit_value a <? b) s = true -> trimStart s = s.
Proof.
  intros Hb H. apply trimStart_no_space. revert H. apply str_forall_impl. intros a Ha.
  rewrite digit_no_space; [done|lia].
Qed.

Lemma parse_int_digits b s n : b <= 36 -> read_digits1 b s = Some n -> parse_int b s = Some n.
Proof.
  intros Hb. unfold parse_int, read_digits1. destruct s as [|a s]; [done|]. intros H.
  pose proof (read_digits_chars _ _ _ _ H) as Hc.
  rewrite (trimStart_digits b) by done.
  assert (digit_value a <? b = true) as Ha by (simpl in Hc; by apply andb_true_iff in Hc as [? _]).
  rewrite (proj2 (Ascii.eqb_neq a "-"))
    by (intros ->; change (digit_value "-") with 99 in Ha; lia).
  rewrite (proj2 (Ascii.eqb_neq a "+"))
    by (intros ->; change (digit_value "+") with 99 in Ha; lia).
  by rewrite take_while_all.
Qed.

Lemma read_octet_spec p n : read_octet p = Some n ->
  parse_int 10 p = Some n /\ 0 <= n <= 255 /\ decimal p = true /\
  p <> "" /\ (String.length p <= 3)%nat.
Proof.
  intros H.
  assert (read_digits1 10 p = Some n /\ n <= 255 /\ (String.length p <= 3)%nat) as (Hr & Hn & Hl).
  { unfold read_octet in H. repeat case_match; simplify_eq. repeat split; lia. }
  assert (p <> "") as Hp by (intros ->; done).
  assert (read_digits 10 0 p = Some n) as Hd by (unfold read_digits1 in Hr; by destruct p).
  pose proof (read_digits_range 10 0 p n ltac:(lia) ltac:(lia) Hd).
  repeat split; [by apply parse_int_digits|lia|lia| |done|done].
  by eapply read_digits_chars.
Qed.

Lemma read_ipv4_spec s o : read_ipv4 s = Some o ->
  exists p0 p1 p2 p3 a b c d, split "." s = [p0; p1; p2; p3] /\ o = [a; b; c; d] /\
    read_octet p0 = Some a /\ read_octet p1 = Some b /\ read_octet p2 = Some c /\ read_octet p3 = Some d.
Proof.
  unfold read_ipv4. repeat case_match; try done. intros H'.
  apply mapM_Some in H'. repeat (apply Forall2_cons_inv_l in H' as (? & ? & ? & H' & ->)).
  apply Forall2_nil_inv_l in H' as ->. eauto 20.
Qed.

Definition all_bytes (f : Z -> bool) : bool := forallb (fun n => f (Z.of_nat n)) (seq 0 256).

Lemma all_bytes_spec f : all_bytes f = true -> forall n, 0 <= n <= 255 -> f n = true.
Proof.
  unfold all_bytes. rewrite forallb_forall. intros H n Hn.
  rewrite <-(Z2Nat.id n) by lia. apply H. apply in_seq. lia.
Qed.

(** Only the two leading octets decide. *)
Lemma blocked_ab_private a b n :
  0 <= a <= 255 -> 0 <= b <= 255 -> n / 65536 = a * 256 + b -> blocked_ab a b = private4 n.
Proof.
  intros Ha Hb Hn.
  assert (forall k, 0 < k -> n / (65536 * k) = (a * 256 + b) / k) as Hk.
  { intros k Hk. by rewrite <-Z.div_div, Hn. }
  unfold private4, in_cidr. cbn [existsb].
  change (2 ^ (32 - 8)) with (65536 * 256). change (2 ^ (32 - 10)) with (65536 * 64).
  change (2 ^ (32 - 12)) with (65536 * 16). change (2 ^ (32 - 3)) with (65536 * 8192).
  change (2 ^ (32 - 16)) with (65536 * 1). rewrite !Hk by done.
  repeat match goal with |- context [ ip_value ?l / ?k ] =>
    let v := eval vm_compute in (ip_value l / k) in change (ip_value l / k) with v end.
  unfold blocked_ab. Z.to_euclidean_division_equations. lia.
Qed.

Lemma octets_value a b c d :
  0 <= a <= 255 -> 0 <= b <= 255 -> 0 <= c <= 255 -> 0 <= d <= 255 ->
  ip_value [a; b; c; d] / 65536 = a * 256 + b /\ ip_value [a; b; c; d] mod 65536 = c * 256 + d.
Proof.
  intros Ha Hb Hc Hd.
  replace (ip_value [a; b; c; d]) with ((a * 256 + b) * 65536 + (c * 256 + d))
    by (unfold ip_value, value; simpl; lia).
  apply split_digit. lia.
Qed.

Lemma isBlockedIpv4_exact s o : read_ipv4 s = Some o -> isBlockedIpv4 s = private4 (ip_value o).
Proof.
  intros (p0 & p1 & p2 & p3 & a & b & c & d & Hs & -> & Ha & Hb & Hc & Hd)%read_ipv4_spec.
  apply read_octet_spec in Ha as (Ha & ? & _), Hb as (Hb & ? & _), Hc as (Hc & ? & _), Hd as (Hd & ? & _).
  unfold isBlockedIpv4. rewrite Hs. cbn [mapM]. rewrite Ha, Hb, Hc, Hd. cbn.
  rewrite !(proj2 (Z.ltb_ge _ _)) by lia. cbn.
  apply blocked_ab_private; [done..|]. by apply octets_value.
Qed.

(** ** IPv6: the textual expansion *)

Definition hextet (p : string) (n : Z) : Prop :=
  p <> "" /\ str_forall (fun a => digit_value a <? 16) p = true /\
  parse_int 16 p = Some n /\ 0 <= n <= 65535.

Lemma hex_no_sep p : str_forall (fun a => digit_value a <? 16) p = true ->
  str_forall (not_char ":") p = true /\ str_forall (not_char ".") p = true.
Proof.
  intros H. split; revert H; apply str_forall_impl; intros a Ha; unfold not_char;
    apply negb_true_iff, Ascii.eqb_neq; intros ->; discriminate Ha.
Qed.

Lemma read_hextet_spec p n : read_hextet p = Some n -> hextet p n.
Proof.
  unfold read_hextet. case_match eqn:Hl; [|done]. intros H.
  assert (p <> "") as Hp by (by intros ->).
  assert (read_digits 16 0 p = Some n) as Hd by (unfold read_digits1 in H; by destruct p).
  pose proof (read_digits_range 16 0 p n ltac:(lia) ltac:(lia) Hd).
  assert (16 ^ Z.of_nat (String.length p) <= 16 ^ 4) by (apply Z.pow_le_mono_r; lia).
  repeat split; [done|by eapply read_digits_chars|by apply parse_int_digits|lia..].
Qed.

Lemma read_hex_text acc ds : Forall (fun d => 0 <= d < 16) ds ->
  read_digits 16 acc (hex_text ds) = Some (foldl (fun acc d => acc * 16 + d) acc ds).
Proof.
  intros H. revert acc. induction H as [|d ds Hd H IH]; intros acc; simpl; [done|].
  rewrite digit_value_hex by done. by rewrite (proj2 (Z.ltb_lt _ _)), IH by lia.
Qed.

Lemma hex_text_chars ds : Forall (fun d => 0 <= d < 16) ds ->
  str_forall (fun a => digit_value a <? 16) (hex_text ds) = true.
Proof.
  induction 1 as [|d ds Hd H IH]; simpl; [done|]. rewrite digit_value_hex, IH by done. lia.
Qed.

Lemma nibbles_ne fuel n acc : acc <> [] -> nibbles fuel n acc <> [].
Proof. revert n acc. induction fuel as [|k IH]; simpl; intros n acc H; [done|]. case_match; [done|auto]. Qed.

Lemma to_hex_hextet n : 0 <= n <= 65535 -> hextet (to_hex n) n.
Proof.
  intros Hn. destruct (hex_digits_spec n) as (Hr & Hv & _); [lia|].
  assert (hex_digits n <> []) as Hne.
  { unfold hex_digits. simpl. case_match; [done|]. by apply nibbles_ne. }
  unfold to_hex. set (ds := hex_digits n) in *.
  assert (hex_text ds <> "") as Ht by (by destruct ds).
  repeat split; [done|by apply hex_text_chars| |lia..].
  apply parse_int_digits; [lia|]. unfold read_digits1.
  transitivity (read_digits 16 0 (hex_text ds)); [by destruct (hex_text ds)|].
  rewrite read_hex_text by done. f_equal. exact Hv.
Qed.

Lemma hextets_groups gs ns : Forall2 hextet gs ns ->
  Forall (fun x => x <> "" /\ str_forall (not_char ":") x = true) gs /\
  Forall (fun x => str_forall (not_char ".") x = true) gs /\
  parse_int 16 <$> gs = Some <$> ns.
Proof.
  induction 1 as [|g n gs ns (Hne & Hh & Hp & _) _ (IH1 & IH2 & IH3)]; [done|].
  apply hex_no_sep in Hh as [? ?]. repeat split; [by constructor..|].
  rewrite !fmap_cons, Hp, IH3. done.
Qed.

Lemma colon_groups_join gs :
  Forall (fun x => x <> "" /\ str_forall (not_char ":") x = true) gs ->
  colon_groups (join ":" gs) = gs.
Proof.
  intros H. unfold colon_groups. destruct gs as [|g gs]; [done|].
  rewrite (proj2 (String.eqb_neq _ _)).
  - rewrite split_join; [|done|by eapply Forall_impl; [exact H|intros ? [_ ?]]].
    clear -H. induction H as [|x l [Hx _] _ IH]; [done|]. by rewrite filter_cons_True, IH.
  - apply Forall_cons in H as [[Hg _] _]. destruct g; [done|]. by destruct gs.
Qed.

(** ** The dotted tail *)

Lemma quad_chars s l : quad s = Some l -> str_forall (not_char ":") s = true.
Proof.
  unfold quad. destruct (split "." s) as [|a [|b [|c [|d []]]]] eqn:E; try done.
  case_match eqn:Hd; [|done]. intros _. rewrite <-(join_split "." s), E.
  apply join_free; [done|]. apply Forall_forall. intros x Hx. rewrite forallb_forall in Hd.
  assert (decimal x = true) as Hdx.
  { specialize (Hd x). rewrite list_elem_of_In in Hx. specialize (Hd Hx).
    by apply andb_true_iff in Hd as [[? _]%andb_true_iff _]. }
  revert Hdx. apply str_forall_impl. intros a' Ha. unfold not_char.
  apply negb_true_iff, Ascii.eqb_neq. intros ->. discriminate Ha.
Qed.

Lemma trailing_quad_none s : str_forall (not_char ".") s = true -> trailing_quad s = None.
Proof.
  intros H. assert (forall s, str_forall (not_char ".") s = true -> quad s = None) as Hq.
  { intros x Hx. unfold quad. by rewrite split_free. }
  induction s as [|a s IH]; simpl; [done|]. rewrite Hq by done.
  simpl in H. apply andb_true_iff in H as [_ H]. by rewrite IH.
Qed.

Lemma trailing_quad_app pre p l : quad p = Some l ->
  pre = "" \/ (exists q, pre = q +:+ ":") -> trailing_quad (pre +:+ p) = Some (pre, l).
Proof.
  intros Hp [->|[q ->]].
  - rewrite str_nil_app. destruct p; [done|]. cbn [trailing_quad]. by rewrite Hp.
  - assert (forall x, quad ((x +:+ ":") +:+ p) = None) as Hn.
    { intros x. destruct (quad ((x +:+ ":") +:+ p)) eqn:E; [|done]. apply quad_chars in E.
      rewrite !str_forall_app in E. apply andb_true_iff in E as [[_ E]%andb_true_iff _]. discriminate E. }
    induction q as [|a q IH].
    + change (("" +:+ ":") +:+ p) with (String ":" p) in *. pose proof (Hn "") as Hn0.
      change (("" +:+ ":") +:+ p) with (String ":" p) in Hn0.
      cbn [trailing_quad]. rewrite Hn0.
      destruct p; [done|]. cbn [trailing_quad]. by rewrite Hp.
    + pose proof (Hn (String a q)) as Hn0. rewrite !str_cons_app in *. cbn [trailing_quad].
      by rewrite Hn0, IH.
Qed.

Lemma read_ipv4_quad p o : read_ipv4 p = Some o ->
  exists parts, quad p = Some parts /\ mapM (parse_int 10) parts = Some o /\
    length o = 4%nat /\ Forall (fun n => 0 <= n <= 255) o.
Proof.
  intros (p0 & p1 & p2 & p3 & a & b & c & d & Hs & -> & Ha & Hb & Hc & Hd)%read_ipv4_spec.
  apply read_octet_spec in Ha as (Ha & ? & Da & Na & La), Hb as (Hb & ? & Db & Nb & Lb),
    Hc as (Hc & ? & Dc & Nc & Lc), Hd as (Hd & ? & Dd & Nd & Ld).
  exists [p0; p1; p2; p3]. split_and!; [| |done|by repeat apply Forall_cons_2].
  - unfold quad. rewrite Hs. cbn [forallb].
    assert (forall x, x <> "" -> (String.length x <= 3)%nat -> decimal x = true ->
      decimal x && (1 <=? String.length x)%nat && (String.length x <=? 3)%nat = true) as Hx.
    { intros x Hx Hl ->. destruct x; [done|]. simpl in *. lia. }
    by rewrite !Hx.
  - cbn [mapM]. by rewrite Ha, Hb, Hc, Hd.
Qed.

Lemma undotted_tail pre p o : read_ipv4 p = Some o ->
  pre = "" \/ (exists q, pre = q +:+ ":") ->
  undotted (pre +:+ p) = pre +:+ to_hex (ip_value o / 65536) +:+ ":" +:+ to_hex (ip_value o mod 65536).
Proof.
  intros (parts & Hq & Hm & Hl & Ho)%read_ipv4_quad Hpre.
  destruct o as [|a [|b [|c [|d []]]]]; try done. clear Hl.
  repeat (apply Forall_cons in Ho as [? Ho]).
  unfold undotted. rewrite (trailing_quad_app _ _ _ Hq Hpre), Hm. cbn [forallb].
  replace (_ && _) with true by lia.
  assert (forall x y, 0 <= x <= 255 -> 0 <= y <= 255 -> Z.lor (Z.shiftl x 8) y = x * 256 + y) as Hor.
  { intros x y Hx Hy. apply Z.eqb_eq. revert y Hy. refine (all_bytes_spec _ _).
    revert x Hx. refine (all_bytes_spec (fun x => all_bytes (fun y => _)) _). vm_compute. reflexivity. }
  rewrite !Hor by done. destruct (octets_value a b c d) as [-> ->]; done.
Qed.

(** ** The expansion is the reading *)

Lemma read_groups_hextets parts ns : read_groups false parts = Some ns -> Forall2 hextet parts ns.
Proof.
  revert ns. induction parts as [|p parts IH]; simpl; intros ns H; [by simplify_eq|].
  destruct (read_hextet p) as [n|] eqn:E; [|done]. apply read_hextet_spec in E.
  apply fmap_Some in H as (ms & Hm & ->). constructor; auto.
Qed.

Definition tail_groups (p : string) (ns : list Z) (gs : list string) : Prop :=
  Forall2 hextet gs ns /\
  (gs = [p] \/ exists o, read_ipv4 p = Some o /\
     gs = [to_hex (ip_value o / 65536); to_hex (ip_value o mod 65536)]).

Lemma read_groups_tail parts ns : parts <> [] -> read_groups true parts = Some ns ->
  exists ps p ms ns' gs, parts = ps ++ [p] /\ ns = ms ++ ns' /\ Forall2 hextet ps ms /\
    tail_groups p ns' gs.
Proof.
  revert ns. induction parts as [|p parts IH]; [done|]. intros ns _. simpl.
  destruct (read_hextet p) as [n|] eqn:E.
  - apply read_hextet_spec in E. intros (ms & Hm & ->)%fmap_Some.
    destruct (decide (parts = [])) as [->|Hne].
    + simpl in Hm. simplify_eq. exists [], p, [], [n], [p]. repeat split; auto.
    + destruct (IH ms Hne Hm) as (ps & q & ms' & ns' & gs & -> & -> & Hps & Ht).
      exists (p :: ps), q, (n :: ms'), ns', gs. repeat split; auto; by apply Ht.
  - destruct parts; [|done]. destruct (read_ipv4 p) as [o|] eqn:Eo; [|done]. intros [= <-].
    exists [], p, [], [ip_value o / 65536; ip_value o mod 65536],
      [to_hex (ip_value o / 65536); to_hex (ip_value o mod 65536)].
    destruct (read_ipv4_quad _ _ Eo) as (_ & _ & _ & Hl & Hb).
    destruct o as [|a [|b [|c [|d []]]]]; try done. repeat (apply Forall_cons in Hb as [? Hb]).
    destruct (octets_value a b c d) as [-> ->]; [done..|].
    split_and!; [done..|]. split; [repeat constructor; apply to_hex_hextet; lia|].
    right. exists [a; b; c; d]. split; [done|].
    by destruct (octets_value a b c d) as [-> ->].
Qed.

Lemma join_snoc c l x y : l <> [] ->
  join (String c "") (l ++ x :: y) = join (String c "") l +:+ String c "" +:+ join (String c "") (x :: y).
Proof.
  induction l as [|z [|w l] IH]; [done..|]. intros _.
  rewrite <-!app_comm_cons, !join_cons, <-!str_app_assoc.
  rewrite app_comm_cons, IH by done. done.
Qed.

Lemma dotless_join gs ns : Forall2 hextet gs ns -> str_forall (not_char ".") (join ":" gs) = true.
Proof. intros (_ & H & _)%hextets_groups. by apply join_free. Qed.

Lemma undotted_free s : str_forall (not_char ".") s = true -> undotted s = s.
Proof. intros H. unfold undotted. by rewrite trailing_quad_none. Qed.

Definition open_prefix (x : string) : Prop := x = "" \/ exists q, x = q +:+ ":".

Lemma read_part_false s ns : read_part false s = Some ns ->
  exists gs, Forall2 hextet gs ns /\ s = join ":" gs.
Proof.
  unfold read_part. case_match eqn:E.
  - apply String.eqb_eq in E as ->. intros [= <-]. by exists [].
  - intros H%read_groups_hextets. exists (split ":" s). split; [done|]. by rewrite (join_split ":").
Qed.

Lemma read_part_true s ns : read_part true s = Some ns ->
  exists gs, Forall2 hextet gs ns /\
    forall x, open_prefix x -> str_forall (not_char ".") x = true -> undotted (x +:+ s) = x +:+ join ":" gs.
Proof.
  unfold read_part. case_match eqn:E.
  - apply String.eqb_eq in E as ->. intros [= <-]. exists []. split; [done|]. intros x _ Hx.
    simpl. rewrite str_app_nil. by apply undotted_free.
  - intros H. apply read_groups_tail in H; [|apply split_ne].
    destruct H as (ps & p & ms & ns' & gs & Hs & -> & Hps & Hg & Ht).
    exists (ps ++ gs). split; [by apply Forall2_app|]. intros x Hx Hd.
    pose proof (join_split ":" s) as Hj. rewrite Hs in Hj. rewrite <-Hj.
    destruct Ht as [->|(o & Ho & ->)].
    + apply undotted_free. rewrite str_forall_app, Hd. simpl.
      apply (dotless_join _ (ms ++ ns')). by apply Forall2_app.
    + destruct (decide (ps = [])) as [->|Hne].
      * change (join ":" ([] ++ [p])) with p. by rewrite (undotted_tail _ _ o).
      * rewrite !(join_snoc ":") by done.
        rewrite !(str_app_assoc x), !(str_app_assoc _ ":").
        rewrite <-(str_app_assoc x (join ":" ps)).
        rewrite (undotted_tail _ _ o) by (try done; right; exists (x +:+ join ":" ps); by rewrite str_app_assoc).
        done.
Qed.

Lemma expandIpv6_exact s ns : read_ipv6 s = Some ns ->
  expandIpv6 s = Some (Some <$> ns) /\ length ns = 8%nat /\ Forall (fun n => 0 <= n <= 65535) ns.
Proof.
  assert (forall gs ns, Forall2 hextet gs ns -> Forall (fun n => 0 <= n <= 65535) ns) as Hr.
  { induction 1 as [|? ? ? ? (_ & _ & _ & ?) _ IH]; by constructor. }
  unfold read_ipv6. pose proof (join_split2 ":" s) as Hj.
  destruct (split2 ":" s) as [|h [|t []]]; try done.
  - change (join _ [h]) with h in Hj. subst h. destruct (read_part true s) as [ms|] eqn:E; [|done].
    case_match eqn:Hl; [|done]. intros [= <-]. apply Nat.eqb_eq in Hl.
    apply read_part_true in E as (gs & Hgs & Hu). pose proof (hextets_groups _ _ Hgs) as (Hc & _ & Hp).
    split; [|by eauto]. unfold expandIpv6.
    specialize (Hu "" (or_introl eq_refl) eq_refl). rewrite !str_nil_app in Hu. rewrite Hu.
    rewrite split2_single by by apply single_join. cbn [head from_option id lookup list_lookup].
    rewrite colon_groups_join by done. cbv zeta.
    rewrite (Forall2_length _ _ _ Hgs), Hl. cbn. by rewrite <-Hp.
  - change (join _ [h; t]) with (h +:+ "::" +:+ t) in Hj. subst s.
    destruct (read_part false h) as [hs|] eqn:Eh; [|done].
    destruct (read_part true t) as [ts|] eqn:Et; [|done].
    case_match eqn:Hl; [|done]. apply Nat.leb_le in Hl. intros [= <-].
    apply read_part_false in Eh as (hg & Hh & ->). apply read_part_true in Et as (tg & Ht & Hu).
    pose proof (hextets_groups _ _ Hh) as (Hhc & _ & Hhp).
    pose proof (hextets_groups _ _ Ht) as (Htc & _ & Htp).
    pose proof (Forall2_length _ _ _ Hh) as Hhl. pose proof (Forall2_length _ _ _ Ht) as Htl.
    split_and!.
    + unfold expandIpv6. rewrite str_app_assoc, Hu; cycle 1.
      { right. exists (join ":" hg +:+ ":"). by rewrite <-str_app_assoc. }
      { by rewrite str_forall_app, (dotless_join _ _ Hh). }
      rewrite <-str_app_assoc. change ("::" +:+ ?x) with (String ":" (String ":" x)).
      rewrite split2_app by (by apply single_join || by apply ends_free_join).
      rewrite split2_single by by apply single_join. cbn [head from_option id lookup list_lookup].
      rewrite !colon_groups_join by done. cbv zeta.
      rewrite !length_app, repeat_length, Hhl, Htl.
      replace (length hs + (8 - length hs - length ts + length ts))%nat with 8%nat by lia.
      cbn [Nat.eqb]. f_equal. rewrite !fmap_app, Hhp, Htp. f_equal. f_equal.
      induction (8 - length hs - length ts)%nat as [|k IH]; [done|]. cbn [repeat].
      rewrite !fmap_cons, IH. done.
    + rewrite !length_app, repeat_length. lia.
    + repeat apply Forall_app_2; [by eauto| |by eauto].
      apply Forall_forall. intros x Hx. apply list_elem_of_In, repeat_spec in Hx. lia.
Qed.

(** ** The 128-bit ranges *)

(** A mask of the bits from [k] on. *)
Lemma land_prefix n k c : 0 <= n <= 65535 -> 0 <= k ->
  (Z.land n (Z.ldiff (Z.ones 16) (Z.ones k)) =? c * 2 ^ k) = (n / 2 ^ k =? c).
Proof.
  intros Hn Hk. rewrite Z.ldiff_land, Z.land_assoc, Z.land_ones, (Z.mod_small n) by lia.
  rewrite <-Z.ldiff_land, Z.ldiff_ones_r, Z.shiftl_mul_pow2, Z.shiftr_div_pow2 by done.
  apply Bool.eq_true_iff_eq. rewrite !Z.eqb_eq. split; [|by intros ->]. apply Z.mul_reg_r. apply Z.pow_nonzero; lia.
Qed.

(** The prefix tests on the first group. *)
Lemma first_group_tests n : 0 <= n <= 65535 ->
  (Z.land n 65472 =? 65152) = (n / 64 =? 65152 / 64) /\
  (Z.land n 65472 =? 65216) = (n / 64 =? 65216 / 64) /\
  (Z.land n 65024 =? 64512) = (n / 512 =? 64512 / 512) /\
  (Z.land n 65280 =? 65280) = (n / 256 =? 65280 / 256).
Proof.
  intros Hn. split_and!;
    [exact (land_prefix n 6 1018 Hn ltac:(done))|exact (land_prefix n 6 1019 Hn ltac:(done))
    |exact (land_prefix n 9 126 Hn ltac:(done))|exact (land_prefix n 8 255 Hn ltac:(done))].
Qed.

Lemma dotted_blocked a b c d :
  0 <= a <= 255 -> 0 <= b <= 255 -> 0 <= c <= 255 -> 0 <= d <= 255 ->
  isBlockedIpv4 (dotted a b c d) = blocked_ab a b.
Proof.
  intros Ha Hb Hc Hd.
  assert (forall n, 0 <= n <= 255 -> parse_int 10 (num_to_string n) = Some n /\
    str_forall (not_char ".") (num_to_string n) = true) as Hn.
  { intros n Hn.
    assert (bool_decide (parse_int 10 (num_to_string n) = Some n) = true) as H1%bool_decide_eq_true.
    { revert n Hn. apply all_bytes_spec. vm_compute. reflexivity. }
    split; [done|]. revert n Hn H1. intros n Hn _. revert n Hn. apply all_bytes_spec. vm_compute. reflexivity. }
  unfold isBlockedIpv4, dotted. rewrite split_join; [|done|by repeat constructor; apply Hn].
  cbn [mapM]. rewrite !(fun n H => proj1 (Hn n H)) by done. cbn.
  by rewrite !(proj2 (Z.ltb_ge _ _)) by lia.
Qed.

Lemma value_split l l' :
  Forall (fun n => 0 <= n <= 65535) l' ->
  value 65536 (l ++ l') / 65536 ^ Z.of_nat (length l') = value 65536 l /\
  value 65536 (l ++ l') mod 65536 ^ Z.of_nat (length l') = value 65536 l'.
Proof.
  intros H. rewrite value_app. apply split_digit. apply value_bound; [lia|].
  eapply Forall_impl; [exact H|]. simpl. lia.
Qed.

Lemma private6_groups g0 g1 g2 g3 g4 g5 g6 g7 :
  Forall (fun n => 0 <= n <= 65535) [g0; g1; g2; g3; g4; g5; g6; g7] ->
  private6 (value 65536 [g0; g1; g2; g3; g4; g5; g6; g7]) =
  if (forallb (fun g => g =? 0) [g0; g1; g2; g3; g4] && ((g5 =? 0) || (g5 =? 65535)))
     || ((g0 =? 100) && (g1 =? 65435))
  then private4 (g6 * 65536 + g7)
  else (g0 / 64 =? 65152 / 64) || (g0 / 64 =? 65216 / 64) || (g0 / 512 =? 64512 / 512) || (g0 / 256 =? 65280 / 256).
Proof.
  intros H. set (n := value 65536 _).
  destruct (value_split [g0; g1; g2; g3; g4; g5] [g6; g7]) as [H6 Hlow]; [exact (Forall_drop _ 6 _ H)|].
  destruct (value_split [g0; g1] [g2; g3; g4; g5; g6; g7]) as [H2 _]; [exact (Forall_drop _ 2 _ H)|].
  destruct (value_split [g0] [g1; g2; g3; g4; g5; g6; g7]) as [H1 _]; [exact (Forall_drop _ 1 _ H)|].
  cbn [app length] in *. fold n in H6, Hlow, H2, H1.
  change (65536 ^ Z.of_nat 2) with (2 ^ 32) in *. change (65536 ^ Z.of_nat 6) with (2 ^ 96) in *.
  change (65536 ^ Z.of_nat 7) with (2 ^ 112) in *.
  repeat (apply Forall_cons in H as [? H]). clear H.
  unfold private6, embeds_v4, in_cidr. rewrite Hlow.
  change (128 - 96) with 32. change (128 - 32) with 96. rewrite H6, H2.
  change (value 65536 [g6; g7]) with ((0 * 65536 + g6) * 65536 + g7).
  rewrite Z.mul_0_l, Z.add_0_l.
  replace (_ || _ || _) with
    ((forallb (fun g => g =? 0) [g0; g1; g2; g3; g4] && ((g5 =? 0) || (g5 =? 65535)))
     || ((g0 =? 100) && (g1 =? 65435))).
  - case_match; [done|]. cbn [existsb]. unfold first_group.
    assert (forall k, 0 < k -> n / (2 ^ 112 * k) = g0 / k) as Hk.
    { intros k Hk. by rewrite <-Z.div_div, H1. }
    change (2 ^ (128 - 10)) with (2 ^ 112 * 64). change (2 ^ (128 - 7)) with (2 ^ 112 * 512).
    change (2 ^ (128 - 8)) with (2 ^ 112 * 256). rewrite !Hk by done.
    rewrite <-!Z.div_div, !Z.div_mul by done. by rewrite orb_false_r, !orb_assoc.
  - clear -H0 H3 H4 H5 H7 H8. cbn [forallb].
    change (0 / 2 ^ 32) with 0. change (65535 * 2 ^ 32 / 2 ^ 32) with 65535.
    change (value 65536 [100; 65435] * 2 ^ 96 / 2 ^ 96) with (100 * 65536 + 65435).
    unfold value. cbn [foldl]. lia.
Qed.

(** ** The classifier *)

Lemma isBlockedIpv6_exact s ns : read_ipv6 s = Some ns -> isBlockedIpv6 s = private6 (value 65536 ns).
Proof.
  intros (He & Hl & Hr)%expandIpv6_exact.
  destruct ns as [|g0 [|g1 [|g2 [|g3 [|g4 [|g5 [|g6 [|g7 []]]]]]]]]; try done. clear Hl.
  rewrite private6_groups by done.
  unfold isBlockedIpv6. rewrite He. cbn [mbind option_bind].
  rewrite (mapM_fmap_Some (id : option Z -> option Z) Some) by done.
  repeat (apply Forall_cons in Hr as [? Hr]).
  replace (existsb _ _) with false by (cbn [existsb]; lia). cbv zeta. cbn [nth forallb].
  case_match eqn:Ev.
  - assert (0 <= g6 / 256 <= 255 /\ 0 <= g6 mod 256 <= 255 /\ 0 <= g7 / 256 <= 255
            /\ 0 <= g7 mod 256 <= 255) as (? & ? & ? & ?)
      by (Z.to_euclidean_division_equations; lia).
    change 255 with (Z.ones 8). rewrite !Z.shiftr_div_pow2, !Z.land_ones by lia. change (2 ^ 8) with 256.
    rewrite dotted_blocked by done.
    rewrite <-(blocked_ab_private (g6 / 256) (g6 mod 256)); [|done..|].
    + case_match eqn:E; [|done]. replace g6 with 0 by lia. done.
    + destruct (split_digit 65536 g6 g7 ltac:(lia)) as [-> _]. Z.to_euclidean_division_equations. lia.
  - destruct (first_group_tests g0) as (-> & -> & -> & ->); [done|].
    replace (forallb (fun x => x =? 0) (take 7 _)) with false by (cbn [take forallb]; lia).
    replace ((g0 =? 0) && _) with false by lia. done.
Qed.

(** ** The claims *)

Lemma cut_strip c s b z : cut c s = Some (b, z) -> cut c b = None.
Proof.
  revert b z. induction s as [|a s IH]; simpl; intros b z; [done|].
  case_match eqn:E; [by intros [= <- <-]|]. destruct (cut c s) as [[b' r]|]; [|done].
  intros [= <- <-]. simpl. by rewrite E, (IH b' r).
Qed.

Lemma strip_zone_cut s : cut "%" (strip_zone s) = None.
Proof. unfold strip_zone. destruct (cut "%" s) as [[b z]|] eqn:E; [by eapply cut_strip|done]. Qed.

Lemma isIP_reading s : cut "%" s = None ->
  (isIP s =? 4) = bool_decide (is_Some (read_ipv4 s)) /\
  ((isIP s =? 6) = true -> is_Some (read_ipv6 s)) /\ (isIP s = 0 -> ip_reading s = None).
Proof.
  intros H. unfold isIP, isIPv6, ip_reading. rewrite H.
  destruct (read_ipv4 s) as [o|] eqn:E4; [done|]. rewrite bool_decide_false by by intros [].
  destruct (read_ipv6 s) as [o|] eqn:E6; [|by rewrite bool_decide_false by by intros []].
  by rewrite bool_decide_true by by eexists.
Qed.

Lemma blocked_reading raw :
  isBlockedIpAddress raw =
  match ip_reading (strip_zone (toLowerCase (trimString raw))) with Some i => private_ip i | None => true end.
Proof.
  unfold isBlockedIpAddress. set (t := toLowerCase (trimString raw)).
  destruct (t =? "")%string eqn:Et; [by apply String.eqb_eq in Et as ->|].
  destruct (isIP_reading (strip_zone t) (strip_zone_cut t)) as (H4 & H6 & H0). rewrite H4.
  case_bool_decide as D4.
  - destruct D4 as [o Ho]. rewrite (isBlockedIpv4_exact _ o) by done. unfold ip_reading. by rewrite Ho.
  - unfold ip_reading in *. destruct (read_ipv4 (strip_zone t)) eqn:E4; [by destruct D4|].
    destruct (isIP (strip_zone t) =? 6) eqn:E.
    + destruct (H6 eq_refl) as [ns Hn]. rewrite (isBlockedIpv6_exact _ ns) by done. by rewrite Hn.
    + rewrite H0; [done|]. revert H4 E. unfold isIP. rewrite E4, bool_decide_false by by intros [].
      by case_match.
Qed.

(** The ranges of IPv6 proper, by the first group. *)
Definition private_group (g : Z) : bool :=
  ((65152 <=? g) && (g <=? 65215)) || ((65216 <=? g) && (g <=? 65279))
  || ((64512 <=? g) && (g <=? 65023)) || ((65280 <=? g) && (g <=? 65535)).

Lemma private6_group n :
  private6 n = if embeds_v4 n then private4 (n mod 2 ^ 32) else private_group (n / 2 ^ 112).
Proof.
  unfold private6. case_match; [done|]. unfold in_cidr, first_group. cbn [existsb].
  change (2 ^ (128 - 10)) with (2 ^ 112 * 64). change (2 ^ (128 - 7)) with (2 ^ 112 * 512).
  change (2 ^ (128 - 8)) with (2 ^ 112 * 256). rewrite <-!Z.div_div, !Z.div_mul by done.
  unfold private_group. set (g := n / 2 ^ 112). Z.to_euclidean_division_equations. lia.
Qed.

(** C19.  The textual classifier is the range check: for every input, the code
    that splits, expands and masks the text blocks exactly what is not an IP
    literal; an IPv4 address in 0/8, 10/8, 100.64/10, 127/8, 169.254/16,
    172.16/12, 192.168/16 or 224/3; an IPv6 address in ::/96, ::ffff:0:0/96 or
    64:ff9b::/32 whose low 32 bits are such an IPv4 address (the last prefix is
    wider than the /96 the comment names); and any other IPv6 address in
    fe80::/10, fec0::/10, fc00::/7 or ff00::/8.  No other embedding is looked
    into: the 6to4 and the IPv4-translated forms of a loopback address pass. *)
Theorem isBlockedIpAddress_exact :
  (forall raw, isBlockedIpAddress raw =
    match ip_reading (strip_zone (toLowerCase (trimString raw))) with
    | None => true
    | Some (V4 n) => private4 n
    | Some (V6 n) => if embeds_v4 n then private4 (n mod 2 ^ 32) else private_group (n / 2 ^ 112)
    end) /\
  isBlockedIpAddress (VStr "64:ff9b:1::7f00:1") = true /\
  isBlockedIpAddress (VStr "2002:7f00:1::1") = false /\
  isBlockedIpAddress (VStr "::ffff:0:127.0.0.1") = false.
Proof.
  split; [|split_and!; vm_compute; reflexivity]. intros raw. rewrite blocked_reading.
  destruct (ip_reading _) as [[n|n]|]; [done|apply private6_group|done].
Qed.

(** A value that denotes a public address. *)
Definition public_address (v : val) : Prop :=
  exists i, ip_reading (strip_zone (toLowerCase (trimString v))) = Some i /\ private_ip i = false.

Lemma not_blocked_public v : isBlockedIpAddress v = false -> public_address v.
Proof. rewrite blocked_reading. unfold public_address. case_match; [eauto|done]. Qed.

Lemma not_blocked_truthy v : isBlockedIpAddress v = false -> truthy v = true.
Proof.
  unfold isBlockedIpAddress. destruct (trimString v =? "")%string eqn:E.
  - apply String.eqb_eq in E. by rewrite E.
  - intros _. apply String.eqb_neq in E. destruct v as [| | | | | |[]| |]; done.
Qed.

(** C20.  No connection is pinned to an internal host: when resolution succeeds,
    every address it returns denotes a public IP address; it returns none only
    for a host that is itself a public literal, or when the lookup failed or
    answered nothing, and with [allowUnresolved] off a failed lookup is an error. *)
Theorem pinned_addresses_public : forall allowUnresolved hostname lookup l,
  resolvePinnedAddresses allowUnresolved hostname lookup = inr l ->
  Forall (fun a => public_address (get a "address")) l /\
  exists literalHost,
    (isIP literalHost <> 0 /\ public_address (VStr literalHost) /\ l = []) \/
    (isIP literalHost = 0 /\
     match lookup literalHost with
     | DnsFailed => allowUnresolved = true /\ l = []
     | DnsNoList => l = []
     | DnsRecords records =>
         Forall (fun r => public_address (get r "address")) records /\ length l = length records
     end).
Proof.
  intros allow hostname lookup l. unfold resolvePinnedAddresses.
  set (lit := if _ && _ then _ else _). case_match; [done|].
  case_match eqn:Hip.
  - destruct (isBlockedIpAddress _) eqn:Hb; [done|]. intros [= <-]. split; [done|]. exists lit. left.
    split_and!; [lia|by apply not_blocked_public|done].
  - intros H1. assert (isIP lit = 0) as H0 by lia.
    destruct (lookup lit) as [| |records] eqn:El.
    + destruct allow; [|done]. injection H1 as <-. split; [done|]. exists lit. right. by rewrite El.
    + injection H1 as <-. split; [done|]. exists lit. right. by rewrite El.
    + destruct (existsb _ _) eqn:Ee; [done|]. injection H1 as <-.
      assert (Forall (fun r => public_address (get r "address") /\ truthy (get r "address") = true) records) as Hall.
      { apply Forall_forall. intros r Hr.
        assert (isBlockedIpAddress (get r "address") = false) as Hb.
        { apply not_true_iff_false. intros Hb. apply not_true_iff_false in Ee. apply Ee.
          apply existsb_exists. exists r. by rewrite <-list_elem_of_In. }
        split; [by apply not_blocked_public|by apply not_blocked_truthy]. }
      clear Ee. assert (filter (fun r => truthy (get r "address") = true) records = records) as Hf.
      { clear -Hall. induction Hall as [|r records [_ Hr] _ IH]; [done|]. by rewrite filter_cons_True, IH. }
      rewrite Hf. split.
      * apply Forall_fmap. eapply Forall_impl; [exact Hall|]. by intros r [Hr _].
      * exists lit. right. rewrite El, length_fmap. split; [done|]. split; [|done].
        eapply Forall_impl; [exact Hall|]. by intros r [Hr _].
Qed.

(** A host name that resolves to two public addresses. *)
Definition sample_lookup (_ : string) : dns_reply :=
  DnsRecords [VObj [("address", VStr "93.184.216.34"); ("family", VNum 4)];
              VObj [("address", VStr "2606:2800:220:1:248:1893:25c8:1946"); ("family", VNum 6)]].

Lemma pinned_addresses_public_witness :
  resolvePinnedAddresses false (VStr "Example.com ") sample_lookup
  = inr [VObj [("address", VStr "93.184.216.34"); ("family", VNum 4)];
         VObj [("address", VStr "2606:2800:220:1:248:1893:25c8:1946"); ("family", VNum 6)]] /\
  Forall (fun a => public_address (get a "address"))
    [VObj [("address", VStr "93.184.216.34"); ("family", VNum 4)];
     VObj [("address", VStr "2606:2800:220:1:248:1893:25c8:1946"); ("family", VNum 6)]].
Proof.
  split; [reflexivity|].
  apply (pinned_addresses_public false (VStr "Example.com ") sample_lookup). reflexivity.
Defined.

(** 6to4 and the IPv4-translated form tunnel to an internal host and are not in
    the classifier's ranges. *)
Lemma tunnelled_forms_pass :
  isBlockedIpAddress (VStr "2002:7f00:1::1") = false /\
  isBlockedIpAddress (VStr "::ffff:0:127.0.0.1") = false.
Proof. split; vm_compute; reflexivity. Qed.
