(* ===== verification/Breaker.v ===== *)
(** * The provider circuit breaker ([platform/circuit-breaker.js] of the nitro worker)

    The breaker object as a record and its methods as functions of the clock.
    The theorems are about sequences of calls: what an open breaker refuses,
    how many probes a half-open one admits, and how it closes again. *)
From S2P Require Import Prelude Numbers.
#[local] Open Scope list_scope.
#[local] Open Scope Z_scope.

Inductive bstate := Closed | Open | HalfOpen.
#[global] Instance bstate_eq_dec : EqDecision bstate.
Proof. solve_decision. Defined.

Record breaker := Breaker {
  cb_failureThreshold : Z;
  cb_resetTimeoutMs : Z;
  cb_halfOpenMax : Z;
  cb_failures : Z;
  cb_successes : Z;
  cb_state : bstate;
  cb_lastFailureAt : Z;
  cb_halfOpenQuota : Z;
}.

(** The constructor, and how [getOrCreateBreaker] of [oracle/providers.js] calls
    it: a setting that is absent, zero or not a number takes the default. *)
Definition new_breaker (failureThreshold resetTimeoutMs halfOpenMax : Z) : breaker :=
  Breaker failureThreshold resetTimeoutMs halfOpenMax 0 0 Closed 0 0.

Definition number_or (n : jsnum) (d : Z) : Z := match n with Fin z => z ||n d | _ => d end.

Definition createBreaker (threshold timeout : jsnum) : breaker :=
  new_breaker (number_or threshold 3) (number_or timeout 60000) 1.

Definition recordSuccess (b : breaker) : breaker :=
  let half := bool_decide (cb_state b = HalfOpen) in
  Breaker (cb_failureThreshold b) (cb_resetTimeoutMs b) (cb_halfOpenMax b)
    0 (cb_successes b + 1) (if half then Closed else cb_state b) (cb_lastFailureAt b)
    (if half then 0 else cb_halfOpenQuota b).

Definition recordFailure (now : Z) (b : breaker) : breaker :=
  let failures := cb_failures b + 1 in
  let half := bool_decide (cb_state b = HalfOpen) in
  Breaker (cb_failureThreshold b) (cb_resetTimeoutMs b) (cb_halfOpenMax b)
    failures 0
    (if half then Open else if cb_failureThreshold b <=? failures then Open else cb_state b)
    now (if half then 0 else cb_halfOpenQuota b).

Definition isOpen (now : Z) (b : breaker) : bool * breaker :=
  match cb_state b with
  | Closed => (false, b)
  | Open =>
      if cb_resetTimeoutMs b <=? now - cb_lastFailureAt b then
        (false, Breaker (cb_failureThreshold b) (cb_resetTimeoutMs b) (cb_halfOpenMax b)
                  (cb_failures b) (cb_successes b) HalfOpen (cb_lastFailureAt b) (cb_halfOpenMax b))
      else (true, b)
  | HalfOpen => (cb_halfOpenQuota b <=? 0, b)
  end.

Definition allow (now : Z) (b : breaker) : bool * breaker :=
  let '(opened, b1) := isOpen now b in
  if opened then (false, b1)
  else if bool_decide (cb_state b1 = HalfOpen) && (0 <? cb_halfOpenQuota b1) then
    (true, Breaker (cb_failureThreshold b1) (cb_resetTimeoutMs b1) (cb_halfOpenMax b1)
             (cb_failures b1) (cb_successes b1) (cb_state b1) (cb_lastFailureAt b1)
             (cb_halfOpenQuota b1 - 1))
  else (true, b1).

(** ** Sequences of calls *)

Inductive bop := Allow | IsOpen | Success | Failure.
#[global] Instance bop_eq_dec : EqDecision bop.
Proof. solve_decision. Defined.

Definition bstep (o : bop * Z) (b : breaker) : bool * breaker :=
  match o with
  | (Allow, now) => allow now b
  | (IsOpen, now) => (false, (isOpen now b).2)
  | (Success, _) => (false, recordSuccess b)
  | (Failure, now) => (false, recordFailure now b)
  end.

(** The breaker after a sequence, and how many calls it admitted. *)
Fixpoint brun (ops : list (bop * Z)) (b : breaker) : Z * breaker :=
  match ops with
  | [] => (0, b)
  | o :: ops =>
      let '(granted, b1) := bstep o b in
      let '(n, b2) := brun ops b1 in
      ((if granted : bool then 1 else 0) + n, b2)
  end.

(** ** Lemmas *)

Lemma brun_app ops ops' b :
  brun (ops ++ ops') b
  = let '(n, b1) := brun ops b in let '(n', b2) := brun ops' b1 in (n + n', b2).
Proof.
  revert b. induction ops as [|o ops IH]; intros b; simpl.
  - by destruct (brun ops' b).
  - destruct (bstep o b) as [g b1]. rewrite IH. destruct (brun ops b1) as [n b2].
    destruct (brun ops' b2). f_equal. lia.
Qed.

(** Consecutive failures open the breaker. *)
Lemma failures_open times b :
  cb_state b = Closed -> times <> [] ->
  cb_failureThreshold b <= cb_failures b + Z.of_nat (length times) ->
  let b' := (brun ((fun t => (Failure, t)) <$> times) b).2 in
  cb_state b' = Open /\ cb_lastFailureAt b' = List.last times 0 /\
  cb_resetTimeoutMs b' = cb_resetTimeoutMs b /\ cb_halfOpenMax b' = cb_halfOpenMax b.
Proof.
  intros Hc Hne Hn. destruct (exists_last Hne) as (ts & t & ->). clear Hne.
  rewrite last_last. rewrite fmap_app, brun_app, length_app in *. simpl length in Hn.
  assert (forall ts b, cb_state b <> HalfOpen ->
    let b' := (brun ((fun t => (Failure, t)) <$> ts) b).2 in
    cb_state b' <> HalfOpen /\ cb_failures b' = cb_failures b + Z.of_nat (length ts) /\
    cb_failureThreshold b' = cb_failureThreshold b /\ cb_resetTimeoutMs b' = cb_resetTimeoutMs b /\
    cb_halfOpenMax b' = cb_halfOpenMax b) as Hrun.
  { clear. induction ts as [|t ts IH]; intros b Hb; [simpl; repeat split; (done || lia)|].
    specialize (IH (recordFailure t b)). rewrite fmap_cons. cbn [brun bstep].
    destruct (brun _ (recordFailure t b)) as [n b'] eqn:E. cbn [snd] in *.
    destruct IH as (H1 & H2 & H3 & H4 & H5).
    { simpl. rewrite bool_decide_false by done. by case_match. }
    simpl in *. repeat split; try done. lia. }
  destruct (Hrun ts b) as (H1 & H2 & H3 & H4 & H5); [by rewrite Hc|].
  destruct (brun _ b) as [n b1]. cbn [snd] in *. simpl.
  rewrite bool_decide_false by done. rewrite (proj2 (Z.leb_le _ _)) by lia. done.
Qed.

(** Inside the window nothing is admitted and nothing closes the breaker. *)
Lemma window_holds ops b t0 :
  cb_state b = Open -> cb_lastFailureAt b + cb_resetTimeoutMs b = t0 ->
  Forall (fun o => cb_lastFailureAt b <= o.2 < t0) ops ->
  let '(n, b') := brun ops b in
  n = 0 /\ cb_state b' = Open /\ t0 <= cb_lastFailureAt b' + cb_resetTimeoutMs b' /\
  cb_resetTimeoutMs b' = cb_resetTimeoutMs b /\ cb_halfOpenMax b' = cb_halfOpenMax b /\
  (Forall (fun o => o.1 <> Failure) ops -> cb_lastFailureAt b' = cb_lastFailureAt b).
Proof.
  intros Ho Ht Hf.
  assert (forall b1, cb_state b1 = Open -> cb_lastFailureAt b <= cb_lastFailureAt b1 ->
    cb_resetTimeoutMs b1 = cb_resetTimeoutMs b ->
    let '(n, b') := brun ops b1 in
    n = 0 /\ cb_state b' = Open /\ t0 <= cb_lastFailureAt b' + cb_resetTimeoutMs b' /\
    cb_resetTimeoutMs b' = cb_resetTimeoutMs b /\ cb_halfOpenMax b' = cb_halfOpenMax b1 /\
    (Forall (fun o => o.1 <> Failure) ops -> cb_lastFailureAt b' = cb_lastFailureAt b1)) as H.
  { clear Ho. induction Hf as [|[o t] ops [Hlo Hhi] _ IH]; intros b1 Ho Hl Hr.
    - simpl. repeat split; (done || lia).
    - assert (isOpen t b1 = (true, b1)) as Hi.
      { unfold isOpen. rewrite Ho, (proj2 (Z.leb_gt _ _)); [done|]. simpl in *. lia. }
      cbn [brun]. destruct o; cbn [bstep].
      + unfold allow. rewrite Hi. specialize (IH b1 Ho Hl Hr). destruct (brun ops b1).
        rewrite Forall_cons. naive_solver lia.
      + rewrite Hi. cbn [snd]. specialize (IH b1 Ho Hl Hr). destruct (brun ops b1).
        rewrite Forall_cons. naive_solver lia.
      + specialize (IH (recordSuccess b1)). simpl in IH.
        rewrite bool_decide_false in IH by by rewrite Ho. specialize (IH Ho Hl Hr).
        destruct (brun ops (recordSuccess b1)). rewrite Forall_cons. naive_solver lia.
      + specialize (IH (recordFailure t b1)). simpl in IH.
        rewrite bool_decide_false in IH by by rewrite Ho.
        assert ((if cb_failureThreshold b1 <=? cb_failures b1 + 1 then Open else cb_state b1) = Open) as Hs
          by by case_match.
        specialize (IH Hs Hlo Hr). destruct (brun ops (recordFailure t b1)).
        rewrite Forall_cons. naive_solver lia. }
  by apply H.
Qed.

Definition probe (o : bop * Z) : Prop := o.1 = Allow \/ o.1 = IsOpen.
Definition allows (ops : list (bop * Z)) : Z := Z.of_nat (length (filter (fun o => o.1 = Allow) ops)).

Lemma allows_cons o ops :
  allows (o :: ops) = (if bool_decide (o.1 = Allow) then 1 else 0) + allows ops.
Proof.
  unfold allows. rewrite filter_cons. case_decide; [rewrite bool_decide_true|rewrite bool_decide_false]; simpl length; (done || lia).
Qed.

(** A half-open breaker admits what its quota allows, at any time. *)
Lemma half_open_quota ops b :
  cb_state b = HalfOpen -> 0 <= cb_halfOpenQuota b -> Forall probe ops ->
  let '(n, b') := brun ops b in n = Z.min (allows ops) (cb_halfOpenQuota b) /\
  cb_state b' = HalfOpen /\ cb_resetTimeoutMs b' = cb_resetTimeoutMs b.
Proof.
  intros Hs Hq Hp. revert b Hs Hq. induction Hp as [|[o t] ops Ho _ IH]; intros b Hs Hq.
  - simpl. unfold allows. simpl. repeat split; (done || lia).
  - assert (0 <= allows ops) by (unfold allows; lia). rewrite allows_cons. cbn [brun fst]. destruct Ho as [Ho|Ho]; simpl in Ho; subst o; cbn [bstep].
    + rewrite bool_decide_true by done. unfold allow, isOpen. rewrite Hs.
      destruct (cb_halfOpenQuota b <=? 0) eqn:E.
      * specialize (IH b Hs Hq). destruct (brun ops b). intuition lia.
      * rewrite bool_decide_true, (proj2 (Z.ltb_lt _ _)) by (done || lia). cbn [andb].
        match goal with |- context [ brun ops ?b1 ] => specialize (IH b1 Hs); destruct (brun ops b1) end.
        cbn [cb_halfOpenQuota] in IH.
        destruct IH as (-> & ? & ?); [lia|]. repeat split; (done || lia).
    + rewrite bool_decide_false by done. unfold isOpen. rewrite Hs. cbn [snd].
      specialize (IH b Hs Hq). destruct (brun ops b). intuition lia.
Qed.

(** The first call after the window makes the breaker half-open. *)
Lemma window_elapsed ops b :
  cb_state b = Open -> 0 < cb_halfOpenMax b -> Forall probe ops -> ops <> [] ->
  Forall (fun o => cb_lastFailureAt b + cb_resetTimeoutMs b <= o.2) ops ->
  let '(n, b') := brun ops b in n = Z.min (allows ops) (cb_halfOpenMax b) /\
  cb_state b' = HalfOpen /\ cb_resetTimeoutMs b' = cb_resetTimeoutMs b.
Proof.
  intros Hs Hm Hp Hne Ht.
  set (h := Breaker (cb_failureThreshold b) (cb_resetTimeoutMs b) (cb_halfOpenMax b)
              (cb_failures b) (cb_successes b) HalfOpen (cb_lastFailureAt b) (cb_halfOpenMax b)).
  assert (brun ops b = brun ops h) as ->.
  { destruct ops as [|[o t] ops]; [done|]. apply Forall_cons in Hp as [Hp _], Ht as [Ht _]. simpl in Ht.
    assert (isOpen t b = (false, h)) as Hi.
    { unfold isOpen. rewrite Hs, (proj2 (Z.leb_le _ _)) by lia. done. }
    cbn [brun]. destruct Hp as [Hp|Hp]; simpl in Hp; subst o; cbn [bstep]; unfold allow; rewrite Hi; [|done].
    unfold isOpen at 1. cbn. rewrite (proj2 (Z.leb_gt _ _)) by lia. done. }
  apply (half_open_quota ops h); [done|simpl; lia|done].
Qed.

(** The life of a breaker.  After at least [failureThreshold] consecutive
    failures, the last at time [t], every call before [t + resetTimeoutMs] is
    refused, whatever successes of earlier requests are still reported; from
    then on the provider is probed by at most [halfOpenMax] calls until an
    outcome is reported; a success closes the breaker with a clean record and a
    failure opens it for another full window. *)
Theorem breaker_cycle : forall b ts quiet probes t',
  cb_state b = Closed -> ts <> [] -> cb_failureThreshold b <= Z.of_nat (length ts) ->
  cb_failures b = 0 -> 0 < cb_halfOpenMax b ->
  let t := List.last ts 0 in
  let fails := (fun t => (Failure, t)) <$> ts in
  Forall (fun o => o.1 <> Failure /\ t <= o.2 < t + cb_resetTimeoutMs b) quiet ->
  Forall (fun o => probe o /\ t + cb_resetTimeoutMs b <= o.2) probes -> probes <> [] ->
  let b1 := (brun fails b).2 in
  let '(n2, b2) := brun quiet b1 in
  let '(n3, b3) := brun probes b2 in
  cb_state b1 = Open /\ n2 = 0 /\ cb_state b2 = Open /\
  n3 = Z.min (allows probes) (cb_halfOpenMax b) /\
  cb_state (recordSuccess b3) = Closed /\ cb_failures (recordSuccess b3) = 0 /\
  cb_state (recordFailure t' b3) = Open /\
  (forall t'', (allow t'' (recordFailure t' b3)).1 = true -> t' + cb_resetTimeoutMs b <= t'').
Proof.
  intros b ts quiet probes t' Hc Hne Hn Hf Hm t fails Hq Hp Hpne b1.
  destruct (failures_open ts b Hc Hne) as (H1 & H2 & H3 & H4); [lia|]. fold fails b1 in H1, H2, H3, H4.
  fold t in H2.
  assert (Forall (fun o => o.1 <> Failure) quiet) as Hnf by (eapply Forall_impl; [exact Hq|naive_solver]).
  pose proof (window_holds quiet b1 _ H1 eq_refl) as Hw. rewrite H2, H3 in Hw.
  destruct (brun quiet b1) as [n2 b2].
  destruct Hw as (-> & Ho2 & _ & Hr2 & Hm2 & Hl2); [eapply Forall_impl; [exact Hq|naive_solver]|].
  specialize (Hl2 Hnf).
  pose proof (window_elapsed probes b2 Ho2) as Hh. rewrite Hm2, Hl2, Hr2, H4 in Hh.
  destruct (brun probes b2) as [n3 b3].
  destruct Hh as (-> & Hs3 & Hr3); [done|eapply Forall_impl; [exact Hp|naive_solver]|done
                                    |eapply Forall_impl; [exact Hp|naive_solver]|].
  split_and!; try done.
  - simpl. by rewrite bool_decide_true.
  - simpl. by rewrite bool_decide_true.
  - intros t''. unfold allow, isOpen. simpl. rewrite bool_decide_true by done.
    destruct (_ <=? _) eqn:E; [|done]. intros _. rewrite Hr3 in E. lia.
Qed.

Definition sample_breaker : breaker := createBreaker NaN NaN.

Lemma breaker_cycle_witness :
  (brun ((fun t => (Failure, t)) <$> [0; 10; 20]) sample_breaker).2
    = Breaker 3 60000 1 3 0 Open 20 0 /\
  cb_state (brun ((fun t => (Failure, t)) <$> [0; 10; 20]) sample_breaker).2 = Open.
Proof.
  split; [reflexivity|].
  apply (breaker_cycle sample_breaker [0; 10; 20] [(Allow, 30); (Success, 40)]
    [(Allow, 60020); (Allow, 60021)] 70000); try reflexivity; try discriminate;
    repeat constructor; simpl; (discriminate || lia || by left).
Defined.

(** A half-open breaker whose probe ends without an outcome never recovers. *)
Lemma lost_probe_locks_out ops b :
  cb_state b = HalfOpen -> cb_halfOpenQuota b = 0 -> Forall probe ops -> (brun ops b).1 = 0.
Proof.
  intros Hs Hq Hp. pose proof (half_open_quota ops b Hs ltac:(lia) Hp) as H.
  destruct (brun ops b). cbn [fst]. destruct H as (-> & _). rewrite Hq. unfold allows. lia.
Qed.
