(* ===== verification/Capabilities.v ===== *)
(** * Capability routing and in-flight limits of the nitro worker

    The path and action table of [capabilities.js] and the per-route admission
    of [platform/overload-guard.js].  The handlers are not part of the table
    here: an entry is its id, its path tests and its actions. *)
From S2P Require Import Prelude Numbers Strings Values Text.
#[local] Open Scope list_scope.
#[local] Open Scope Z_scope.

(** ** Routing *)

(** [{ match }] is a path suffix, [{ pattern: /prefix.+/ }] a text followed by at
    least one character, anywhere in the path. *)
Inductive path_test := Match (suffix : string) | Pattern (infix : string).

Record capability := Capability {
  cap_id : string;
  cap_path : path_test;
  cap_actions : list string;
}.

(** [/infix.+/.test(path)]: a line terminator does not match [.]. *)
Definition line_end (a : ascii) : bool := (code a =? 10) || (code a =? 13).

Fixpoint pattern_test (infix path : string) : bool :=
  match path with
  | "" => false
  | String _ rest =>
      (startsWith path infix
       && match String.substring (String.length infix) 1 path with
          | String a _ => negb (line_end a) | "" => false end)
      || pattern_test infix rest
  end.

Definition path_matches (path : string) (t : path_test) : bool :=
  match t with Match suffix => endsWith path suffix | Pattern infix => pattern_test infix path end.

Definition CAPABILITIES : list capability :=
  [Capability "keys_derived" (Match "/keys/derived") [];
   Capability "neodid_providers" (Match "/neodid/providers") [];
   Capability "neodid_runtime" (Match "/neodid/runtime") [];
   Capability "neodid_bind" (Match "/neodid/bind") [];
   Capability "neodid_action_ticket" (Match "/neodid/action-ticket") [];
   Capability "neodid_recovery_ticket" (Match "/neodid/recovery-ticket") [];
   Capability "neodid_zklogin_ticket" (Match "/neodid/zklogin-ticket") [];
   Capability "providers" (Match "/providers") [];
   Capability "oracle_public_key" (Match "/oracle/public-key") [];
   Capability "oracle_decrypt" (Match "/oracle/decrypt") ["decrypt"];
   Capability "oracle_message_reveal" (Match "/oracle/message-reveal") ["message_reveal"];
   Capability "oracle_heartbeat" (Match "/oracle/heartbeat") [];
   Capability "oracle_query" (Match "/oracle/query") [];
   Capability "oracle_smart_fetch" (Match "/oracle/smart-fetch") [];
   Capability "feeds_catalog" (Match "/feeds/catalog") [];
   Capability "feeds_price_symbol" (Pattern "/feeds/price/") [];
   Capability "feeds_price" (Match "/feeds/price") [];
   Capability "vrf_random" (Match "/vrf/random") [];
   Capability "oracle_feed" (Match "/oracle/feed") ["oracle_feed"];
   Capability "txproxy_invoke" (Match "/txproxy/invoke") [];
   Capability "sign_payload" (Match "/sign/payload") ["sign_payload"];
   Capability "relay_transaction" (Match "/relay/transaction") ["relay_transaction"];
   Capability "paymaster_authorize" (Match "/paymaster/authorize") [];
   Capability "compute_functions" (Match "/compute/functions") [];
   Capability "compute_execute" (Match "/compute/execute") [];
   Capability "compute_jobs_id" (Pattern "/compute/jobs/") [];
   Capability "compute_jobs" (Match "/compute/jobs") []].

Inductive matched_by := ByPath | ByAction.

(** [cap.actions.includes(payload.action)]: strict equality. *)
Definition has_action (action : val) (c : capability) : bool :=
  existsb (fun a => bool_decide (action = VStr a)) (cap_actions c).

Definition resolveCapability (path : string) (payload : val) : option (capability * matched_by) :=
  match find (fun c => path_matches path (cap_path c)) CAPABILITIES with
  | Some c => Some (c, ByPath)
  | None =>
      let action := get payload "action" in
      if truthy action then (fun c => (c, ByAction)) <$> find (has_action action) CAPABILITIES
      else None
  end.

Definition resolveRouteName (path : string) (payload : val) : string :=
  match resolveCapability path payload with Some (c, _) => cap_id c | None => "" end.

(** ** Limits *)

Definition defaultLimit (routeName : string) : Z :=
  default 0 (snd <$> find (fun kv => (kv.1 =? routeName)%string)
    [("compute_execute", 4); ("vrf_random", 4); ("relay_transaction", 6); ("paymaster_authorize", 8);
     ("neodid_recovery_ticket", 4); ("neodid_bind", 6); ("neodid_action_ticket", 6);
     ("neodid_zklogin_ticket", 6); ("oracle_feed", 0); ("oracle_smart_fetch", 12);
     ("oracle_query", 16); ("txproxy_invoke", 12)]).

(** [env_max]: the variable [MORPHEUS_MAX_INFLIGHT_<ROUTE>], empty when unset. *)
Definition resolveLimit (env_max : string -> string) (routeName : string) : Z :=
  if (routeName =? "")%string then 0
  else
    let e := env_max routeName in
    match (if (e =? "")%string then Fin (defaultLimit routeName) else js_Number e) with
    | Fin explicit => Z.max explicit 0
    | _ => 0
    end.

(** ** Admission

    The module's [inFlightByRoute] map, and one cell per closure [release] that
    an admission returned: the route it releases and its [released] flag. *)
Record overload := Overload {
  ov_inFlight : gmap string Z;
  ov_slots : list (string * bool);
}.

Definition no_load : overload := Overload ∅ [].

Definition currentInFlight (routeName : string) (o : overload) : Z :=
  default 0 (ov_inFlight o !! routeName).

Definition setInFlight (routeName : string) (value : Z) (o : overload) : overload :=
  Overload (if value <=? 0 then delete routeName (ov_inFlight o)
            else <[routeName := value]> (ov_inFlight o)) (ov_slots o).

(** A refusal, an admission that counts nothing, or an admission with the index
    of its [release] closure. *)
Inductive admission :=
| Overloaded (routeName : string) (limit inFlight : Z)
| Unlimited (routeName : string) (limit inFlight : Z)
| Admitted_slot (routeName : string) (limit inFlight : Z) (slot : nat).

Definition acquireOverloadSlot (env_max : string -> string) (pathname : string) (payload : val)
    (o : overload) : admission * overload :=
  let routeName := resolveRouteName (trim pathname) payload in
  let limit := resolveLimit env_max routeName in
  let inFlight := currentInFlight routeName o in
  if (routeName =? "")%string || (limit <=? 0) then (Unlimited routeName limit inFlight, o)
  else if limit <=? inFlight then (Overloaded routeName limit inFlight, o)
  else
    let o1 := setInFlight routeName (inFlight + 1) o in
    (Admitted_slot routeName limit (inFlight + 1) (length (ov_slots o)),
     Overload (ov_inFlight o1) (ov_slots o ++ [(routeName, false)])).

Definition release (slot : nat) (o : overload) : overload :=
  match ov_slots o !! slot with
  | Some (routeName, false) =>
      let o1 := Overload (ov_inFlight o) (<[slot := (routeName, true)]> (ov_slots o)) in
      setInFlight routeName (currentInFlight routeName o1 - 1) o1
  | _ => o
  end.

(** Any interleaving of admissions and releases (also repeated ones). *)
Inductive load_step (env_max : string -> string) : overload -> overload -> Prop :=
| Acquire pathname payload o :
    load_step env_max o (acquireOverloadSlot env_max pathname payload o).2
| Release slot o : load_step env_max o (release slot o).

(** ** Lemmas *)

(** The unreleased slots of a route. *)
Definition held (routeName : string) (o : overload) : Z :=
  Z.of_nat (length (filter (fun s => s = (routeName, false)) (ov_slots o))).

Record load_ok (env_max : string -> string) (o : overload) : Prop := {
  lo_count r : currentInFlight r o = held r o;
  lo_limit r : held r o <= resolveLimit env_max r;
  lo_positive r n : ov_inFlight o !! r = Some n -> 0 < n;
}.

Lemma held_app r o l m :
  held r (Overload m (ov_slots o ++ l)) = held r o + Z.of_nat (length (filter (fun s => s = (r, false)) l)).
Proof. unfold held. simpl. rewrite filter_app, length_app. lia. Qed.

Lemma held_release (r r' : string) slot (l : list (string * bool)) :
  l !! slot = Some (r', false) ->
  Z.of_nat (length (filter (fun s => s = (r, false)) (<[slot := (r', true)]> l)))
  = Z.of_nat (length (filter (fun s => s = (r, false)) l)) - (if decide (r = r') then 1 else 0).
Proof.
  intros Hs. rewrite <-(take_drop_middle l slot (r', false)) at 2 by done.
  rewrite insert_take_drop by by eapply lookup_lt_Some.
  rewrite !filter_app, !filter_cons, !length_app, decide_False by by intros [=].
  destruct (decide (r = r')) as [->|].
  - rewrite decide_True by done. simpl. lia.
  - rewrite decide_False by by intros [=]. lia.
Qed.

Lemma current_set r r' v o :
  currentInFlight r (setInFlight r' v o) = if decide (r = r') then Z.max v 0 else currentInFlight r o.
Proof.
  unfold currentInFlight, setInFlight. simpl. case_match; case_decide; subst;
    rewrite ?lookup_delete_eq, ?lookup_insert_eq, ?lookup_delete_ne, ?lookup_insert_ne by done; simpl; (done || lia).
Qed.

Lemma set_positive r v o :
  (forall r n, ov_inFlight o !! r = Some n -> 0 < n) ->
  forall r' n, ov_inFlight (setInFlight r v o) !! r' = Some n -> 0 < n.
Proof.
  intros Ho r' n. unfold setInFlight. simpl. case_match.
  - intros [_ Hn]%lookup_delete_Some. eauto.
  - intros [[<- <-]|[_ Hn]]%lookup_insert_Some; [lia|eauto].
Qed.

Lemma load_ok_step env_max o o' : load_step env_max o o' -> load_ok env_max o -> load_ok env_max o'.
Proof.
  intros [pathname payload o1|slot o1] Ho.
  - unfold acquireOverloadSlot. set (r := resolveRouteName _ _).
    case_match; [done|]. case_match; [done|]. cbn [snd]. destruct Ho as [Hc Hl Hp]. split.
    + intros r'. rewrite held_app. simpl ov_slots. simpl ov_inFlight.
      transitivity (currentInFlight r' (setInFlight r (currentInFlight r o1 + 1) o1)); [done|].
      rewrite current_set, !Hc, filter_cons. case_decide; subst.
      * rewrite decide_True by done. simpl. unfold held. lia.
      * rewrite decide_False by by intros [=]. simpl. lia.
    + intros r'. rewrite held_app, filter_cons. case_decide as Hd; simpl.
      * injection Hd as ->. rewrite Hc in *. lia.
      * specialize (Hl r'). lia.
    + apply set_positive. exact Hp.
  - unfold release. destruct (ov_slots o1 !! slot) as [[r []]|] eqn:Es; [done| |done].
    destruct Ho as [Hc Hl Hp].
    assert (forall r', held r' (Overload (ov_inFlight o1) (<[slot := (r, true)]> (ov_slots o1)))
                  = held r' o1 - (if decide (r' = r) then 1 else 0)) as Hh.
    { intros r'. by apply held_release. }
    set (o2 := Overload _ _) in *.
    assert (forall r', held r' (setInFlight r (currentInFlight r o2 - 1) o2) = held r' o2) as Hset by done.
    assert (currentInFlight r o2 = held r o1) as Hcur by apply Hc.
    split.
    + intros r'. rewrite Hset, current_set, Hcur, Hh. case_decide; subst.
      * specialize (Hh r). rewrite decide_True in Hh by done. unfold held in *. lia.
      * transitivity (currentInFlight r' o1); [done|]. rewrite Hc. lia.
    + intros r'. rewrite Hset, Hh. specialize (Hl r'). case_decide; lia.
    + by apply set_positive.
Qed.

Lemma load_ok_init env_max : load_ok env_max no_load.
Proof.
  split.
  - done.
  - intros r. unfold held. simpl. unfold resolveLimit. repeat case_match; lia.
  - intros r n. simpl. by rewrite lookup_empty.
Qed.

(** The overload guard is exact.  In every state that any interleaving of
    admissions and (possibly repeated) releases reaches, the counter of a route
    is the number of its admissions not yet released, that number never exceeds
    the route's limit, a request under the limit is admitted, and when
    everything is released the map is empty: no slot leaks and none is freed
    twice. *)
Theorem overload_guard_exact : forall env_max o,
  rtc (load_step env_max) no_load o ->
  (forall r, currentInFlight r o = held r o /\ held r o <= resolveLimit env_max r) /\
  (forall pathname payload,
     let r := resolveRouteName (trim pathname) payload in
     match (acquireOverloadSlot env_max pathname payload o).1 with
     | Overloaded r' limit n => r' = r /\ limit = resolveLimit env_max r /\ n = limit /\ 0 < limit
     | Unlimited r' _ _ => r' = r /\ (r = "" \/ resolveLimit env_max r = 0)
     | Admitted_slot r' limit n slot => r' = r /\ held r o < limit /\ slot = length (ov_slots o)
     end) /\
  (Forall (fun s => s.2 = true) (ov_slots o) -> ov_inFlight o = ∅).
Proof.
  intros env_max o Hr.
  assert (load_ok env_max o) as [Hc Hl Hp].
  { revert Hr. generalize (load_ok_init env_max). generalize no_load. intros o0 H0 Hr.
    induction Hr as [|? ? ? Hs _ IH]; [done|]. apply IH. by eapply load_ok_step. }
  split_and!.
  - auto.
  - intros pathname payload. unfold acquireOverloadSlot. set (r := resolveRouteName _ _). cbv zeta.
    assert (0 <= resolveLimit env_max r) by (unfold resolveLimit; repeat case_match; lia).
    destruct ((r =? "")%string || (resolveLimit env_max r <=? 0)) eqn:E1; cbn [fst].
    + split; [done|]. apply orb_true_iff in E1 as [E1%String.eqb_eq|E1]; [auto|right; lia].
    + apply orb_false_iff in E1 as [_ E1]. destruct (resolveLimit env_max r <=? currentInFlight r o) eqn:E2; cbn [fst].
      * specialize (Hl r). rewrite Hc in *. repeat split; lia.
      * rewrite Hc in E2. repeat split; lia.
  - intros Hall. apply map_empty. intros r. apply eq_None_not_Some. intros [n Hn].
    specialize (Hp r n Hn). specialize (Hc r). unfold currentInFlight in Hc. rewrite Hn in Hc. simpl in Hc.
    unfold held in Hc. assert (filter (fun s => s = (r, false)) (ov_slots o) = []) as Hf; [|rewrite Hf in Hc; simpl in Hc; lia].
    clear -Hall. induction Hall as [|[r' []] l Hx _ IH]; [done| |done].
    by rewrite filter_cons_False by by intros [=].
Qed.

Definition sample_load : overload :=
  (acquireOverloadSlot (fun _ => "") "/oracle/query" (VObj [])
     (acquireOverloadSlot (fun _ => "") "/x" (VObj [("action", VStr "relay_transaction")]) no_load).2).2.

Lemma overload_guard_exact_witness :
  currentInFlight "oracle_query" (release 1 (release 1 sample_load)) = 0 /\
  currentInFlight "relay_transaction" (release 1 (release 1 sample_load)) = 1 /\
  held "relay_transaction" (release 1 (release 1 sample_load)) <= 6.
Proof.
  split; [reflexivity|]. split; [reflexivity|].
  apply (overload_guard_exact (fun _ => "") (release 1 (release 1 sample_load))).
  eapply rtc_l; [exact (Acquire _ "/x" (VObj [("action", VStr "relay_transaction")]) no_load)|].
  eapply rtc_l; [exact (Acquire _ "/oracle/query" (VObj []) _)|].
  eapply rtc_l; [exact (Release _ 1 _)|]. eapply rtc_l; [exact (Release _ 1 _)|]. apply rtc_refl.
Defined.
