(* ===== verification/WorkerCore.v ===== *)
(** * Shared helpers and configuration of the nitro worker ([platform/core.js])

    Durations, booleans, networks, and the filter on error messages that are
    returned to a caller; then the settings, which come from the process
    environment and from JSON objects held in it, one for all networks and one
    for each.  [process_env] reads "" for an unset variable; the parsed objects
    are cached by the code and constant, so they are pure here. *)
From S2P Require Import Prelude Numbers Strings Values Text.
#[local] Open Scope list_scope.
#[local] Open Scope Z_scope.

Definition is_digit (a : ascii) : bool := digit_value a <? 10.

Fixpoint drop_while (f : ascii -> bool) (s : string) : string :=
  match s with "" => "" | String a s' => if f a then drop_while f s' else s end.

(** [/^(\d+(?:\.\d+)?)(ms|s|m)$/] with [Math.round(amount * scale)]: the integral
    part, the digits after the point, and the unit. *)
Definition unit_scale (unit : string) : option Z :=
  if (unit =? "ms")%string then Some 1
  else if (unit =? "s")%string then Some 1000
  else if (unit =? "m")%string then Some 60000
  else None.

Definition scaled (whole fraction : string) (scale : Z) : Z :=
  let digits := default 0 (read_digits 10 0 (whole +:+ fraction)) in
  let den := 10 ^ Z.of_nat (String.length fraction) in
  (2 * digits * scale + den) / (2 * den).

Definition duration_text (raw : string) : option Z :=
  let whole := take_while is_digit raw in
  let rest := drop_while is_digit raw in
  if (whole =? "")%string then None
  else
    match rest with
    | String "." r =>
        let fraction := take_while is_digit r in
        if (fraction =? "")%string then None
        else scaled whole fraction <$> unit_scale (drop_while is_digit r)
    | _ => scaled whole "" <$> unit_scale rest
    end.

Definition parseDurationMs (value : val) (fallbackMs : Z) : Z :=
  match value with
  | VUndef | VNull | VStr "" => fallbackMs
  | VNum n => Z.max n 0
  | _ =>
      let raw := toLowerCase (coerceTrim value) in
      if (raw =? "")%string then fallbackMs
      else if str_forall is_digit raw then Z.max (default 0 (read_digits 10 0 raw)) 0
      else match duration_text raw with Some ms => Z.max ms 0 | None => fallbackMs end
  end.

Definition normalizeBoolean (value : string) (fallback : bool) : bool :=
  if (value =? "")%string then fallback
  else
    let normalized := toLowerCase (trim value) in
    (normalized =? "1")%string || (normalized =? "true")%string || (normalized =? "yes")%string.

Definition normalizeMorpheusNetwork (value : val) (fallback : string) : string :=
  let normalized := toLowerCase (coerceTrim value) in
  if (normalized =? "mainnet")%string || (normalized =? "testnet")%string then normalized
  else if (fallback =? "mainnet")%string then "mainnet" else "testnet".

(** [word1[_ ]?word2], without regard to case. *)
Definition spaced (a b : string) : regex :=
  seqs [text_re true a; opt (Chars (fun c => Ascii.eqb c "_" || Ascii.eqb c " ")); text_re true b].

Definition hex_re : regex := Chars (fun a => digit_value a <? 16).
Definition space_re : regex := Chars js_space.

Definition SENSITIVE_PATTERNS : list regex :=
  [spaced "private" "key"; spaced "secret" "key"; spaced "signing" "key"; text_re true "mnemonic";
   text_re true "passphrase"; spaced "seed" "phrase";
   seqs [Bol true; text_re true "Error:"; star space_re; text_re true "0x"; Rep 20 None hex_re];
   seqs [text_re true "wif"; WordB; star (Chars (fun a => negb (line_break a))); WordB;
         text_re true "K"; opt (text_re true "x"); Rep 30 None (Chars word_char)];
   Alt (text_re false "/home/")
       (seqs [Bol false; text_re false "/"; alts [text_re false "usr"; text_re false "etc"; text_re false "var"; text_re false "tmp"];
              text_re false "/"]);
   text_re false "node_modules";
   seqs [text_re false ".js:"; Rep 1 None digit_re; text_re false ":"; Rep 1 None digit_re];
   seqs [Bol true; text_re true "Error:"; star space_re; Rep 64 (Some 64%nat) hex_re; WordB]].

(** [sanitizeErrorMessage] of an [Error] with this message. *)
Definition sanitizeErrorMessage (msg : string) : string :=
  if existsb (fun p => test p msg) SENSITIVE_PATTERNS then "internal error" else slice_to msg 200.

Example core_ex :
  (parseDurationMs (VStr "1m") 0, parseDurationMs (VStr "1.5s") 0, parseDurationMs (VStr "250") 0,
   parseDurationMs (VStr "x") 7, sanitizeErrorMessage "Private Key missing", sanitizeErrorMessage "bad url")
  = (60000, 1500, 250, 7, "internal error", "bad url").
Proof. vm_compute. reflexivity. Qed.

(** ** Configuration *)

(** A computation that may throw. *)
Definition bind_err {A B} (r : string + A) (k : A -> string + B) : string + B :=
  match r with inl e => inl e | inr x => k x end.
Notation "x <-e p ;; k" := (bind_err p (fun x => k)) (at level 100, p at next level, right associativity).

Fixpoint map_err {A B} (f : A -> string + B) (l : list A) : string + list B :=
  match l with
  | [] => inr []
  | x :: l => y <-e f x ;; ys <-e map_err f l ;; inr (y :: ys)
  end.

Definition DEFAULT_NEO_NETWORK_MAGIC : Z := 894710606.
Definition DEFAULT_WAIT_TIMEOUT_MS : Z := 10000.
Definition DEFAULT_POLL_INTERVAL_MS : Z := 2000.
Definition REPLAY_WINDOW_MS : Z := 600000.

Section env.
Context (json_parse : string -> option val) (process_env : string -> string).

Definition parseRuntimeConfigJson (raw : string) : val :=
  let text := trim raw in
  if (text =? "")%string then VObj [] else default (VObj []) (json_parse text).

Definition getRuntimeConfig : val := parseRuntimeConfigJson (process_env "MORPHEUS_RUNTIME_CONFIG_JSON").

Definition upper_network (network : string) : string := if (network =? "mainnet")%string then "MAINNET" else "TESTNET".

Definition getRuntimeConfigForNetwork (network : string) : val :=
  let normalizedNetwork := if (toLowerCase (trim network) =? "mainnet")%string then "mainnet" else "testnet" in
  let upper := upper_network normalizedNetwork in
  let own := process_env (upper +:+ "_RUNTIME_CONFIG_JSON") in
  parseRuntimeConfigJson (if (own =? "")%string then process_env ("MORPHEUS_" +:+ upper +:+ "_RUNTIME_CONFIG_JSON") else own).

(** [a || config[name]] *)
Definition or_config (a : val) (config : val) (name : string) : string + val :=
  if truthy a then inr a else getp config name.

(** [env(...names)]: the first setting that is not blank. *)
Fixpoint env (names : list string) : string + string :=
  match names with
  | [] => inr ""
  | name :: names =>
      v <-e or_config (VStr (process_env name)) getRuntimeConfig name ;;
      let value := coerceTrim v in
      if (value =? "")%string then env names else inr value
  end.

(** A setting of the network first, of the variable and then of the JSON object. *)
Definition scoped_setting (network name : string) : string + string :=
  v <-e or_config (VStr (process_env (name +:+ "_" +:+ upper_network network))) (getRuntimeConfigForNetwork network) name ;;
  w <-e or_config (if truthy v then v else VStr (process_env name)) getRuntimeConfig name ;;
  inr (coerceTrim w).

Fixpoint settings_of (network : string) (names : list string) : string + string :=
  match names with
  | [] => inr ""
  | name :: names =>
      value <-e scoped_setting network name ;;
      if (value =? "")%string then settings_of network names else inr value
  end.

Definition envForNetwork (networkInput : string) (names : list string) : string + string :=
  settings_of (normalizeMorpheusNetwork (VStr networkInput) "testnet") names.
End env.

Definition resolvePayloadNetwork (payload : val) (fallback : string) : string :=
  normalizeMorpheusNetwork
    (v_or (get payload "network") (v_or (get payload "morpheus_network") (v_or (get payload "runtime_network")
       (get payload "environment")))) fallback.

(** [normalizeBoolean] of any value. *)
Definition boolean_setting (value : val) (fallback : bool) : bool :=
  match value with
  | VUndef | VNull | VStr "" => fallback
  | v => normalizeBoolean (js_String v) false
  end.

(** [isHexString] and [strip0x] of a value. *)
Definition hex_body (value : val) : string := strip0x (coerceTrim value).

Definition isHexString (value : val) : bool :=
  let raw := hex_body value in
  negb (raw =? "")%string && Nat.even (String.length raw) && str_forall (fun a => digit_value a <? 16) raw.

Example settings_ex :
  let process_env name :=
    if (name =? "A_MAINNET")%string then "scoped" else if (name =? "A")%string then "plain" else "" in
  (envForNetwork (fun _ => None) process_env "Mainnet" ["A"], envForNetwork (fun _ => None) process_env "other" ["B"; "A"],
   env (fun _ => None) process_env ["B"])
  = (inr "scoped", inr "plain", inr "").
Proof. vm_compute. reflexivity. Qed.
