(* ===== verification/Allowlist.v ===== *)
(** * What the worker's transaction proxy may call ([platform/allowlist.js])

    Contract hashes and method names in canonical form, the parameters of an
    invocation, the allow-list of contracts and methods with its cache, and the
    policies of the intents.  [address_hash] is the script hash of a valid Neo
    address, [None] for a text that is none. *)
From stdpp Require Import gmap strings.
From S2P Require Import Prelude Numbers Strings Values Encoding Text WorkerCore.
#[local] Open Scope list_scope.
#[local] Open Scope Z_scope.

Definition hash_digit (a : ascii) : bool := ((48 <=? code a) && (code a <=? 57)) || ((97 <=? code a) && (code a <=? 102)).

Lemma hash_digits_lower hex : str_forall hash_digit hex = true -> toLowerCase hex = hex.
Proof.
  induction hex as [|a hex IH]; [done|]. cbn. intros [Ha Hh]%andb_true_iff. rewrite IH by done. f_equal.
  assert (forall b, implb (hash_digit b) (Ascii.eqb (lower b) b) = true) as H by (apply ascii_all; vm_compute; reflexivity).
  specialize (H a). rewrite Ha in H. by apply Ascii.eqb_eq.
Qed.

Lemma hash_digits_solid hex : str_forall hash_digit hex = true -> str_forall (fun a => negb (js_space a)) hex = true.
Proof.
  apply str_forall_impl. intros a Ha.
  assert (forall b, implb (hash_digit b) (negb (js_space b)) = true) as H by (apply ascii_all; vm_compute; reflexivity).
  specialize (H a). by rewrite Ha in H.
Qed.

Lemma hex_digits_hash bs : Forall is_byte bs -> str_forall hash_digit (hex_encode bs) = true.
Proof.
  assert (forall d, 0 <= d < 16 -> hash_digit (hex_digit d) = true) as Hd.
  { intros d Hd. apply (digit_range d (fun d => hash_digit (hex_digit d))); [vm_compute; reflexivity|done]. }
  induction 1 as [|b bs Hb Hbs IH]; [done|]. unfold is_byte in Hb. cbn [hex_encode str_forall]. rewrite IH, !Hd; [done|by apply Z.mod_pos_bound|].
  split; [apply Z.div_pos; lia|apply Z.div_lt_upper_bound; lia].
Qed.

(** Forty lower-case hexadecimal digits. *)
Definition hash_body (hex : string) : bool := (String.length hex =? 40)%nat && str_forall hash_digit hex.

Definition zero_hash : string := "0000000000000000000000000000000000000000".

Definition isConfiguredHash160 (value : string) : bool :=
  match value with
  | String "0" (String "x" hex) => hash_body hex && negb (hex =? zero_hash)%string
  | _ => false
  end.

Definition canonicalizeMethodName (method : val) : string :=
  match coerceTrim method with "" => "" | String a rest => String (lower a) rest end.

(** ** Parameters of an invocation

    The constructors of neon-js with their arguments. *)
Inductive contract_param :=
| CString (s : string)
| CInteger (s : string)
| CBoolean (b : bool)
| CBytesHex (hex : string)
| CBytesText (s : string)
| CHash160 (s : string)
| CHash256 (s : string)
| CPublicKey (s : string)
| CAny (v : val)
| CArray (l : list contract_param).

Definition base64_char (a : ascii) : bool :=
  let c := code a in
  ((65 <=? c) && (c <=? 90)) || ((97 <=? c) && (c <=? 122)) || is_digit a || (c =? 43) || (c =? 47).

(** [/^[A-Za-z0-9+/]+={0,2}$/] on a text whose length is a multiple of 4. *)
Definition base64_shaped (raw : string) : bool :=
  let rest := drop_while base64_char raw in
  negb (take_while base64_char raw =? "")%string
  && ((rest =? "")%string || (rest =? "=")%string || (rest =? "==")%string)
  && (Nat.modulo (String.length raw) 4 =? 0)%nat.

Definition createByteArrayParam (value : val) : contract_param :=
  let raw := coerceTrim value in
  if (raw =? "")%string then CBytesHex ""
  else if isHexString (VStr raw) then CBytesHex (hex_body (VStr raw))
  else if base64_shaped raw then
    let decoded := base64_decode raw in
    if (0 <? Z.of_nat (length decoded)) && (base64_encode decoded =? raw)%string
    then CBytesHex (hex_encode decoded) else CBytesText raw
  else CBytesText raw.

Fixpoint toNeoContractParam (param : val) : string + contract_param :=
  match param with
  | VObj kvs =>
      let value := assoc_get "value" kvs in
      let text fallback := js_String (v_coalesce value (VStr fallback)) in
      let type := toLowerCase (coerceTrim (assoc_get "type" kvs)) in
      if (type =? "string")%string then inr (CString (text ""))
      else if (type =? "integer")%string then inr (CInteger (text "0"))
      else if (type =? "boolean")%string then inr (CBoolean (truthy value))
      else if (type =? "bytearray")%string then inr (createByteArrayParam value)
      else if (type =? "hash160")%string then inr (CHash160 (text ""))
      else if (type =? "hash256")%string then inr (CHash256 (text ""))
      else if (type =? "publickey")%string then inr (CPublicKey (text ""))
      else if (type =? "any")%string then inr (CAny (v_coalesce value VNull))
      else if (type =? "array")%string then
        (fix find (kvs : list (string * val)) := match kvs with
          | [] => inl "Array param requires array value"
          | (k, v) :: kvs =>
              if decide ("value" = k) then
                match v with
                | VArr l =>
                    items <-e (fix items (l : list val) := match l with
                      | [] => inr []
                      | x :: l => p <-e toNeoContractParam x ;; ps <-e items l ;; inr (p :: ps)
                      end) l ;;
                    inr (CArray items)
                | _ => inl "Array param requires array value"
                end
              else find kvs
          end) kvs
      else inl ("unsupported Neo contract param type: " +:+ js_String (assoc_get "type" kvs))
  | VArr _ => inl "unsupported Neo contract param type: undefined"
  | _ => inl "invalid Neo contract param"
  end.

(** ** The allow-list *)

Record allow_entry := AllowEntry {
  ae_allowAll : bool;
  ae_methods : gset string;
}.

Abbreviation allowlist := (gmap string allow_entry).

Definition no_methods : allow_entry := AllowEntry false ∅.

(** A method name of a configuration, added to an entry. *)
Definition add_method (entry : allow_entry) (method : val) : allow_entry :=
  let canonical := coerceTrim method in
  if (canonical =? "")%string then entry
  else if (canonical =? "*")%string then AllowEntry true (ae_methods entry)
  else AllowEntry (ae_allowAll entry) ({[canonicalizeMethodName (VStr canonical)]} ∪ ae_methods entry).

Definition GAS_HASH : string := "0xd2a4cff31913016155e38e474a2c06d08be276cf".

(** The contracts allowed by configuration, with their methods and the default
    of their hash. *)
Definition configured_contracts : list (list string * string * list string) :=
  [(["CONTRACT_MORPHEUS_DATAFEED_HASH"; "CONTRACT_PRICEFEED_HASH"], "",
    ["updateFeed"; "updateFeedSigned"; "updateFeeds"; "update"]);
   (["CONTRACT_RANDOMNESSLOG_HASH"], "", ["record"]);
   (["CONTRACT_AUTOMATIONANCHOR_HASH"], "", ["markExecuted"]);
   (["CONTRACT_MORPHEUS_ORACLE_HASH"], "", ["fulfillRequest"; "queueAutomationRequest"]);
   (["CONTRACT_PAYMENTHUB_HASH"], "", ["pay"]);
   (["CONTRACT_GOVERNANCE_HASH"], "", ["stake"; "unstake"; "vote"]);
   (["CONTRACT_GAS_HASH"], GAS_HASH, ["transfer"])].

Section allowlist.
Context (json_parse : string -> option val) (process_env : string -> string) (address_hash : string -> option string).

Definition normalizeNeoHash160 (value : val) : string :=
  let raw := coerceTrim value in
  if (raw =? "")%string then ""
  else
    match address_hash raw with
    | Some hash => "0x" +:+ toLowerCase hash
    | None => let hex := toLowerCase (strip0x raw) in if hash_body hex then "0x" +:+ hex else ""
    end.

Definition normalizeContractHash (value : val) : string + string :=
  let normalized := normalizeNeoHash160 value in
  if (normalized =? "")%string then inl ("invalid contract hash: " +:+ js_String value) else inr normalized.

(** [Object.entries] *)
Definition entries_of (v : val) : list (string * val) :=
  match v with
  | VObj kvs => kvs
  | VArr l => imap (fun i x => (num_to_string (Z.of_nat i), x)) l
  | _ => []
  end.

Definition parsed_entry (methods : val) : allow_entry :=
  match methods with VArr l => foldl add_method no_methods l | _ => no_methods end.

Definition parse_contract (out : allowlist) (kv : string * val) : allowlist :=
  let normalized := normalizeNeoHash160 (VStr kv.1) in
  if (normalized =? "")%string then out else <[normalized := parsed_entry kv.2]> out.

(** A configuration that is not JSON throws. *)
Definition parseTxProxyAllowlist (raw : val) : string + allowlist :=
  let text := coerceTrim raw in
  if (text =? "")%string then inr ∅
  else
    match json_parse text with
    | None => inl "Unexpected token in JSON"
    | Some parsed => inr (foldl parse_contract ∅ (entries_of (if is_object parsed then get parsed "contracts" else VNull)))
    end.

Definition addAllow (al : allowlist) (contractHash : string) (methods : list string) : allowlist :=
  let normalized := normalizeNeoHash160 (VStr contractHash) in
  if (normalized =? "")%string || negb (isConfiguredHash160 normalized) then al
  else <[normalized := foldl add_method (default no_methods (al !! normalized)) (VStr <$> methods)]> al.

Definition resolveAllowlistNetwork (input : val) : string :=
  match input with
  | VStr s => if (toLowerCase (trim s) =? "mainnet")%string then "mainnet" else "testnet"
  | _ => resolvePayloadNetwork (v_or input (VObj [])) "testnet"
  end.

(** [envForNetwork(network, ...names) || fallback] *)
Definition contract_setting (network : string) (names : list string) (fallback : string) : string + string :=
  v <-e envForNetwork json_parse process_env network names ;;
  inr (if (v =? "")%string then fallback else v).

Fixpoint add_configured (network : string) (contracts : list (list string * string * list string)) (al : allowlist)
    : string + allowlist :=
  match contracts with
  | [] => inr al
  | (names, fallback, methods) :: contracts =>
      hash <-e contract_setting network names fallback ;;
      add_configured network contracts (addAllow al hash methods)
  end.

(** What [buildTxProxyAllowlist] computes when it has no fresh result. *)
Definition build_allowlist (network : string) : string + allowlist :=
  raw <-e envForNetwork json_parse process_env network ["TXPROXY_ALLOWLIST"] ;;
  al <-e parseTxProxyAllowlist (VStr raw) ;;
  add_configured network configured_contracts al.

(** [allowlistCache]: the results with the time they were computed at. *)
Abbreviation allow_cache := (gmap string (Z * allowlist)).

Definition buildTxProxyAllowlist (networkInput : val) (now : Z) (cache : allow_cache) : (string + allowlist) * allow_cache :=
  let network := resolveAllowlistNetwork networkInput in
  let fresh := match cache !! network with Some (t, al) => if now - t <? 60000 then Some al else None | None => None end in
  match fresh with
  | Some al => (inr al, cache)
  | None =>
      match build_allowlist network with
      | inl e => (inl e, cache)
      | inr al => (inr al, <[network := (now, al)]> cache)
      end
  end.

Definition entry_allows (entry : allow_entry) (method : string) : bool :=
  ae_allowAll entry || bool_decide (method ∈ ae_methods entry).

Definition allowlistAllows (contractHash method networkInput : val) (now : Z) (cache : allow_cache)
    : (string + bool) * allow_cache :=
  let '(built, cache) := buildTxProxyAllowlist networkInput now cache in
  (al <-e built ;;
   hash <-e normalizeContractHash contractHash ;;
   inr (match al !! hash with Some entry => entry_allows entry (canonicalizeMethodName method) | None => false end),
   cache).

(** ** Intents *)

Definition transferTargetsPaymentHub (params : val) (paymentHubHash : string) : bool :=
  match params with
  | VArr (_ :: target :: _) =>
      truthy target && (toLowerCase (coerceTrim (get target "type")) =? "hash160")%string
      && (normalizeNeoHash160 (get target "value") =? normalizeNeoHash160 (VStr paymentHubHash))%string
  | _ => false
  end.

(** [None] lets the invocation pass; [Some] is the status and the error. *)
Definition checkNeoIntentPolicy (payload : val) : string + option (Z * string) :=
  let intent := toLowerCase (coerceTrim (get payload "intent")) in
  if (intent =? "")%string then inr None
  else
    let network := resolveAllowlistNetwork payload in
    contractHash <-e normalizeContractHash (get payload "contract_hash") ;;
    let method := canonicalizeMethodName (get payload "method") in
    gas <-e contract_setting network ["CONTRACT_GAS_HASH"] GAS_HASH ;;
    hub <-e envForNetwork json_parse process_env network ["CONTRACT_PAYMENTHUB_HASH"] ;;
    gov <-e envForNetwork json_parse process_env network ["CONTRACT_GOVERNANCE_HASH"] ;;
    let gasHash := normalizeNeoHash160 (VStr gas) in
    let paymentHubHash := normalizeNeoHash160 (VStr hub) in
    let governanceHash := normalizeNeoHash160 (VStr gov) in
    let gas_transfer := (contractHash =? gasHash)%string && (method =? "transfer")%string in
    if (intent =? "gas-sponsor")%string || (intent =? "gas_sponsor")%string then
      inr (if gas_transfer then None else Some (403, "gas-sponsor intent only allows GAS transfer"))
    else if (intent =? "payments")%string || (intent =? "payment")%string then
      inr (if negb gas_transfer then Some (403, "payments intent only allows GAS transfer")
           else if (paymentHubHash =? "")%string then Some (503, "payments intent requires CONTRACT_PAYMENTHUB_HASH")
           else if negb (transferTargetsPaymentHub (get payload "params") paymentHubHash)
                then Some (403, "payments intent only allows GAS transfer to PaymentHub")
           else None)
    else if (intent =? "governance")%string then
      inr (if (governanceHash =? "")%string then Some (503, "governance intent requires CONTRACT_GOVERNANCE_HASH")
           else if negb (contractHash =? governanceHash)%string
                then Some (403, "governance intent requires Governance contract")
           else if negb (bool_decide (method ∈ ["stake"; "unstake"; "vote"]))
                then Some (403, "governance intent only allows stake/unstake/vote")
           else None)
    else inr (Some (400, "unknown intent: " +:+ js_String (get payload "intent"))).
End allowlist.

(** ** What is allowed *)

(** The configuration grants [method]: it is listed, or everything is. *)
Definition granted_by (methods : list val) (method : string) : Prop :=
  exists v, v ∈ methods /\ coerceTrim v <> "" /\
    (coerceTrim v = "*" \/ canonicalizeMethodName (VStr (coerceTrim v)) = method).

Lemma add_methods_allow entry methods method :
  entry_allows (foldl add_method entry methods) method = true <->
  entry_allows entry method = true \/ granted_by methods method.
Proof.
  revert entry. induction methods as [|v methods IH]; intros entry; cbn [foldl].
  { split; [by left|]. intros [?|(? & Hin & _)]; [done|]. by apply not_elem_of_nil in Hin. }
  rewrite IH. assert (entry_allows (add_method entry v) method = true <->
    entry_allows entry method = true \/ (coerceTrim v <> "" /\
      (coerceTrim v = "*" \/ canonicalizeMethodName (VStr (coerceTrim v)) = method))) as ->.
  { unfold add_method, entry_allows.
    destruct (String.eqb_spec (coerceTrim v) "") as [Hv|Hv]; [naive_solver|].
    destruct (String.eqb_spec (coerceTrim v) "*") as [Hs|Hs]; cbn [ae_allowAll ae_methods].
    - split; [intros _; right; auto|done].
    - rewrite !orb_true_iff, !bool_decide_eq_true. set_solver. }
  unfold granted_by. setoid_rewrite elem_of_cons. naive_solver.
Qed.

(** The verdict of a list on a canonical hash and method. *)
Definition list_allows (al : allowlist) (hash method : string) : bool :=
  match al !! hash with Some entry => entry_allows entry method | None => false end.

Section facts.
Context (json_parse : string -> option val) (process_env : string -> string) (address_hash : string -> option string).
#[local] Set Default Proof Using "All".
#[local] Abbreviation normal h := (normalizeNeoHash160 address_hash (VStr h)).

(** The contract's entry in the JSON list: the last one of its hash. *)
Definition json_entry (kvs : list (string * val)) (hash : string) : option (string * val) :=
  last (filter (fun kv => normal kv.1 = hash) kvs).

Lemma parse_lookup kvs hash :
  hash <> "" -> foldl (parse_contract address_hash) ∅ kvs !! hash = (fun kv => parsed_entry kv.2) <$> json_entry kvs hash.
Proof.
  intros Hh. induction kvs as [|kv kvs IH] using rev_ind; [done|]. rewrite foldl_app. cbn [foldl]. unfold json_entry.
  rewrite filter_app. unfold parse_contract at 1. destruct (String.eqb_spec (normal kv.1) "") as [He|He].
  - rewrite filter_cons_False by congruence. by rewrite app_nil_r.
  - destruct (decide (normal kv.1 = hash)) as [Heq|Hne].
    + rewrite filter_cons_True by exact Heq. change (filter _ []) with (@nil (string * val)).
      rewrite last_snoc, Heq. by rewrite lookup_insert_eq.
    + rewrite lookup_insert_ne, filter_cons_False by done. by rewrite app_nil_r.
Qed.

(** The methods of the tables are canonical already. *)
Lemma granted_table ms method :
  Forall (fun m => coerceTrim (VStr m) <> "" /\ coerceTrim (VStr m) <> "*" /\
                   canonicalizeMethodName (VStr (coerceTrim (VStr m))) = m) ms ->
  granted_by (VStr <$> ms) method <-> method ∈ ms.
Proof.
  intros Hms. rewrite Forall_forall in Hms. unfold granted_by. split.
  - intros (v & (m & -> & Hm)%list_elem_of_fmap & _ & H). destruct (Hms m Hm) as (_ & H2 & H3). destruct H as [?| <-]; [done|by rewrite H3].
  - intros Hm. destruct (Hms _ Hm) as (H1 & H2 & H3). exists (VStr method). split; [by apply list_elem_of_fmap; eauto|]. auto.
Qed.

Lemma add_allow_allows al h ms hash method :
  hash <> "" ->
  list_allows (addAllow address_hash al h ms) hash method = true <->
  list_allows al hash method = true \/ (normal h = hash /\ isConfiguredHash160 hash = true /\ granted_by (VStr <$> ms) method).
Proof.
  intros Hh. unfold addAllow. destruct (String.eqb_spec (normal h) "") as [He|He]; cbn [orb].
  { split; [by left|]. intros [?|(? & _)]; [done|congruence]. }
  destruct (isConfiguredHash160 (normal h)) eqn:Hc; cbn [negb].
  2:{ split; [by left|]. intros [?|(<- & ? & _)]; congruence. }
  unfold list_allows. destruct (decide (normal h = hash)) as [<-|Hne].
  - rewrite lookup_insert_eq, add_methods_allow. destruct (al !! normal h); cbn; naive_solver.
  - rewrite lookup_insert_ne by done. naive_solver.
Qed.

(** A contract of the tables, as configured for the network, and its methods. *)
Definition table_allows (network : string) (contracts : list (list string * string * list string)) (hash method : string) : Prop :=
  exists names fallback ms h, (names, fallback, ms) ∈ contracts /\
    contract_setting json_parse process_env network names fallback = inr h /\
    normal h = hash /\ isConfiguredHash160 hash = true /\ method ∈ ms.

Definition canonical_table (contracts : list (list string * string * list string)) : Prop :=
  Forall (fun c => Forall (fun m => coerceTrim (VStr m) <> "" /\ coerceTrim (VStr m) <> "*" /\
                                    canonicalizeMethodName (VStr (coerceTrim (VStr m))) = m) c.2) contracts.

Lemma configured_canonical : canonical_table configured_contracts.
Proof. repeat constructor; by vm_compute. Qed.

Lemma add_configured_allows network contracts al al' hash method :
  canonical_table contracts -> hash <> "" ->
  add_configured json_parse process_env address_hash network contracts al = inr al' ->
  list_allows al' hash method = true <-> list_allows al hash method = true \/ table_allows network contracts hash method.
Proof.
  intros Hcan Hh. revert al. induction Hcan as [|[[names fallback] ms] contracts Hms _ IH]; intros al; cbn.
  { intros [= <-]. split; [by left|]. intros [?|(? & ? & ? & ? & Hin & _)]; [done|]. by apply not_elem_of_nil in Hin. }
  destruct (contract_setting _ _ _ _ _) as [|h] eqn:Hset; [done|]. cbn [bind_err]. intros H. rewrite (IH _ H).
  rewrite add_allow_allows, granted_table by done. unfold table_allows. setoid_rewrite elem_of_cons. split.
  - intros [[?|(? & ? & ?)]|(n & f & m & x & ? & ?)]; [by left|right|right].
    + exists names, fallback, ms, h. auto.
    + exists n, f, m, x. auto.
  - intros [?|(n & f & m & x & [[= -> -> ->]|?] & Hx & ?)]; [by left; left| |right; eauto 8].
    left; right. rewrite Hset in Hx. injection Hx as ->. done.
Qed.

Definition json_allows (network hash method : string) : Prop :=
  exists raw parsed k methods,
    envForNetwork json_parse process_env network ["TXPROXY_ALLOWLIST"] = inr raw /\ coerceTrim (VStr raw) <> "" /\
    json_parse (coerceTrim (VStr raw)) = Some parsed /\ is_object parsed = true /\
    json_entry (entries_of (get parsed "contracts")) hash = Some (k, VArr methods) /\ granted_by methods method.

(** C34.  The allow-list is exactly what is configured.  When the list of a network
    can be built, it allows a method of a contract exactly when the JSON list
    names it, or everything, in its last entry of the contract's hash, or when
    the contract is one of the seven that the settings of the network name by a
    real hash and the method is one of those fixed for it. *)
Theorem allowlist_exact : forall network al hash method,
  hash <> "" -> build_allowlist json_parse process_env address_hash network = inr al ->
  list_allows al hash method = true <->
  json_allows network hash method \/ table_allows network configured_contracts hash method.
Proof.
  intros network al hash method Hh. unfold build_allowlist.
  destruct (envForNetwork _ _ _ _) as [|raw] eqn:Hraw; [done|]. cbn [bind_err].
  destruct (parseTxProxyAllowlist _ _ _) as [|al0] eqn:Hparse; [done|]. cbn [bind_err]. intros Hadd.
  rewrite (add_configured_allows network configured_contracts al0 al _ _ configured_canonical Hh Hadd).
  assert (list_allows al0 hash method = true <-> json_allows network hash method) as ->; [|done].
  revert Hparse. unfold parseTxProxyAllowlist, json_allows. setoid_rewrite Hraw.
  destruct (String.eqb_spec (coerceTrim (VStr raw)) "") as [He|He].
  { intros [= <-]. split; [done|]. intros (? & ? & ? & ? & [= <-] & ? & _). congruence. }
  destruct (json_parse _) as [parsed|] eqn:Hp; [|done]. intros [= <-]. unfold list_allows. rewrite parse_lookup by done. split.
  - destruct (is_object parsed) eqn:Ho; [|done]. destruct (json_entry _ _) as [[k v]|] eqn:Hj; [|done].
    cbn [fmap option_fmap option_map snd]. intros Hallow. destruct v; try done. cbn [parsed_entry] in Hallow.
    apply add_methods_allow in Hallow as [?|Hg]; [done|]. by exists raw, parsed, k, l.
  - intros (? & ? & k & methods & [= <-] & _ & Hpd & Ho & Hj & Hg). rewrite Hp in Hpd. injection Hpd as <-.
    rewrite Ho, Hj. cbn. apply add_methods_allow. by right.
Qed.
End facts.

Lemma allowlist_exact_witness :
  exists al, build_allowlist (fun _ => None) (fun _ => "") (fun _ => None) "testnet" = inr al /\
    list_allows al GAS_HASH "transfer" = true.
Proof.
  eexists. split; [vm_compute; reflexivity|].
  apply (allowlist_exact (fun _ => None) (fun _ => "") (fun _ => None) "testnet"); [done|vm_compute; reflexivity|].
  right. exists ["CONTRACT_GAS_HASH"], GAS_HASH, ["transfer"], GAS_HASH. split_and!; [|by vm_compute..|by left].
  apply (bool_decide_unpack _). vm_compute. exact I.
Defined.

(** A listed contract replaces a configured one only in what it grants by name:
    an entry [*] allows everything, one that is not a list allows nothing more
    than the settings do. *)
Example allow_ex :
  let json_parse s := if (s =? "L")%string then
    Some (VObj [("contracts", VObj [("0xD2A4CFF31913016155E38E474A2C06D08BE276CF", VArr [VStr " Mint "]);
                                    ("1111111111111111111111111111111111111111", VArr [VStr "*"]);
                                    ("2222222222222222222222222222222222222222", VStr "x")])]) else None in
  let process_env s := if (s =? "TXPROXY_ALLOWLIST")%string then "L" else "" in
  match build_allowlist json_parse process_env (fun _ => None) "mainnet" with
  | inr al => [list_allows al GAS_HASH "mint"; list_allows al GAS_HASH "transfer"; list_allows al GAS_HASH "burn";
               list_allows al "0x1111111111111111111111111111111111111111" "any";
               list_allows al "0x2222222222222222222222222222222222222222" "x"]
  | inl _ => []
  end = [true; true; false; true; false].
Proof. vm_compute. reflexivity. Qed.
