(* ===== verification/Relay.v ===== *)
(** * The worker's transaction relay ([chain/neo-n3.js], [chain/signing.js], [chain/index.js])

    A relayed invocation: allow-list, intent policy, replay guard, context,
    simulation, broadcast, wait for the application log.  The signer of a role,
    the RPC node, the check of an RPC host and sponsorship are awaited calls. *)
From stdpp Require Import gmap strings.
From S2P Require Import Prelude Numbers Strings Values Effects Encoding Doubles Text WorkerCore Allowlist.
#[local] Open Scope list_scope.
#[local] Open Scope Z_scope.

Record relay_context := RelayContext {
  rc_account : string;
  rc_rpcUrl : string;
  rc_networkMagic : dbl;
}.

Inductive ncall : Type -> Type :=
| NewUUID : ncall string
| PinnedSigner (network : string) : ncall string
| NeoAccount (key : string) : ncall string
| RpcUrlAllowed (url : string) : ncall unit
| TestInvoke (ctx : relay_context) (contractHash method : string) (params : list contract_param) (scope : string) : ncall val
| Invoke (ctx : relay_context) (contractHash method : string) (params : list contract_param) : ncall val
| SendRawTransaction (ctx : option relay_context) (raw : string) : ncall val
| ApplicationLog (txHash : string) : ncall val
| Sleep (ms : dbl) : ncall unit
| SponsorTransaction (payload : val) : ncall val.

(** What the relay shares between its requests: the cached allow-lists and the
    request ids seen, in the order they were remembered. *)
Record relay_state := RelayState {
  ns_allow : gmap string (Z * gmap string allow_entry);
  ns_seen : list (string * Z);
}.

Abbreviation nprog := (prog relay_state ncall).

Definition throw_err {A} (r : string + A) : nprog A := match r with inl e => Throw e | inr x => Ret x end.

(** ** The replay guard *)

Definition MAX_SEEN_REQUEST_IDS : Z := 50000.

Definition pruneSeenRequestIds (now : Z) (seen : list (string * Z)) : list (string * Z) :=
  filter (fun e => now - REPLAY_WINDOW_MS <= e.2) seen.

(** A stable sort by time. *)
Fixpoint insert_by_time (e : string * Z) (l : list (string * Z)) : list (string * Z) :=
  match l with
  | [] => [e]
  | x :: l => if e.2 <? x.2 then e :: x :: l else x :: insert_by_time e l
  end.

Definition by_time (l : list (string * Z)) : list (string * Z) := foldl (fun acc e => insert_by_time e acc) [] l.

(** At the limit the oldest quarter goes. *)
Definition evict_oldest (seen : list (string * Z)) : list (string * Z) :=
  if Z.of_nat (length seen) <? MAX_SEEN_REQUEST_IDS then seen
  else
    let toDelete := Z.to_nat ((Z.of_nat (length seen) + 3) / 4) in
    let doomed := (take toDelete (by_time seen)).*1 in
    filter (fun e => e.1 ∉ doomed) seen.

Definition rememberRequestId (requestId : string) (now : Z) (seen : list (string * Z)) : bool * list (string * Z) :=
  let seen := evict_oldest (pruneSeenRequestIds now seen) in
  if bool_decide (requestId ∈ seen.*1) then (false, seen) else (true, seen ++ [(requestId, now)]).

Definition forgetRequestId (requestId : string) (seen : list (string * Z)) : list (string * Z) :=
  if (requestId =? "")%string then seen else filter (fun e => e.1 <> requestId) seen.

Definition set_seen (seen : list (string * Z)) (s : relay_state) : relay_state := RelayState (ns_allow s) seen.

(** ** Helpers *)

(** [Number(v) || fallback] *)
Definition number_or_default (v : val) (fallback : Z) : dbl :=
  match val_double v with
  | DNaN => of_Z fallback
  | d => if bool_decide (d = of_Z 0) then of_Z fallback else d
  end.

(** [appLog?.executions?.[0]] *)
Definition first_execution (appLog : val) : val :=
  match get appLog "executions" with
  | VArr (execution :: _) => execution
  | VObj kvs => assoc_get "0" kvs
  | _ => VUndef
  end.

(** The VM state and the exception. *)
Definition getNeoExecutionSummary (appLog : val) : val * val :=
  let execution := first_execution appLog in
  (v_or (get execution "vmstate") (v_or (get execution "VMState") VNull),
   v_or (get execution "exception") (v_or (get execution "Exception") VNull)).

Definition normalized_tx_hash (raw : val) : string :=
  let t := coerceTrim raw in if startsWith t "0x" then t else "0x" +:+ t.

(** The digits of [/^(0x)?[0-9a-fA-F]+$/]. *)
Definition raw_hex_digits (raw : string) : option string :=
  let hex := match raw with String "0" (String "x" r) => r | _ => raw end in
  if negb (hex =? "")%string && str_forall is_hex hex then Some hex else None.

Section relay.
Context (json_parse : string -> option val) (process_env : string -> string) (address_hash : string -> option string)
  (hex_to_base64 : string -> string).
#[local] Open Scope prog_scope.
#[local] Abbreviation setting := (env json_parse process_env).
#[local] Abbreviation setting_for := (envForNetwork json_parse process_env).

Definition normalizeNeoRawTransaction (rawTransaction : val) : string + string :=
  let raw := coerceTrim rawTransaction in
  if (raw =? "")%string then inl "raw transaction required"
  else
    match raw_hex_digits raw with
    | Some hex => inr (if Nat.even (String.length hex) then hex_to_base64 hex else raw)
    | None => inr raw
    end.

(** [fuel] bounds the polls. *)
Fixpoint poll_application_log (fuel : nat) (txHash : string) (deadline pollIntervalMs : dbl) : nprog val :=
  match fuel with
  | O => Throw "still waiting"
  | S fuel =>
      now <-- clock ;;
      if negb (dlt (of_Z now) deadline) then Throw ("timed out waiting for Neo application log: " +:+ txHash)
      else
        log <-- attempt (await (ApplicationLog txHash)) ;;
        match log with
        | inr log => Ret log
        | inl _ => await (Sleep pollIntervalMs) ;;; poll_application_log fuel txHash deadline pollIntervalMs
        end
  end.

Definition waitForNeoApplicationLog (fuel : nat) (txHash : string) (timeoutMs pollIntervalMs : dbl) : nprog val :=
  now <-- clock ;;
  poll_application_log fuel txHash (dadd (of_Z now) timeoutMs) pollIntervalMs.

Definition wait_for_payload (fuel : nat) (payload : val) (txHash : string) : nprog val :=
  waitForNeoApplicationLog fuel txHash (number_or_default (get payload "timeout_ms") DEFAULT_WAIT_TIMEOUT_MS)
    (number_or_default (get payload "poll_interval_ms") DEFAULT_POLL_INTERVAL_MS).

Definition resolveNeoN3SigningKey (payload : val) : nprog string :=
  configured <-- throw_err (setting ["MORPHEUS_NETWORK"; "NEXT_PUBLIC_MORPHEUS_NETWORK"]) ;;
  let fallback := normalizeMorpheusNetwork (VStr (if (configured =? "")%string then "testnet" else configured)) "testnet" in
  await (PinnedSigner (resolvePayloadNetwork payload fallback)).

(** [a || b || c] of trimmed texts *)
Definition caller_key (payload : val) : string :=
  let pick a b := if (a =? "")%string then b else a in
  pick (coerceTrim (get payload "private_key"))
    (pick (coerceTrim (get payload "signing_key")) (coerceTrim (get payload "wif"))).

Definition validateRpcUrl (rawUrl : string) : nprog string :=
  let url := trim rawUrl in
  if (url =? "")%string then Ret url else await (RpcUrlAllowed url) ;;; Ret url.

Definition loadNeoN3Context (payload : val) (required requireRpc : bool) : nprog (option relay_context) :=
  let network := resolvePayloadNetwork payload "testnet" in
  key <-- (if (caller_key payload =? "")%string then resolveNeoN3SigningKey payload else Ret (caller_key payload)) ;;
  if (key =? "")%string then
    if required then Throw "Neo N3 signing key is not configured" else Ret None
  else
    url <-- (if (coerceTrim (get payload "rpc_url") =? "")%string then throw_err (setting_for network ["NEO_RPC_URL"])
             else Ret (coerceTrim (get payload "rpc_url"))) ;;
    rpcUrl <-- validateRpcUrl url ;;
    if requireRpc && (rpcUrl =? "")%string then Throw "NEO_RPC_URL is required for Neo N3 relay"
    else
      magic <-- (if truthy (get payload "network_magic") then Ret (get payload "network_magic")
                 else m <-- throw_err (setting_for network ["NEO_NETWORK_MAGIC"]) ;; Ret (VStr m)) ;;
      account <-- await (NeoAccount key) ;;
      let networkMagic := val_double (v_or magic (VNum DEFAULT_NEO_NETWORK_MAGIC)) in
      Ret (Some (RelayContext account rpcUrl (if dfinite networkMagic then networkMagic else of_Z DEFAULT_NEO_NETWORK_MAGIC))).

(** ** A relayed invocation *)

(** The status and the body of a reply. *)
Abbreviation reply := (Z * val)%type.

Definition request_id_of (payload : val) : string :=
  coerceTrim (v_or (get payload "request_id") (get payload "requestId")).

Definition forget (requestId : string) : nprog unit :=
  modify (fun s => set_seen (forgetRequestId requestId (ns_seen s)) s).

Definition signer_scope (payload : val) : string + string :=
  flag <-e setting ["MORPHEUS_ALLOW_GLOBAL_SCOPE"] ;;
  inr (if boolean_setting (VStr flag) false then
         let scope := coerceTrim (v_or (get payload "signer_scope") (v_or (get payload "scope") (VStr "CalledByEntry"))) in
         if (scope =? "")%string then "CalledByEntry" else scope
       else "CalledByEntry").

Definition skips_simulation (payload : val) : bool :=
  bool_decide (get payload "skip_simulation" = VBool true)
  || (toLowerCase (coerceTrim (get payload "skip_simulation")) =? "true")%string.

Definition param_list (payload : val) : string + list contract_param :=
  match get payload "params" with VArr l => map_err toNeoContractParam l | _ => inr [] end.

(** From the broadcast on. *)
Definition broadcast (fuel : nat) (payload : val) (requestId contractHash method : string) (ctx : relay_context)
    (params : list contract_param) (simulation : val) : nprog reply :=
  txHashRaw <-- await (Invoke ctx contractHash method params) ;;
  let txHash := normalized_tx_hash txHashRaw in
  let vmState := v_or (get simulation "state") (VStr "HALT") in
  let exception := v_or (get simulation "exception") VUndef in
  let ok vmState exception appLog : nprog reply :=
    Ret (200, VObj [("request_id", VStr requestId); ("tx_hash", VStr txHash); ("vm_state", vmState);
                    ("exception", exception); ("app_log", appLog)]) in
  if truthy (get payload "wait") then
    appLog <-- wait_for_payload fuel payload txHash ;;
    let summary := getNeoExecutionSummary appLog in
    ok (v_or summary.1 vmState) (v_or summary.2 exception) appLog
  else ok vmState exception VUndef.

(** The [try] block. *)
Definition relay_claimed (fuel : nat) (payload : val) (requestId contractHash method : string) : nprog reply :=
  context <-- loadNeoN3Context payload true true ;;
  match context with
  | None => Throw "Cannot read properties of null (reading 'rpcUrl')"
  | Some ctx =>
      params <-- throw_err (param_list payload) ;;
      if skips_simulation payload then broadcast fuel payload requestId contractHash method ctx params VNull
      else
        scope <-- throw_err (signer_scope payload) ;;
        simulation <-- await (TestInvoke ctx contractHash method params scope) ;;
        if (js_String (v_or (get simulation "state") (VStr "")) =? "FAULT")%string then
          forget requestId ;;;
          Ret (400, VObj [("request_id", VStr requestId);
                          ("error", v_or (get simulation "exception") (VStr "Neo invocation simulation failed"));
                          ("vm_state", v_or (get simulation "state") (VStr "FAULT"))])
        else broadcast fuel payload requestId contractHash method ctx params simulation
  end.

Definition relayNeoN3Invocation (fuel : nat) (payload : val) : nprog reply :=
  requestId <-- (if (request_id_of payload =? "")%string then uuid <-- await NewUUID ;; Ret ("txproxy:" +:+ uuid)
                 else Ret (request_id_of payload)) ;;
  contractHash <-- throw_err (normalizeContractHash address_hash (get payload "contract_hash")) ;;
  let method := canonicalizeMethodName (get payload "method") in
  if (method =? "")%string then Throw "method required"
  else
    allowed <-- local (fun now _ s =>
      let '(allowed, cache) := allowlistAllows json_parse process_env address_hash (VStr contractHash) (VStr method)
                                 payload now (ns_allow s) in
      (allowed, RelayState cache (ns_seen s))) ;;
    allowed <-- throw_err allowed ;;
    if negb allowed then Ret (403, VObj [("error", VStr "contract/method not allowed")])
    else
      intentError <-- throw_err (checkNeoIntentPolicy json_parse process_env address_hash
        (VObj (spread (obj_fields payload) [("contract_hash", VStr contractHash); ("method", VStr method)]))) ;;
      match intentError with
      | Some (status, error) => Ret (status, VObj [("error", VStr error)])
      | None =>
          fresh <-- local (fun now _ s =>
            let '(fresh, seen) := rememberRequestId requestId now (ns_seen s) in (fresh, set_seen seen s)) ;;
          if negb fresh then
            Ret (409, VObj [("error", VStr "request_id already used"); ("request_id", VStr requestId)])
          else
            outcome <-- attempt (relay_claimed fuel payload requestId contractHash method) ;;
            match outcome with
            | inr r => Ret r
            | inl message =>
                forget requestId ;;;
                Ret (400, VObj [("request_id", VStr requestId); ("error", VStr (sanitizeErrorMessage message))])
            end
      end.

Definition raw_transaction (payload : val) : val :=
  v_or (get payload "raw_transaction") (v_or (get payload "raw_tx") (v_or (get payload "signed_tx")
    (v_or (get payload "tx_base64") (get payload "tx_hex")))).

Definition broadcastNeoN3RawTransaction (fuel : nat) (payload : val) : nprog val :=
  flag <-- throw_err (setting ["MORPHEUS_ALLOW_RAW_BROADCAST"]) ;;
  if negb (boolean_setting (VStr flag) false) then
    Ret (VObj [("target_chain", VStr "neo_n3"); ("status", VNum 403);
               ("error", VStr "raw broadcast requires MORPHEUS_ALLOW_RAW_BROADCAST=true")])
  else
    context <-- loadNeoN3Context payload false true ;;
    match context with
    | None => Throw "Cannot read properties of null (reading 'rpcUrl')"
    | Some ctx =>
        raw <-- throw_err (normalizeNeoRawTransaction (raw_transaction payload)) ;;
        txHashRaw <-- await (SendRawTransaction (Some ctx) raw) ;;
        let txHash := normalized_tx_hash txHashRaw in
        appLog <-- (if truthy (get payload "wait") then wait_for_payload fuel payload txHash else Ret VUndef) ;;
        Ret (VObj [("target_chain", VStr "neo_n3"); ("tx_hash", VStr txHash); ("app_log", appLog)])
    end.

Definition normalizeTargetChain (value : val) : string + string :=
  let normalized := toLowerCase (coerceTrim (v_or value (VStr "neo_n3"))) in
  if bool_decide (normalized ∈ ["neo_n3"; "neox"]) then inr normalized
  else inl ("unsupported target_chain: " +:+ js_String value).

Definition handleRelayTransaction (fuel : nat) (payload : val) : nprog reply :=
  targetChain <-- throw_err (normalizeTargetChain (get payload "target_chain")) ;;
  if negb (targetChain =? "neo_n3")%string then Ret (400, VObj [("error", VStr "unsupported target_chain")])
  else if truthy (v_or (get payload "tx_base64") (get payload "txBase64"))
          && truthy (v_or (get payload "user_address") (get payload "userAddress")) then
    sponsored <-- await (SponsorTransaction payload) ;; Ret (200, sponsored)
  else if truthy (raw_transaction payload) then
    sent <-- broadcastNeoN3RawTransaction fuel payload ;; Ret (200, sent)
  else relayNeoN3Invocation fuel payload.

Definition handleTxProxyInvoke (fuel : nat) (payload : val) : nprog reply := relayNeoN3Invocation fuel payload.
End relay.
