(* ===== verification/RelaySpec.v ===== *)
(** * What the transaction relay guarantees

    Every invocation is allowed and passes its intent's policy; a request id is
    used once; the ids remembered stay bounded; a wait ends. *)
From stdpp Require Import gmap strings.
From S2P Require Import Prelude Numbers Strings Values Effects Encoding Doubles Text WorkerCore Allowlist Relay.
From Stdlib Require Import QArith.
#[local] Open Scope list_scope.
#[local] Open Scope Z_scope.

Abbreviation nobs := (obs relay_state ncall).

Lemma trim_head s a r : trim s = String a r -> js_space a = false.
Proof.
  unfold trim. induction s as [|b s IH]; [done|]. cbn [trimStart]. destruct (js_space b) eqn:Hb; [exact IH|].
  cbn [trimEnd]. destruct (all_space _); [done|]. by intros [= -> _].
Qed.

Lemma stable_throw_err {A} (J : relay_state -> list nobs -> Prop) (r : string + A) : stable J (throw_err r).
Proof. destruct r; [apply stable_throw|apply stable_ret]. Qed.

Section relay_spec.
Context (json_parse : string -> option val) (process_env : string -> string) (address_hash : string -> option string)
  (hex_to_base64 : string -> string).
#[local] Set Default Proof Using "All".
#[local] Abbreviation build := (build_allowlist json_parse process_env address_hash).

(** What is documented of an address: a base58 text, which has no digit 0; a
    script hash has forty digits. *)
Definition addresses_ok : Prop := forall text hash, address_hash text = Some hash ->
  startsWith text "0x" = false /\ hash_body (toLowerCase hash) = true.

Lemma hash_text_trim hex : hash_body hex = true -> trim ("0x" +:+ hex) = "0x" +:+ hex.
Proof.
  intros [_ Hh]%andb_true_iff. apply trim_no_space. rewrite str_forall_app. apply andb_true_iff. split; [done|].
  by apply hash_digits_solid.
Qed.

Lemma normal_idem v :
  addresses_ok -> normalizeNeoHash160 address_hash v <> "" ->
  normalizeNeoHash160 address_hash (VStr (normalizeNeoHash160 address_hash v)) = normalizeNeoHash160 address_hash v.
Proof.
  intros Hlaw. assert (forall hex, hash_body hex = true ->
    normalizeNeoHash160 address_hash (VStr ("0x" +:+ hex)) = "0x" +:+ hex) as Hfix.
  { intros hex Hhex. unfold normalizeNeoHash160. assert (coerceTrim (VStr ("0x" +:+ hex)) = "0x" +:+ hex) as ->.
    { unfold coerceTrim. cbn. by apply hash_text_trim. }
    change (("0x" +:+ hex =? "")%string) with false. cbn [negb].
    destruct (address_hash ("0x" +:+ hex)) as [h|] eqn:Ha.
    { destruct (Hlaw _ _ Ha) as [Hs _]. change ("0x" +:+ hex) with (String "0" (String "x" hex)) in Hs. by destruct hex. }
    unfold strip0x. rewrite hash_text_trim by done. change ("0x" +:+ hex) with (String "0" (String "x" hex)). cbn beta iota.
    apply andb_true_iff in Hhex as Hh. destruct Hh as [_ Hd]. by rewrite hash_digits_lower, Hhex. }
  unfold normalizeNeoHash160 at 1 3 4. destruct (_ =? "")%string; [done|].
  destruct (address_hash (coerceTrim v)) as [h|] eqn:Ha.
  - intros _. apply Hfix. by apply (Hlaw _ _ Ha).
  - destruct (hash_body _) eqn:Hb; [|done]. intros _. by apply Hfix.
Qed.

Lemma method_idem v : canonicalizeMethodName (VStr (canonicalizeMethodName v)) = canonicalizeMethodName v.
Proof.
  unfold canonicalizeMethodName. destruct (coerceTrim v) as [|a rest] eqn:Hv; [done|].
  assert (trim (String a rest) = String a rest) as Ht by (rewrite <-Hv; apply trim_idem).
  assert (trim (String (lower a) rest) = String (lower a) rest) as Ht'.
  { revert Ht. unfold trim. cbn [trimStart]. rewrite lower_space. destruct (js_space a) eqn:Ha.
    - by rewrite (trim_head _ _ _ Hv) in Ha.
    - cbn [trimEnd all_space]. rewrite lower_space, Ha. cbn [andb]. by intros [= ->]. }
  unfold coerceTrim. cbn [v_or truthy String.eqb negb js_String]. rewrite Ht'. by rewrite lower_idem.
Qed.

(** The cached lists are those the configuration builds. *)
Definition cache_ok (s : relay_state) : Prop :=
  forall network t al, ns_allow s !! network = Some (t, al) -> build network = inr al.

(** A call of [payload]: of its own contract and method with its own parameters,
    which the list of its network allows and the policy of its intent lets pass. *)
Definition permitted (payload : val) (contractHash method : string) (params : list contract_param) : Prop :=
  normalizeContractHash address_hash (get payload "contract_hash") = inr contractHash /\
  canonicalizeMethodName (get payload "method") = method /\
  param_list payload = inr params /\
  (exists al, build (resolveAllowlistNetwork payload) = inr al /\ list_allows al contractHash method = true) /\
  checkNeoIntentPolicy json_parse process_env address_hash
    (VObj (spread (obj_fields payload) [("contract_hash", VStr contractHash); ("method", VStr method)])) = inr None.

(** The key that signs: the caller's own, else the one pinned for the network. *)
Definition signing_key (payload : val) (key : string) (tr : list nobs) : Prop :=
  (key = caller_key payload /\ key <> "") \/
  (caller_key payload = "" /\
   exists configured, env json_parse process_env ["MORPHEUS_NETWORK"; "NEXT_PUBLIC_MORPHEUS_NETWORK"] = inr configured /\
     let fallback := normalizeMorpheusNetwork (VStr (if (configured =? "")%string then "testnet" else configured)) "testnet" in
     OCall (PinnedSigner (resolvePayloadNetwork payload fallback)) (inr key) ∈ tr).

(** The node: of the payload, else of the network's settings, and let through by
    the check of RPC hosts. *)
Definition node_url (payload : val) (rpcUrl : string) (tr : list nobs) : Prop :=
  rpcUrl <> "" /\ OCall (RpcUrlAllowed rpcUrl) (inr tt) ∈ tr /\
  exists url, rpcUrl = trim url /\
    if (coerceTrim (get payload "rpc_url") =? "")%string
    then envForNetwork json_parse process_env (resolvePayloadNetwork payload "testnet") ["NEO_RPC_URL"] = inr url
    else url = coerceTrim (get payload "rpc_url").

(** The context of an invocation, as the calls before it show. *)
Definition context_of (payload : val) (ctx : relay_context) (tr : list nobs) : Prop :=
  (exists key, signing_key payload key tr /\ OCall (NeoAccount key) (inr (rc_account ctx)) ∈ tr) /\
  node_url payload (rc_rpcUrl ctx) tr.

(** Simulations carry the least scope unless the operator opted out of it. *)
Definition least_scope (scope : string) : Prop :=
  scope = "CalledByEntry" \/ exists flag, env json_parse process_env ["MORPHEUS_ALLOW_GLOBAL_SCOPE"] = inr flag /\
    boolean_setting (VStr flag) false = true.

Definition invocation_ok (payload : val) (o : nobs) (rest : list nobs) : Prop :=
  match o with
  | OCall (TestInvoke ctx h m ps scope) _ => permitted payload h m ps /\ context_of payload ctx rest /\ least_scope scope
  | OCall (Invoke ctx h m ps) _ => permitted payload h m ps /\ context_of payload ctx rest
  | OCall (SendRawTransaction _ _) _ => False
  | _ => True
  end.

Lemma contract_hash_canonical v h : normalizeContractHash address_hash v = inr h -> h <> "".
Proof. unfold normalizeContractHash. by destruct (String.eqb_spec (normalizeNeoHash160 address_hash v) "") as [|]; [|intros [= <-]]. Qed.

Lemma allowlist_sound contractHash method payload now s verdict cache :
  cache_ok s ->
  allowlistAllows json_parse process_env address_hash contractHash method payload now (ns_allow s) = (verdict, cache) ->
  cache_ok (RelayState cache (ns_seen s)) /\
  (verdict = inr true -> exists al hash, build (resolveAllowlistNetwork payload) = inr al /\
     normalizeContractHash address_hash contractHash = inr hash /\ list_allows al hash (canonicalizeMethodName method) = true).
Proof.
  intros Hc. unfold allowlistAllows, buildTxProxyAllowlist. set (network := resolveAllowlistNetwork payload).
  set (fresh := match _ with Some _ => _ | None => None end).
  assert (forall al, fresh = Some al -> build network = inr al) as Hfresh.
  { subst fresh. intros al. destruct (ns_allow s !! network) as [[t al']|] eqn:Hl; [|done].
    destruct (_ <? _); [|done]. intros [= <-]. by apply (Hc network t). }
  assert (forall al, build network = inr al ->
    (al0 <-e inr al ;; hash <-e normalizeContractHash address_hash contractHash ;;
     inr (match al0 !! hash with Some entry => entry_allows entry (canonicalizeMethodName method) | None => false end)) = inr true ->
    exists al hash, build network = inr al /\ normalizeContractHash address_hash contractHash = inr hash /\
      list_allows al hash (canonicalizeMethodName method) = true) as Hv.
  { intros al Hb. cbn [bind_err]. destruct (normalizeContractHash _ _) as [|hash]; [done|]. cbn [bind_err].
    intros [= Hm]. exists al, hash. done. }
  destruct fresh as [al|]; [intros [= <- <-]; split; [done|]; intros H; by apply (Hv al (Hfresh _ eq_refl))|].
  destruct (build network) as [|al] eqn:Hb; [by intros [= <- <-]|]. intros [= <- <-]. split.
  - intros n t al'. cbn [ns_allow]. destruct (decide (network = n)) as [<-|Hn].
    + rewrite lookup_insert_eq. by intros [= _ <-].
    + rewrite lookup_insert_ne by done. apply Hc.
  - intros H. by apply (Hv al).
Qed.

#[local] Abbreviation ok payload := (fun (s : relay_state) tr => cache_ok s /\ trace_ok (invocation_ok payload) tr).

#[local] Ltac relay_step :=
  first [stable_step | apply stable_throw_err
        | apply stable_await; by intros ??? [??] ].

Lemma stable_poll payload fuel txHash deadline poll : stable (ok payload) (poll_application_log fuel txHash deadline poll).
Proof.
  induction fuel as [|fuel IH]; cbn [poll_application_log]; [apply stable_throw|].
  repeat (relay_step || case_match || exact IH).
Qed.

Lemma stable_wait payload fuel p txHash : stable (ok payload) (wait_for_payload fuel p txHash).
Proof. unfold wait_for_payload, waitForNeoApplicationLog. repeat relay_step. apply stable_poll. Qed.

Lemma context_of_mono payload ctx t tr : context_of payload ctx tr -> context_of payload ctx (t ++ tr).
Proof.
  intros [(key & Hk & Ha) (Hne & Hu & Hurl)]. split.
  - exists key. split; [|apply elem_of_app; by right]. destruct Hk as [?|(? & c & ? & Hin)]; [by left|right].
    split; [done|]. exists c. split; [done|]. apply elem_of_app. by right.
  - split; [done|]. split; [apply elem_of_app; by right|done].
Qed.

(** The states after which the context is known. *)
#[local] Abbreviation okc payload ctx :=
  (fun (s : relay_state) tr => (cache_ok s /\ trace_ok (invocation_ok payload) tr) /\ context_of payload ctx tr).

Lemma stable_okc {A} payload ctx (p : nprog A) : stable (ok payload) p -> stable (okc payload ctx) p.
Proof. intros Hp. apply (stable_and _ (fun _ tr => context_of payload ctx tr)); [exact Hp|]. apply stable_mono. apply context_of_mono. Qed.

(** An awaited call that is not an invocation keeps the invariant, and its answer
    is at the head of the trace. *)
Lemma await_context {X} payload (P : list nobs -> Prop) (c : ncall X) :
  (forall r tr, invocation_ok payload (OCall c r) tr) -> (forall t tr, P tr -> P (t ++ tr)) ->
  hoare (fun s tr => ok payload s tr /\ P tr) (await c)
    (fun o s tr => (ok payload s tr /\ P tr) /\ forall x, o = inr x -> OCall c (inr x) ∈ tr).
Proof.
  intros Hc HP. apply hoare_await. intros r s tr [[Hs Htr] Hp]. 
  assert (trace_ok (invocation_ok payload) (OCall c r :: tr)) as Hok by by split.
  assert (P (OCall c r :: tr)) as Hp' by by apply (HP [_]).
  destruct r as [m|x]; (split; [done|]); intros y [= <-]. by left.
Qed.

Lemma load_key payload :
  hoare (ok payload) (if (caller_key payload =? "")%string then resolveNeoN3SigningKey json_parse process_env payload
                      else Ret (caller_key payload))
    (fun o s tr => ok payload s tr /\ forall key, o = inr key -> signing_key payload key tr).
Proof.
  destruct (String.eqb_spec (caller_key payload) "") as [Hk|Hk].
  - unfold resolveNeoN3SigningKey. destruct (env _ _ _) as [m|configured] eqn:Henv; [by apply hoare_throw|].
    cbn [throw_err bind]. cbv zeta. set (network := resolvePayloadNetwork _ _).
    eapply hoare_conseq; [by apply (await_context payload (fun _ => True) (PinnedSigner network))|by intros s tr Hs|].
    intros o s tr [[Hs _] Ho]. split; [done|]. intros key ->. right. split; [done|]. exists configured. split; [done|]. by apply Ho.
  - apply hoare_ret. intros s tr Hs. split; [done|]. intros key [= <-]. by left.
Qed.

Lemma signing_key_mono payload key t tr : signing_key payload key tr -> signing_key payload key (t ++ tr).
Proof.
  intros [?|(? & c & ? & Hin)]; [by left|right]. split; [done|]. exists c. split; [done|]. apply elem_of_app. by right.
Qed.

Lemma node_url_mono payload url t tr : node_url payload url tr -> node_url payload url (t ++ tr).
Proof. intros (Hne & Hu & Hurl). split; [done|]. split; [apply elem_of_app; by right|done]. Qed.

Lemma load_context payload :
  hoare (ok payload) (loadNeoN3Context json_parse process_env payload true true)
    (fun o s tr => ok payload s tr /\ forall ctx, o = inr (Some ctx) -> context_of payload ctx tr).
Proof.
  unfold loadNeoN3Context. cbv zeta.
  eapply hoare_bind with (mid := fun key s tr => ok payload s tr /\ signing_key payload key tr).
  { eapply hoare_conseq; [apply load_key|done|]. intros [m|key] s tr [Hs Hk]; [by split|]. split; [done|by apply Hk]. }
  intros key. destruct (key =? "")%string; [apply hoare_throw; by intros s tr [Hs _]|].
  set (network := resolvePayloadNetwork payload "testnet").
  set (source := fun url => if (coerceTrim (get payload "rpc_url") =? "")%string
    then envForNetwork json_parse process_env network ["NEO_RPC_URL"] = inr url else url = coerceTrim (get payload "rpc_url")).
  eapply hoare_bind with (mid := fun url s tr => (ok payload s tr /\ signing_key payload key tr) /\ source url).
  { unfold source. case_match; [|by apply hoare_ret].
    destruct (envForNetwork _ _ _ _) as [e|u]; [apply hoare_throw; by intros s tr [Hs _]|by apply hoare_ret]. }
  intros url. unfold validateRpcUrl. destruct (String.eqb_spec (trim url) "") as [Hu|Hu].
  { cbn [bind]. rewrite Hu. apply hoare_throw. by intros s tr [[Hs _] _]. }
  eapply hoare_bind with (mid := fun rpcUrl s tr => ok payload s tr /\ signing_key payload key tr /\ node_url payload rpcUrl tr).
  { eapply hoare_bind with (mid := fun _ s tr => ok payload s tr /\ signing_key payload key tr /\ node_url payload (trim url) tr);
      [|intros []; by apply hoare_ret].
    eapply hoare_conseq; [apply (await_context payload (fun tr => signing_key payload key tr /\ source url))| |].
    { done. }
    { intros t tr [Hk Hsrc]. split; [by apply signing_key_mono|done]. }
    { by intros s tr [[Hs Hk] Hsrc]. }
    intros [m|[]] s tr [[Hs [Hk Hsrc]] Ho]; [by split|].
    split; [done|]. split; [done|]. split; [done|]. split; [by apply Ho|]. by exists url. }
  intros rpcUrl. case_match; [apply hoare_throw; by intros s tr [Hs _]|].
  set (magic := if truthy (get payload "network_magic") then _ else _).
  eapply hoare_bind with (mid := fun _ s tr => ok payload s tr /\ signing_key payload key tr /\ node_url payload rpcUrl tr).
  { subst magic. case_match; [by apply hoare_ret|]. destruct (envForNetwork _ _ _ ["NEO_NETWORK_MAGIC"]) as [e|u];
      [apply hoare_throw; by intros s tr [Hs _]|by apply hoare_ret]. }
  intros m. eapply hoare_bind with (mid := fun account s tr => (ok payload s tr /\ signing_key payload key tr /\ node_url payload rpcUrl tr) /\
    OCall (NeoAccount key) (inr account) ∈ tr).
  { eapply hoare_conseq; [apply (await_context payload (fun tr => signing_key payload key tr /\ node_url payload rpcUrl tr))| |].
    { done. }
    { intros t tr [Hk Hn]. split; [by apply signing_key_mono|by apply node_url_mono]. }
    { done. }
    intros [e|account] s tr [Hs Ho]; [split; [apply Hs|done]|]. split; [done|by apply Ho]. }
  intros account. apply hoare_ret. intros s tr [(Hs & Hk & Hn) Ha]. split; [done|]. intros ctx [= <-].
  split; [by exists key|done].
Qed.

Lemma stable_forget payload id : stable (ok payload) (forget id).
Proof. apply stable_local. by intros now rng s tr [Hc Htr]. Qed.

Lemma stable_broadcast payload fuel id h m ctx ps sim :
  permitted payload h m ps -> stable (okc payload ctx) (broadcast fuel payload id h m ctx ps sim).
Proof.
  intros Hp. unfold broadcast. apply stable_bind.
  - apply hoare_await. intros r s tr [[Hc Htr] Hctx].
    assert (okc payload ctx s (OCall (Invoke ctx h m ps) r :: tr)) as Hok.
    { split; [split; [done|by split]|]. by apply (context_of_mono _ _ [_]). }
    by destruct r.
  - intros raw. cbv zeta. case_match; [|apply stable_ret].
    apply stable_bind; [apply stable_okc, stable_wait|intros log; apply stable_ret].
Qed.

Lemma stable_claimed payload fuel id h m :
  (forall ps, param_list payload = inr ps -> permitted payload h m ps) ->
  stable (ok payload) (relay_claimed json_parse process_env fuel payload id h m).
Proof.
  intros Hp. unfold relay_claimed.
  eapply hoare_bind with (mid := fun c s tr => ok payload s tr /\ forall ctx, c = Some ctx -> context_of payload ctx tr).
  { eapply hoare_conseq; [apply load_context|done|]. intros [e|c] s tr [Hs Hc]; [done|]. split; [done|].
    intros ctx ->. by apply Hc. }
  intros [ctx|]; [|apply hoare_throw; by intros s tr [Hs _]].
  assert (forall A (p : nprog A), stable (okc payload ctx) p ->
    hoare (fun s tr => ok payload s tr /\ forall c, Some ctx = Some c -> context_of payload c tr) p (fun _ => ok payload)) as Hweak.
  { intros A p H. eapply hoare_conseq; [exact H|intros s tr [Hs Hc]; split; [done|by apply Hc]|by intros o s tr [Hs _]]. }
  apply Hweak. clear Hweak. destruct (param_list payload) as [e|ps] eqn:Hps; [apply stable_throw|]. cbn [throw_err bind].
  specialize (Hp ps eq_refl). destruct (skips_simulation payload); [by apply stable_broadcast|].
  unfold signer_scope. destruct (env _ _ _) as [m0|flag] eqn:Hflag; [apply stable_throw|]. cbn [bind_err throw_err bind].
  apply stable_bind.
  - apply stable_await. intros r s tr [[Hc Htr] Hctx]. split; [|by apply (context_of_mono _ _ [_])].
    split; [done|]. split; [split_and!; [apply Hp..|done|]|done].
    destruct (boolean_setting (VStr flag) false) eqn:Hb; [right; eauto|by left].
  - intros sim. case_match; [|by apply stable_broadcast].
    apply stable_bind; [apply stable_okc, stable_forget|intros _; apply stable_ret].
Qed.

Lemma allowed_step payload h m :
  addresses_ok -> normalizeContractHash address_hash (get payload "contract_hash") = inr h ->
  canonicalizeMethodName (get payload "method") = m ->
  hoare (ok payload) (local (fun now _ s =>
      let '(allowed, cache) := allowlistAllows json_parse process_env address_hash (VStr h) (VStr m) payload now (ns_allow s) in
      (allowed, RelayState cache (ns_seen s))))
    (fun o s tr => ok payload s tr /\ (o = inr (inr true) ->
       exists al, build (resolveAllowlistNetwork payload) = inr al /\ list_allows al h m = true)).
Proof.
  intros Hlaw Hh Hm. apply hoare_local. intros now _ s tr [Hc Htr].
  destruct (allowlistAllows _ _ _ _ _ _ _ _) as [verdict cache] eqn:Hal. cbn [fst snd].
  destruct (allowlist_sound _ _ _ _ _ _ _ Hc Hal) as [Hc' Hv]. split; [done|]. intros [= ->].
  destruct (Hv eq_refl) as (al & hash & Hb & Hn & Ha). exists al. split; [done|].
  rewrite <-Hm, method_idem, Hm in Ha.
  assert (normalizeContractHash address_hash (VStr h) = inr h) as Hidem; [|rewrite Hidem in Hn; by injection Hn as <-].
  revert Hh. unfold normalizeContractHash. destruct (String.eqb_spec (normalizeNeoHash160 address_hash (get payload "contract_hash")) "");
    [done|]. intros [= <-]. rewrite normal_idem by done. by destruct (String.eqb_spec (normalizeNeoHash160 address_hash (get payload "contract_hash")) "").
Qed.

(** From the allow-list on. *)
Lemma relay_stable fuel payload :
  addresses_ok -> stable (ok payload) (relayNeoN3Invocation json_parse process_env address_hash fuel payload).
Proof.
  intros Hlaw. unfold relayNeoN3Invocation. apply stable_bind; [case_match; repeat relay_step|intros id].
  destruct (normalizeContractHash _ _) as [|h] eqn:Hh; [apply stable_throw|]. cbn [throw_err bind].
  set (m := canonicalizeMethodName _). cbv zeta. destruct (m =? "")%string; [apply stable_throw|].
  eapply hoare_bind with (mid := fun verdict s tr => ok payload s tr /\ (verdict = inr true ->
    exists al, build (resolveAllowlistNetwork payload) = inr al /\ list_allows al h m = true)).
  { eapply hoare_conseq; [by apply (allowed_step payload h m)|done|]. intros [msg|v] s tr [Hok Hv]; [done|].
    split; [done|]. intros ->. by apply Hv. }
  intros [e|[]]; cbn [throw_err bind negb]; [by apply hoare_throw; intros ?? []| |by apply hoare_ret; intros ?? []].
  destruct (checkNeoIntentPolicy _ _ _ _) as [|[[st er]|]] eqn:Hpol; cbn [throw_err bind];
    [by apply hoare_throw; intros ?? []|by apply hoare_ret; intros ?? []|].
  intros en s tr [Hok Hal]. revert en s tr Hok. assert (forall ps, param_list payload = inr ps -> permitted payload h m ps) as Hp by (intros ps Hps; split_and!; auto).
  change (stable (ok payload) (fresh <-- local (fun now _ s =>
            let '(fresh, seen) := rememberRequestId id now (ns_seen s) in (fresh, set_seen seen s)) ;;
    if negb fresh then Ret (409, VObj [("error", VStr "request_id already used"); ("request_id", VStr id)])
    else outcome <-- attempt (relay_claimed json_parse process_env fuel payload id h m) ;;
         match outcome with
         | inr r => Ret r
         | inl message => forget id ;;;
             Ret (400, VObj [("request_id", VStr id); ("error", VStr (sanitizeErrorMessage message))])
         end)%prog).
  apply stable_bind.
  - apply stable_local. intros now rng s tr [Hc Htr]. by destruct (rememberRequestId _ _ _).
  - intros []; cbn [negb]; [|apply stable_ret]. apply stable_bind; [by apply stable_attempt, stable_claimed|].
    intros [msg|r]; [|apply stable_ret]. apply stable_bind; [apply stable_forget|intros _; apply stable_ret].
Qed.

Definition is_invoke X (c : ncall X) : bool := match c with Invoke _ _ _ _ => true | _ => false end.

Lemma calls_after {A B} n (p : nprog A) (k : A -> nprog B) :
  calls_at_most is_invoke 0 p -> (forall a, calls_at_most is_invoke n (k a)) -> calls_at_most is_invoke n (bind p k).
Proof. apply (calls_bind is_invoke 0 n). Qed.

Lemma calls_before {A B} n (p : nprog A) (k : A -> nprog B) :
  calls_at_most is_invoke n p -> (forall a, calls_at_most is_invoke 0 (k a)) -> calls_at_most is_invoke n (bind p k).
Proof. intros Hp Hk. rewrite <-(Nat.add_0_r n). by apply calls_bind. Qed.

#[local] Ltac no_invoke :=
  cbv zeta; repeat first [done | apply calls_after; [|intros ?] | apply calls_attempt | (by intros [])
    | match goal with |- calls_at_most _ _ (throw_err ?r) => destruct r end | case_match ].

Lemma no_invoke_poll fuel txHash deadline poll : calls_at_most is_invoke 0 (poll_application_log fuel txHash deadline poll).
Proof. induction fuel as [|fuel IH]; cbn [poll_application_log]; [done|]. no_invoke; exact IH. Qed.

Lemma no_invoke_wait fuel payload txHash : calls_at_most is_invoke 0 (wait_for_payload fuel payload txHash).
Proof. unfold wait_for_payload, waitForNeoApplicationLog. apply calls_after; [done|intros now; apply no_invoke_poll]. Qed.

Lemma no_invoke_context payload a b : calls_at_most is_invoke 0 (loadNeoN3Context json_parse process_env payload a b).
Proof. unfold loadNeoN3Context, resolveNeoN3SigningKey, validateRpcUrl. no_invoke. Qed.

Lemma one_broadcast fuel payload id h m ctx ps sim : calls_at_most is_invoke 1 (broadcast fuel payload id h m ctx ps sim).
Proof.
  unfold broadcast. apply calls_before; [by intros []|intros raw]. cbv zeta. case_match; [|done].
  apply calls_after; [apply no_invoke_wait|done].
Qed.

Lemma relay_once fuel payload :
  calls_at_most is_invoke 1 (relayNeoN3Invocation json_parse process_env address_hash fuel payload).
Proof.
  unfold relayNeoN3Invocation. apply calls_after; [no_invoke|intros id]. apply calls_after; [no_invoke|intros h].
  cbv zeta. case_match; [done|]. apply calls_after; [done|intros v]. apply calls_after; [no_invoke|intros b].
  case_match; [done|]. apply calls_after; [no_invoke|intros [[]|]]; [done|]. apply calls_after; [done|intros fresh].
  destruct fresh; cbn [negb]; [|done]. apply calls_before; [apply calls_attempt|intros []; done].
  unfold relay_claimed. apply calls_after; [apply no_invoke_context|intros [ctx|]; [|done]].
  apply calls_after; [no_invoke|intros ps]. case_match; [apply one_broadcast|]. apply calls_after; [no_invoke|intros sc].
  apply calls_after; [by intros []|intros sim]. case_match; [done|apply one_broadcast].
Qed.

(** C27.  Every relayed transaction is allowed.  Whatever the node and the signer
    answer, a relay of a payload simulates and broadcasts nothing but the
    payload's own call: its contract, its method and its parameters, that the
    configuration allows on the payload's network and that the policy of its
    intent lets pass; it does so with the account of the caller's own key, or
    else of the key pinned for the network, and through the payload's or the
    configured node, which the check of RPC hosts let through; it broadcasts at
    most once; and a simulation asks for no more than [CalledByEntry] unless the
    operator switched wider scopes on. *)
Theorem relay_permitted : forall fuel payload en s,
  addresses_ok -> cache_ok s ->
  let '(_, s', tr) := run en (relayNeoN3Invocation json_parse process_env address_hash fuel payload) s [] in
  cache_ok s' /\ trace_ok (invocation_ok payload) tr /\ (count_obs is_invoke tr <= 1)%nat.
Proof.
  intros fuel payload en s Hlaw Hc.
  pose proof (relay_stable fuel payload Hlaw en s [] (conj Hc I)) as H.
  pose proof (calls_run is_invoke 1 en _ s [] (relay_once fuel payload)) as Hn. revert H Hn.
  destruct (run en (relayNeoN3Invocation _ _ _ _ _) s []) as [[o s'] tr]. intros [? ?] Hn. cbn in Hn. split_and!; [done..|lia].
Qed.

(** ** Request ids *)

Definition seen_ok (seen : list (string * Z)) : Prop :=
  NoDup seen.*1 /\ Z.of_nat (length seen) <= MAX_SEEN_REQUEST_IDS.

Lemma insert_by_time_perm e l : insert_by_time e l ≡ₚ e :: l.
Proof.
  induction l as [|x l IH]; [done|]. cbn [insert_by_time]. case_match; [done|]. rewrite IH. apply Permutation_swap.
Qed.

Lemma by_time_perm l : by_time l ≡ₚ l.
Proof.
  unfold by_time. assert (forall acc, foldl (fun acc e => insert_by_time e acc) acc l ≡ₚ acc ++ l) as H; [|apply (H [])].
  induction l as [|x l IH]; intros acc; cbn [foldl]; [by rewrite app_nil_r|].
  rewrite IH, insert_by_time_perm. by rewrite <-Permutation_middle.
Qed.

Lemma NoDup_filter_fst (P : string * Z -> Prop) `{forall e, Decision (P e)} (l : list (string * Z)) :
  NoDup l.*1 -> NoDup (filter P l).*1.
Proof. intros Hnd. eapply sublist_NoDup; [exact Hnd|]. apply fmap_sublist, sublist_filter. Qed.

Lemma evict_room seen :
  seen_ok seen -> NoDup (evict_oldest seen).*1 /\ Z.of_nat (length (evict_oldest seen)) < MAX_SEEN_REQUEST_IDS.
Proof.
  intros [Hnd Hlen]. unfold evict_oldest. destruct (Z.ltb_spec (Z.of_nat (length seen)) MAX_SEEN_REQUEST_IDS) as [|Hge]; [done|].
  split; [by apply NoDup_filter_fst|].
  assert (exists x, x ∈ seen /\ x.1 ∈ (take (Z.to_nat ((Z.of_nat (length seen) + 3) / 4)) (by_time seen)).*1) as (x & Hx & Hd).
  { pose proof (by_time_perm seen) as Hp. destruct (by_time seen) as [|x l] eqn:Hb.
    - apply Permutation_nil_l in Hp. subst seen. cbn in Hge. unfold MAX_SEEN_REQUEST_IDS in Hge. lia.
    - exists x. split; [rewrite <-Hp; by left|].
      assert (0 < (Z.of_nat (length seen) + 3) / 4) as Hpos by (unfold MAX_SEEN_REQUEST_IDS in Hge; apply Z.div_str_pos; lia).
      destruct (Z.to_nat ((Z.of_nat (length seen) + 3) / 4)) as [|n] eqn:Hn; [lia|]. cbn. by left. }
  assert (length (filter (fun e : string * Z => e.1 ∉ (take (Z.to_nat ((Z.of_nat (length seen) + 3) / 4)) (by_time seen)).*1) seen)
    < length seen)%nat as Hlt; [|lia].
  apply (length_filter_lt _ _ x); [done|]. by intros Hn.
Qed.

Lemma prune_ok now seen : seen_ok seen -> seen_ok (pruneSeenRequestIds now seen).
Proof.
  intros [Hnd Hlen]. split; [by apply NoDup_filter_fst|]. unfold pruneSeenRequestIds.
  pose proof (length_filter (fun e : string * Z => now - REPLAY_WINDOW_MS <= e.2) seen). lia.
Qed.

Lemma remember_ok id now seen : seen_ok seen -> seen_ok (rememberRequestId id now seen).2.
Proof.
  intros Hok. unfold rememberRequestId. destruct (evict_room _ (prune_ok now _ Hok)) as [Hnd Hlen].
  case_bool_decide as Hin; cbn [snd]; [split; [done|lia]|]. split.
  - rewrite fmap_app. apply NoDup_app. split; [done|]. split; [|apply NoDup_singleton].
    intros x Hx Hx'. apply list_elem_of_singleton in Hx'. by subst x.
  - rewrite length_app. cbn. lia.
Qed.

Lemma forget_ok id seen : seen_ok seen -> seen_ok (forgetRequestId id seen).
Proof.
  intros [Hnd Hlen]. unfold forgetRequestId. case_match; [done|]. split; [by apply NoDup_filter_fst|].
  pose proof (length_filter (fun e : string * Z => e.1 <> id) seen). lia.
Qed.

(** An id within the window is refused. *)
Lemma remember_refuses id t now seen :
  (id, t) ∈ seen -> now - REPLAY_WINDOW_MS <= t -> Z.of_nat (length seen) < MAX_SEEN_REQUEST_IDS ->
  (rememberRequestId id now seen).1 = false.
Proof.
  intros Hin Ht Hlen. unfold rememberRequestId.
  assert (evict_oldest (pruneSeenRequestIds now seen) = pruneSeenRequestIds now seen) as ->.
  { unfold evict_oldest. pose proof (length_filter (fun e : string * Z => now - REPLAY_WINDOW_MS <= e.2) seen) as Hf.
    unfold pruneSeenRequestIds. by rewrite (proj2 (Z.ltb_lt _ _)) by lia. }
  rewrite bool_decide_true; [done|]. apply list_elem_of_fmap. exists (id, t). split; [done|]. by apply list_elem_of_filter.
Qed.

(** Parts that leave the ids alone. *)
#[local] Abbreviation holds id := (fun (s : relay_state) (_ : list nobs) => id ∈ (ns_seen s).*1).

#[local] Ltac hold_step :=
  first [stable_step | apply stable_throw_err | apply stable_await; by intros ??? ?].

Lemma hold_poll id fuel txHash deadline poll : stable (holds id) (poll_application_log fuel txHash deadline poll).
Proof.
  induction fuel as [|fuel IH]; cbn [poll_application_log]; [apply stable_throw|].
  repeat (hold_step || case_match || exact IH).
Qed.

Lemma hold_context id p a b : stable (holds id) (loadNeoN3Context json_parse process_env p a b).
Proof. unfold loadNeoN3Context, resolveNeoN3SigningKey, validateRpcUrl. cbv zeta. repeat (hold_step || case_match). Qed.

Lemma hold_broadcast id fuel payload h m ctx ps sim : stable (holds id) (broadcast fuel payload id h m ctx ps sim).
Proof.
  unfold broadcast. apply stable_bind; [hold_step|intros raw]. cbv zeta. case_match; [|apply stable_ret].
  apply stable_bind; [|intros log; apply stable_ret].
  unfold wait_for_payload, waitForNeoApplicationLog. repeat hold_step. apply hold_poll.
Qed.

(** A relay that went through keeps its id. *)
Lemma claimed_keeps_id id fuel payload h m :
  hoare (holds id) (relay_claimed json_parse process_env fuel payload id h m)
    (fun o s _ => forall b, o = inr (200, b) -> id ∈ (ns_seen s).*1).
Proof.
  assert (forall ctx ps sim, hoare (holds id) (broadcast fuel payload id h m ctx ps sim)
    (fun o s _ => forall b, o = inr (200, b) -> id ∈ (ns_seen s).*1)) as Hb.
  { intros ctx ps sim. eapply hoare_conseq; [apply (hold_broadcast id fuel payload h m ctx ps sim)|done|]. by intros o s tr H b. }
  unfold relay_claimed. apply hoare_after; [apply hold_context|by intros ????? |].
  intros [ctx|]; [|by apply hoare_throw]. apply hoare_after; [apply stable_throw_err|by intros ?????|intros ps].
  destruct (skips_simulation payload); [apply Hb|]. apply hoare_after; [apply stable_throw_err|by intros ?????|intros sc].
  apply hoare_after; [hold_step|by intros ?????|intros sim]. case_match; [|apply Hb].
  eapply hoare_bind with (mid := fun _ _ _ => True); [by apply hoare_local|]. intros _. apply hoare_ret. by intros s tr _ b.
Qed.

Lemma policy_status p st er :
  checkNeoIntentPolicy json_parse process_env address_hash p = inr (Some (st, er)) -> st <> 200.
Proof.
  unfold checkNeoIntentPolicy, bind_err. repeat (case_match; try done); by intros [= <- _].
Qed.

(** C28.  A request id relays once.  A relay that answers 200 leaves its request id
    remembered; and while an id is remembered within the replay window, a relay
    that carries it broadcasts nothing and does not answer 200, whatever its
    payload asks. *)
Theorem request_id_relays_once : forall fuel payload en s,
  request_id_of payload <> "" ->
  let id := request_id_of payload in
  let '(o, s', tr) := run en (relayNeoN3Invocation json_parse process_env address_hash fuel payload) s [] in
  (forall b, o = inr (200, b) -> id ∈ (ns_seen s').*1) /\
  (forall t, (id, t) ∈ ns_seen s -> env_now en [] <= t + REPLAY_WINDOW_MS ->
   Z.of_nat (length (ns_seen s)) < MAX_SEEN_REQUEST_IDS -> tr = [] /\ forall b, o <> inr (200, b)).
Proof.
  intros fuel payload en s Hid id. unfold relayNeoN3Invocation.
  rewrite (proj2 (String.eqb_neq _ _) Hid). fold id. cbn [bind].
  assert (forall (o : string + (Z * val)) (s' : relay_state), (forall b, o <> inr (200, b)) ->
    (forall b, o = inr (200, b) -> id ∈ (ns_seen s').*1) /\
    (forall t, (id, t) ∈ ns_seen s -> env_now en [] <= t + REPLAY_WINDOW_MS ->
     Z.of_nat (length (ns_seen s)) < MAX_SEEN_REQUEST_IDS -> @nil nobs = [] /\ forall b, o <> inr (200, b))) as Hrefuse.
  { intros o s' Ho. split; [intros b Hb; by destruct (Ho b)|done]. }
  destruct (normalizeContractHash _ _) as [|h]; [by apply Hrefuse|]. cbn [throw_err bind]. cbv zeta.
  destruct (_ =? "")%string; [by apply Hrefuse|]. cbn [local bind run].
  destruct (allowlistAllows _ _ _ _ _ _ _ _) as [[|[]] cache]; cbn [throw_err bind run negb]; [by apply Hrefuse| |by apply Hrefuse].
  destruct (checkNeoIntentPolicy _ _ _ _) as [|[[st er]|]] eqn:Hpol; cbn [throw_err bind run]; [by apply Hrefuse| |].
  { apply Hrefuse. intros b [= -> _]. by apply policy_status in Hpol. }
  destruct (rememberRequestId id (env_now en []) (ns_seen s)) as [fresh seen] eqn:Hrem. cbn [ns_seen]. rewrite Hrem.
  destruct fresh; cbn [negb run]; [|by apply Hrefuse].
  rewrite run_bind, run_attempt.
  assert (id ∈ (ns_seen (set_seen seen (RelayState cache (ns_seen s)))).*1) as Hin.
  { revert Hrem. unfold rememberRequestId. case_bool_decide; [done|]. intros [= <-]. cbn. rewrite fmap_app. set_solver. }
  set (m := canonicalizeMethodName _).
  pose proof (claimed_keeps_id id fuel payload h m en _ [] Hin) as Hkeep. revert Hkeep.
  destruct (run en (relay_claimed _ _ _ _ _ _ _) _ []) as [[[msg|r] s1] tr1]; cbn [run forget modify bind]; intros Hkeep;
    (split; [|intros t Ht Hnow Hlen; pose proof (remember_refuses id t (env_now en []) _ Ht ltac:(lia) Hlen) as Hr;
              by rewrite Hrem in Hr]).
  - by intros b.
  - intros b [= ->]. by apply (Hkeep b).
Qed.

(** The ids stay distinct and within the limit. *)
Definition state_ok (s : relay_state) : Prop := seen_ok (ns_seen s) /\ cache_ok s.

#[local] Ltac safe_steps :=
  cbv zeta; repeat first [done | match goal with
      | |- safe _ (throw_err ?r) => destruct r
      | |- safe _ (bind _ _) => apply safe_bind; [|intros ?]
      | |- safe _ (attempt _) => apply safe_attempt
      | |- safe _ (await _) => apply safe_await
      end | case_match ].

Lemma safe_poll fuel txHash deadline poll : safe state_ok (poll_application_log fuel txHash deadline poll).
Proof. induction fuel as [|fuel IH]; cbn [poll_application_log]; [done|]. safe_steps; exact IH. Qed.

Lemma safe_wait fuel payload txHash : safe state_ok (wait_for_payload fuel payload txHash).
Proof. unfold wait_for_payload, waitForNeoApplicationLog. apply safe_bind; [done|intros now; apply safe_poll]. Qed.

Lemma safe_context payload a b : safe state_ok (loadNeoN3Context json_parse process_env payload a b).
Proof. unfold loadNeoN3Context, resolveNeoN3SigningKey, validateRpcUrl. safe_steps.
Qed.

Lemma safe_broadcast fuel payload id h m ctx ps sim : safe state_ok (broadcast fuel payload id h m ctx ps sim).
Proof.
  unfold broadcast. apply safe_bind; [apply safe_await|intros raw]. cbv zeta. case_match; [|done].
  apply safe_bind; [apply safe_wait|done].
Qed.

Lemma safe_forget id : safe state_ok (forget id).
Proof. apply safe_modify. intros s [Hs Hc]. split; [by apply forget_ok|exact Hc]. Qed.

Lemma safe_relay fuel payload : safe state_ok (relayNeoN3Invocation json_parse process_env address_hash fuel payload).
Proof.
  unfold relayNeoN3Invocation. apply safe_bind; [safe_steps|intros id]. apply safe_bind; [safe_steps|intros h].
  cbv zeta. case_match; [done|]. apply safe_bind.
  { apply safe_local. intros now rng s [Hs Hc]. destruct (allowlistAllows _ _ _ _ _ _ _ _) as [v cache] eqn:Hal.
    cbn [snd]. split; [exact Hs|]. by destruct (allowlist_sound _ _ _ _ _ _ _ Hc Hal). }
  intros v. apply safe_bind; [safe_steps|intros b]. case_match; [done|]. apply safe_bind; [safe_steps|intros [[]|]]; [done|].
  apply safe_bind.
  { apply safe_local. intros now rng s [Hs Hc]. pose proof (remember_ok id now _ Hs) as Hr.
    destruct (rememberRequestId _ _ _) as [fresh seen]. cbn in *. by split. }
  intros fresh. case_match; [done|]. apply safe_bind; [apply safe_attempt|intros [msg|r]; [|done]].
  2:{ apply safe_bind; [apply safe_forget|done]. }
  unfold relay_claimed. apply safe_bind; [apply safe_context|intros [ctx|]; [|done]]. apply safe_bind; [safe_steps|intros ps].
  case_match; [apply safe_broadcast|]. apply safe_bind; [safe_steps|intros sc]. apply safe_bind; [apply safe_await|intros sim].
  case_match; [|apply safe_broadcast]. apply safe_bind; [apply safe_forget|done].
Qed.

Lemma safe_handle fuel payload : safe state_ok (handleRelayTransaction json_parse process_env address_hash hex_to_base64 fuel payload).
Proof.
  unfold handleRelayTransaction. apply safe_bind; [safe_steps|intros chain]. case_match; [done|].
  case_match; [safe_steps|]. case_match; [|apply safe_relay]. apply safe_bind; [|done].
  unfold broadcastNeoN3RawTransaction. apply safe_bind; [safe_steps|intros flag]. case_match; [done|].
  apply safe_bind; [apply safe_context|intros [ctx|]; [|done]]. apply safe_bind; [safe_steps|intros raw].
  apply safe_bind; [apply safe_await|intros tx]. cbv zeta. apply safe_bind; [case_match; [apply safe_wait|done]|done].
Qed.

(** The replay guard stays sound under concurrency.  However the requests to
    the relay interleave at their awaits, the remembered ids stay distinct and
    within the limit of 50000, and every cached allow-list stays the one the
    configuration builds. *)
Theorem relay_pool_safe : forall fuel payloads s c',
  state_ok s ->
  rtc par_step (handleRelayTransaction json_parse process_env address_hash hex_to_base64 fuel <$> payloads, s) c' ->
  state_ok c'.2.
Proof.
  intros fuel payloads s c' Hs Hsteps. apply (par_steps_safe state_ok _ _ Hsteps); [|exact Hs].
  apply Forall_fmap, Forall_true. intros payload. apply safe_handle.
Qed.
End relay_spec.

(** ** Waiting for the log *)

(** Time passes, at least a millisecond in a sleep, which always ends. *)
Definition clock_runs (en : Effects.env relay_state ncall) : Prop :=
  (forall o tr, env_now en tr <= env_now en (o :: tr)) /\
  (forall ms r tr, env_now en tr + 1 <= env_now en (OCall (Sleep ms) r :: tr)) /\
  (forall tr, 0 <= env_now en tr) /\
  (forall ms tr, env_reply en _ tr (Sleep ms) = inr tt).

(** The log the node answered last, or the timeout. *)
Definition log_or_timeout (txHash : string) (result : (string + val) * relay_state * list nobs) : Prop :=
  match result with
  | (inr log, _, tr) => head tr = Some (OCall (ApplicationLog txHash) (inr log))
  | (inl message, _, _) => message = "timed out waiting for Neo application log: " +:+ txHash
  end.

(** A deadline that has passed, however long ago. *)
Lemma dlt_passed a b : b <= a -> Z.abs b < 2 ^ 53 -> dlt (of_Z a) (of_Z b) = false.
Proof.
  intros Hab Hb. destruct (decide (Z.abs a < 2 ^ 53)) as [Ha|Ha]; [rewrite dlt_Z by done; lia|].
  assert (0 < ONE) as HO by (apply Z.pow_pos_nonneg; lia).
  rewrite (of_Z_exact b) by done. unfold of_Z. rewrite of_ratio_spec by lia. case_match.
  - by replace (a * ONE <? 0) with false by lia.
  - cbn. apply Z.ltb_ge. transitivity (rnd (b * ONE) 1); [|apply rnd_mono; nia].
    assert (representable (b * ONE)) as Hr by (exists b, 1074; unfold ONE; split_and!; lia). by rewrite rnd_exact.
Qed.

Lemma poll_enough en txHash poll deadline n k s tr :
  clock_runs en -> Z.abs deadline < 2 ^ 52 -> (0 < k)%nat -> deadline - env_now en tr < Z.of_nat k ->
  let polls k := run en (poll_application_log k txHash (of_Z deadline) poll) s tr in
  polls (k + n)%nat = polls k /\ log_or_timeout txHash (polls k).
Proof.
  intros (Hmono & Hsleep & Hrange & Hwake) Hd. assert (2 ^ 53 = 2 * 2 ^ 52) as Hp by reflexivity.
  assert (2 ^ 52 = 2 * 2 ^ 51) as Hp' by reflexivity.
  revert tr. induction k as [|k IH]; intros tr Hk Hlt; [lia|]. cbv zeta. cbn [Nat.add poll_application_log clock bind run].
  pose proof (Hrange tr). destruct (Z.lt_ge_cases (env_now en tr) deadline) as [Hnow|Hnow]; [|by rewrite dlt_passed by lia].
  rewrite dlt_Z, (proj2 (Z.ltb_lt _ _) Hnow) by lia.
  cbn [negb await attempt bind run]. set (r := env_reply en _ tr (ApplicationLog txHash)).
  destruct r as [m|log]; cbn [attempt bind run]; [|done].
  rewrite Hwake. cbn [bind run]. set (tr0 := OCall (ApplicationLog txHash) _ :: tr) in *.
  apply IH; pose proof (Hsleep poll (inr tt) tr0); pose proof (Hmono (OCall (ApplicationLog txHash) (inl m)) tr);
    pose proof (Hrange (OCall (Sleep poll) (inr tt) :: tr0)); subst tr0; [|lia].
  destruct k; [|lia]. exfalso. lia.
Qed.

(** Waiting for a transaction ends.  While time passes, the loop that polls
    the application log polls at most once per millisecond of its timeout and
    once more: with that many polls or more, however the node answers, it
    returns the log or reports the timeout, and more polls change nothing. *)
Theorem wait_ends : forall en txHash timeoutMs poll s tr fuel,
  clock_runs en -> env_now en tr < 2 ^ 51 -> 0 <= timeoutMs < 2 ^ 51 -> (Z.to_nat timeoutMs + 1 <= fuel)%nat ->
  let wait fuel := run en (waitForNeoApplicationLog fuel txHash (of_Z timeoutMs) poll) s tr in
  wait fuel = wait (Z.to_nat timeoutMs + 1)%nat /\ log_or_timeout txHash (wait fuel).
Proof.
  intros en txHash timeoutMs poll s tr fuel Hc Hstart Ht Hf wait. pose proof Hc as (_ & _ & Hrange & _).
  assert (2 ^ 52 = 2 * 2 ^ 51) as Hp by reflexivity. pose proof (Hrange tr) as Hnow.
  assert (forall f, wait f = run en (poll_application_log f txHash (of_Z (env_now en tr + timeoutMs)) poll) s tr) as Hw.
  { intros f. unfold wait, waitForNeoApplicationLog. cbn [clock bind run]. by rewrite dadd_Z by lia. }
  rewrite !Hw. replace fuel with (Z.to_nat timeoutMs + 1 + (fuel - (Z.to_nat timeoutMs + 1)))%nat by lia.
  destruct (poll_enough en txHash poll (env_now en tr + timeoutMs) (fuel - (Z.to_nat timeoutMs + 1)) (Z.to_nat timeoutMs + 1) s tr)
    as [Heq Hout]; [done|lia..|]. by rewrite Heq.
Qed.

(** ** Samples *)

(** A node that broadcasts everything and never finds a log; a clock that
    advances ten seconds with every observation. *)
Definition sample_reply X (tr : list nobs) (c : ncall X) : string + X :=
  match c in ncall X return string + X with
  | NewUUID => inr "7f"
  | PinnedSigner _ => inr "key"
  | NeoAccount _ => inr "hash"
  | RpcUrlAllowed _ => inr tt
  | TestInvoke _ _ _ _ _ => inr (VObj [("state", VStr "HALT")])
  | Invoke _ _ _ _ => inr (VStr "0xabc")
  | SendRawTransaction _ _ => inr (VStr "0xabc")
  | ApplicationLog _ => inl "unknown transaction"
  | Sleep _ => inr tt
  | SponsorTransaction _ => inl "no"
  end.

Definition sample_node : Effects.env relay_state ncall :=
  Env (fun tr => 1000000 + 10000 * Z.of_nat (length tr)) (fun _ => 0%Q) sample_reply.

Definition sample_settings (name : string) : string := if (name =? "NEO_RPC_URL")%string then "https://rpc" else "".

Definition sample_call (wait : bool) : val :=
  VObj [("request_id", VStr "r1"); ("contract_hash", VStr GAS_HASH); ("method", VStr "Transfer"); ("wait", VBool wait)].

#[local] Abbreviation relay_sample wait seen :=
  (run sample_node (relayNeoN3Invocation (fun _ => None) sample_settings (fun _ => None) 20 (sample_call wait))
     (RelayState ∅ seen) []).

Lemma sample_addresses_ok : addresses_ok (fun _ => None).
Proof. by intros text hash. Qed.

Lemma sample_cache_ok seen : cache_ok (fun _ => None) sample_settings (fun _ => None) (RelayState ∅ seen).
Proof. intros network t al. cbn. by rewrite lookup_empty. Qed.

Lemma relay_permitted_witness :
  let '(o, s', tr) := relay_sample false [] in
  trace_ok (invocation_ok (fun _ => None) sample_settings (fun _ => None) (sample_call false)) tr /\ count_obs is_invoke tr = 1%nat.
Proof.
  pose proof (relay_permitted (fun _ => None) sample_settings (fun _ => None) (fun s => s) 20 (sample_call false) sample_node
    (RelayState ∅ []) sample_addresses_ok (sample_cache_ok [])) as H.
  revert H. set (r := relay_sample false []).
  assert (count_obs is_invoke r.2 = 1%nat) as Hn by (vm_compute; reflexivity).
  destruct r as [[o s'] tr]. intros (_ & H & _). exact (conj H Hn).
Defined.

Lemma request_id_relays_once_witness :
  let '(o, s', tr) := relay_sample false [("r1", 500000)] in tr = [] /\ forall b, o <> inr (200, b).
Proof.
  pose proof (request_id_relays_once (fun _ => None) sample_settings (fun _ => None) (fun s => s) 20 (sample_call false) sample_node
    (RelayState ∅ [("r1", 500000)]) ltac:(by vm_compute)) as H.
  revert H. cbv zeta. destruct (relay_sample false [("r1", 500000)]) as [[o s'] tr]. intros [_ H].
  apply (H 500000); [by left|by vm_compute|by vm_compute].
Defined.

Lemma relay_pool_safe_witness : forall c',
  rtc par_step (handleRelayTransaction (fun _ => None) sample_settings (fun _ => None) (fun s => s) 20
                  <$> [sample_call true; sample_call false], RelayState ∅ []) c' ->
  state_ok (fun _ => None) sample_settings (fun _ => None) c'.2.
Proof.
  intros c'. apply (relay_pool_safe (fun _ => None) sample_settings (fun _ => None) (fun s => s) 20).
  split; [|apply sample_cache_ok]. split; [apply NoDup_nil_2|by vm_compute].
Defined.

Lemma wait_ends_witness :
  log_or_timeout "0xabc" (run sample_node (waitForNeoApplicationLog 5 "0xabc" (of_Z 3) (of_Z 2000)) (RelayState ∅ []) []).
Proof.
  pose proof (wait_ends sample_node "0xabc" 3 (of_Z 2000) (RelayState ∅ []) [] 5) as H. cbv beta zeta in H.
  apply proj2 in H; [exact H| |by vm_compute|lia|lia]. split_and!; [|cbn [env_now sample_node length]; lia..|done].
  intros o tr. cbn [env_now sample_node length]. lia.
Defined.

(** A broadcast whose log is not found in time is forgotten: the same request id
    broadcasts again. *)
Example timed_out_relay_repeats :
  let '(o1, s1, tr1) := relay_sample true [] in
  let '(o2, s2, tr2) := run sample_node (relayNeoN3Invocation (fun _ => None) sample_settings (fun _ => None) 20 (sample_call true))
                          s1 tr1 in
  (count_obs is_invoke tr1, count_obs is_invoke tr2, match o1 with inr (st, _) => st | inl _ => 0 end) = (1%nat, 2%nat, 400).
Proof. vm_compute. reflexivity. Qed.
