(* ===== verification/FeedPlan.v ===== *)
(** * The decision to push a price ([deploy/feed-pusher/feed-pusher.mjs])

    The pure core of the feed pusher, which the enclave's feed signing shares:
    when a price is pushed and under which round and timestamp, how the chain's
    records and the provider's prices are read, and the count of missing
    symbols. *)
From stdpp Require Import gmap strings.
From S2P Require Import Prelude Numbers Strings Values Text Encoding Doubles.
#[local] Open Scope list_scope.
#[local] Open Scope Z_scope.

(** ** The decision *)

(** The record of a pair on chain. *)
Record feed_cur := FeedCur { cur_round : dbl; cur_price : dbl; cur_ts : dbl }.

Definition no_record : feed_cur := FeedCur (DFin 0) (DFin 0) (DFin 0).

Record plan_limits := PlanLimits {
  pl_thresholdBps : dbl;
  pl_maxStaleSec : dbl;
  pl_maxDeviationBps : dbl;
}.

Record feed_plan := FeedPlan { plan_push : bool; plan_round : dbl; plan_ts : dbl; plan_rejected : option string }.

(** [(Math.abs(newPrice - cur.price) / cur.price) * 10000] *)
Definition deviation_bps (newPrice price : dbl) : dbl := dmul (ddiv (dabs (dsub newPrice price)) price) (of_Z 10000).

Definition planFeedUpdate (cur : feed_cur) (newPrice now : dbl) (limits : plan_limits) : feed_plan :=
  let stay rejected := FeedPlan false (cur_round cur) (cur_ts cur) rejected in
  if negb (dfinite newPrice) || dle newPrice (DFin 0) then stay (Some "invalid_price")
  else if dlt (DFin 0) (cur_price cur) && dlt (DFin 0) (pl_maxDeviationBps limits)
          && dlt (pl_maxDeviationBps limits) (deviation_bps newPrice (cur_price cur))
  then stay (Some "deviation_spike")
  else
    let recent := dlt (DFin 0) (cur_round cur) && dlt (dsub now (cur_round cur)) (pl_maxStaleSec limits) in
    let unchanged := dlt (DFin 0) (cur_price cur)
                     && dlt (deviation_bps newPrice (cur_price cur)) (pl_thresholdBps limits) in
    if recent && unchanged then stay None
    else FeedPlan true (dmax (dadd (cur_round cur) (DFin ONE)) now) (dmax (cur_ts cur) now) None.

(** A price in units of 1e-6, and the hash that goes with an update. *)
Definition price_scaled (price : dbl) : dbl := dround (dmul price (of_Z 1000000)).

Definition attestation_text (s : string) (px ts : dbl) : string := s +:+ "|" +:+ dbl_text px +:+ "|" +:+ dbl_text ts.

Definition attestation_hash (sha256 : bytes -> bytes) (s : string) (px ts : dbl) : string :=
  slice_to (hex_encode (sha256 (utf8 (attestation_text s px ts)))) 32.

(** The arrays of an [updateFeeds] call. *)
Record feed_batch := FeedBatch {
  fb_pairs : list string;
  fb_rounds : list dbl;
  fb_prices : list dbl;
  fb_timestamps : list dbl;
  fb_hashes : list string;
  fb_sources : list dbl;
}.

Definition empty_batch : feed_batch := FeedBatch [] [] [] [] [] [].

Definition FEED_PAIR_PREFIX : string := "TWELVEDATA:".

Definition add_planned (sha256 : bytes -> bytes) (s : string) (price : dbl) (plan : feed_plan) (b : feed_batch) : feed_batch :=
  let px := price_scaled price in
  FeedBatch (fb_pairs b ++ [FEED_PAIR_PREFIX +:+ s]) (fb_rounds b ++ [plan_round plan]) (fb_prices b ++ [px])
    (fb_timestamps b ++ [plan_ts plan]) (fb_hashes b ++ [attestation_hash sha256 s px (plan_ts plan)])
    (fb_sources b ++ [DFin 0]).

(** ** The transaction of an update *)

(** The arguments of a contract call: arrays of one kind. *)
Inductive feed_arg := Strings (l : list string) | Integers (l : list dbl) | ByteArrays (l : list string).

Definition update_args (b : feed_batch) : list feed_arg :=
  [Strings (fb_pairs b); Integers (fb_rounds b); Integers (fb_prices b); Integers (fb_timestamps b);
   ByteArrays (fb_hashes b); Integers (fb_sources b)].

Record n3_tx := N3Tx {
  tx_nonce : Z;
  tx_signer : string;
  tx_validUntilBlock : dbl;
  tx_script : string;
  tx_systemFee : Z;
  tx_networkFee : Z;
}.

Record evm_tx := EvmTx {
  et_chainId : dbl;
  et_nonce : dbl;
  et_to : string;
  et_data : string;
  et_gasLimit : Z;
  et_maxFeePerGas : Z;
  et_maxPriorityFeePerGas : Z;
}.

(** Neon-js and ethers: scripts, fees, the message a signature covers, the script
    hash of a public key; the call data of Neo X and its signed transaction. *)
Record feed_lib := FeedLib {
  fl_createScript : string -> string -> list feed_arg -> string + string;
  fl_bigInteger : val -> string + Z;
  fl_message : n3_tx -> dbl -> string;
  fl_scriptHashOfKey : string -> string;
  fl_encodeUpdate : list string -> list Z -> list Z -> list Z -> string + string;
  fl_signTransaction : string -> evm_tx -> string + string;
}.

Definition FEED_N3_CONTRACT : string := "03013f49c42a14546c8bbe58f9d434c3517fccab".
Definition FEED_VALID_UNTIL_OFFSET : Z := 500.

(** ** Records on chain *)

(** [v[i]] *)
Definition item (v : val) (i : nat) : val :=
  match v with
  | VArr l => default VUndef (l !! i)
  | VObj kvs => assoc_get (num_to_string (Z.of_nat i)) kvs
  | _ => VUndef
  end.

(** [Number(v[i].value || 0)] *)
Definition number_item (v : val) (i : nat) : string + dbl :=
  match getp (item v i) "value" with inl e => inl e | inr x => inr (val_double (v_or x (VNum 0))) end.

(** Round, price and timestamp of a record; the price in whole units. *)
Definition record_of (v : val) : string + feed_cur :=
  match number_item v 1, number_item v 2, number_item v 3 with
  | inr round, inr price, inr ts => inr (FeedCur round (ddiv price (of_Z 1000000)) ts)
  | inl e, _, _ | _, inl e, _ | _, _, inl e => inl e
  end.

Definition halted (result : val) : bool :=
  truthy result && match get result "state" with VStr s => (s =? "HALT")%string | _ => false end.

Definition parseGetLatestStack (result : val) : string + feed_cur :=
  let v := if halted result then get (item (get result "stack") 0) "value" else VNull in
  if is_array v then record_of v else inr no_record.

Fixpoint records_by_pair (records : list val) (byPair : gmap string feed_cur) : string + gmap string feed_cur :=
  match records with
  | [] => inr byPair
  | record :: records =>
      match get record "value" with
      | VArr l =>
          if (length l <? 4)%nat then records_by_pair records byPair
          else
            match getp (item (VArr l) 0) "value" with
            | inl e => inl e
            | inr name =>
                let pair := utf8_decode (base64_decode (js_String (v_or name (VStr "")))) in
                if (pair =? "")%string then records_by_pair records byPair
                else match record_of (VArr l) with
                     | inl e => inl e
                     | inr cur => records_by_pair records (<[pair := cur]> byPair)
                     end
            end
      | _ => records_by_pair records byPair
      end
  end.

(** [None]: the invocation did not halt. *)
Definition parseGetAllFeedRecordsStack (result : val) : string + option (gmap string feed_cur) :=
  if halted result then
    let records := match get (item (get result "stack") 0) "value" with VArr l => l | _ => [] end in
    match records_by_pair records ∅ with inl e => inl e | inr byPair => inr (Some byPair) end
  else inr None.

(** ** Prices of the provider *)

Definition TD_BARE_SYMBOLS : list string :=
  ["AAPL"; "GOOGL"; "MSFT"; "AMZN"; "TSLA"; "META"; "NVDA"; "SPY"; "QQQ"; "GLD"; "CORN"].

Definition toTwelveDataSymbol (symbol : string) : string :=
  match cut "-" symbol with
  | None => symbol
  | Some (ticker, rest) => if bool_decide (ticker ∈ TD_BARE_SYMBOLS) then ticker else ticker +:+ "/" +:+ rest
  end.

(** The prices of an answer, by symbol: finite positive numbers only. *)
Abbreviation feed_prices := (list (string * dbl)).

Fixpoint read_prices (single : bool) (parsed : val) (syms : list string) : string + feed_prices :=
  match syms with
  | [] => inr []
  | s :: syms =>
      match (if single then inr parsed else getp parsed (toTwelveDataSymbol s)), read_prices single parsed syms with
      | inl e, _ | _, inl e => inl e
      | inr entry, inr prices =>
          let value := if truthy entry then get entry "price" else entry in
          let n := val_double value in
          match value with
          | VUndef | VNull => inr prices
          | _ => inr (if dfinite n && dlt (DFin 0) n then (s, n) :: prices else prices)
          end
      end
  end.

(** Names every object answers to. *)
Definition object_prototype : list string :=
  ["constructor"; "__defineGetter__"; "__defineSetter__"; "hasOwnProperty"; "__lookupGetter__"; "__lookupSetter__";
   "isPrototypeOf"; "propertyIsEnumerable"; "toString"; "valueOf"; "__proto__"; "toLocaleString"].

(** [s in prices], with [prices[s]] as a number; the value of an inherited name
    is none. *)
Definition price_of (prices : feed_prices) (s : string) : option dbl :=
  match snd <$> list_find (fun kv => kv.1 = s) prices with
  | Some (_, p) => Some p
  | None => if bool_decide (s ∈ object_prototype) then Some DNaN else None
  end.

(** ** Missing symbols *)

Definition track_symbol (prices : feed_prices) (alertAfter : dbl) (acc : list (string * val) * list (string * dbl)) (symbol : string)
    : list (string * val) * list (string * dbl) :=
  let '(counts, alerts) := acc in
  match price_of prices symbol with
  | Some _ => (filter (fun kv => kv.1 <> symbol) counts, alerts)
  | None =>
      let n := val_double (assoc_get symbol counts) in
      let count := dadd (match n with DNaN => DFin 0 | _ => n end) (DFin ONE) in
      (assoc_set symbol (dbl_val count) counts, if dle alertAfter count then alerts ++ [(symbol, count)] else alerts)
  end.

Definition trackMissingSymbols (prevCounts : val) (requested : list string) (prices : feed_prices) (alertAfter : dbl)
    : list (string * val) * list (string * dbl) :=
  foldl (track_symbol prices alertAfter) (if is_object prevCounts then own_fields prevCounts else [], []) requested.

(** ** What a decision does to the record *)

Lemma dmax_Z a b : Z.abs a < 2 ^ 53 -> Z.abs b < 2 ^ 53 -> dmax (of_Z a) (of_Z b) = of_Z (Z.max a b).
Proof.
  intros Ha Hb. pose proof (dlt_Z a b Ha Hb) as H. unfold dmax. rewrite !of_Z_exact in * by done. rewrite H.
  destruct (Z.ltb_spec a b); rewrite of_Z_exact by lia; repeat f_equal; lia.
Qed.

Lemma one_Z : DFin ONE = of_Z 1.
Proof. rewrite of_Z_exact by done. done. Qed.

(** Within the operator's limits: the guards that a pushed price has passed. *)
Definition acceptable (limits : plan_limits) (cur newPrice : dbl) : Prop :=
  (exists p, newPrice = DFin p /\ 0 < p) /\
  (dlt (DFin 0) cur && dlt (DFin 0) (pl_maxDeviationBps limits) && dlt (pl_maxDeviationBps limits) (deviation_bps newPrice cur)) = false.

(** C36.  A price update never goes back.  Over whole rounds and timestamps below
    2^52, an update is decided only for a finite positive price within the
    deviation limit, and then its round is the larger of the next round and of
    now, strictly above the round on chain, its timestamp the larger of the one
    on chain and of now; any other decision leaves round and timestamp as they
    are.  An acceptable price is withheld only while the record is younger than
    the stale limit and moved by less than the threshold. *)
Theorem plan_advances : forall round price ts newPrice now limits,
  0 <= round < 2 ^ 52 -> 0 <= ts < 2 ^ 52 -> 0 <= now < 2 ^ 52 ->
  let cur := FeedCur (of_Z round) price (of_Z ts) in
  let plan := planFeedUpdate cur newPrice (of_Z now) limits in
  if plan_push plan then
    acceptable limits price newPrice /\ plan_rejected plan = None /\
    plan_round plan = of_Z (Z.max (round + 1) now) /\ plan_ts plan = of_Z (Z.max ts now) /\
    dlt (cur_round cur) (plan_round plan) = true
  else
    plan_round plan = of_Z round /\ plan_ts plan = of_Z ts /\
    (acceptable limits price newPrice ->
     plan_rejected plan = None /\ 0 < round /\ dlt (of_Z (now - round)) (pl_maxStaleSec limits) = true /\
     dlt (deviation_bps newPrice price) (pl_thresholdBps limits) = true).
Proof.
  intros round price ts newPrice now limits Hr Ht Hn. cbv zeta. unfold planFeedUpdate. cbv zeta. cbn [cur_round cur_price cur_ts].
  destruct (negb (dfinite newPrice) || dle newPrice (DFin 0)) eqn:Hprice.
  { cbn. split_and!; [done..|]. intros [(p & -> & Hp) _]. cbn in Hprice. lia. }
  destruct (_ && _ && _) eqn:Hspike; [cbn; split_and!; [done..|]; by intros [_ Ha]; rewrite Ha in Hspike|].
  assert (acceptable limits price newPrice) as Hacc.
  { split; [|exact Hspike]. destruct newPrice as [| |p]; try done. exists p. split; [done|]. cbn in Hprice. lia. }
  rewrite one_Z, dadd_Z, !dmax_Z, dsub_Z by lia. rewrite zero_Z, (dlt_Z 0 round) by lia.
  destruct (_ && _ && (_ && _)) eqn:Hrecent; cbn [plan_push plan_round plan_ts plan_rejected cur_round].
  - apply andb_true_iff in Hrecent as [[Hpos Hstale]%andb_true_iff [_ Hdev]%andb_true_iff]. apply Z.ltb_lt in Hpos.
    by split_and!.
  - split_and!; [done..|]. rewrite dlt_Z by lia. lia.
Qed.

(** The first price of a pair. *)
Lemma plan_advances_witness :
  let plan := planFeedUpdate (FeedCur (of_Z 0) (DFin 0) (of_Z 0)) (DFin ONE) (of_Z 1060) (PlanLimits (of_Z 10) (of_Z 3600) (of_Z 2000)) in
  plan_push plan = true /\ plan_round plan = of_Z 1060 /\ plan_ts plan = of_Z 1060.
Proof.
  pose proof (plan_advances 0 (DFin 0) 0 (DFin ONE) 1060 (PlanLimits (of_Z 10) (of_Z 3600) (of_Z 2000))
    ltac:(lia) ltac:(lia) ltac:(lia)) as H. cbv zeta in H |- *.
  assert (plan_push (planFeedUpdate (FeedCur (of_Z 0) (DFin 0) (of_Z 0)) (DFin ONE) (of_Z 1060)
    (PlanLimits (of_Z 10) (of_Z 3600) (of_Z 2000))) = true) as Hp by (vm_compute; reflexivity).
  rewrite Hp in H. destruct H as (_ & _ & Hround & Hts & _). rewrite Hround, Hts. by split_and!.
Defined.

(** A positive price below half a millionth passes the guard against zero prices
    and is pushed as zero. *)
Example small_price_pushed_as_zero :
  let price := to_double "0.0000004" in
  (plan_push (planFeedUpdate no_record price (of_Z 1000) (PlanLimits (of_Z 10) (of_Z 3600) (of_Z 2000))), price_scaled price) = (true, DFin 0).
Proof. vm_compute. reflexivity. Qed.
