(* ===== verification/Signers.v ===== *)
(** * The signer of a role ([neo-signers-core.js])

    The key of a role is looked up in the environment, its own variables first,
    then the fallbacks, and pinned to the identity that the registry of signer
    identities gives the role.  [account] is neon-js's account of a secret,
    [None] when there is none; [address_hash] the script hash of a valid
    address. *)
From S2P Require Import Prelude Numbers Strings Values Text WorkerCore Allowlist.
#[local] Open Scope list_scope.
#[local] Open Scope Z_scope.

Definition NEO_N3_SIGNER_ENV_KEYS : list string :=
  ["NEO_TESTNET_WIF"; "NEO_N3_WIF"; "MORPHEUS_WORKER_NEO_N3_WIF"; "MORPHEUS_WORKER_NEO_N3_PRIVATE_KEY";
   "MORPHEUS_WORKER_NEO_N3_WIF_TESTNET"; "MORPHEUS_WORKER_NEO_N3_PRIVATE_KEY_TESTNET";
   "MORPHEUS_WORKER_NEO_N3_WIF_MAINNET"; "MORPHEUS_WORKER_NEO_N3_PRIVATE_KEY_MAINNET"; "MORPHEUS_RELAYER_NEO_N3_WIF";
   "MORPHEUS_RELAYER_NEO_N3_PRIVATE_KEY"; "MORPHEUS_RELAYER_NEO_N3_WIF_TESTNET";
   "MORPHEUS_RELAYER_NEO_N3_PRIVATE_KEY_TESTNET"; "MORPHEUS_RELAYER_NEO_N3_WIF_MAINNET";
   "MORPHEUS_RELAYER_NEO_N3_PRIVATE_KEY_MAINNET"; "MORPHEUS_UPDATER_NEO_N3_WIF";
   "MORPHEUS_UPDATER_NEO_N3_PRIVATE_KEY"; "MORPHEUS_UPDATER_NEO_N3_WIF_TESTNET";
   "MORPHEUS_UPDATER_NEO_N3_PRIVATE_KEY_TESTNET"; "MORPHEUS_UPDATER_NEO_N3_WIF_MAINNET";
   "MORPHEUS_UPDATER_NEO_N3_PRIVATE_KEY_MAINNET"; "MORPHEUS_ORACLE_VERIFIER_WIF";
   "MORPHEUS_ORACLE_VERIFIER_PRIVATE_KEY"; "MORPHEUS_ORACLE_VERIFIER_WIF_TESTNET";
   "MORPHEUS_ORACLE_VERIFIER_PRIVATE_KEY_TESTNET"; "MORPHEUS_ORACLE_VERIFIER_WIF_MAINNET";
   "MORPHEUS_ORACLE_VERIFIER_PRIVATE_KEY_MAINNET"; "MORPHEUS_ORACLE_VERIFIER_PUBLIC_KEY";
   "MORPHEUS_ORACLE_VERIFIER_PUBLIC_KEY_TESTNET"; "MORPHEUS_ORACLE_VERIFIER_PUBLIC_KEY_MAINNET"].

Record role_config := RoleConfig {
  rg_primary : list string;
  rg_fallback : list string;
  rg_public : list string;
  rg_allowPublicKeyOnly : bool;
}.

Definition ROLE_KEY_GROUPS (network role : string) : option role_config :=
  if (network =? "testnet")%string then
    if (role =? "worker")%string then Some (RoleConfig
      ["MORPHEUS_WORKER_NEO_N3_PRIVATE_KEY_TESTNET"; "MORPHEUS_WORKER_NEO_N3_WIF_TESTNET";
       "MORPHEUS_WORKER_NEO_N3_PRIVATE_KEY"; "MORPHEUS_WORKER_NEO_N3_WIF"]
      ["NEO_TESTNET_WIF"; "NEO_N3_WIF"; "MORPHEUS_RELAYER_NEO_N3_PRIVATE_KEY_TESTNET";
       "MORPHEUS_RELAYER_NEO_N3_WIF_TESTNET"; "MORPHEUS_RELAYER_NEO_N3_PRIVATE_KEY"; "MORPHEUS_RELAYER_NEO_N3_WIF"]
      [] false)
    else if (role =? "relayer")%string then Some (RoleConfig
      ["MORPHEUS_RELAYER_NEO_N3_PRIVATE_KEY_TESTNET"; "MORPHEUS_RELAYER_NEO_N3_WIF_TESTNET";
       "MORPHEUS_UPDATER_NEO_N3_PRIVATE_KEY_TESTNET"; "MORPHEUS_UPDATER_NEO_N3_WIF_TESTNET"]
      ["MORPHEUS_RELAYER_NEO_N3_PRIVATE_KEY"; "MORPHEUS_RELAYER_NEO_N3_WIF"; "MORPHEUS_UPDATER_NEO_N3_PRIVATE_KEY";
       "MORPHEUS_UPDATER_NEO_N3_WIF"]
      [] false)
    else if (role =? "updater")%string then Some (RoleConfig
      ["MORPHEUS_UPDATER_NEO_N3_PRIVATE_KEY_TESTNET"; "MORPHEUS_UPDATER_NEO_N3_WIF_TESTNET";
       "MORPHEUS_RELAYER_NEO_N3_PRIVATE_KEY_TESTNET"; "MORPHEUS_RELAYER_NEO_N3_WIF_TESTNET"]
      ["MORPHEUS_UPDATER_NEO_N3_PRIVATE_KEY"; "MORPHEUS_UPDATER_NEO_N3_WIF"; "MORPHEUS_RELAYER_NEO_N3_PRIVATE_KEY";
       "MORPHEUS_RELAYER_NEO_N3_WIF"]
      [] false)
    else if (role =? "oracle_verifier")%string then Some (RoleConfig
      ["MORPHEUS_ORACLE_VERIFIER_PRIVATE_KEY_TESTNET"; "MORPHEUS_ORACLE_VERIFIER_WIF_TESTNET";
       "MORPHEUS_ORACLE_VERIFIER_PRIVATE_KEY"; "MORPHEUS_ORACLE_VERIFIER_WIF"]
      ["MORPHEUS_RELAYER_NEO_N3_PRIVATE_KEY_TESTNET"; "MORPHEUS_RELAYER_NEO_N3_WIF_TESTNET";
       "MORPHEUS_RELAYER_NEO_N3_PRIVATE_KEY"; "MORPHEUS_RELAYER_NEO_N3_WIF"]
      ["MORPHEUS_ORACLE_VERIFIER_PUBLIC_KEY_TESTNET"] true)
    else None
  else if (network =? "mainnet")%string then
    if (role =? "worker")%string then Some (RoleConfig
      ["MORPHEUS_WORKER_NEO_N3_PRIVATE_KEY_MAINNET"; "MORPHEUS_WORKER_NEO_N3_WIF_MAINNET"]
      ["NEO_N3_WIF"; "NEO_TESTNET_WIF"]
      [] false)
    else if (role =? "relayer")%string then Some (RoleConfig
      ["MORPHEUS_RELAYER_NEO_N3_PRIVATE_KEY_MAINNET"; "MORPHEUS_RELAYER_NEO_N3_WIF_MAINNET"]
      ["MORPHEUS_RELAYER_NEO_N3_PRIVATE_KEY"; "MORPHEUS_RELAYER_NEO_N3_WIF"; "NEO_N3_WIF"; "NEO_TESTNET_WIF"]
      [] false)
    else if (role =? "updater")%string then Some (RoleConfig
      ["MORPHEUS_UPDATER_NEO_N3_PRIVATE_KEY_MAINNET"; "MORPHEUS_UPDATER_NEO_N3_WIF_MAINNET"]
      ["MORPHEUS_UPDATER_NEO_N3_PRIVATE_KEY"; "MORPHEUS_UPDATER_NEO_N3_WIF"; "NEO_N3_WIF"; "NEO_TESTNET_WIF"]
      [] false)
    else if (role =? "oracle_verifier")%string then Some (RoleConfig
      ["MORPHEUS_ORACLE_VERIFIER_PRIVATE_KEY_MAINNET"; "MORPHEUS_ORACLE_VERIFIER_WIF_MAINNET"]
      ["MORPHEUS_ORACLE_VERIFIER_PRIVATE_KEY"; "MORPHEUS_ORACLE_VERIFIER_WIF"]
      ["MORPHEUS_ORACLE_VERIFIER_PUBLIC_KEY_MAINNET"; "MORPHEUS_ORACLE_VERIFIER_PUBLIC_KEY"] true)
    else None
  else None.

(** The account of a secret. *)
Record neo_account := NeoAccountOf {
  na_wif : string;
  na_privateKey : string;
  na_address : string;
  na_scriptHash : string;
  na_publicKey : string;
}.

Record signer_identity := Identity {
  id_address : string;
  id_script_hash : string;
  id_public_key : string;
}.

Record materialized := Materialized {
  mt_raw : string;
  mt_wif : string;
  mt_private_key : string;
  mt_identity : signer_identity;
}.

(** A variable that is set: its secret, or [None] when it is not a valid one. *)
Record secret_entry := SecretEntry {
  se_key : string;
  se_materialized : option materialized;
}.

Record role_report := RoleReport {
  rr_network : string;
  rr_role : string;
  rr_pinned : val;
  rr_selected_source : option string;
  rr_selected_identity : option signer_identity;
  rr_public_key : string;
  rr_primary_sources_present : list string;
  rr_fallback_sources_present : list string;
  rr_public_sources_present : list string;
  rr_issues : list string;
  rr_ok : bool;
  rr_materialized : option materialized;
}.

(** The environment handed in: a lookup function or an object. *)
Inductive env_source :=
| EnvFunction (lookup : string -> string)
| EnvObject (lookup : string -> string).

Fixpoint unique_from {A} `{EqDecision A} (seen l : list A) : list A :=
  match l with
  | [] => []
  | x :: l => if decide (x ∈ seen) then unique_from seen l else x :: unique_from (x :: seen) l
  end.

Definition uniqueOrdered {A} `{EqDecision A} (l : list A) : list A := unique_from [] l.

Definition isTrueLike (value : string) : bool :=
  let normalized := toLowerCase (trim value) in
  (normalized =? "1")%string || (normalized =? "true")%string || (normalized =? "yes")%string.

(** Sixty-six or a hundred and thirty hexadecimal digits, in lower case. *)
Definition normalizePublicKey (value : val) : string :=
  let hex := toLowerCase (strip0x (trimString value)) in
  if ((String.length hex =? 66)%nat || (String.length hex =? 130)%nat) && str_forall hash_digit hex then hex else "".

Definition toEnvSnapshot (source : env_source) (key : string) : string :=
  match source with
  | EnvFunction lookup => if bool_decide (key ∈ NEO_N3_SIGNER_ENV_KEYS) then trim (lookup key) else ""
  | EnvObject lookup => lookup key
  end.

Definition formatIssues (role : string) (issues : list string) : string :=
  match issues with [] => "" | _ => role +:+ " signer drift: " +:+ join "; " issues end.

Section signers.
Context (account : string -> option neo_account) (address_hash : string -> option string) (process_env : string -> string)
  (registry : val).

Definition normalizeMorpheusNetwork_strict (value : val) : string :=
  if (toLowerCase (trimString (v_or value (VStr "testnet"))) =? "mainnet")%string then "mainnet" else "testnet".

Definition normalizeHash160 (value : val) : string :=
  let raw := trimString value in
  if (raw =? "")%string then ""
  else
    match address_hash raw with
    | Some hash => "0x" +:+ toLowerCase hash
    | None => let hex := toLowerCase (strip0x raw) in if hash_body hex then "0x" +:+ hex else ""
    end.

(** The secret is not blank; [None]: the account constructor throws. *)
Definition materializeNeoN3Secret (secret : string) : option materialized :=
  let normalized := trim secret in
  (fun a => Materialized normalized (na_wif a) (na_privateKey a)
              (Identity (na_address a) ("0x" +:+ na_scriptHash a) (normalizePublicKey (VStr (na_publicKey a)))))
  <$> account normalized.

Definition identityMatchesPinned (identity : signer_identity) (pinned : val) : bool :=
  truthy pinned
  && negb (truthy (get pinned "script_hash")
           && negb (normalizeHash160 (VStr (id_script_hash identity)) =? normalizeHash160 (get pinned "script_hash"))%string)
  && negb (truthy (get pinned "address")
           && negb (normalizeHash160 (VStr (id_address identity)) =? normalizeHash160 (get pinned "address"))%string)
  && negb (truthy (get pinned "public_key")
           && negb (normalizePublicKey (VStr (id_public_key identity)) =? normalizePublicKey (get pinned "public_key"))%string).

Definition identityFingerprint (identity : signer_identity) : string :=
  join "|" [normalizeHash160 (VStr (id_script_hash identity)); normalizePublicKey (VStr (id_public_key identity))].

Definition collectSecrets (snapshot : string -> string) (keys : list string) : list secret_entry :=
  omap (fun key =>
    let value := trim (snapshot key) in
    if (value =? "")%string then None else Some (SecretEntry key (materializeNeoN3Secret value)))
  (uniqueOrdered keys).

Definition collectPublicKeys (snapshot : string -> string) (keys : list string) : list (string * string) :=
  omap (fun key =>
    let value := normalizePublicKey (VStr (snapshot key)) in
    if (value =? "")%string then None else Some (key, value))
  (uniqueOrdered keys).

Definition getPinnedNeoN3Role (network : val) (role : string) : val :=
  v_or (get (get (get (get registry "neo_n3") (normalizeMorpheusNetwork_strict network)) "roles") role) VNull.

(** The valid secrets, with the variable of each. *)
Definition valid_entries (entries : list secret_entry) : list (string * materialized) :=
  omap (fun e => (fun m => (se_key e, m)) <$> se_materialized e) entries.

Definition find_match (pinned : val) (entries : list (string * materialized)) : option (string * materialized) :=
  snd <$> list_find (fun e => identityMatchesPinned (mt_identity e.2) pinned = true) entries.

Definition issue_if (b : bool) (issue : string) : list string := if b then [issue] else [].

Definition is_nil {A} (l : list A) : bool := match l with [] => true | _ => false end.

Definition is_none {A} (o : option A) : bool := match o with None => true | Some _ => false end.

(** The name of a pinned identity in an issue. *)
Definition pinned_name (pinned : val) : string :=
  js_String (v_or (get pinned "script_hash") (v_or (get pinned "public_key") (VStr ""))).

Definition key_names (entries : list (string * materialized)) : string := join ", " (fst <$> entries).

Definition pinning_off (env : env_source) : bool :=
  isTrueLike (process_env "MORPHEUS_ALLOW_UNPINNED_SIGNERS")
  || match env with EnvObject lookup => isTrueLike (lookup "MORPHEUS_ALLOW_UNPINNED_SIGNERS") | EnvFunction _ => false end.

Definition buildRoleReport (network : val) (role : string) (env : env_source) (strict allowMissing : bool)
    : string + role_report :=
  let normalizedNetwork := normalizeMorpheusNetwork_strict network in
  let snapshot := toEnvSnapshot env in
  let pinned := if pinning_off env then VNull else getPinnedNeoN3Role (VStr normalizedNetwork) role in
  match ROLE_KEY_GROUPS normalizedNetwork role with
  | None => inl ("unsupported Neo N3 signer role: " +:+ role)
  | Some config =>
      let primaryCandidates := collectSecrets snapshot (rg_primary config) in
      let fallbackCandidates := collectSecrets snapshot (rg_fallback config) in
      let publicCandidates := collectPublicKeys snapshot (rg_public config) in
      let primaryValid := valid_entries primaryCandidates in
      let fallbackValid := valid_entries fallbackCandidates in
      let fingerprints entries := uniqueOrdered ((fun e => identityFingerprint (mt_identity e.2)) <$> entries) in
      let invalid e := match se_materialized e with
                       | None => Some (se_key e +:+ " is not a valid Neo N3 signer secret") | Some _ => None end in
      let primaryMatch := find_match pinned primaryValid in
      let fallbackMatch := find_match pinned fallbackValid in
      let publicKeyMatch := snd <$> list_find (fun e : string * string =>
        (negb (truthy (get pinned "public_key"))
         || (normalizePublicKey (VStr e.2) =? normalizePublicKey (get pinned "public_key"))%string) = true) publicCandidates in
      let requireFallbackMatch := negb (allowMissing && is_nil primaryCandidates) in
      let mismatch kind := trim (kind +:+ " keys do not match pinned " +:+ role +:+ " identity " +:+ pinned_name pinned) in
      let issues :=
        omap invalid (primaryCandidates ++ fallbackCandidates)
        ++ issue_if (1 <? Z.of_nat (length (fingerprints primaryValid)))
             ("primary keys disagree (" +:+ key_names primaryValid +:+ ")")
        ++ issue_if (is_nil primaryValid && (1 <? Z.of_nat (length (fingerprints fallbackValid))))
             ("fallback keys disagree (" +:+ key_names fallbackValid +:+ ")")
        ++ issue_if (negb (is_nil primaryValid) && truthy pinned && is_none primaryMatch) (mismatch "primary")
        ++ issue_if (is_nil primaryValid && negb (is_nil fallbackValid) && truthy pinned && is_none fallbackMatch
                     && requireFallbackMatch) (mismatch "fallback")
        ++ issue_if (negb (is_nil publicCandidates) && truthy (get pinned "public_key") && is_none publicKeyMatch)
             ("public key override does not match pinned " +:+ role +:+ " verifier key") in
      let matched := match primaryMatch with Some e => Some e | None => fallbackMatch end in
      let selected :=
        match matched with
        | Some e => Some e
        | None => if truthy pinned then None else match head primaryValid with Some e => Some e | None => head fallbackValid end
        end in
      let or_text (a b : string) := if (a =? "")%string then b else a in
      let public_key :=
        or_text (from_option (fun e => id_public_key (mt_identity e.2)) "" selected)
          (or_text (from_option snd "" publicKeyMatch) (normalizePublicKey (v_or (get pinned "public_key") (VStr "")))) in
      let publicKeyOnlyAllowed := rg_allowPublicKeyOnly config && negb (public_key =? "")%string in
      let ok := is_nil issues && (negb (is_none selected) || publicKeyOnlyAllowed || allowMissing) in
      let issues := issues ++ issue_if (negb ok && negb allowMissing && is_none selected)
                                ("no usable " +:+ role +:+ " signer configured") in
      if strict && negb (is_nil issues) then inl (formatIssues role issues)
      else
        inr (RoleReport normalizedNetwork role pinned (fst <$> selected) (mt_identity ∘ snd <$> selected) public_key
               (se_key <$> primaryCandidates) (se_key <$> fallbackCandidates) (fst <$> publicCandidates) issues ok
               (snd <$> selected))
  end.

Definition resolvePinnedNeoN3Role (network : val) (role : string) (env : env_source) (allowMissing : bool) :=
  buildRoleReport network role env true allowMissing.

Definition reportPinnedNeoN3Role (network : val) (role : string) (env : env_source) (allowMissing : bool) :=
  buildRoleReport network role env false allowMissing.

Definition resolvePinnedNeoN3UpdaterHash (network : val) (env : env_source) : string + string :=
  report <-e reportPinnedNeoN3Role (VStr (normalizeMorpheusNetwork_strict network)) "updater" env true ;;
  if negb (is_nil (rr_issues report)) then inl (formatIssues "updater" (rr_issues report))
  else
    let own := from_option id_script_hash "" (rr_selected_identity report) in
    inr (normalizeHash160 (if (own =? "")%string then v_or (get (rr_pinned report) "script_hash") (VStr "") else VStr own)).

Definition resolvePinnedNeoN3VerifierPublicKey (network : val) (env : env_source) : string + string :=
  report <-e reportPinnedNeoN3Role (VStr (normalizeMorpheusNetwork_strict network)) "oracle_verifier" env false ;;
  let publicKey := normalizePublicKey
    (if (rr_public_key report =? "")%string then v_or (get (rr_pinned report) "public_key") (VStr "") else VStr (rr_public_key report)) in
  if (publicKey =? "")%string then
    inl ("oracle_verifier signer drift: no pinned verifier public key for " +:+ js_String network)
  else if negb (is_nil (rr_issues report)) then inl (formatIssues "oracle_verifier" (rr_issues report))
  else inr publicKey.
End signers.

(** ** What a strict resolution promises *)

Lemma unique_from_spec {A} `{EqDecision A} (seen l : list A) x : x ∈ unique_from seen l <-> x ∈ l /\ x ∉ seen.
Proof.
  revert seen. induction l as [|y l IH]; intros seen; cbn [unique_from]; [set_solver|].
  destruct (decide (y ∈ seen)) as [Hy|Hy]; [rewrite IH|rewrite elem_of_cons, IH]; [set_solver|].
  destruct (decide (x = y)); set_solver.
Qed.

Lemma uniqueOrdered_spec {A} `{EqDecision A} (l : list A) x : x ∈ uniqueOrdered l <-> x ∈ l.
Proof. unfold uniqueOrdered. rewrite unique_from_spec. set_solver. Qed.

(** At most one value, so all are equal. *)
Lemma unique_single {A} `{EqDecision A} (l : list A) x y :
  (length (uniqueOrdered l) <= 1)%nat -> x ∈ l -> y ∈ l -> x = y.
Proof.
  intros Hlen Hx Hy. apply uniqueOrdered_spec in Hx, Hy. destruct (uniqueOrdered l) as [|a [|b u]]; [by apply not_elem_of_nil in Hx| |cbn in Hlen; lia].
  apply list_elem_of_singleton in Hx, Hy. congruence.
Qed.

Section resolution.
Context (account : string -> option neo_account) (address_hash : string -> option string) (process_env : string -> string)
  (registry : val).
#[local] Set Default Proof Using "All".

Lemma collect_spec snapshot keys e :
  e ∈ collectSecrets account snapshot keys <->
  se_key e ∈ keys /\ trim (snapshot (se_key e)) <> "" /\ se_materialized e = materializeNeoN3Secret account (trim (snapshot (se_key e))).
Proof.
  unfold collectSecrets. rewrite list_elem_of_omap. setoid_rewrite uniqueOrdered_spec. split.
  - intros (key & Hin & He). destruct (String.eqb_spec (trim (snapshot key)) ""); [done|]. injection He as <-. done.
  - intros (Hin & Hne & Hm). exists (se_key e). split; [done|]. rewrite (proj2 (String.eqb_neq _ _) Hne). f_equal.
    destruct e. cbn in *. by rewrite Hm.
Qed.

Lemma valid_spec entries k m : (k, m) ∈ valid_entries entries <-> exists e, e ∈ entries /\ se_key e = k /\ se_materialized e = Some m.
Proof.
  unfold valid_entries. rewrite list_elem_of_omap. split.
  - intros (e & Hin & He). exists e. destruct (se_materialized e); [|done]. cbn in He. by injection He as <- <-.
  - intros (e & Hin & <- & Hm). exists e. split; [done|]. by rewrite Hm.
Qed.

Lemma find_match_spec pinned entries e :
  find_match address_hash pinned entries = Some e -> e ∈ entries /\ identityMatchesPinned address_hash (mt_identity e.2) pinned = true.
Proof.
  unfold find_match. destruct (list_find _ entries) as [[i x]|] eqn:Hf; [|done]. cbn. intros [= ->].
  apply list_find_Some in Hf as (Hi & Hm & _). split; [by eapply list_elem_of_lookup_2|done].
Qed.

(** The variables of the role that are set. *)
Definition set_in (env : env_source) (keys : list string) (key : string) : Prop :=
  key ∈ keys /\ trim (toEnvSnapshot env key) <> "".

Lemma is_nil_app {A} (l k : list A) : is_nil (l ++ k) = true -> is_nil l = true /\ is_nil k = true.
Proof. by destruct l. Qed.

Lemma issue_nil b issue : is_nil (issue_if b issue) = true -> b = false.
Proof. by destruct b. Qed.

Lemma all_valid snapshot primary fallback key :
  is_nil (omap (fun e => match se_materialized e with
                         | None => Some (se_key e +:+ " is not a valid Neo N3 signer secret") | Some _ => None end)
            (collectSecrets account snapshot primary ++ collectSecrets account snapshot fallback)) = true ->
  key ∈ primary ++ fallback /\ trim (snapshot key) <> "" ->
  is_Some (materializeNeoN3Secret account (trim (snapshot key))).
Proof.
  intros Hnil [Hkey Hset]. destruct (materializeNeoN3Secret account (trim (snapshot key))) as [m|] eqn:Hm; [done|].
  set (bad := omap _ _) in Hnil.
  assert (key +:+ " is not a valid Neo N3 signer secret" ∈ bad) as Hin; [|by destruct bad; [apply not_elem_of_nil in Hin|]].
  apply list_elem_of_omap. exists (SecretEntry key None). split; [|done].
  apply elem_of_app. apply elem_of_app in Hkey as [Hk|Hk]; [left|right]; by apply collect_spec.
Qed.

(** A strict resolution returns the pinned signer or nothing.  With pinning on
    and the role pinned, the secret that is returned has the pinned identity and
    is that of a variable of the role; every variable of the role that is set
    holds a valid secret; when one of its own variables is set, all of them hold
    the identity of the returned secret; and without a secret the role is one
    that may run on its public key alone, or may be missing. *)
Theorem pinned_signer_sound : forall network role env allowMissing r config,
  let pinned := getPinnedNeoN3Role registry (VStr (normalizeMorpheusNetwork_strict network)) role in
  pinning_off process_env env = false -> truthy pinned = true ->
  ROLE_KEY_GROUPS (normalizeMorpheusNetwork_strict network) role = Some config ->
  resolvePinnedNeoN3Role account address_hash process_env registry network role env allowMissing = inr r ->
  (forall m, rr_materialized r = Some m -> identityMatchesPinned address_hash (mt_identity m) pinned = true /\
     exists key, rr_selected_source r = Some key /\ set_in env (rg_primary config ++ rg_fallback config) key /\
       materializeNeoN3Secret account (trim (toEnvSnapshot env key)) = Some m) /\
  (forall key, set_in env (rg_primary config ++ rg_fallback config) key ->
     is_Some (materializeNeoN3Secret account (trim (toEnvSnapshot env key)))) /\
  (forall key m, set_in env (rg_primary config) key -> materializeNeoN3Secret account (trim (toEnvSnapshot env key)) = Some m ->
     exists selected, rr_materialized r = Some selected /\
       identityFingerprint address_hash (mt_identity m) = identityFingerprint address_hash (mt_identity selected)) /\
  (rr_materialized r = None -> allowMissing = true \/ rg_allowPublicKeyOnly config = true /\ rr_public_key r <> "").
Proof.
  intros network role env allowMissing r config pinned Hoff Hpin Hcfg. unfold resolvePinnedNeoN3Role, buildRoleReport.
  rewrite Hoff, Hcfg. cbv zeta. fold pinned.
  set (snapshot := toEnvSnapshot env).
  set (P := collectSecrets account snapshot (rg_primary config)).
  set (F := collectSecrets account snapshot (rg_fallback config)).
  set (U := collectPublicKeys snapshot (rg_public config)).
  set (pm := find_match address_hash pinned (valid_entries P)).
  set (fm := find_match address_hash pinned (valid_entries F)). rewrite Hpin.
  set (matched := match pm with Some e => Some e | None => fm end).
  assert (match matched with Some e => Some e | None => None end = matched) as -> by by destruct matched.
  set (pk := if (from_option _ "" matched =? "")%string then _ else _).
  set (issues := omap _ _ ++ _). set (ok := is_nil issues && _). cbn [andb].
  destruct (is_nil (issues ++ _)) eqn:Hnil; cbn [negb]; [|done]. intros [= <-].
  cbn [rr_materialized rr_selected_source rr_public_key].
  apply is_nil_app in Hnil as [Hissues Hok].
  assert (ok = (negb (is_none matched) || (rg_allowPublicKeyOnly config && negb (pk =? "")%string) || allowMissing)) as Hokv
    by (unfold ok; by rewrite Hissues).
  rewrite Hokv in Hok. clearbody pk. clear ok Hokv. unfold issues in Hissues. clear issues.
  apply is_nil_app in Hissues as [Hvalid Hi]. apply is_nil_app in Hi as [Hagree Hi]. apply is_nil_app in Hi as [_ Hi].
  apply is_nil_app in Hi as [Hprim _]. apply issue_nil in Hagree, Hprim, Hok. apply Z.ltb_ge in Hagree.
  assert (forall key, set_in env (rg_primary config ++ rg_fallback config) key ->
    is_Some (materializeNeoN3Secret account (trim (snapshot key)))) as Hall.
  { intros key. apply (all_valid snapshot (rg_primary config) (rg_fallback config)). exact Hvalid. }
  split_and!; [|exact Hall| |].
  - intros m Hm. destruct matched as [[k m']|] eqn:Hmt; [|done]. injection Hm as ->.
    assert ((k, m) ∈ valid_entries P ++ valid_entries F /\ identityMatchesPinned address_hash (mt_identity m) pinned = true) as [Hin Hid].
    { subst matched. destruct pm as [e|] eqn:Hpm.
      - apply find_match_spec in Hpm as [? ?]. injection Hmt as ->. split; [set_solver|done].
      - apply find_match_spec in Hmt as [? ?]. split; [set_solver|done]. }
    split; [done|]. exists k. split; [done|]. unfold set_in. setoid_rewrite elem_of_app.
    apply elem_of_app in Hin as [Hin|Hin]; apply valid_spec in Hin as (e & He & <- & Hm); apply collect_spec in He as (? & ? & Hme);
      rewrite Hm in Hme; auto.
  - intros key m [Hkey Hset] Hm.
    assert ((key, m) ∈ valid_entries P) as Hin.
    { apply valid_spec. exists (SecretEntry key (Some m)). split; [|done]. by apply collect_spec. }
    destruct pm as [[k' m']|] eqn:Hpm; [|by destruct (valid_entries P); [apply not_elem_of_nil in Hin|]].
    exists m'. split; [done|]. apply find_match_spec in Hpm as [Hin' _].
    eapply unique_single; [by apply Nat2Z.inj_le, Hagree|apply list_elem_of_fmap..].
    + by exists (key, m).
    + by exists (k', m').
  - intros Hm. destruct matched as [e|]; [done|]. cbn in Hok. destruct allowMissing; [by left|right].
    destruct (rg_allowPublicKeyOnly config); [|done]. split; [done|]. intros ->. done.
Qed.
End resolution.

(** Every variable of a role is one the lookup function is asked for. *)
Lemma role_keys_known network role config key :
  ROLE_KEY_GROUPS network role = Some config -> key ∈ rg_primary config ++ rg_fallback config ++ rg_public config ->
  key ∈ NEO_N3_SIGNER_ENV_KEYS.
Proof.
  unfold ROLE_KEY_GROUPS. intros Hc Hk. revert key Hk. apply Forall_forall.
  repeat (case_match; [try (injection Hc as <-; apply (bool_decide_unpack _); vm_compute; reflexivity)|]); done.
Qed.

Definition sample_account (secret : string) : option neo_account :=
  if (secret =? "good")%string then Some (NeoAccountOf "good" "k1" "NA" "1111111111111111111111111111111111111111" "")
  else if (secret =? "other")%string then Some (NeoAccountOf "other" "k2" "NB" "2222222222222222222222222222222222222222" "")
  else None.

Definition sample_registry : val :=
  VObj [("neo_n3", VObj [("testnet", VObj [("roles", VObj [("worker",
    VObj [("script_hash", VStr "0x1111111111111111111111111111111111111111")])])])])].

Definition sample_lookup (first second key : string) : string :=
  if (key =? "MORPHEUS_WORKER_NEO_N3_WIF")%string then first
  else if (key =? "NEO_N3_WIF")%string then second else "".

#[local] Abbreviation resolve first second :=
  (resolvePinnedNeoN3Role sample_account (fun _ => None) (fun _ => "") sample_registry (VStr "testnet") "worker"
     (EnvFunction (sample_lookup first second)) false).

Lemma pinned_signer_sound_witness :
  exists r, resolve "good" "other" = inr r /\ rr_selected_source r = Some "MORPHEUS_WORKER_NEO_N3_WIF" /\
    forall m, rr_materialized r = Some m ->
      identityMatchesPinned (fun _ => None) (mt_identity m)
        (getPinnedNeoN3Role sample_registry (VStr "testnet") "worker") = true.
Proof.
  eexists. split; [vm_compute; reflexivity|]. split; [reflexivity|]. intros m Hm.
  assert (resolve "good" "other" = inr match resolve "good" "other" with inr r => r
            | inl _ => RoleReport "" "" VNull None None "" [] [] [] [] false None end) as Hr by (vm_compute; reflexivity).
  destruct (pinned_signer_sound sample_account (fun _ => None) (fun _ => "") sample_registry (VStr "testnet") "worker"
    (EnvFunction (sample_lookup "good" "other")) false _ _ eq_refl eq_refl eq_refl Hr) as [H _].
  apply H. exact Hm.
Defined.

(** A key of its own that has another identity is refused, even beside a fallback
    that has the pinned one; so is a secret that cannot be read. *)
Example signer_refused :
  (resolve "other" "good", match resolve "" "good" with inr r => rr_selected_source r | inl _ => None end,
   match resolve "good" "junk" with inr _ => "" | inl e => e end)
  = (inl "worker signer drift: primary keys do not match pinned worker identity 0x1111111111111111111111111111111111111111",
     Some "NEO_N3_WIF", "worker signer drift: NEO_N3_WIF is not a valid Neo N3 signer secret").
Proof. vm_compute. reflexivity. Qed.
