(* ===== verification/WorkerSigning.v ===== *)
(** * The worker's signing ([chain/signing.js], [platform/nitro-signer.js])

    Which key signs a payload or a result: the key of a role pinned in the
    environment, or one derived from a master in the secret store, and a
    caller's own key only where the operator allows it.  [wallet_sign] signs
    hexadecimal text with a private key; the secret store and the enclave's
    attestation endpoint are awaited.  Lookups of one secret that overlap share
    a pending promise in the code; here the second starts when the first has
    ended, and finds its outcome. *)
From S2P Require Import Prelude Numbers Strings Values Encoding Effects Stringify Doubles Text WorkerCore Allowlist Relay Signers Buffers.
#[local] Open Scope list_scope.
#[local] Open Scope Z_scope.

Definition MAX_SIGNING_ACCOUNT_CACHE : Z := 32.
Definition MAX_DERIVED_KEY_CACHE_SIZE : Z := 64.

Inductive scall : Type -> Type :=
| GetSecret (secretId : string) : scall string
| FetchAttestation (endpoint reportDataHex : string) : scall val.

(** The caches, in insertion order.  A cached lookup is its outcome: a failed one
    is kept as a failure. *)
Record sign_state := SignState {
  sg_roleKeys : list (string * string);
  sg_accounts : list (string * neo_account);
  sg_derived : list (string * (string + bytes));
  sg_secrets : list (string * (string + bytes));
}.

Abbreviation sprog := (prog sign_state scall).

Definition fail_or {A} (r : string + A) : sprog A := match r with inl e => Throw e | inr x => Ret x end.

Fixpoint cached {A} (k : string) (cache : list (string * A)) : option A :=
  match cache with [] => None | (k', x) :: cache => if decide (k = k') then Some x else cached k cache end.

(** At the limit the oldest entry goes, before a new one is added. *)
Definition make_room {A} (limit : Z) (cache : list (string * A)) : list (string * A) :=
  if limit <=? Z.of_nat (length cache) then tail cache else cache.

Definition key_role_char (a : ascii) : bool :=
  let c := code a in
  ((65 <=? c) && (c <=? 90)) || ((97 <=? c) && (c <=? 122)) || is_digit a || (c =? 45) || (c =? 95).

Definition validateKeyRole (role : string) : bool :=
  negb (role =? "")%string && (Z.of_nat (String.length role) <=? 64) && str_forall key_role_char role.

Definition upper_ascii (a : ascii) : ascii :=
  if (97 <=? code a) && (code a <=? 122) then chr (code a - 32) else a.

Fixpoint upper_text (s : string) : string :=
  match s with "" => "" | String a s => String (upper_ascii a) (upper_text s) end.

(** The text a sub-key is derived from, after the master. *)
Definition derivation_text (keyPath purpose : string) : string :=
  String "000" (keyPath +:+ String "000" purpose).

Section signing.
Context (json_parse : string -> option val) (process_env : string -> string) (account : string -> option neo_account)
  (address_hash : string -> option string) (registry : val) (wallet_sign : string -> string -> string)
  (sha256 : bytes -> bytes) (collate : string -> string -> comparison).
#[local] Open Scope prog_scope.

Definition worker_setting (names : list string) : string + string := env json_parse process_env names.

(** A setting, blank when it cannot be read. *)
Definition setting_or_blank (name : string) : string := match worker_setting [name] with inr v => v | inl _ => "" end.

Definition or_default (a b : string) : string := if (a =? "")%string then b else a.

(** ** [nitro-signer.js] *)

Definition x25519SecretId : string + string :=
  v <-e worker_setting ["NITRO_X25519_SECRET_ID"; "MORPHEUS_X25519_SECRET_ID"] ;; inr (or_default v "morpheus/x25519-wrap").

Definition neodidSaltSecretId : string + string :=
  v <-e worker_setting ["NITRO_NEODID_SALT_SECRET_ID"; "MORPHEUS_NEODID_SALT_SECRET_ID"] ;; inr (or_default v "morpheus/neodid-salt").

Definition flag_setting (v : val) (name : string) : string + bool :=
  match v with
  | VUndef | VNull => s <-e worker_setting [name] ;; inr (boolean_setting (VStr s) false)
  | v => inr (boolean_setting v false)
  end.

Definition shouldUseDerivedKeys (payload : val) : string + bool :=
  flag_setting (get payload "use_derived_keys") "NITRO_USE_DERIVED_KEYS".

Definition shouldEmitAttestation (payload : val) : string + bool :=
  flag_setting (v_coalesce (get payload "include_attestation") (get payload "emit_attestation")) "NITRO_EMIT_ATTESTATION".

Definition lookup_secret (secretId : string) : sprog bytes :=
  b64 <-- await (GetSecret secretId) ;;
  if (b64 =? "")%string then Throw ("secret " +:+ secretId +:+ " is empty or unavailable")
  else
    let buf := base64_decode b64 in
    if Z.of_nat (length buf) <? 16 then Throw ("secret " +:+ secretId +:+ " decoded too short") else Ret buf.

Definition fetchSecretBytes (secretId : string) : sprog bytes :=
  hit <-- reads (fun s => cached secretId (sg_secrets s)) ;;
  match hit with
  | Some outcome => fail_or outcome
  | None =>
      outcome <-- attempt (lookup_secret secretId) ;;
      modify (fun s => SignState (sg_roleKeys s) (sg_accounts s) (sg_derived s)
                         (make_room MAX_DERIVED_KEY_CACHE_SIZE (sg_secrets s) ++ [(secretId, outcome)])) ;;;
      fail_or outcome
  end.

Definition selectMasterSecretId (path purpose : string) : string + string :=
  let probe := toLowerCase (path +:+ ":" +:+ purpose) in
  if includes probe "neodid" || includes probe "nullifier" then neodidSaltSecretId else x25519SecretId.

Definition derive_from (keyPath purpose : string) : sprog bytes :=
  secretId <-- fail_or (selectMasterSecretId keyPath purpose) ;;
  master <-- fetchSecretBytes secretId ;;
  Ret (sha256 (master ++ utf8 (derivation_text keyPath purpose))).

Definition deriveKeyBytes (path purpose : string) : sprog bytes :=
  let keyPath := trim path in
  if (keyPath =? "")%string then Throw "derived key path required"
  else
    let cacheKey := keyPath +:+ ":" +:+ purpose in
    hit <-- reads (fun s => cached cacheKey (sg_derived s)) ;;
    match hit with
    | Some outcome => fail_or outcome
    | None =>
        outcome <-- attempt (derive_from keyPath purpose) ;;
        modify (fun s => SignState (sg_roleKeys s) (sg_accounts s)
                           (make_room MAX_DERIVED_KEY_CACHE_SIZE (sg_derived s) ++ [(cacheKey, outcome)]) (sg_secrets s)) ;;;
        fail_or outcome
    end.

(** Four rounds of re-hashing, until the bytes are a usable key. *)
Fixpoint usable_key (rounds : nat) (current : bytes) (label : string) : string + string :=
  match rounds with
  | O => inl ("unable to derive usable private key for " +:+ label)
  | S rounds =>
      let hex := hex_encode current in
      if (String.length hex =? 64)%nat && negb (str_forall (fun a => Ascii.eqb a "0") hex) then inr hex
      else usable_key rounds (sha256 (current ++ utf8 label)) label
  end.

Definition normalizePrivateKeyHex (buffer : bytes) (label : string) : string + string := usable_key 4 buffer label.

Definition role_key_path (role : string) : string + string :=
  configured <-e worker_setting ["NITRO_" +:+ upper_text role +:+ "_NEO_N3_KEY_PATH"] ;;
  inr (or_default configured ("morpheus/neo-n3/" +:+ role +:+ "/signing/v1")).

Definition deriveNeoN3PrivateKeyHex (role : string) : sprog string :=
  if negb (validateKeyRole role) then Throw "invalid key role: must be 1-64 alphanumeric/dash/underscore chars"
  else
    keyPath <-- fail_or (role_key_path role) ;;
    material <-- deriveKeyBytes keyPath "neo-n3-signing" ;;
    fail_or (normalizePrivateKeyHex material ("neo-n3:" +:+ role)).

Definition report_bytes (raw : string) : bytes :=
  let t := trim raw in
  if (String.length t =? 64)%nat && str_forall is_hex t then hex_decode t else sha256 (utf8 t).

(** [null] when the endpoint does not answer. *)
Definition buildNitroAttestation (reportInput : string) : sprog val :=
  configured <-- fail_or (worker_setting ["NITRO_ATTEST_ENDPOINT"; "NITRO_SIGNER_ENDPOINT"]) ;;
  let endpoint := or_default configured "http://127.0.0.1:8787" in
  let reportHex := hex_encode (report_bytes reportInput) in
  body <-- attempt (await (FetchAttestation endpoint reportHex)) ;;
  Ret (match body with
       | inr body => VObj [("runtime", VStr "aws-nitro");
                           ("attestation_document", v_or (get body "attestation_document") (v_or (get body "document") VNull));
                           ("report_data", VStr ("0x" +:+ reportHex))]
       | inl _ => VNull
       end).

Definition maybeBuildNitroAttestation (payload : val) (reportInput keySource : string) : sprog val :=
  if (keySource =? "caller")%string then Ret VNull
  else
    emit <-- fail_or (shouldEmitAttestation payload) ;;
    if negb emit then Ret VNull
    else
      attestation <-- attempt (buildNitroAttestation reportInput) ;;
      Ret (match attestation with inr a => a | inl _ => VNull end).

(** ** [signing.js] *)

Definition resolveEnvRoleKey (role network : string) : sprog string :=
  let cacheKey := role +:+ ":" +:+ network in
  hit <-- reads (fun s => cached cacheKey (sg_roleKeys s)) ;;
  match hit with
  | Some key => Ret key
  | None =>
      report <-- fail_or (reportPinnedNeoN3Role account address_hash process_env registry (VStr network) role
                            (EnvFunction setting_or_blank) true) ;;
      if negb (is_nil (rr_issues report)) then Throw (join "; " (rr_issues report))
      else
        let key := match rr_materialized report with
                   | Some m => or_default (mt_private_key m) (mt_wif m) | None => "" end in
        modify (fun s => SignState (sg_roleKeys s ++ [(cacheKey, key)]) (sg_accounts s) (sg_derived s) (sg_secrets s)) ;;;
        Ret key
  end.

(** [null] for a blank key. *)
Definition signingAccountFor (privateKey : string) : sprog (option neo_account) :=
  let key := trim privateKey in
  if (key =? "")%string then Ret None
  else
    hit <-- reads (fun s => cached key (sg_accounts s)) ;;
    match hit with
    | Some a => Ret (Some a)
    | None =>
        match account key with
        | None => Throw "invalid private key"
        | Some a =>
            modify (fun s => SignState (sg_roleKeys s)
                               (make_room MAX_SIGNING_ACCOUNT_CACHE (sg_accounts s) ++ [(key, a)]) (sg_derived s) (sg_secrets s)) ;;;
            Ret (Some a)
        end
    end.

Definition hasCallerSuppliedKeyMaterial (payload : val) : bool := negb (caller_key payload =? "")%string.

Definition allowCallerSuppliedSigningKey : string + bool :=
  v <-e worker_setting ["MORPHEUS_ALLOW_CALLER_SIGNING_KEY"] ;;
  inr (bool_decide (toLowerCase v ∈ ["1"; "true"; "yes"; "on"])).

Definition rejectCallerSuppliedSigningKey (payload : val) : string + unit :=
  if hasCallerSuppliedKeyMaterial payload then
    allowed <-e allowCallerSuppliedSigningKey ;;
    if allowed then inr tt
    else inl ("caller-supplied signing key material (private_key/signing_key/wif) is not accepted "
              +:+ "on this signing lane; the enclave-resident key is used instead")
  else inr tt.

Definition resolveKeySource (payload : val) : string := if hasCallerSuppliedKeyMaterial payload then "caller" else "worker".

Definition requested_role (payload : val) : string :=
  coerceTrim (v_or (get payload "dstack_key_role") (v_or (get payload "key_role") (VStr ""))).

Definition resolveOracleVerifierRole (payload : val) : bool :=
  (toLowerCase (requested_role payload) =? "oracle_verifier")%string.

Definition resolveRequestedNeoN3DerivedRole (payload : val) : string := or_default (requested_role payload) "worker".

Definition signing_network (payload : val) : string + string :=
  configured <-e worker_setting ["MORPHEUS_NETWORK"; "NEXT_PUBLIC_MORPHEUS_NETWORK"] ;;
  inr (resolvePayloadNetwork payload (normalizeMorpheusNetwork (VStr (or_default configured "testnet")) "testnet")).

Definition resolveNeoN3OracleVerifierKey (payload : val) : sprog string :=
  network <-- fail_or (signing_network payload) ;; resolveEnvRoleKey "oracle_verifier" network.

Definition resolveNeoN3WorkerKey (payload : val) : sprog string :=
  network <-- fail_or (signing_network payload) ;; resolveEnvRoleKey "worker" network.

(** The bytes to sign and the field they come from. *)
Definition resolveSigningBytes (payload : val) : string + (bytes * string) :=
  if negb (coerceTrim (get payload "data_hex") =? "")%string then
    inr (hex_decode (hex_body (get payload "data_hex")), "data_hex")
  else if negb (coerceTrim (get payload "data_base64") =? "")%string then
    bytes <-e buffer_base64 (get payload "data_base64") ;; inr (bytes, "data_base64")
  else
    match get payload "message", get payload "data" with
    | VStr message, _ => inr (utf8 message, "message")
    | _, VStr data => inr (utf8 data, "data:string")
    | _, VUndef => inl "one of data, message, data_hex, or data_base64 is required"
    | _, data => inr (utf8 (stableStringify collate data), "data:json")
    end.

Record signature := Signature {
  si_signature : string;
  si_public_key : string;
  si_address : string;
  si_script_hash : string;
}.

(** The signature under a key; [null] without one. *)
Definition sign_with (bytes : bytes) (privateKey : string) : sprog (option signature) :=
  if (privateKey =? "")%string then Ret None
  else
    found <-- signingAccountFor privateKey ;;
    match found with
    | None => Throw "Cannot read properties of null (reading 'privateKey')"
    | Some a => Ret (Some (Signature (wallet_sign (hex_encode bytes) (na_privateKey a)) (na_publicKey a) (na_address a)
                             ("0x" +:+ na_scriptHash a)))
    end.

(** The derived key of a role, or [fallback] when it cannot be derived. *)
Definition derived_or (role fallback : string) (otherwise : sprog string) : sprog string :=
  key <-- attempt (deriveNeoN3PrivateKeyHex role) ;;
  match key with inr key => Ret key | inl _ => otherwise end.

(** The signature and the source of its key. *)
Definition maybeSignNeoN3Bytes (bytes : bytes) (payload : val) : sprog (option (signature * string)) :=
  fail_or (rejectCallerSuppliedSigningKey payload) ;;;
  let keySource := resolveKeySource payload in
  let useOracleVerifierRole := resolveOracleVerifierRole payload in
  let requestScopedKey := caller_key payload in
  configured <-- (if useOracleVerifierRole then resolveNeoN3OracleVerifierKey payload else Ret "") ;;
  privateKey <-- (if negb (requestScopedKey =? "")%string then Ret requestScopedKey
                  else if negb (configured =? "")%string then Ret configured
                  else resolveNeoN3WorkerKey payload) ;;
  let allowDerivedOverride :=
    (requestScopedKey =? "")%string && (negb useOracleVerifierRole || (configured =? "")%string) in
  derived <-- fail_or (shouldUseDerivedKeys payload) ;;
  privateKey <-- (if derived && allowDerivedOverride then
                    let requestedRole := resolveRequestedNeoN3DerivedRole payload in
                    derived_or requestedRole privateKey
                      (if useOracleVerifierRole && negb (requestedRole =? "worker")%string
                       then derived_or "worker" privateKey (Ret privateKey) else Ret privateKey)
                  else Ret privateKey) ;;
  signed <-- sign_with bytes privateKey ;;
  Ret ((fun s => (s, keySource)) <$> signed).

Definition maybeSignWorkerNeoN3Bytes (bytes : bytes) (payload : val) : sprog (option signature) :=
  privateKey <-- resolveNeoN3WorkerKey payload ;;
  derived <-- fail_or (shouldUseDerivedKeys payload) ;;
  privateKey <-- (if derived then
                    derived_or (or_default (coerceTrim (v_or (get payload "dstack_key_role")
                                  (v_or (get payload "key_role") (VStr "worker")))) "worker") privateKey (Ret privateKey)
                  else Ret privateKey) ;;
  sign_with bytes privateKey.

Definition text_or_null (f : signature -> string) (s : option signature) : val :=
  match s with Some s => v_or (VStr (f s)) VNull | None => VNull end.

Definition buildSignedResultEnvelope (result payload : val) : sprog val :=
  fail_or (rejectCallerSuppliedSigningKey payload) ;;;
  let keySource := resolveKeySource payload in
  let payloadBytes := utf8 (stableStringify collate result) in
  let outputHash := hex_encode (sha256 payloadBytes) in
  signature <-- maybeSignWorkerNeoN3Bytes payloadBytes payload ;;
  teeAttestation <-- maybeBuildNitroAttestation payload outputHash keySource ;;
  Ret (VObj [("output_hash", VStr outputHash); ("attestation_hash", VStr outputHash);
             ("signature", text_or_null si_signature signature); ("public_key", text_or_null si_public_key signature);
             ("signer_address", text_or_null si_address signature);
             ("signer_script_hash", text_or_null si_script_hash signature); ("key_source", VStr keySource);
             ("tee_attestation", teeAttestation)]).

Definition buildVerificationEnvelope (signed : val) : val :=
  VObj [("output_hash", get signed "output_hash"); ("attestation_hash", get signed "attestation_hash");
        ("signature", get signed "signature"); ("public_key", get signed "public_key");
        ("signer_address", v_or (get signed "signer_address") VNull);
        ("signer_script_hash", v_or (get signed "signer_script_hash") VNull);
        ("tee_attestation", v_coalesce (get signed "tee_attestation") VNull)].

Definition buildLaneSignedEnvelope (signed : val) : val :=
  VObj [("output_hash", get signed "output_hash"); ("signature", v_or (get signed "signature") VNull);
        ("public_key", v_or (get signed "public_key") VNull); ("attestation_hash", get signed "attestation_hash");
        ("tee_attestation", v_coalesce (get signed "tee_attestation") VNull);
        ("verification", buildVerificationEnvelope signed)].

(** [handleSignPayload]: the status and the body. *)
Definition handleSignPayload (payload : val) : sprog (Z * val) :=
  targetChain <-- fail_or (normalizeTargetChain (get payload "target_chain")) ;;
  if (targetChain =? "neo_n3")%string then
    '(bytes, source) <-- fail_or (resolveSigningBytes payload) ;;
    signature <-- maybeSignNeoN3Bytes bytes payload ;;
    match signature with
    | None => Ret (400, VObj [("error", VStr "Neo N3 signing key is not configured")])
    | Some (s, _) =>
        Ret (200, VObj [("target_chain", VStr "neo_n3"); ("source", VStr source); ("payload_hash", VStr (hex_encode (sha256 bytes)));
                        ("signature", VStr (si_signature s)); ("public_key", VStr (si_public_key s));
                        ("address", VStr (si_address s)); ("script_hash", VStr (si_script_hash s))])
    end
  else Ret (400, VObj [("error", VStr "unsupported target_chain")]).
End signing.
