(* ===== verification/WorkerSigningSpec.v ===== *)
(** * Whose key signs

    Signatures are made with a key pinned in the environment or derived from a
    master of the secret store, never with a caller's key unless that is
    switched on; a result's signature covers exactly the bytes its output hash
    commits to; the keys of different roles are derived from different inputs. *)
From S2P Require Import Prelude Numbers Strings Values Encoding Effects Stringify Text WorkerCore Allowlist Relay Signers WorkerSigning.
From Stdlib Require Import QArith.
#[local] Open Scope list_scope.
#[local] Open Scope Z_scope.

Abbreviation sobs := (obs sign_state scall).

Section spec.
Context (json_parse : string -> option val) (process_env : string -> string) (account : string -> option neo_account)
  (address_hash : string -> option string) (registry : val) (wallet_sign : string -> string -> string)
  (sha256 : bytes -> bytes) (collate : string -> string -> comparison).
#[local] Set Default Proof Using "All".

(** The masters the secret store holds. *)
Context (M : bytes -> Prop).

(** A key of a role, as the environment pins it. *)
Definition pinned_key (key : string) : Prop :=
  exists role network report,
    reportPinnedNeoN3Role account address_hash process_env registry (VStr network) role
      (EnvFunction (setting_or_blank json_parse process_env)) true = inr report /\ rr_issues report = [] /\
    key = match rr_materialized report with Some m => or_default (mt_private_key m) (mt_wif m) | None => "" end.

(** Bytes derived from a master. *)
Definition derived_bytes (b : bytes) : Prop :=
  exists master keyPath purpose, M master /\ b = sha256 (master ++ utf8 (derivation_text keyPath purpose)).

Definition derived_key (key : string) : Prop :=
  exists role b, validateKeyRole role = true /\ derived_bytes b /\
    normalizePrivateKeyHex sha256 b ("neo-n3:" +:+ role) = inr key.

Definition enclave_key (key : string) : Prop := pinned_key key \/ derived_key key.

(** A signature of [bytes] with an enclave's key. *)
Definition enclave_signature (bytes : bytes) (s : signature) : Prop :=
  exists key a, enclave_key key /\ account (trim key) = Some a /\
    s = Signature (wallet_sign (hex_encode bytes) (na_privateKey a)) (na_publicKey a) (na_address a) ("0x" +:+ na_scriptHash a).

Definition caches_ok (s : sign_state) : Prop :=
  Forall (fun e => pinned_key e.2) (sg_roleKeys s) /\
  Forall (fun e => account e.1 = Some e.2) (sg_accounts s) /\
  Forall (fun e => forall b, e.2 = inr b -> derived_bytes b) (sg_derived s) /\
  Forall (fun e => forall b, e.2 = inr b -> M b) (sg_secrets s).

(** The secret store answers with its masters. *)
Definition store_ok (en : Effects.env sign_state scall) : Prop :=
  forall tr id text, env_reply en _ tr (GetSecret id) = inr text -> M (base64_decode text).

(** [p] keeps the caches, and what it returns is in [P]. *)
Definition ok {A} (P : A -> Prop) (p : sprog A) : Prop :=
  forall en s tr, store_ok en -> caches_ok s ->
    let '(o, s', _) := run en p s tr in caches_ok s' /\ forall x, o = inr x -> P x.

Lemma ok_ret {A} (P : A -> Prop) a : P a -> ok P (Ret a).
Proof. intros Ha en s tr _ Hs. split; [done|]. by intros x [= <-]. Qed.

Lemma ok_throw {A} (P : A -> Prop) m : ok P (Throw m).
Proof. intros en s tr _ Hs. done. Qed.

Lemma ok_bind {A B} (P : A -> Prop) (Q : B -> Prop) (p : sprog A) (k : A -> sprog B) :
  ok P p -> (forall a, P a -> ok Q (k a)) -> ok Q (bind p k).
Proof.
  intros Hp Hk en s tr Hen Hs. rewrite run_bind. specialize (Hp en s tr Hen Hs).
  destruct (run en p s tr) as [[[m|a] s'] tr']; destruct Hp as [Hs' Ha]; [done|]. by apply Hk; [apply Ha|..].
Qed.

Lemma ok_attempt {A} (P : A -> Prop) (p : sprog A) : ok P p -> ok (fun o => forall x, o = inr x -> P x) (attempt p).
Proof.
  intros Hp en s tr Hen Hs. rewrite run_attempt. specialize (Hp en s tr Hen Hs).
  destruct (run en p s tr) as [[o s'] tr']. destruct Hp as [Hs' Ha]. split; [done|]. by intros x [= <-].
Qed.

Lemma ok_fail {A} (r : string + A) : ok (fun x => r = inr x) (fail_or r).
Proof. destruct r; [apply ok_throw|by apply ok_ret]. Qed.

Lemma ok_reads {A} (P : A -> Prop) (f : sign_state -> A) : (forall s, caches_ok s -> P (f s)) -> ok P (reads f).
Proof. intros H en s tr _ Hs. split; [done|]. intros x [= <-]. auto. Qed.

Lemma ok_modify (f : sign_state -> sign_state) : (forall s, caches_ok s -> caches_ok (f s)) -> ok (fun _ => True) (modify f).
Proof. intros H en s tr _ Hs. split; [|done]. by apply H. Qed.

Lemma ok_weaken {A} (P Q : A -> Prop) (p : sprog A) : ok P p -> (forall x, P x -> Q x) -> ok Q p.
Proof.
  intros Hp H en s tr Hen Hs. specialize (Hp en s tr Hen Hs). destruct (run en p s tr) as [[o s'] tr'].
  destruct Hp. split; auto.
Qed.

Lemma cached_in {A} k (cache : list (string * A)) x : cached k cache = Some x -> (k, x) ∈ cache.
Proof.
  induction cache as [|[k' y] cache IH]; [done|]. cbn. case_decide as Hk; [intros [= ->]; subst; by left|right; auto].
Qed.

Lemma cached_forall {A} (P : string * A -> Prop) k cache x : Forall P cache -> cached k cache = Some x -> P (k, x).
Proof. rewrite Forall_forall. intros H Hc. by apply H, cached_in. Qed.

Lemma make_room_forall {A} (P : string * A -> Prop) limit cache x : Forall P cache -> P x -> Forall P (make_room limit cache ++ [x]).
Proof.
  intros Hc Hx. apply Forall_app. split; [|by constructor]. unfold make_room. case_match; [|done].
  destruct Hc; [constructor|done].
Qed.

(** ** The secret store *)

Lemma fetch_ok id : ok M (fetchSecretBytes id).
Proof.
  unfold fetchSecretBytes. apply ok_bind with (P := fun hit => forall o, hit = Some o -> forall b, o = inr b -> M b).
  { apply ok_reads. intros s (_ & _ & _ & Hs) o Ho. exact (cached_forall _ _ _ _ Hs Ho). }
  intros [o|] Hit.
  { eapply ok_weaken; [apply ok_fail|]. intros b Hb. by apply (Hit o). }
  apply ok_bind with (P := fun o => forall b, o = inr b -> M b).
  - apply ok_attempt. unfold lookup_secret. apply ok_bind with (P := fun text => M (base64_decode text)).
    { intros en s tr Hen Hs. cbn. destruct (env_reply en _ tr (GetSecret id)) as [m|text] eqn:Hr; cbn; split; try done.
      intros x [= <-]. by apply (Hen tr id). }
    intros text Ht. repeat case_match; [apply ok_throw..|by apply ok_ret].
  - intros o Ho. apply ok_bind with (P := fun _ => True).
    + apply ok_modify. intros s (H1 & H2 & H3 & H4). split_and!; try done. by apply make_room_forall.
    + intros _ _. eapply ok_weaken; [apply ok_fail|]. intros b Hb. by apply Ho.
Qed.

Lemma derive_ok path purpose : ok derived_bytes (deriveKeyBytes json_parse process_env sha256 path purpose).
Proof.
  unfold deriveKeyBytes. case_match; [apply ok_throw|].
  apply ok_bind with (P := fun hit => forall o, hit = Some o -> forall b, o = inr b -> derived_bytes b).
  { apply ok_reads. intros s (_ & _ & Hs & _) o Ho. exact (cached_forall _ _ _ _ Hs Ho). }
  intros [o|] Hit.
  { eapply ok_weaken; [apply ok_fail|]. intros b Hb. by apply (Hit o). }
  apply ok_bind with (P := fun o => forall b, o = inr b -> derived_bytes b).
  - apply ok_attempt. unfold derive_from. eapply ok_bind; [apply ok_fail|intros secretId _].
    eapply ok_bind; [apply fetch_ok|intros master Hm]. apply ok_ret. by exists master, (trim path), purpose.
  - intros o Ho. apply ok_bind with (P := fun _ => True).
    + apply ok_modify. intros s (H1 & H2 & H3 & H4). split_and!; try done. by apply make_room_forall.
    + intros _ _. eapply ok_weaken; [apply ok_fail|]. intros b Hb. by apply Ho.
Qed.

Lemma derive_key_ok role : ok derived_key (deriveNeoN3PrivateKeyHex json_parse process_env sha256 role).
Proof.
  unfold deriveNeoN3PrivateKeyHex. destruct (validateKeyRole role) eqn:Hr; [|apply ok_throw]. cbn [negb].
  eapply ok_bind; [apply ok_fail|intros path _]. eapply ok_bind; [apply derive_ok|intros b Hb].
  eapply ok_weaken; [apply ok_fail|]. intros key Hk. by exists role, b.
Qed.

(** ** The keys that sign *)

Lemma env_key_ok role network :
  ok pinned_key (resolveEnvRoleKey json_parse process_env account address_hash registry role network).
Proof.
  unfold resolveEnvRoleKey. apply ok_bind with (P := fun hit => forall key, hit = Some key -> pinned_key key).
  { apply ok_reads. intros s (Hs & _) key Hk. exact (cached_forall _ _ _ _ Hs Hk). }
  intros [key|] Hit; [by apply ok_ret, Hit|]. eapply ok_bind; [apply ok_fail|intros report Hrep].
  destruct (rr_issues report) eqn:Hiss; [|apply ok_throw]. cbn [is_nil negb].
  set (key := match rr_materialized report with Some m => _ | None => _ end).
  assert (pinned_key key) as Hkey by (by exists role, network, report).
  apply ok_bind with (P := fun _ => True); [|intros _ _; by apply ok_ret].
  apply ok_modify. intros s (H1 & H2 & H3 & H4). split_and!; try done. apply Forall_app. split; [done|]. by constructor.
Qed.

Lemma worker_key_ok payload :
  ok pinned_key (resolveNeoN3WorkerKey json_parse process_env account address_hash registry payload).
Proof. unfold resolveNeoN3WorkerKey. eapply ok_bind; [apply ok_fail|intros network _]. apply env_key_ok. Qed.

Lemma verifier_key_ok payload :
  ok pinned_key (resolveNeoN3OracleVerifierKey json_parse process_env account address_hash registry payload).
Proof. unfold resolveNeoN3OracleVerifierKey. eapply ok_bind; [apply ok_fail|intros network _]. apply env_key_ok. Qed.

Lemma derived_or_ok role fallback otherwise :
  ok enclave_key otherwise -> ok enclave_key (derived_or json_parse process_env sha256 role fallback otherwise).
Proof.
  intros Ho. unfold derived_or. eapply ok_bind; [apply ok_attempt, derive_key_ok|].
  intros [m|key] Hk; [exact Ho|]. apply ok_ret. right. by apply Hk.
Qed.

Lemma sign_ok bytes key :
  enclave_key key ->
  ok (fun o => forall s, o = Some s -> enclave_signature bytes s) (sign_with account wallet_sign bytes key).
Proof.
  intros Hkey. unfold sign_with. case_match; [by apply ok_ret|].
  apply ok_bind with (P := fun o => forall a, o = Some a -> account (trim key) = Some a).
  - unfold signingAccountFor. case_match; [by apply ok_ret|].
    apply ok_bind with (P := fun hit => forall a, hit = Some a -> account (trim key) = Some a).
    { apply ok_reads. intros s (_ & Hs & _) a Ha. exact (cached_forall _ _ _ _ Hs Ha). }
    intros [a|] Hit; [apply ok_ret; intros a' [= <-]; by apply Hit|].
    destruct (account (trim key)) as [a|] eqn:Ha; [|apply ok_throw].
    apply ok_bind with (P := fun _ => True); [|intros _ _; apply ok_ret; by intros a' [= <-]].
    apply ok_modify. intros s (H1 & H2 & H3 & H4). split_and!; try done. by apply make_room_forall.
  - intros [a|] Ha; [|apply ok_throw]. apply ok_ret. intros s [= <-]. exists key, a. split; [done|]. split; [by apply Ha|done].
Qed.

Lemma worker_signature_ok bytes payload :
  ok (fun o => forall s, o = Some s -> enclave_signature bytes s)
    (maybeSignWorkerNeoN3Bytes json_parse process_env account address_hash registry wallet_sign sha256 bytes payload).
Proof.
  unfold maybeSignWorkerNeoN3Bytes. eapply ok_bind; [apply worker_key_ok|intros key Hkey].
  eapply ok_bind; [apply ok_fail|intros derived _]. apply ok_bind with (P := enclave_key); [|intros k Hk; by apply sign_ok].
  assert (ok enclave_key (Ret key)) as Hret by (apply ok_ret; by left). destruct derived; [|done]. by apply derived_or_ok.
Qed.

Lemma not_caller payload :
  allowCallerSuppliedSigningKey json_parse process_env = inr false ->
  rejectCallerSuppliedSigningKey json_parse process_env payload = inr tt -> caller_key payload = "".
Proof.
  unfold rejectCallerSuppliedSigningKey, hasCallerSuppliedKeyMaterial. intros ->.
  by destruct (String.eqb_spec (caller_key payload) "").
Qed.

Lemma signed_ok bytes payload :
  allowCallerSuppliedSigningKey json_parse process_env = inr false ->
  ok (fun o => forall sg source, o = Some (sg, source) ->
        source = "worker" /\ caller_key payload = "" /\ enclave_signature bytes sg)
    (maybeSignNeoN3Bytes json_parse process_env account address_hash registry wallet_sign sha256 bytes payload).
Proof.
  intros Hoff. unfold maybeSignNeoN3Bytes. eapply ok_bind; [apply ok_fail|intros [] Hrej].
  apply (not_caller _ Hoff) in Hrej as Hc. cbv zeta. unfold resolveKeySource, hasCallerSuppliedKeyMaterial. rewrite Hc. cbn [String.eqb negb].
  set (verifier := resolveOracleVerifierRole payload). set (role := resolveRequestedNeoN3DerivedRole payload).
  apply ok_bind with (P := fun key => key <> "" -> pinned_key key).
  { destruct verifier; [|by apply ok_ret]. eapply ok_weaken; [apply verifier_key_ok|done]. }
  intros configured Hconf. apply ok_bind with (P := enclave_key).
  { destruct (String.eqb_spec configured ""); cbn [negb].
    - eapply ok_weaken; [apply worker_key_ok|intros k Hk; by left].
    - apply ok_ret. left. by apply Hconf. }
  intros key Hkey. assert (ok enclave_key (Ret key)) as Hret by by apply ok_ret.
  eapply ok_bind; [apply ok_fail|intros derived _]. apply ok_bind with (P := enclave_key).
  { destruct (derived && _); [|done]. apply derived_or_ok. destruct (verifier && _); [by apply derived_or_ok|done]. }
  intros k Hk. eapply ok_bind; [by apply sign_ok|intros o Ho]. apply ok_ret. intros sg source Hs.
  destruct o as [s0|]; [|done]. injection Hs as <- <-. split_and!; [done..|by apply Ho].
Qed.

(** C33.  A signing request is signed by the enclave's key.  Unless the operator
    allows callers' keys, a payload is signed only when it brings no key of its
    own, and then with a key that is pinned in the environment for a role, or
    derived from a master of the secret store; whatever the store answers, the
    caches keep that property for the requests that follow. *)
Theorem enclave_key_signs : forall bytes payload en s,
  allowCallerSuppliedSigningKey json_parse process_env = inr false -> store_ok en -> caches_ok s ->
  let '(o, s', _) := run en (maybeSignNeoN3Bytes json_parse process_env account address_hash registry wallet_sign sha256
                               bytes payload) s [] in
  caches_ok s' /\ forall sg source, o = inr (Some (sg, source)) ->
    source = "worker" /\ caller_key payload = "" /\ enclave_signature bytes sg.
Proof.
  intros bytes payload en s Hoff Hen Hs. pose proof (signed_ok bytes payload Hoff en s [] Hen Hs) as H. revert H.
  destruct (run en (maybeSignNeoN3Bytes _ _ _ _ _ _ _ _ _) s []) as [[o s'] tr]. intros [Hs' Ho]. split; [done|].
  intros sg source Hsg. by apply (Ho _ Hsg).
Qed.

(** A result's signature covers what its output hash commits to.  The envelope
    of a result carries the SHA-256 of the canonical JSON of the result as output
    and attestation hash, and its signature, public key, address and script hash
    are those of one signature, of exactly those bytes, with an enclave key; they
    are all null when there is no key. *)
Theorem signed_envelope_binds : forall result payload en s,
  store_ok en -> caches_ok s ->
  let bytes := utf8 (stableStringify collate result) in
  let '(o, s', _) := run en (buildSignedResultEnvelope json_parse process_env account address_hash registry wallet_sign sha256
                               collate result payload) s [] in
  caches_ok s' /\ forall v, o = inr v ->
    get v "output_hash" = VStr (hex_encode (sha256 bytes)) /\ get v "attestation_hash" = get v "output_hash" /\
    exists signed, (forall sg, signed = Some sg -> enclave_signature bytes sg) /\
      get v "signature" = text_or_null si_signature signed /\ get v "public_key" = text_or_null si_public_key signed /\
      get v "signer_address" = text_or_null si_address signed /\
      get v "signer_script_hash" = text_or_null si_script_hash signed.
Proof.
  intros result payload en s Hen Hs bytes.
  set (P := fun v => get v "output_hash" = VStr (hex_encode (sha256 bytes)) /\ get v "attestation_hash" = get v "output_hash" /\
    exists signed, (forall sg, signed = Some sg -> enclave_signature bytes sg) /\
      get v "signature" = text_or_null si_signature signed /\ get v "public_key" = text_or_null si_public_key signed /\
      get v "signer_address" = text_or_null si_address signed /\ get v "signer_script_hash" = text_or_null si_script_hash signed).
  assert (ok P (buildSignedResultEnvelope json_parse process_env account address_hash registry wallet_sign sha256 collate
                  result payload)) as H.
  { unfold buildSignedResultEnvelope. eapply ok_bind; [apply ok_fail|intros [] _]. cbv zeta. fold bytes.
    eapply ok_bind; [apply worker_signature_ok|intros signed Hsigned].
    apply ok_bind with (P := fun _ => True); [|intros att _; apply ok_ret; split_and!; [done..|by exists signed]].
    unfold maybeBuildNitroAttestation, buildNitroAttestation.
    case_match; [by apply ok_ret|]. eapply ok_bind; [apply ok_fail|intros emit _]. case_match; [by apply ok_ret|].
    apply ok_bind with (P := fun _ => True); [eapply ok_weaken; [apply (ok_attempt (fun _ => True))|done]|intros; by apply ok_ret].
    eapply ok_bind; [apply ok_fail|intros ep _]. eapply ok_bind with (P := fun _ => True); [|intros; by apply ok_ret].
    eapply ok_weaken; [apply (ok_attempt (fun _ => True))|done].
    intros en0 s0 tr0 _ Hs0. cbn. destruct (env_reply en0 _ tr0 _) as [m|v]; cbn; by split. }
  specialize (H en s [] Hen Hs). revert H.
  destruct (run en (buildSignedResultEnvelope _ _ _ _ _ _ _ _ _ _) s []) as [[o s'] tr]. done.
Qed.
End spec.

(** ** Keys of different roles *)

Definition default_key_path (role : string) : string := "morpheus/neo-n3/" +:+ role +:+ "/signing/v1".

Lemma role_no_slash role : str_forall key_role_char role = true -> str_forall (not_char "/") role = true.
Proof.
  apply str_forall_impl. intros a Ha.
  assert (forall b, implb (key_role_char b) (not_char "/" b) = true) as H by (apply ascii_all; vm_compute; reflexivity).
  specialize (H a). by rewrite Ha in H.
Qed.

Lemma role_no_nul role : str_forall key_role_char role = true -> str_forall (not_char "000") role = true.
Proof.
  apply str_forall_impl. intros a Ha.
  assert (forall b, implb (key_role_char b) (not_char "000" b) = true) as H by (apply ascii_all; vm_compute; reflexivity).
  specialize (H a). by rewrite Ha in H.
Qed.

(** The keys of two roles come from different inputs of the hash, under one master. *)
Lemma role_keys_separate master role role' :
  validateKeyRole role = true -> validateKeyRole role' = true ->
  master ++ utf8 (derivation_text (default_key_path role) "neo-n3-signing")
  = master ++ utf8 (derivation_text (default_key_path role') "neo-n3-signing") ->
  role = role'.
Proof.
  intros [_ Hr]%andb_true_iff [_ Hr']%andb_true_iff Heq%app_inv_head%utf8_inj.
  unfold derivation_text in Heq. injection Heq as Heq.
  assert (forall r, str_forall key_role_char r = true -> str_forall (not_char "000") (default_key_path r) = true) as Hnul.
  { intros r Hc. unfold default_key_path. rewrite !str_forall_app. by rewrite (role_no_nul r Hc). }
  apply split_sep_inj in Heq as [Heq _]; [|by apply Hnul..].
  unfold default_key_path in Heq. cbn in Heq. repeat (injection Heq as Heq).
  by apply (split_sep_inj "/" role role' "signing/v1" "signing/v1"); [apply role_no_slash|apply role_no_slash|].
Qed.

(** ** A failed lookup is kept *)

(** A lookup of a secret that failed once fails for good, without asking again. *)
Lemma failed_lookup_sticks en id message s tr :
  cached id (sg_secrets s) = Some (inl message) -> run en (fetchSecretBytes id) s tr = (inl message, s, tr).
Proof. intros H. unfold fetchSecretBytes. cbn. by rewrite H. Qed.

Lemma failed_lookup_is_kept en id message s tr :
  cached id (sg_secrets s) = None -> (length (sg_secrets s) < 64)%nat ->
  env_reply en _ tr (GetSecret id) = inl message ->
  let '(o, s', _) := run en (fetchSecretBytes id) s tr in
  o = inl message /\ cached id (sg_secrets s') = Some (inl message).
Proof.
  intros Hnone Hroom Hfail. unfold fetchSecretBytes, lookup_secret. cbn. rewrite Hnone. cbn. rewrite Hfail. cbn. split; [done|].
  unfold make_room. replace (MAX_DERIVED_KEY_CACHE_SIZE <=? Z.of_nat (length (sg_secrets s))) with false
    by (unfold MAX_DERIVED_KEY_CACHE_SIZE; lia).
  clear Hroom. revert Hnone. induction (sg_secrets s) as [|[k x] cache IH]; cbn; [by case_decide|]. case_decide; [done|]. exact IH.
Qed.

(** ** Samples *)

Definition sample_sign_lookup (key : string) : string := if (key =? "MORPHEUS_WORKER_NEO_N3_WIF")%string then "good" else "".

Definition sample_store : Effects.env sign_state scall :=
  Env (fun _ => 0) (fun _ => 0%Q) (fun X _ c => match c in scall X return string + X with
    | GetSecret _ => inr "AAECAwQFBgcICQoLDA0ODw=="
    | FetchAttestation _ _ => inl "down"
    end).

Definition no_caches : sign_state := SignState [] [] [] [].

(** The wallet's account of its own private key. *)
Definition sample_wallet (secret : string) : option neo_account :=
  if (secret =? "k1")%string then Some (NeoAccountOf "good" "k1" "NA" "1111111111111111111111111111111111111111" "")
  else sample_account secret.

#[local] Abbreviation sample_sign bytes payload :=
  (maybeSignNeoN3Bytes (fun _ => None) sample_sign_lookup sample_wallet (fun _ => None) sample_registry
     (fun data key => key +:+ ":" +:+ data) (fun bs => bs) bytes payload).

Lemma sample_caches_ok M : caches_ok (fun _ => None) sample_sign_lookup sample_wallet (fun _ => None) sample_registry (fun bs => bs)
  M no_caches.
Proof. by split_and!. Qed.

Lemma enclave_key_signs_witness :
  exists sg, (run sample_store (sample_sign [7] (VObj [])) no_caches []).1.1 = inr (Some (sg, "worker")) /\
    si_signature sg = "k1:07" /\
    enclave_signature (fun _ => None) sample_sign_lookup sample_wallet (fun _ => None) sample_registry
      (fun data key => key +:+ ":" +:+ data) (fun bs => bs) (fun b => length b = 16%nat) [7] sg.
Proof.
  eexists. split; [vm_compute; reflexivity|]. split; [reflexivity|].
  pose proof (enclave_key_signs (fun _ => None) sample_sign_lookup sample_wallet (fun _ => None) sample_registry
    (fun data key => key +:+ ":" +:+ data) (fun bs => bs) (fun _ _ => Eq) (fun b => length b = 16%nat) [7] (VObj []) sample_store no_caches
    eq_refl) as H.
  assert (store_ok (fun b => length b = 16%nat) sample_store) as Hstore.
  { intros tr id text [= <-]. vm_compute. reflexivity. }
  specialize (H Hstore (sample_caches_ok _)). revert H.
  assert ((run sample_store (sample_sign [7] (VObj [])) no_caches []).1.1
    = inr (Some (Signature "k1:07" "" "NA" "0x1111111111111111111111111111111111111111", "worker"))) as Hr
    by (vm_compute; reflexivity).
  revert Hr. destruct (run sample_store (sample_sign [7] (VObj [])) no_caches []) as [[o s'] tr]. cbn [fst].
  intros -> [_ H]. by apply (H _ _ eq_refl).
Defined.

Lemma signed_envelope_binds_witness :
  let result := VObj [("b", VNum 1); ("a", VStr "x")] in
  let '(o, _, _) := run sample_store (buildSignedResultEnvelope (fun _ => None) sample_sign_lookup sample_wallet (fun _ => None)
                      sample_registry (fun data key => key +:+ ":" +:+ data) (fun bs => bs) (fun _ _ => Eq) result (VObj []))
                      no_caches [] in
  forall v, o = inr v -> get v "output_hash" = VStr (hex_encode (utf8 (stableStringify (fun _ _ => Eq) result))).
Proof.
  intros result.
  assert (store_ok (fun b => length b = 16%nat) sample_store) as Hstore.
  { intros tr id text [= <-]. vm_compute. reflexivity. }
  pose proof (signed_envelope_binds (fun _ => None) sample_sign_lookup sample_wallet (fun _ => None) sample_registry
    (fun data key => key +:+ ":" +:+ data) (fun bs => bs) (fun _ _ => Eq) (fun b => length b = 16%nat) result (VObj []) sample_store
    no_caches Hstore (sample_caches_ok _)) as H. revert H. cbv zeta.
  destruct (run sample_store (buildSignedResultEnvelope _ _ _ _ _ _ _ _ _ _) no_caches []) as [[o s'] tr].
  intros [_ H] v Hv. apply (H v Hv).
Defined.
