(* ===== verification/FeedPolicy.v ===== *)
(** * When a price is submitted ([oracle/feeds/shared.js], [sync-policy.js])

    The clamp of a submission's timestamp and the decision to submit.  Records
    and payloads are JavaScript values; the settings are looked up through
    [env_for network name]; [date_parse] is [Date.parse] of a text that is not a
    number. *)
From S2P Require Import Prelude Numbers Strings Values Doubles Decimal Text WorkerCore.
#[local] Open Scope list_scope.
#[local] Open Scope Z_scope.

Definition MAINNET_FEED_CHANGE_THRESHOLD_BPS : Z := 10.
Definition MAINNET_FEED_MIN_UPDATE_INTERVAL_MS : Z := 60000.
Definition MAINNET_FEED_STALE_AFTER_MS : Z := 300000.
Definition DEFAULT_FEED_SUBMISSION_WAIT_TIMEOUT_MS : Z := 8000.
Definition FEED_TIMESTAMP_MAX_FUTURE_SECONDS : Z := 300.
Definition FEED_TIMESTAMP_FUTURE_SKEW_SECONDS : Z := 60.

(** ** [shared.js] *)

Definition affirmative (normalized : string) : bool :=
  existsb (String.eqb normalized) ["1"; "true"; "yes"; "on"].

Definition isEnabled (rawValue : string) (fallback : bool) : bool :=
  let normalized := toLowerCase (trim rawValue) in
  if (normalized =? "")%string then fallback else affirmative normalized.

(** [value === undefined || value === null || value === ''] *)
Definition unset (v : val) : bool :=
  match v with VUndef | VNull | VStr "" => true | _ => false end.

Definition normalizeBooleanLike (value : val) (fallback : bool) : bool :=
  if unset value then fallback
  else
    match value with
    | VBool b => b
    | VNum n => negb (n =? 0)
    | VFloat _ | VNaN => true
    | _ =>
        let normalized := toLowerCase (coerceTrim value) in
        if (normalized =? "")%string then fallback else affirmative normalized
    end.

(** [Number(setting)] with [''] for an unset variable. *)
Definition resolveFeedTimestampMaxFutureSeconds (setting : string) : Z :=
  match to_double setting with
  | DFin raw => if 0 <? raw then raw / ONE else FEED_TIMESTAMP_MAX_FUTURE_SECONDS
  | _ => FEED_TIMESTAMP_MAX_FUTURE_SECONDS
  end.

Definition resolveFeedTimestampFutureSkewSeconds (setting : string) : Z :=
  match to_double setting with
  | DFin raw => if 0 <=? raw then raw / ONE else FEED_TIMESTAMP_FUTURE_SKEW_SECONDS
  | _ => FEED_TIMESTAMP_FUTURE_SKEW_SECONDS
  end.

(** [upstreamSec] and [nowSec] are whole seconds, as every caller passes them;
    the [inl] is the [FeedTimestampError]. *)
Definition clampFeedTimestampSec (upstream : Z) (prevTs : dbl) (now maxFutureSeconds futureSkewSeconds : Z)
    : string + Z :=
  let previous := match prevTs with DFin n => Z.max (n / ONE) 0 | _ => 0 end in
  if now + maxFutureSeconds <? upstream then
    inl ("upstream feed timestamp " +:+ num_to_string upstream +:+ " is more than "
         +:+ num_to_string maxFutureSeconds +:+ "s in the future (now " +:+ num_to_string now +:+ ")")
  else
    let capped := Z.min upstream (now + futureSkewSeconds) in
    inr (Z.max (previous + 1) capped).

(** ** [sync-policy.js] *)

Record sync_policy := SyncPolicy {
  sp_thresholdBps : dbl;
  sp_minUpdateIntervalMs : Z;
  sp_staleAfterMs : Z;
}.

(** [null] is [None]. *)
Definition resolvePairThresholdBps (config : val) (storagePair : string) (payload : val) : option dbl :=
  let raw := v_coalesce (get config "threshold_bps") (v_coalesce (get config "feed_change_threshold_bps")
    (v_coalesce (get payload "pair_feed_change_threshold_bps")
      (v_coalesce (get (get payload "feed_change_threshold_bps_by_pair") storagePair) VNull))) in
  if unset raw then None
  else match val_double raw with DFin n => Some (DFin (Z.max n 0)) | _ => None end.

Section policy.
Context (env_for : string -> string -> string) (date_parse : string -> option Z).

Definition setting (network : string) (payload : val) (field name : string) (fallback : string) : val :=
  let candidate := v_coalesce (get payload field) (VStr (env_for network name)) in
  if unset candidate then VStr fallback else candidate.

Definition buildSyncPolicy (network : string) (payload : val) : sync_policy :=
  let thresholdBps :=
    val_double (v_or (setting network payload "feed_change_threshold_bps" "MORPHEUS_FEED_CHANGE_THRESHOLD_BPS"
                        (num_to_string MAINNET_FEED_CHANGE_THRESHOLD_BPS)) (VNum 0)) in
  let minUpdateIntervalMs :=
    parseDurationMs (setting network payload "feed_min_update_interval_ms" "MORPHEUS_FEED_MIN_UPDATE_INTERVAL_MS"
      (num_to_string MAINNET_FEED_MIN_UPDATE_INTERVAL_MS +:+ "ms")) MAINNET_FEED_MIN_UPDATE_INTERVAL_MS in
  let staleAfterMs :=
    parseDurationMs (setting network payload "feed_stale_after_ms" "MORPHEUS_FEED_STALE_AFTER_MS"
      (num_to_string MAINNET_FEED_STALE_AFTER_MS +:+ "ms")) MAINNET_FEED_STALE_AFTER_MS in
  SyncPolicy (match thresholdBps with DFin n => DFin (Z.max n 0) | _ => DFin 0 end)
    (Z.max minUpdateIntervalMs 0) (Z.max staleAfterMs 0).

Definition resolveFeedSubmissionWait (payload : val) : bool := normalizeBooleanLike (get payload "wait") false.

Definition resolveFeedSubmissionWaitTimeoutMs (network : string) (payload : val) : Z :=
  let source :=
    v_coalesce (get payload "timeout_ms") (v_coalesce (get payload "timeoutMs")
      (v_coalesce (get payload "feed_submission_wait_timeout_ms")
        (v_coalesce (get payload "feedSubmissionWaitTimeoutMs")
          (VStr (env_for network "MORPHEUS_FEED_SUBMISSION_WAIT_TIMEOUT_MS"))))) in
  Z.min (parseDurationMs source DEFAULT_FEED_SUBMISSION_WAIT_TIMEOUT_MS) DEFAULT_FEED_SUBMISSION_WAIT_TIMEOUT_MS.

(** The context of the signer: its RPC URL. *)
Definition resolveFeedSubmissionIssue (targetChain : string) (hasNeoN3DataFeedTarget : bool)
    (neoContext : option string) : string :=
  if (targetChain =? "neo_n3")%string then
    if negb hasNeoN3DataFeedTarget then "Neo N3 datafeed contract hash is not configured"
    else
      match neoContext with
      | None => "Neo N3 signing key is not configured"
      | Some rpcUrl =>
          if (trim rpcUrl =? "")%string then "NEO_RPC_URL is required for Neo N3 feed submission" else ""
      end
  else "".

Definition shouldLoadOnchainFeedBaseline (payload : val) (records : list (string * val)) : bool :=
  let hasLocalRecords := negb (bool_decide (records = [])) in
  let explicitRefresh := v_coalesce (get payload "refresh_onchain_baseline") (get payload "refreshOnchainBaseline") in
  if negb (unset explicitRefresh) then normalizeBooleanLike explicitRefresh false
  else truthy (get payload "force") || negb hasLocalRecords.

Definition computeChangeBps (previousPrice nextPrice : string) : dbl :=
  let previous := to_double previousPrice in
  let next := to_double nextPrice in
  if negb (dfinite previous) || negb (dfinite next) || dle previous (DFin 0) then DInf false
  else dmul (dabs (ddiv (dsub next previous) previous)) (of_Z 10000).

Definition seconds_or_ms (x : dbl) : dbl := if dlt (of_Z 10000000000) x then x else dmul x (of_Z 1000).

Definition normalizeTimestampMs (value : val) : dbl :=
  if unset value then DFin 0
  else
    let text :=
      let raw := coerceTrim value in
      if (raw =? "")%string then DFin 0
      else
        let numeric := to_double raw in
        if dfinite numeric then seconds_or_ms numeric
        else match date_parse raw with Some ms => of_Z ms | None => DFin 0 end in
    match value with
    | VNum _ | VFloat _ => if dfinite (val_double value) then seconds_or_ms (val_double value) else text
    | _ => text
    end.

Definition resolvePreviousSubmittedAtMs (previousRecord : val) : dbl :=
  let candidates := normalizeTimestampMs ∘ get previousRecord <$>
    ["last_submitted_at_ms"; "submitted_at_ms"; "timestamp_ms"; "timestamp"; "submitted_at"] in
  default (DFin 0) (find (dlt (DFin 0)) candidates).

(** A decision: [change_bps] and the two prices are absent on an early return. *)
Record submit_decision := SubmitDecision {
  sd_allow : bool;
  sd_reason : string;
  sd_change_bps : option dbl;
  sd_units : option (string * string);
}.

(** [previousRecord] is [None] when there is none; [now] is [Date.now()]. *)
Definition shouldSubmitFeed (now : Z) (price : val) (decimals : nat) (previousRecord : option val)
    (policy : sync_policy) (force : bool) : string + submit_decision :=
  if force then inr (SubmitDecision true "forced" None None)
  else
    match previousRecord with
    | None => inr (SubmitDecision true "first-observation" None None)
    | Some previousRecord =>
        let lastSubmittedAt := normalizeTimestampMs (get previousRecord "last_submitted_at_ms") in
        if (0 <? sp_minUpdateIntervalMs policy) && dlt (DFin 0) lastSubmittedAt
           && dlt (dsub (of_Z now) lastSubmittedAt) (of_Z (sp_minUpdateIntervalMs policy))
        then inr (SubmitDecision false "min-update-interval" None None)
        else
          let units := v_coalesce (get previousRecord "price_units") (get previousRecord "price_cents") in
          match (match units with
                 | VUndef | VNull =>
                     decimalToIntegerString (v_coalesce (get previousRecord "price") (VStr "0")) decimals
                 | _ => inr (js_String units)
                 end),
                decimalToIntegerString price decimals with
          | inl e, _ => inl e
          | _, inl e => inl e
          | inr previousPriceUnits, inr nextPriceUnits =>
              let changeBps := computeChangeBps previousPriceUnits nextPriceUnits in
              let previousSubmittedAtMs := resolvePreviousSubmittedAtMs previousRecord in
              let staleAgeMs :=
                if dlt (DFin 0) previousSubmittedAtMs then dsub (of_Z now) previousSubmittedAtMs else DFin 0 in
              let decision allow reason :=
                SubmitDecision allow reason (Some changeBps) (Some (previousPriceUnits, nextPriceUnits)) in
              if (0 <? sp_staleAfterMs policy) && dle (of_Z (sp_staleAfterMs policy)) staleAgeMs
              then inr (decision true "stale-refresh")
              else if dlt (DFin 0) (sp_thresholdBps policy) && dlt changeBps (sp_thresholdBps policy)
              then inr (decision false "price-change-below-threshold")
              else inr (decision true "threshold-met")
          end
    end.

End policy.

Example submit_ex :
  let record := VObj [("price_units", VStr "10000000"); ("last_submitted_at_ms", VNum 1700000000000)] in
  let policy := SyncPolicy (of_Z 10) 60000 300000 in
  let decide now price := match shouldSubmitFeed (fun _ => None) now (VStr price) 6 (Some record) policy false with
                          | inr d => (sd_allow d, sd_reason d) | inl e => (false, e) end in
  (decide 1700000030000 "99", decide 1700000300000 "10") = ((false, "min-update-interval"), (true, "stale-refresh")).
Proof. vm_compute. reflexivity. Qed.

(** ** Lemmas *)

(** A number of milliseconds since 1970 is read as such. *)
Lemma timestamp_ms date_parse t :
  10000000000 < t < 2 ^ 52 -> normalizeTimestampMs date_parse (VNum t) = of_Z t.
Proof.
  intros Ht. assert (2 ^ 53 = 2 * 2 ^ 52) as Hp by reflexivity.
  unfold normalizeTimestampMs. cbn [unset val_double].
  rewrite (of_Z_exact t) by lia. cbn [dfinite]. rewrite <-of_Z_exact by lia.
  unfold seconds_or_ms. rewrite dlt_Z by lia. by replace (10000000000 <? t) with true by lia.
Qed.

(** ** The schedule of a feed *)

(** When a price is submitted.  For a pair whose last submission and on-chain
    price are known, and whatever the new price is: nothing is submitted within
    the minimum interval of the last submission; from the staleness bound on it
    is submitted even if the price did not move; in between, exactly when the
    change reaches the threshold. *)
Theorem submission_schedule : forall date_parse now t record price decimals policy units next,
  10000000000 < t < 2 ^ 52 -> t <= now < 2 ^ 52 ->
  get record "last_submitted_at_ms" = VNum t -> get record "price_units" = VStr units ->
  decimalToIntegerString price decimals = inr next ->
  0 <= sp_minUpdateIntervalMs policy < 2 ^ 52 -> 0 <= sp_staleAfterMs policy < 2 ^ 52 ->
  exists d, shouldSubmitFeed date_parse now price decimals (Some record) policy false = inr d /\
    let age := now - t in
    let change := computeChangeBps units next in
    if age <? sp_minUpdateIntervalMs policy then sd_allow d = false /\ sd_reason d = "min-update-interval"
    else if (0 <? sp_staleAfterMs policy) && (sp_staleAfterMs policy <=? age)
    then sd_allow d = true /\ sd_reason d = "stale-refresh"
    else sd_allow d = negb (dlt (DFin 0) (sp_thresholdBps policy) && dlt change (sp_thresholdBps policy)) /\
         sd_change_bps d = Some change.
Proof.
  intros date_parse now t record price decimals policy units next Ht Hnow Hlast Hunits Hprice Hmin Hstale.
  assert (2 ^ 53 = 2 * 2 ^ 52) as Hp by reflexivity.
  assert (resolvePreviousSubmittedAtMs date_parse record = of_Z t) as Hprev.
  { unfold resolvePreviousSubmittedAtMs. cbn [fmap list_fmap compose]. rewrite Hlast, timestamp_ms by done.
    cbn [find]. rewrite zero_Z, dlt_Z by lia. by replace (0 <? t) with true by lia. }
  unfold shouldSubmitFeed. rewrite Hlast, timestamp_ms, zero_Z, dlt_Z, dsub_Z, dlt_Z by lia.
  replace (0 <? t) with true by lia. rewrite andb_true_r.
  replace ((0 <? sp_minUpdateIntervalMs policy) && (now - t <? sp_minUpdateIntervalMs policy))
    with (now - t <? sp_minUpdateIntervalMs policy) by lia.
  destruct (now - t <? sp_minUpdateIntervalMs policy); [by eexists|].
  rewrite Hunits. cbn [v_coalesce js_String]. rewrite Hprice, Hprev, dlt_Z, dsub_Z by lia.
  replace (0 <? t) with true by lia. rewrite dle_Z by lia.
  destruct ((0 <? sp_staleAfterMs policy) && (sp_staleAfterMs policy <=? now - t)); [by eexists|].
  destruct (dlt (of_Z 0) (sp_thresholdBps policy) && dlt (computeChangeBps units next) (sp_thresholdBps policy));
    by eexists.
Qed.

Lemma submission_schedule_witness :
  exists d, shouldSubmitFeed (fun _ => None) 1700000400000 (VStr "10") 6
      (Some (VObj [("last_submitted_at_ms", VNum 1700000000000); ("price_units", VStr "10000000")]))
      (SyncPolicy (of_Z 10) 60000 300000) false = inr d /\
    sd_allow d = true /\ sd_reason d = "stale-refresh".
Proof.
  apply (submission_schedule (fun _ => None) 1700000400000 1700000000000
    (VObj [("last_submitted_at_ms", VNum 1700000000000); ("price_units", VStr "10000000")]) (VStr "10") 6
    (SyncPolicy (of_Z 10) 60000 300000) "10000000" "10000000"); vm_compute; try reflexivity; split; congruence.
Defined.

(** ** Timestamps on chain

    The timestamps that a sequence of clamped submissions puts on chain: each
    observation is its upstream second and the local second; a rejected one
    submits nothing. *)
Fixpoint clamp_run (maxFuture skew prev : Z) (obs : list (Z * Z)) : list (Z * Z) :=
  match obs with
  | [] => []
  | (upstream, now) :: obs =>
      match clampFeedTimestampSec upstream (of_Z prev) now maxFuture skew with
      | inl _ => clamp_run maxFuture skew prev obs
      | inr ts => (ts, now) :: clamp_run maxFuture skew ts obs
      end
  end.

(** The local clock advances by at least a second from one submission to the next. *)
Fixpoint spaced (now : Z) (obs : list (Z * Z)) : Prop :=
  match obs with [] => True | (_, n) :: obs => now + 1 <= n /\ spaced n obs end.

(** The timestamps increase from [prev] on. *)
Fixpoint increasing (prev : Z) (ts : list (Z * Z)) : Prop :=
  match ts with [] => True | (t, _) :: ts => prev < t /\ increasing t ts end.

Lemma clamp_Z upstream prev now maxFuture skew :
  0 <= prev < 2 ^ 52 ->
  clampFeedTimestampSec upstream (of_Z prev) now maxFuture skew =
  if now + maxFuture <? upstream
  then clampFeedTimestampSec upstream (of_Z prev) now maxFuture skew
  else inr (Z.max (prev + 1) (Z.min upstream (now + skew))).
Proof.
  intros Hp. assert (2 ^ 53 = 2 * 2 ^ 52) as Hp2 by reflexivity.
  assert (0 < ONE) as HO by (apply Z.pow_pos_nonneg; lia).
  unfold clampFeedTimestampSec. destruct (now + maxFuture <? upstream); [done|].
  rewrite of_Z_exact by lia. rewrite Z.div_mul by lia. do 2 f_equal. lia.
Qed.

Lemma clamp_run_bounds maxFuture skew obs prev last :
  0 <= skew -> 0 <= prev -> prev <= last + 1 + skew -> spaced last obs ->
  Forall (fun o => o.2 + skew + 1 < 2 ^ 52) obs ->
  increasing prev (clamp_run maxFuture skew prev obs) /\
  Forall (fun t => t.1 <= t.2 + skew + 1) (clamp_run maxFuture skew prev obs).
Proof.
  intros Hs. revert prev last. induction obs as [|[u n] obs IH]; intros prev last H0 Hprev Hsp Hb; [done|].
  destruct Hsp as [Hn1 Hsp]. apply Forall_cons in Hb as [Hb Hbs]. cbn [snd] in Hb.
  cbn [clamp_run]. rewrite clamp_Z by lia. destruct (n + maxFuture <? u) eqn:Hu.
  - unfold clampFeedTimestampSec. rewrite Hu. apply (IH prev n); (done || lia).
  - set (ts := Z.max (prev + 1) (Z.min u (n + skew))).
    destruct (IH ts n) as [Hi Hf]; [lia|lia|done|done|].
    split; [split; [lia|done]|]. constructor; [cbn [fst snd]; lia|done].
Qed.

(** No timestamp stalls a feed.  Over any sequence of upstream timestamps,
    submitted at least a second apart, the timestamps put on chain strictly
    increase, and none is more than the tolerated skew and one second ahead of
    the local clock: a poisoned upstream clock cannot block the updates that
    follow it. *)
Theorem clamped_feed_never_stalls : forall maxFuture skew prev last obs,
  0 <= skew -> 0 <= prev <= last + skew -> spaced last obs -> Forall (fun o => o.2 + skew + 1 < 2 ^ 52) obs ->
  increasing prev (clamp_run maxFuture skew prev obs) /\
  Forall (fun t => t.1 <= t.2 + skew + 1) (clamp_run maxFuture skew prev obs).
Proof. intros maxFuture skew prev l obs ????. apply clamp_run_bounds with l; (done || lia). Qed.

Lemma clamped_feed_never_stalls_witness :
  clamp_run 300 60 1000 [(5000, 1001); (1200, 1002); (900, 1003)] = [(1062, 1002); (1063, 1003)] /\
  increasing 1000 (clamp_run 300 60 1000 [(5000, 1001); (1200, 1002); (900, 1003)]) /\
  Forall (fun t => t.1 <= t.2 + 60 + 1) (clamp_run 300 60 1000 [(5000, 1001); (1200, 1002); (900, 1003)]).
Proof.
  split; [vm_compute; reflexivity|].
  apply (clamped_feed_never_stalls 300 60 1000 1000); [lia|lia|repeat split; cbn; lia|].
  repeat constructor; apply Z.ltb_lt; vm_compute; reflexivity.
Defined.

(** The default of the skew is never used: an unset variable reads 0, which is
    accepted as a setting. *)
Lemma skew_default_unreachable :
  resolveFeedTimestampFutureSkewSeconds "" = 0 /\ resolveFeedTimestampMaxFutureSeconds "" = 300 /\
  FEED_TIMESTAMP_FUTURE_SKEW_SECONDS = 60.
Proof. vm_compute. split_and!; reflexivity. Qed.
