(* ===== verification/FeedRegistry.v ===== *)
(** * The feed registry ([oracle/feed-registry.js])

    The default pairs, the override of the operator and the look-ups.  A pair's
    configuration is a JavaScript object. *)
From S2P Require Import Prelude Numbers Strings Values Text Doubles.
#[local] Open Scope list_scope.
#[local] Open Scope Z_scope.

(** [toUpperCase] on one code unit, for the letters whose upper case is one code
    unit below 256. *)
Definition upper (a : ascii) : ascii :=
  if ((97 <=? code a) && (code a <=? 122))
     || ((224 <=? code a) && (code a <=? 254) && negb (code a =? 247))
  then chr (code a - 32) else a.

Fixpoint toUpperCase (s : string) : string :=
  match s with "" => "" | String a s' => String (upper a) (toUpperCase s') end.

Definition normalizeProviderId (value : val) : string := toLowerCase (coerceTrim value).

Definition FEED_PAIR_ALIASES : list (string * string) := [("OIL-USD", "WTI-USD")].
Definition KNOWN_FEED_PROVIDER_PREFIXES : list string := ["TWELVEDATA:"; "BINANCE-SPOT:"; "COINBASE-SPOT:"].

Definition pair_entry (pair transform : string) (providers : list (string * string)) : string * val :=
  (pair, VObj ((if (transform =? "")%string then [] else [("price_transform", VStr transform)])
               ++ [("providers", VObj ((fun p => (p.1, VObj [("symbol", VStr p.2)])) <$> providers))])).

Definition DEFAULT_FEED_PAIRS : val := VObj
  [pair_entry "NEO-USD" "" [("twelvedata", "NEO/USD"); ("binance-spot", "NEOUSDT")];
   pair_entry "GAS-USD" "" [("twelvedata", "GAS/USD"); ("binance-spot", "GASUSDT")];
   pair_entry "BTC-USD" "" [("twelvedata", "BTC-USD")];
   pair_entry "ETH-USD" "" [("twelvedata", "ETH-USD")];
   pair_entry "SOL-USD" "" [("twelvedata", "SOL-USD")];
   pair_entry "TRX-USD" "" [("twelvedata", "TRX-USD")];
   pair_entry "PAXG-USD" "" [("twelvedata", "PAXG-USD")];
   pair_entry "WTI-USD" "" [("twelvedata", "WTI-USD")];
   pair_entry "BRENT-USD" "" [("twelvedata", "XBR/USD")];
   pair_entry "NATGAS-USD" "" [("twelvedata", "NG/USD")];
   pair_entry "COPPER-USD" "" [("twelvedata", "HG1")];
   pair_entry "WHEAT-USD" "" [("twelvedata", "W_1")];
   pair_entry "CORN-USD" "" [("twelvedata", "C_1")];
   pair_entry "SOY-USD" "" [("twelvedata", "S_1")];
   pair_entry "USDT-USD" "" [("twelvedata", "USDT-USD")];
   pair_entry "USDC-USD" "" [("twelvedata", "USDC-USD")];
   pair_entry "BNB-USD" "" [("twelvedata", "BNB-USD")];
   pair_entry "XRP-USD" "" [("twelvedata", "XRP-USD")];
   pair_entry "DOGE-USD" "" [("twelvedata", "DOGE-USD")];
   pair_entry "AAPL-USD" "" [("twelvedata", "AAPL")];
   pair_entry "GOOGL-USD" "" [("twelvedata", "GOOGL")];
   pair_entry "MSFT-USD" "" [("twelvedata", "MSFT")];
   pair_entry "AMZN-USD" "" [("twelvedata", "AMZN")];
   pair_entry "TSLA-USD" "" [("twelvedata", "TSLA")];
   pair_entry "META-USD" "" [("twelvedata", "META")];
   pair_entry "NVDA-USD" "" [("twelvedata", "NVDA")];
   pair_entry "SPY-USD" "" [("twelvedata", "SPY")];
   pair_entry "QQQ-USD" "" [("twelvedata", "QQQ")];
   pair_entry "GLD-USD" "" [("twelvedata", "GLD")];
   pair_entry "EUR-USD" "" [("twelvedata", "EUR/USD")];
   pair_entry "GBP-USD" "" [("twelvedata", "GBP/USD")];
   pair_entry "JPY-USD" "inverse" [("twelvedata", "USD/JPY")];
   pair_entry "CNY-USD" "inverse" [("twelvedata", "USD/CNY")]].

Definition DEFAULT_SOURCE_SET_IDS : list (string * Z) :=
  [("twelvedata", 1); ("binance-spot", 2); ("coinbase-spot", 3)].

(** Nested objects are merged, anything else is replaced. *)
Fixpoint deepMerge (base override : val) {struct override} : val :=
  match override with
  | VObj entries =>
      VObj ((fix merge entries output :=
        match entries with
        | [] => output
        | (key, value) :: entries =>
            let merged :=
              match value, assoc_get key output with
              | VObj _, VObj b => deepMerge (VObj b) value
              | _, _ => value
              end in
            merge entries (assoc_set key merged output)
        end) entries (obj_fields base))
  | _ => base
  end.

Section registry.
Context (json_parse : string -> option val) (raw : string).

Definition parseRegistryOverride : val :=
  if (raw =? "")%string then VObj []
  else match json_parse raw with Some (VObj kvs) => VObj kvs | _ => VObj [] end.

(** The memo of the code is keyed by [raw], which determines the result. *)
Definition getFeedPairRegistry : val := deepMerge DEFAULT_FEED_PAIRS parseRegistryOverride.

Definition normalizeFeedPairSymbol (pair : val) : string :=
  let normalized := toUpperCase (coerceTrim pair) in
  let stripped :=
    if existsb (startsWith normalized) KNOWN_FEED_PROVIDER_PREFIXES
    then match cut ":" normalized with Some (_, r) => r | None => normalized end
    else normalized in
  default stripped (snd <$> find (fun a => (a.1 =? stripped)%string) FEED_PAIR_ALIASES).

Definition getFeedPairConfig (pair : val) : val :=
  v_or (get getFeedPairRegistry (normalizeFeedPairSymbol pair)) VNull.

Definition getFeedStoragePair (providerId pair : val) : string :=
  toUpperCase (normalizeProviderId providerId) +:+ ":" +:+ normalizeFeedPairSymbol pair.

Definition getFeedDisplaySymbol (pair : val) : string :=
  coerceTrim (v_or (get (getFeedPairConfig pair) "display_symbol") (VStr ""))
  ||s getFeedStoragePair (VStr "twelvedata") pair.

Definition getFeedUnitLabel (pair : val) : string :=
  coerceTrim (v_or (get (getFeedPairConfig pair) "unit_label") (VStr "")).

Definition getFeedPriceMultiplier (pair : val) : dbl :=
  let n := val_double (v_coalesce (get (getFeedPairConfig pair) "price_multiplier") (VNum 1)) in
  if dfinite n && dlt (DFin 0) n then n else DFin ONE.

Definition getFeedPriceTransform (pair : val) : string :=
  toLowerCase (coerceTrim (v_or (get (getFeedPairConfig pair) "price_transform") (VStr ""))).

Definition getFeedProvidersForPair (pair : val) : list string :=
  match get (getFeedPairConfig pair) "providers" with
  | VObj _ as p | VArr _ as p =>
      filter (fun id => id <> "") ((fun kv => normalizeProviderId (VStr kv.1)) <$> own_fields p)
  | _ => []
  end.

Definition getDefaultFeedSymbols : list string :=
  (fun kv => getFeedStoragePair (VStr "twelvedata") (VStr kv.1)) <$> obj_fields getFeedPairRegistry.

Definition applyFeedProviderDefaults (pair providerId payload : val) : val :=
  let normalizedPair := normalizeFeedPairSymbol pair in
  let provider := normalizeProviderId providerId in
  let providerDefaults :=
    match get (get (getFeedPairConfig pair) "providers") provider with
    | VObj _ as d | VArr _ as d => own_fields d
    | _ => []
    end in
  let params := match get payload "provider_params" with VObj _ as p | VArr _ as p => own_fields p | _ => [] end in
  VObj (spread (own_fields payload)
    [("symbol", VStr (toUpperCase (coerceTrim (v_or (get payload "symbol") (VStr normalizedPair)))));
     ("provider", VStr provider);
     ("provider_params", VObj (spread providerDefaults params))]).

Definition getSourceSetIdForProvider (providerId : val) (fallback : Z) : Z :=
  default fallback (snd <$> find (fun s => (s.1 =? normalizeProviderId providerId)%string) DEFAULT_SOURCE_SET_IDS).
End registry.

Example registry_ex :
  let override := VObj [("NEO-USD", VObj [("providers", VObj [("twelvedata", VObj [("symbol", VStr "N")])])])] in
  let parse := fun _ : string => Some override in
  (getFeedStoragePair (VStr " Binance-Spot ") (VStr "twelvedata:oil-usd"), getFeedProvidersForPair parse "x" (VStr "neo-usd"),
   get (get (get (getFeedPairConfig parse "x" (VStr "NEO-USD")) "providers") "twelvedata") "symbol",
   getFeedPriceTransform parse "" (VStr "JPY-USD"), length (getDefaultFeedSymbols parse ""))
  = ("BINANCE-SPOT:WTI-USD", ["twelvedata"; "binance-spot"], VStr "N", "inverse", 33%nat).
Proof. vm_compute. reflexivity. Qed.
