(* ===== verification/FeedQuote.v ===== *)
(** * Quotes ([oracle/feeds.js], the provider side)

    Pair symbols, the choice of providers, a quote from a provider's reply and
    the quotes of a pair.  The provider request with its cache and circuit
    breaker ([providers.js]) and the signed envelope ([chain/signing.js]) are
    awaited calls.  The concurrent requests of [fetchPriceQuotes] are made here
    in the order in which their results are used. *)
From S2P Require Import Prelude Numbers Strings Values Effects Doubles Decimal Aggregate Text WorkerCore FeedPolicy FeedRegistry.
#[local] Open Scope list_scope.
#[local] Open Scope Z_scope.

(** The scoped feed states: the objects, and the cache that refers to them. *)
Record feed_heap := FeedHeap {
  fh_objects : list (list (string * val));
  fh_cache : gmap string nat;
  fh_write_failures : Z;
}.

(** The reply of a provider: the pair of the request, and the response. *)
Record provider_reply := ProviderReply {
  pr_pair : string;
  pr_ok : bool;
  pr_error : string;
  pr_data : val;
  pr_date : val;
}.

Record relay_invocation := RelayInvocation {
  ri_request_id : string;
  ri_network : val;
  ri_contract : string;
  ri_method : string;
  ri_params : list val;
  ri_wait : bool;
  ri_timeout_ms : Z;
  ri_rpc_url : string;
  ri_network_magic : val;
  ri_key : list (string * val);
}.

Record relay_reply := RelayReply {
  rr_status : Z;
  rr_body : val;
}.

Record http_reply := HttpReply {
  hr_ok : bool;
  hr_status : Z;
  hr_text : string;
}.

(** A signing context: its RPC URL and network magic. *)
Record neo_context := NeoContext {
  nc_rpcUrl : string;
  nc_networkMagic : val;
}.

Inductive fcall : Type -> Type :=
| ProviderFetch (provider : string) (payload : val) : fcall provider_reply
| SignEnvelope (quote payload : val) : fcall (val * val)
| LoadNeoContext (payload : val) : fcall (option neo_context)
| OnchainFeedRecords (rpcUrl contractHash : string) : fcall (list (string * val))
| SignBytes (message : string) (network : val) : fcall val
| RelayNeoN3 (invocation : relay_invocation) : fcall relay_reply
| ReadFile (path : string) : fcall string
| MakeDirectory (path : string) : fcall unit
| WriteFile (path : string) (content : val) : fcall unit
| RenameFile (from to : string) : fcall unit
| RemoveFile (path : string) : fcall unit
| RandomHex (bytes : Z) : fcall string
| GetSnapshots (network targetChain : string) (limit : Z) : fcall http_reply
| PostSnapshots (rows : val) : fcall http_reply.

Abbreviation fprog := (prog feed_heap fcall).

(** ** Pair symbols *)

Definition symbol_char (a : ascii) : bool :=
  ((48 <=? code a) && (code a <=? 57)) || ((65 <=? code a) && (code a <=? 90)).

Definition pair_separator (a : ascii) : bool := Ascii.eqb a "-" || Ascii.eqb a "/" || Ascii.eqb a "_".

(** [/^[A-Z0-9]+[-/_][A-Z0-9]+$/] and the two parts. *)
Definition split_pair (raw : string) : option (string * string) :=
  let base := take_while symbol_char raw in
  match drop_str (String.length base) raw with
  | String sep quote =>
      if negb (base =? "")%string && pair_separator sep && negb (quote =? "")%string && str_forall symbol_char quote
      then Some (base, quote) else None
  | "" => None
  end.

Definition slice_end (s : string) (n : nat) : string := take_str (String.length s - n) s.

Definition normalizePairSymbol (rawSymbol : val) : string :=
  let raw := toUpperCase (coerceTrim rawSymbol) in
  let normalized s := normalizeFeedPairSymbol (VStr s) in
  if (raw =? "")%string then "NEO-USD"
  else if includes raw ":" then normalized raw
  else
    match split_pair raw with
    | Some (base, quote) => normalized (base +:+ "-" +:+ (if (quote =? "USDT")%string then "USD" else quote))
    | None =>
        if endsWith raw "USDT" then normalized (slice_end raw 4 +:+ "-USD")
        else if endsWith raw "USD" then normalized (slice_end raw 3 +:+ "-USD")
        else normalized (raw +:+ "-USD")
    end.

Definition FEED_PROVIDER_PREFIXES : list (string * string) :=
  [("TWELVEDATA:", "twelvedata"); ("BINANCE-SPOT:", "binance-spot"); ("COINBASE-SPOT:", "coinbase-spot")].

Definition inferProviderIdFromPairSymbol (value : val) : string :=
  let normalized := toUpperCase (coerceTrim value) in
  default "" (snd <$> find (fun p => startsWith normalized p.1) FEED_PROVIDER_PREFIXES).

(** ** Providers *)

(** First occurrences, in order. *)
Fixpoint dedupe (seen ids : list string) : list string :=
  match ids with
  | [] => []
  | id :: ids => if bool_decide (id ∈ seen) then dedupe seen ids else id :: dedupe (id :: seen) ids
  end.
Definition dedupeProviderIds (ids : list string) : list string := dedupe [] ids.

Definition clean_ids (entries : list val) : list string :=
  filter (fun s => s <> "") ((fun e => toLowerCase (coerceTrim e)) <$> entries).

Definition parseProviderList (value : val) (fallback : list string) : list string :=
  match value with
  | VArr entries => dedupeProviderIds (clean_ids entries)
  | _ =>
      let raw := coerceTrim value in
      if (raw =? "")%string then fallback
      else dedupeProviderIds (clean_ids (VStr <$> split "," raw))
  end.

Section quotes.
Context (env : string -> string) (env_for : string -> string -> string)
  (date_parse : string -> option Z) (to_iso : Z -> string) (json_parse : string -> option val).
#[local] Open Scope prog_scope.

Definition registry_json : string := trim (env "MORPHEUS_FEED_PAIR_REGISTRY_JSON").

(** [resolveFeedNetwork]: the network of a payload, else that of the process;
    the only target chain is [neo_n3]. *)
Definition network_setting : string := env "MORPHEUS_NETWORK" ||s env "NEXT_PUBLIC_MORPHEUS_NETWORK".
Definition resolveFeedNetwork (input : val) : string :=
  normalizeMorpheusNetwork
    (v_or (get input "network") (v_or (get input "morpheus_network")
      (v_or (get input "runtime_network") (get input "environment"))))
    (normalizeMorpheusNetwork (VStr (network_setting ||s "testnet")) "testnet").

Definition resolveRequestedProviders (symbol options : val) : list string :=
  let inferredProvider := toLowerCase (trim (inferProviderIdFromPairSymbol symbol)) in
  if negb (inferredProvider =? "")%string then [inferredProvider]
  else
    let explicitProviders := parseProviderList (v_or (get options "providers") (get options "provider_list")) [] in
    if negb (bool_decide (explicitProviders = [])) then explicitProviders
    else
      let explicitProvider :=
        toLowerCase (coerceTrim (v_or (get options "provider") (v_or (get options "source") (VStr "")))) in
      if negb (explicitProvider =? "")%string && negb (explicitProvider =? "all")%string then [explicitProvider]
      else
        let configured := parseProviderList (VStr (env_for (resolveFeedNetwork options) "MORPHEUS_FEED_PROVIDERS")) [] in
        let available := getFeedProvidersForPair json_parse registry_json symbol in
        if negb (bool_decide (configured = [])) then
          filter (fun provider => available = [] \/ provider ∈ available) configured
        else if negb (bool_decide (available = [])) then available else ["twelvedata"].

(** ** One quote *)

Definition extractQuotePrice (data : val) : val :=
  v_coalesce (get data "price") (v_coalesce (get data "value") (v_coalesce (get data "close")
    (v_coalesce (get (get data "data") "amount") VNull))).

(** [new Date(ms).toISOString()]: a [RangeError] beyond the range of dates. *)
Definition iso_date (ms : dbl) : string + string :=
  match ms with
  | DFin n =>
      let t := Z.quot n ONE in
      if Z.abs t <=? 8640000000000000 then inr (to_iso t) else inl "Invalid time value"
  | _ => inl "Invalid time value"
  end.

(** A field that is a number of seconds or milliseconds. *)
Definition upstream_number (field : val) : option dbl :=
  if truthy field then
    let ts := val_double field in
    if dfinite ts && dlt (DFin 0) ts
    then Some (if dlt ts (of_Z 4102444800) then dmul ts (of_Z 1000) else ts) else None
  else None.

Definition upstream_date (field : val) : option Z :=
  if truthy field then date_parse (js_String field) else None.

Definition extractUpstreamTimestamp (now : Z) (r : provider_reply) : string + string :=
  match upstream_date (get (pr_data r) "datetime") with
  | Some ms => iso_date (of_Z ms)
  | None =>
      match upstream_number (get (pr_data r) "timestamp") with
      | Some ms => iso_date ms
      | None =>
          match upstream_number (get (pr_data r) "time") with
          | Some ms => iso_date ms
          | None =>
              match upstream_date (pr_date r) with
              | Some ms => iso_date (of_Z ms)
              | None => iso_date (of_Z now)
              end
          end
      end
  end.

Definition lift_result {A} (r : string + A) : fprog A := match r with inl e => Throw e | inr x => Ret x end.

(** The reply of a provider as a quote, before it is signed. *)
Definition build_quote (symbol : val) (provider : string) (now : Z) (r : provider_reply) : string + val :=
  let pair := pr_pair r ||s normalizePairSymbol symbol in
  let storagePair := getFeedStoragePair (VStr provider) (VStr pair) in
  let config := VStr storagePair in
  let rawPrice := extractQuotePrice (pr_data r) in
  if unset rawPrice then inl (provider +:+ " response missing price")
  else
    let unitLabel := getFeedUnitLabel json_parse registry_json config in
    let priceMultiplier := getFeedPriceMultiplier json_parse registry_json config in
    let priceTransform := getFeedPriceTransform json_parse registry_json config in
    match transformDecimalString (VStr (js_String rawPrice)) priceTransform (dbl_val priceMultiplier) with
    | inl e => inl e
    | inr price =>
        match extractUpstreamTimestamp now r with
        | inl e => inl e
        | inr upstreamTimestamp =>
            inr (VObj [("feed_id", VStr (provider +:+ ":" +:+ pair)); ("pair", VStr storagePair);
                       ("provider_pair", VStr pair);
                       ("display_symbol", VStr (getFeedDisplaySymbol json_parse registry_json config));
                       ("unit_label", if (unitLabel =? "")%string then VNull else VStr unitLabel);
                       ("provider", VStr provider); ("raw_price", VStr (js_String rawPrice));
                       ("price_transform", if (priceTransform =? "")%string then VNull else VStr priceTransform);
                       ("price_multiplier", dbl_val priceMultiplier); ("price", VStr price);
                       ("decimals", VNum (Z.of_nat FEED_PRICE_DECIMALS));
                       ("price_scale_decimals", VNum (Z.of_nat FEED_PRICE_DECIMALS));
                       ("timestamp", VStr upstreamTimestamp); ("sources", VArr [VStr provider])])
        end
    end.

Definition resolveQuoteForProvider (symbol options : val) (provider : string) : fprog val :=
  let providerPayload :=
    applyFeedProviderDefaults json_parse registry_json symbol (VStr provider)
      (VObj (spread (own_fields options)
        [("provider", VStr provider); ("symbol", VStr (normalizePairSymbol symbol))])) in
  response <-- await (ProviderFetch provider providerPayload) ;;
  if negb (pr_ok response) then Throw (pr_error response ||s (provider +:+ " fetch failed"))
  else
    now <-- clock ;;
    quote <-- lift_result (build_quote symbol provider now response) ;;
    '(signed, verification) <-- await (SignEnvelope quote providerPayload) ;;
    Ret (VObj (spread (own_fields quote)
      [("signature", get signed "signature"); ("public_key", get signed "public_key");
       ("attestation_hash", get signed "attestation_hash"); ("tee_attestation", get signed "tee_attestation");
       ("verification", verification)])).

(** ** The quotes of a pair *)

Record quote_set := QuoteSet {
  qs_pair : string;
  qs_providers_requested : list string;
  qs_quotes : list val;
  qs_errors : list val;
  qs_aggregation : option aggregation;
}.

Definition fetchPriceQuote (symbol options : val) : fprog val :=
  match resolveRequestedProviders symbol options with
  | [] => Throw ("no providers configured for " +:+ js_String symbol)
  | provider :: _ => resolveQuoteForProvider symbol options provider
  end.

(** The outcome of every provider, in their order. *)
Fixpoint settle_quotes (symbol options : val) (providers : list string) : fprog (list (string * (string + val))) :=
  match providers with
  | [] => Ret []
  | provider :: providers =>
      r <-- attempt (resolveQuoteForProvider symbol options provider) ;;
      rs <-- settle_quotes symbol options providers ;;
      Ret ((provider, r) :: rs)
  end.

Definition aggregation_method (options : val) : string :=
  if (toLowerCase (coerceTrim (v_or (get options "aggregation_method")
        (VStr (env "MORPHEUS_AGGREGATION_METHOD" ||s "median")))) =? "trimmed-mean")%string
  then "trimmed-mean" else "median".

Definition quote_price (quote : val) : agg_quote :=
  AggQuote (js_String (get quote "provider")) (Some (val_double (get quote "price"))).

Definition fetchPriceQuotes (symbol options : val) : fprog quote_set :=
  let providers := resolveRequestedProviders symbol options in
  match providers with
  | [] => Throw ("no providers configured for " +:+ js_String symbol)
  | first :: _ =>
      let normalizedPair := normalizePairSymbol symbol in
      settled <-- settle_quotes symbol options providers ;;
      let quotes := omap (fun s => match s.2 with inr q => Some q | inl _ => None end) settled in
      let errors := omap (fun s => match s.2 with
                                   | inl e => Some (VObj [("provider", VStr s.1); ("error", VStr e)])
                                   | inr _ => None end) settled in
      aggregation <--
        (if (2 <=? length quotes)%nat then
           a <-- lift_result (aggregateQuotes (quote_price <$> quotes) (aggregation_method options) (of_Z 25) 1) ;;
           Ret (Some a)
         else Ret None) ;;
      Ret (QuoteSet (if (length providers =? 1)%nat then getFeedStoragePair (VStr first) (VStr normalizedPair)
                     else normalizedPair) providers quotes errors aggregation)
  end.
End quotes.

Example pair_ex :
  (normalizePairSymbol (VStr "neousdt"), normalizePairSymbol (VStr "gas_usdt"), normalizePairSymbol (VStr "BTC-EUR"),
   normalizePairSymbol (VStr "binance-spot:oil-usd"), normalizePairSymbol VUndef, normalizePairSymbol (VStr "sol"))
  = ("NEO-USD", "GAS-USD", "BTC-EUR", "WTI-USD", "NEO-USD", "SOL-USD").
Proof. reflexivity. Qed.
