(* ===== verification/FeedSubmit.v ===== *)
(** * Submitting quotes to Neo N3 ([oracle/feeds/feed-submit.js])

    The signed message of an update, the batch submission and its per-feed
    fallback.  Signing and relaying are awaited calls.  A quote is an object
    shared by the batch and the report, so it is a cell of the store
    [quotes]: [submitQuoteToN3] writes its signature into it. *)
From S2P Require Import Prelude Numbers Strings Values Effects Doubles Decimal Text WorkerCore FeedPolicy FeedRegistry FeedQuote.
#[local] Open Scope list_scope.
#[local] Open Scope Z_scope.

(** An update to submit; [bu_quote] is the index of its quote. *)
Record batch_update := BatchUpdate {
  bu_quote : nat;
  bu_storagePair : string;
  bu_roundId : string;
  bu_sourceSetId : dbl;
  bu_timestampSec : Z;
  bu_observedAtMs : Z;
  bu_previous : option (list (string * val));
}.

Definition quote_at (quotes : list val) (i : nat) : val := default VUndef (quotes !! i).
Definition price_text (quote : val) : val := get quote "price".
Definition price_decimals (quote : val) : nat :=
  match get quote "decimals" with VNum n => Z.to_nat n | _ => FEED_PRICE_DECIMALS end.

Definition price_units (quote : val) : string + string :=
  decimalToIntegerString (price_text quote) (price_decimals quote).

Definition buildNeoN3RelaySigningPayload (payload : val) : list (string * val) :=
  let signingKey := coerceTrim (v_or (get payload "private_key") (get payload "signing_key")) in
  let wif := coerceTrim (get payload "wif") in
  (if (signingKey =? "")%string then [] else [("private_key", VStr signingKey)])
  ++ (if (wif =? "")%string then [] else [("wif", VStr wif)]).

Definition buildFeedSignatureFields (quote : val) : list (string * val) :=
  let signature := coerceTrim (v_or (get quote "feed_signature") (v_or (get quote "signature") (VStr ""))) in
  let signerPublicKey := coerceTrim (v_or (get quote "feed_signer_public_key")
    (v_or (get quote "public_key") (v_or (get quote "signer_public_key") (VStr "")))) in
  (if (signature =? "")%string then [] else [("signature", VStr signature)])
  ++ (if (signerPublicKey =? "")%string then [] else [("signer_public_key", VStr signerPublicKey)]).

Definition buildCanonicalFeedMessage (storagePair priceUnits timestampSec roundId : string) : string :=
  join "|" [storagePair; priceUnits; timestampSec; roundId].

Definition param (type : string) (value : val) : val := VObj [("type", VStr type); ("value", value)].

Definition buildFeedUpdateInvocation (baseParams : list val) (signed : option (string * string)) : string * list val :=
  match signed with
  | Some (signature, _) =>
      if (trim signature =? "")%string then ("updateFeed", baseParams)
      else ("updateFeedSigned", baseParams ++ [param "ByteArray" (VStr signature)])
  | None => ("updateFeed", baseParams)
  end.

Definition SIGNED_FEED_REQUIRES_PER_FEED_PATH : string := "neo_n3_updatefeeds_requires_signed_path".

(** ** Errors of the batch entry point *)

Definition white : regex := Chars js_space.
Definition any_char : regex := Chars (fun a => negb (line_break a)).
Definition quote_mark : regex := opt (Chars (fun a => (code a =? 34) || (code a =? 39))).
(** [doesn['’]?t\s+exist]: the typographic apostrophe is not a Latin-1 code unit. *)
Definition doesnt_exist : regex :=
  seqs [text_re false "doesn"; opt (Chars (fun a => code a =? 39)); text_re false "t"; Rep 1 None white; text_re false "exist"].

Definition missing_with_parameters : regex :=
  seqs [text_re false "method"; Rep 1 None white; quote_mark; text_re false "updatefeeds"; quote_mark;
        Rep 1 None white; text_re false "with"; Rep 1 None white; text_re false "6"; Rep 1 None white;
        text_re false "parameter(s)"; Rep 1 None white; doesnt_exist].
Definition missing_anyhow : regex :=
  seqs [text_re false "method"; Rep 1 None white; quote_mark; text_re false "updatefeeds"; quote_mark;
        star any_char; doesnt_exist].

Definition failure_message (error : string) : string := toLowerCase (trim error).

Definition isMissingNeoN3BatchUpdateMethod (error : string) : bool :=
  let message := failure_message error in
  if (message =? "")%string then false
  else includes message "method not found: updatefeeds/6" || test missing_with_parameters message
       || test missing_anyhow message.

Definition isUnauthorizedNeoN3BatchUpdate (error : string) : bool :=
  let message := failure_message error in
  if (message =? "")%string then false
  else includes message "abortmsg is executed. reason: unauthorized" || (message =? "unauthorized")%string.

Definition isSignedFeedPerFeedPathRequired (error : string) : bool :=
  (failure_message error =? SIGNED_FEED_REQUIRES_PER_FEED_PATH)%string.

Definition getRecoverableNeoN3BatchUpdateFailureReason (error : string) : option string :=
  if isSignedFeedPerFeedPathRequired error then Some SIGNED_FEED_REQUIRES_PER_FEED_PATH
  else if isMissingNeoN3BatchUpdateMethod error then Some "neo_n3_updatefeeds_missing"
  else if isUnauthorizedNeoN3BatchUpdate error then Some "neo_n3_updatefeeds_unauthorized"
  else None.

(** ** Submission *)

Section submit.
Context (env_for : string -> string -> string) (network : string) (dataFeedHash : string) (neoContext : neo_context)
  (payload : val).
#[local] Open Scope prog_scope.

(** [null] is [None]. *)
Definition signFeedUpdate (storagePair priceUnits timestampSec roundId : string) : fprog (option (string * string)) :=
  signed <-- await (SignBytes (buildCanonicalFeedMessage storagePair priceUnits timestampSec roundId)
                      (get payload "network")) ;;
  let signature := coerceTrim (get signed "signature") in
  let publicKey := coerceTrim (get signed "public_key") in
  Ret (if (signature =? "")%string then None else Some (signature, publicKey)).

Definition relay (request_id method : string) (params : list val) : fprog relay_reply :=
  await (RelayNeoN3 (RelayInvocation request_id (get payload "network") dataFeedHash method params
    (resolveFeedSubmissionWait payload) (resolveFeedSubmissionWaitTimeoutMs env_for network payload)
    (nc_rpcUrl neoContext) (nc_networkMagic neoContext) (buildNeoN3RelaySigningPayload payload))).

Definition relayed (r : relay_reply) (fallback : string) : fprog val :=
  if 400 <=? rr_status r then Throw (js_String (v_or (get (rr_body r) "error") (VStr fallback)))
  else Ret (rr_body r).

(** One update; the timestamp is the one the batch clamped.  The result is the
    body of the reply and the quote with its signature. *)
Definition submitQuoteToN3 (quote : val) (u : batch_update) : fprog (val * val) :=
  priceUnits <-- lift_result (price_units quote) ;;
  let storagePair := bu_storagePair u in
  let submitTimestampSec := num_to_string (bu_timestampSec u) in
  signed <-- signFeedUpdate storagePair priceUnits submitTimestampSec (bu_roundId u) ;;
  let baseParams :=
    [param "String" (VStr storagePair); param "Integer" (VStr (bu_roundId u)); param "Integer" (VStr priceUnits);
     param "Integer" (VStr submitTimestampSec); param "ByteArray" (get quote "attestation_hash");
     param "Integer" (VStr (dbl_text (bu_sourceSetId u)))] in
  let '(method, params) := buildFeedUpdateInvocation baseParams signed in
  now <-- clock ;;
  r <-- relay (coerceTrim (get payload "request_id") ||s ("pricefeed:" +:+ storagePair +:+ ":" +:+ num_to_string now))
          method params ;;
  body <-- relayed r "Neo N3 feed submit failed" ;;
  Ret (body, match signed with
             | Some (signature, publicKey) =>
                 VObj (spread (own_fields quote)
                   [("feed_signature", VStr signature); ("feed_signer_public_key", VStr publicKey)])
             | None => quote
             end).

(** The values of one array argument of [updateFeeds], in order. *)
Fixpoint map_result {A B} (f : A -> string + B) (l : list A) : string + list B :=
  match l with
  | [] => inr []
  | x :: l =>
      match f x with
      | inl e => inl e
      | inr y => match map_result f l with inl e => inl e | inr ys => inr (y :: ys) end
      end
  end.

Definition submitQuotesToN3 (quotes : list val) (updates : list batch_update) : fprog val :=
  match updates with
  | [] => Throw "decimal value required"
  | first :: _ =>
      firstUnits <-- lift_result (price_units (quote_at quotes (bu_quote first))) ;;
      probe <-- signFeedUpdate (bu_storagePair first) firstUnits (num_to_string (bu_timestampSec first)) (bu_roundId first) ;;
      match probe with
      | Some _ => Throw SIGNED_FEED_REQUIRES_PER_FEED_PATH
      | None =>
          now <-- clock ;;
          units <-- lift_result (map_result (fun u => price_units (quote_at quotes (bu_quote u))) updates) ;;
          let column type (f : batch_update -> val) := param "Array" (VArr (param type ∘ f <$> updates)) in
          r <-- relay (coerceTrim (get payload "request_id") ||s ("pricefeed:batch:" +:+ num_to_string now)) "updateFeeds"
                  [column "String" (VStr ∘ bu_storagePair); column "Integer" (VStr ∘ bu_roundId);
                   param "Array" (VArr ((fun s => param "Integer" (VStr s)) <$> units));
                   column "Integer" (VStr ∘ num_to_string ∘ bu_timestampSec);
                   column "ByteArray" (fun u => get (quote_at quotes (bu_quote u)) "attestation_hash");
                   column "Integer" (VStr ∘ dbl_text ∘ bu_sourceSetId)] ;;
          relayed r "Neo N3 batch feed submit failed"
      end
  end.

Fixpoint submit_each (quotes : list val) (updates : list batch_update) : fprog (list val * list val) :=
  match updates with
  | [] => Ret ([], quotes)
  | u :: updates =>
      '(tx, quote) <-- submitQuoteToN3 (quote_at quotes (bu_quote u)) u ;;
      '(txs, quotes) <-- submit_each (<[bu_quote u := quote]> quotes) updates ;;
      Ret (VObj [("storage_pair", VStr (bu_storagePair u)); ("tx", tx)] :: txs, quotes)
  end.

Definition submitQuotesToN3WithFallback (quotes : list val) (updates : list batch_update) : fprog (val * list val) :=
  outcome <-- attempt (submitQuotesToN3 quotes updates) ;;
  match outcome with
  | inr body => Ret (body, quotes)
  | inl error =>
      match getRecoverableNeoN3BatchUpdateFailureReason error with
      | None => Throw error
      | Some fallbackReason =>
          '(txs, quotes) <-- submit_each quotes updates ;;
          Ret (VObj [("mode", VStr "single_fallback"); ("reason", VStr fallbackReason); ("txs", VArr txs)], quotes)
      end
  end.
End submit.

Example recoverable_ex :
  (getRecoverableNeoN3BatchUpdateFailureReason "Method 'updateFeeds' with 6 parameter(s) doesn't exist in the contract",
   getRecoverableNeoN3BatchUpdateFailureReason "ABORTMSG is executed. Reason: Unauthorized",
   getRecoverableNeoN3BatchUpdateFailureReason "insufficient GAS")
  = (Some "neo_n3_updatefeeds_missing", Some "neo_n3_updatefeeds_unauthorized", None).
Proof. vm_compute. reflexivity. Qed.
