(* ===== verification/Feeds.v ===== *)
(** * The price feed ([oracle/feeds.js], [feeds/feed-state.js])

    The scoped feed state with its cache and file, and the handler that fetches
    the quotes of the requested pairs, decides which to submit, submits them and
    records the outcome.  The state of a scope is one object, referred to by the
    cache and by every handler that loaded it; it changes only in the
    synchronous segments between two awaits. *)
From S2P Require Import Prelude Numbers Strings Values Effects Stringify Doubles Decimal Aggregate Text WorkerCore Allowlist FeedPolicy FeedRegistry FeedQuote FeedSubmit.
#[local] Open Scope list_scope.
#[local] Open Scope Z_scope.

Definition DEFAULT_FEED_STATE_PATH : string := "/data/morpheus-feed-state.json".

Abbreviation fields := (list (string * val)).

(** ** State objects *)

Definition state_at (id : nat) (h : feed_heap) : fields := default [] (fh_objects h !! id).
Definition records_of (state : fields) : fields := own_fields (assoc_get "records" state).
Definition set_records (recs : fields) (state : fields) : fields := assoc_set "records" (VObj recs) state.

(** A record of the state, [{}] for an absent one. *)
Definition record_at (key : string) (recs : fields) : fields := own_fields (v_or (assoc_get key recs) (VObj [])).

(** A segment that reads and replaces the records of the state object [id]. *)
Definition with_records {A} (id : nat) (f : Z -> fields -> A * fields) : fprog A :=
  local (fun now _ h =>
    let '(x, recs) := f now (records_of (state_at id h)) in
    (x, FeedHeap (alter (set_records recs) id (fh_objects h)) (fh_cache h) (fh_write_failures h))).

Record feed_env := FeedEnv {
  fe_env : string -> string;
  fe_env_for : string -> string -> string;
  fe_date_parse : string -> option Z;
  fe_to_iso : Z -> string;
  fe_json_parse : string -> option val;
  fe_contract_hash : string -> string;
  fe_temp_suffix : string -> string;
  fe_dirname : string -> string;
  fe_extname : string -> string;
}.

Section feeds.
Context (fe : feed_env).
#[local] Open Scope prog_scope.

(** ** [feed-state.js] *)

Definition supabase_configured : bool :=
  let first names := default "" (head (filter (fun s => s <> "") ((fun n => trim (fe_env fe n)) <$> names))) in
  negb (first ["SUPABASE_URL"; "NEXT_PUBLIC_SUPABASE_URL"; "morpheus_SUPABASE_URL"] =? "")%string
  && negb (first ["SUPABASE_SECRET_KEY"; "morpheus_SUPABASE_SECRET_KEY"; "SUPABASE_SERVICE_ROLE_KEY";
                  "morpheus_SUPABASE_SERVICE_ROLE_KEY"; "SUPABASE_SERVICE_KEY"] =? "")%string.

Definition http_error (what : string) (r : http_reply) : string :=
  "supabase morpheus_feed_snapshots " +:+ what +:+ " failed: " +:+ num_to_string (hr_status r) +:+ " " +:+ hr_text r.

Definition fetchLatestFeedSnapshots (limit : Z) (network : string) : fprog val :=
  if negb supabase_configured then Ret (VArr [])
  else
    r <-- await (GetSnapshots network "neo_n3" (Z.max limit 1)) ;;
    if negb (hr_ok r) then Throw (http_error "GET" r)
    else if (hr_text r =? "")%string then Ret (VArr [])
    else Ret (default (VArr []) (fe_json_parse fe (hr_text r))).

Definition persistFeedSnapshots (rows : list val) : fprog bool :=
  if negb supabase_configured || bool_decide (rows = []) then Ret false
  else
    r <-- await (PostSnapshots (VArr rows)) ;;
    if negb (hr_ok r) then Throw (http_error "POST" r) else Ret true.

Fixpoint apply_rows (seen : list string) (rows : list val) (recs : fields) : fields :=
  match rows with
  | [] => recs
  | row :: rows =>
      let payload := own_fields (object_or_empty (get row "payload")) in
      let field k := assoc_get k payload in
      let symbol := v_or (get row "symbol") (VStr "") in
      let storagePair := coerceTrim (v_or (field "storage_pair") symbol) in
      if (storagePair =? "")%string || bool_decide (storagePair ∈ seen) then apply_rows seen rows recs
      else
        let price := field "price" in
        let record := spread (spread (record_at storagePair recs) payload)
          [("storage_pair", VStr storagePair);
           ("pair", VStr (coerceTrim (v_or (field "pair") (v_or (get row "symbol") (VStr storagePair)))));
           ("price", match price with
                     | VUndef | VNull => v_coalesce (get row "price") VNull
                     | _ => if (coerceTrim price =? "")%string then v_coalesce (get row "price") VNull else price
                     end);
           ("attestation_hash", VStr (coerceTrim (v_or (field "attestation_hash")
              (v_or (get row "attestation_hash") (VStr "")))));
           ("snapshot_created_at", VStr (coerceTrim (v_or (get row "created_at") (VStr ""))))] in
        apply_rows (storagePair :: seen) rows (assoc_set storagePair (VObj record) recs)
  end.

Definition applySnapshotRowsToFeedState (recs : fields) (rows : val) : fields :=
  match rows with VArr rows => apply_rows [] rows recs | _ => recs end.

Definition getFeedStatePathBase : string := trim (fe_env fe "MORPHEUS_FEED_STATE_PATH") ||s DEFAULT_FEED_STATE_PATH.

Definition buildScopedFeedStatePath (basePath network targetChain : string) : string :=
  let ext := fe_extname fe basePath in
  let scope := "." +:+ network +:+ "." +:+ targetChain in
  if (ext =? "")%string then basePath +:+ scope
  else slice_end basePath (String.length ext) +:+ scope +:+ ext.

Definition getFeedStatePath (network : string) : string :=
  buildScopedFeedStatePath getFeedStatePathBase network "neo_n3".

Definition normalizeFeedState (state : val) : fields :=
  let normalized := own_fields (object_or_empty state) in
  match assoc_get "records" normalized with
  | VObj _ | VArr _ => normalized
  | _ => set_records [] normalized
  end.

(** [null] is [None]. *)
Definition readFeedStateFile (filePath : string) : fprog (option fields) :=
  outcome <-- attempt (await (ReadFile filePath)) ;;
  Ret (match outcome with
       | inr raw => normalizeFeedState <$> fe_json_parse fe raw
       | inl _ => None
       end).

(** A new state object, entered in the cache. *)
Definition new_state (path : string) (state : fields) : fprog nat :=
  local (fun _ _ h =>
    let id := length (fh_objects h) in
    (id, FeedHeap (fh_objects h ++ [state]) (<[path := id]> (fh_cache h)) (fh_write_failures h))).

Definition loadFeedState (network : string) : fprog nat :=
  let statePath := getFeedStatePath network in
  cached <-- reads (fun h => fh_cache h !! statePath) ;;
  match cached with
  | Some id => Ret id
  | None =>
      file <-- readFeedStateFile statePath ;;
      state <-- (match file with
                 | Some _ => Ret file
                 | None =>
                     if (getFeedStatePathBase =? statePath)%string then Ret None
                     else readFeedStateFile getFeedStatePathBase
                 end) ;;
      let state := default (set_records [] []) state in
      state <-- (if isEnabled (fe_env fe "MORPHEUS_FEED_BOOTSTRAP_SUPABASE_ENABLED") true
                    && bool_decide (records_of state = [])
                 then
                   outcome <-- attempt (fetchLatestFeedSnapshots 250 network) ;;
                   Ret (match outcome with
                        | inr rows => set_records (applySnapshotRowsToFeedState (records_of state) rows) state
                        | inl _ => state
                        end)
                 else Ret state) ;;
      new_state statePath state
  end.

(** The write is to a temporary file that is renamed into place. *)
Definition saveFeedState (id : nat) (network : string) : fprog unit :=
  let statePath := getFeedStatePath network in
  modify (fun h => FeedHeap (fh_objects h) (<[statePath := id]> (fh_cache h)) (fh_write_failures h)) ;;;
  suffix <-- await (RandomHex 4) ;;
  let tempPath := statePath +:+ fe_temp_suffix fe suffix in
  outcome <-- attempt (
    await (MakeDirectory (fe_dirname fe statePath)) ;;;
    state <-- reads (state_at id) ;;
    await (WriteFile tempPath (VObj state)) ;;;
    await (RenameFile tempPath statePath)) ;;
  match outcome with
  | inr _ => Ret tt
  | inl _ =>
      modify (fun h => FeedHeap (fh_objects h) (fh_cache h) (fh_write_failures h + 1)) ;;;
      _ <-- attempt (await (RemoveFile tempPath)) ;; Ret tt
  end.

(** ** The canonical record of a pair *)

(** [Math.floor(now / 1000)] *)
Definition now_seconds (now : Z) : Z := now / 1000.

Definition buildRoundId (now : Z) (previousRecord : option fields) : string :=
  let round_id := match previousRecord with Some r => assoc_get "round_id" r | None => VUndef end in
  if truthy round_id then dbl_text (dadd (val_double round_id) (DFin ONE)) else num_to_string (now_seconds now).

Definition buildCanonicalAggregateStorageKey (pair : val) : string := "AGG:" +:+ normalizeFeedPairSymbol pair.

(** [None] is [null]. *)
Definition buildCanonicalAggregateRecord (now : Z) (pair : val) (a : aggregation) (previousRecord : option fields)
    : string + option (string * fields) :=
  if negb (meetsMinProviders a CANONICAL_AGGREGATE_MIN_PROVIDERS) || negb (dfinite (ag_price a)) then inr None
  else
    let storageKey := buildCanonicalAggregateStorageKey pair in
    match decimalToIntegerString (VStr (to_fixed FEED_PRICE_DECIMALS (ag_price a))) FEED_PRICE_DECIMALS with
    | inl e => inl e
    | inr units =>
        let priceDecimalString := integerToDecimalString (VStr units) FEED_PRICE_DECIMALS in
        match decimalToIntegerString (VStr priceDecimalString) FEED_PRICE_DECIMALS with
        | inl e => inl e
        | inr price_units =>
            inr (Some (storageKey, spread (default [] previousRecord)
              [("storage_pair", VStr storageKey); ("pair", VStr (normalizeFeedPairSymbol pair));
               ("aggregate", VBool true); ("aggregation_method", VStr (ag_method a));
               ("providers_used", VArr (VStr <$> ag_providers_used a));
               ("providers_rejected", VArr (VStr <$> ag_providers_rejected a));
               ("provider_count", VNum (countDistinctProviders a)); ("deviation_pct", dbl_val (ag_deviation_pct a));
               ("confidence", VStr (ag_confidence a)); ("price", VStr priceDecimalString);
               ("price_units", VStr price_units); ("round_id", VStr (buildRoundId now previousRecord));
               ("last_observed_price", VStr priceDecimalString); ("last_observed_price_units", VStr price_units);
               ("last_observed_at_ms", VNum now); ("price_scale_decimals", VNum (Z.of_nat FEED_PRICE_DECIMALS))]))
        end
    end.

(** ** Processing the quotes of a pair *)

(** An entry of the report; its [quote] field is the object [sy_quote] refers to. *)
Record sync_result := SyncResult {
  sy_fields : fields;
  sy_quote : option nat;
}.

(** The local variables of the handler. *)
Record progress := Progress {
  pg_quotes : list val;
  pg_results : list sync_result;
  pg_updates : list batch_update;
  pg_errors : list val;
  pg_aggregations : fields;
}.

Definition add_result (r : sync_result) (pg : progress) : progress :=
  Progress (pg_quotes pg) (pg_results pg ++ [r]) (pg_updates pg) (pg_errors pg) (pg_aggregations pg).
Definition add_error (e : val) (pg : progress) : progress :=
  Progress (pg_quotes pg) (pg_results pg) (pg_updates pg) (pg_errors pg ++ [e]) (pg_aggregations pg).
Definition add_update (u : batch_update) (pg : progress) : progress :=
  Progress (pg_quotes pg) (pg_results pg) (pg_updates pg ++ [u]) (pg_errors pg) (pg_aggregations pg).
Definition add_quote (q : val) (pg : progress) : progress :=
  Progress (pg_quotes pg ++ [q]) (pg_results pg) (pg_updates pg) (pg_errors pg) (pg_aggregations pg).

Definition aggregation_val (a : aggregation) : val :=
  VObj [("price", dbl_val (ag_price a)); ("method", VStr (ag_method a));
        ("providers_used", VArr (VStr <$> ag_providers_used a));
        ("providers_rejected", VArr (VStr <$> ag_providers_rejected a));
        ("deviation_pct", dbl_val (ag_deviation_pct a)); ("confidence", VStr (ag_confidence a))].

Definition some_if_any (fs : fields) : option fields := if bool_decide (fs = []) then None else Some fs.

(** What the handler reads once. *)
Record feed_run := FeedRun {
  fr_network : string;
  fr_payload : val;
  fr_policy : sync_policy;
  fr_onchain : fields;
}.

(** What is recorded of a quote that was only observed. *)
Definition observed_fields (quote : val) (storagePair units : string) (observedAtMs : Z) : fields :=
  [("provider", get quote "provider"); ("pair", get quote "pair"); ("storage_pair", VStr storagePair);
   ("last_observed_price", get quote "price"); ("last_observed_price_units", VStr units);
   ("last_observed_at_ms", VNum observedAtMs); ("price_scale_decimals", VNum (Z.of_nat FEED_PRICE_DECIMALS))].

Definition change_fields (d : submit_decision) : fields :=
  [("change_bps", match sd_change_bps d with Some x => dbl_val x | None => VNull end);
   ("comparison_basis", match sd_units d with Some _ => VStr "current-chain-price" | None => VNull end)].

Definition quote_result (quote : val) (storagePair : string) (status : fields) (d : submit_decision) (i : nat) : sync_result :=
  SyncResult ([("provider", get quote "provider"); ("pair", get quote "pair"); ("storage_pair", VStr storagePair)]
              ++ status ++ change_fields d ++ [("quote", VUndef)]) (Some i).

Definition process_aggregation (run : feed_run) (now : Z) (symbol : string) (a : aggregation) (pg : progress)
    (recs : fields) : string + (progress * fields) :=
  let pg := Progress (pg_quotes pg) (pg_results pg) (pg_updates pg) (pg_errors pg)
              (assoc_set symbol (aggregation_val a) (pg_aggregations pg)) in
  let canonicalKey := buildCanonicalAggregateStorageKey (VStr symbol) in
  let previousCanonical := spread (record_at canonicalKey recs) (record_at canonicalKey (fr_onchain run)) in
  match buildCanonicalAggregateRecord now (VStr symbol) a (some_if_any previousCanonical) with
  | inl e => inl e
  | inr None => inr (pg, recs)
  | inr (Some (storageKey, record)) =>
      inr (add_result (SyncResult
             [("provider", VStr "aggregate"); ("pair", assoc_get "pair" record); ("storage_pair", VStr storageKey);
              ("relay_status", VStr "aggregated"); ("aggregation_method", assoc_get "aggregation_method" record);
              ("provider_count", assoc_get "provider_count" record); ("confidence", assoc_get "confidence" record)]
             None) pg,
           assoc_set storageKey (VObj record) recs)
  end.

Definition process_quote (run : feed_run) (now : Z) (symbol : string) (quote : val) (pg : progress) (recs : fields)
    : string + (progress * fields) :=
  let payload := fr_payload run in
  let i := length (pg_quotes pg) in
  let pg := add_quote quote pg in
  let storagePair := getFeedStoragePair (get quote "provider") (get quote "pair") in
  let previousRecord := spread (record_at storagePair recs) (record_at storagePair (fr_onchain run)) in
  let config := getFeedPairConfig (fe_json_parse fe) (registry_json (fe_env fe)) (VStr storagePair) in
  let policy := SyncPolicy (default (sp_thresholdBps (fr_policy run)) (resolvePairThresholdBps config storagePair payload))
                  (sp_minUpdateIntervalMs (fr_policy run)) (sp_staleAfterMs (fr_policy run)) in
  match shouldSubmitFeed (fe_date_parse fe) now (price_text quote) (price_decimals quote)
          (VObj <$> some_if_any previousRecord) policy (truthy (get payload "force")) with
  | inl e => inl e
  | inr decision =>
      let roundId := coerceTrim (get payload "round_id") ||s buildRoundId now (some_if_any previousRecord) in
      let sourceSetId := val_double (v_coalesce (get payload "source_set_id")
                           (VNum (getSourceSetIdForProvider (get quote "provider") 0))) in
      let quoteTimestampMs := fe_date_parse fe (js_String (get quote "timestamp")) in
      let upstreamSec := match quoteTimestampMs with Some ms => ms / 1000 | None => now_seconds now end in
      let observedAtMs := default now quoteTimestampMs in
      let observed units := VObj (spread previousRecord (observed_fields quote storagePair units observedAtMs)) in
      let skip reason pg := add_result (quote_result quote storagePair
          [("relay_status", VStr "skipped"); ("skip_reason", VStr reason)] decision i) pg in
      match clampFeedTimestampSec upstreamSec (val_double (assoc_get "timestamp" previousRecord)) (now_seconds now)
              (resolveFeedTimestampMaxFutureSeconds (fe_env fe "MORPHEUS_FEED_TIMESTAMP_MAX_FUTURE_SECONDS"))
              (resolveFeedTimestampFutureSkewSeconds (fe_env fe "MORPHEUS_FEED_TIMESTAMP_FUTURE_SKEW_SECONDS")),
            price_units quote with
      | inl message, inr units =>
          inr (add_error (VObj [("symbol", VStr symbol); ("storage_pair", VStr storagePair); ("error", VStr message)])
                 (skip "upstream_timestamp_rejected" pg), assoc_set storagePair (observed units) recs)
      | inr timestampSec, units =>
          if sd_allow decision then
            inr (add_result (quote_result quote storagePair [("relay_status", VStr "queued")] decision i)
                   (add_update (BatchUpdate i storagePair roundId sourceSetId timestampSec observedAtMs
                                  (some_if_any previousRecord)) pg), recs)
          else
            match units with
            | inl e => inl e
            | inr units => inr (skip (sd_reason decision) pg, assoc_set storagePair (observed units) recs)
            end
      | inl _, inl e => inl e
      end
  end.

Fixpoint process_quotes (run : feed_run) (now : Z) (symbol : string) (quotes : list val) (pg : progress) (recs : fields)
    : (string + progress) * fields :=
  match quotes with
  | [] => (inr pg, recs)
  | quote :: quotes =>
      match process_quote run now symbol quote pg recs with
      | inl e => (inl e, recs)
      | inr (pg, recs) => process_quotes run now symbol quotes pg recs
      end
  end.

(** The segment that follows the quotes of one symbol. *)
Definition process_set (run : feed_run) (symbol : string) (qs : quote_set) (pg : progress) (now : Z) (recs : fields)
    : (string + progress) * fields :=
  match qs_quotes qs with
  | [] =>
      (inr (add_error (VObj [("symbol", VStr symbol);
                             ("providers_requested", VArr (VStr <$> qs_providers_requested qs));
                             ("errors", VArr (qs_errors qs))]) pg), recs)
  | quotes =>
      match (match qs_aggregation qs with
             | Some a => process_aggregation run now symbol a pg recs
             | None => inr (pg, recs)
             end) with
      | inl e => (inl e, recs)
      | inr (pg, recs) => process_quotes run now symbol quotes pg recs
      end
  end.

Fixpoint process_symbols (run : feed_run) (id : nat) (symbols : list string) (pg : progress) : fprog progress :=
  match symbols with
  | [] => Ret pg
  | symbol :: symbols =>
      quoteSet <-- fetchPriceQuotes (fe_env fe) (fe_env_for fe) (fe_date_parse fe) (fe_to_iso fe) (fe_json_parse fe)
                     (VStr symbol) (fr_payload run) ;;
      outcome <-- with_records id (process_set run symbol quoteSet pg) ;;
      pg <-- lift_result outcome ;;
      process_symbols run id symbols pg
  end.

(** ** After the submission *)

(** What is recorded of a submitted update: a new record, not an update of the
    previous one. *)
Definition submitted_record (now : Z) (quote : val) (units : string) (u : batch_update) : fields :=
  spread [("provider", get quote "provider"); ("pair", get quote "pair"); ("storage_pair", VStr (bu_storagePair u));
          ("price", get quote "price"); ("price_units", VStr units); ("round_id", VStr (bu_roundId u));
          ("source_set_id", dbl_val (bu_sourceSetId u)); ("last_submitted_at_ms", VNum now);
          ("last_observed_price", get quote "price"); ("last_observed_price_units", VStr units);
          ("last_observed_at_ms", VNum (bu_observedAtMs u)); ("attestation_hash", get quote "attestation_hash");
          ("price_scale_decimals", VNum (Z.of_nat FEED_PRICE_DECIMALS))] (buildFeedSignatureFields quote).

Definition record_update (submitted : bool) (now : Z) (quotes : list val) (u : batch_update) (recs : fields)
    : string + fields :=
  let quote := quote_at quotes (bu_quote u) in
  match price_units quote with
  | inl e => inl e
  | inr units =>
      let record :=
        if submitted then submitted_record now quote units u
        else spread (default [] (bu_previous u)) (observed_fields quote (bu_storagePair u) units (bu_observedAtMs u)) in
      inr (assoc_set (bu_storagePair u) (VObj record) recs)
  end.

Fixpoint record_updates (submitted : bool) (quotes : list val) (updates : list batch_update) (now : Z) (recs : fields)
    : (string + unit) * fields :=
  match updates with
  | [] => (inr tt, recs)
  | u :: updates =>
      match record_update submitted now quotes u recs with
      | inl e => (inl e, recs)
      | inr recs => record_updates submitted quotes updates now recs
      end
  end.

Definition finish_result (batchTx : val) (submissionIssue : string) (r : sync_result) : sync_result :=
  if bool_decide (assoc_get "relay_status" (sy_fields r) = VStr "queued") then
    let fs := assoc_set "relay_status" (VStr (if truthy batchTx then "submitted" else "skipped")) (sy_fields r) in
    let fs := if truthy batchTx then fs
              else assoc_set "skip_reason" (VStr (if (submissionIssue =? "")%string then "submission_missing_tx"
                                                  else "submission_unavailable")) fs in
    SyncResult (assoc_set "anchored_tx" batchTx fs) (sy_quote r)
  else r.

Definition result_fields (quotes : list val) (r : sync_result) : fields :=
  match sy_quote r with
  | Some i => assoc_set "quote" (quote_at quotes i) (sy_fields r)
  | None => sy_fields r
  end.

Definition snapshot_row (network : string) (recs : fields) (batchTx : val) (fs : fields) : string * val :=
  let storagePair := coerceTrim (v_or (assoc_get "storage_pair" fs) (VStr "")) in
  let record := if (storagePair =? "")%string then [] else record_at storagePair recs in
  let quote := match assoc_get "quote" fs with VObj q => VObj q | VArr l => VArr l | _ => VUndef end in
  let price := v_coalesce (assoc_get "price" record) (v_coalesce (assoc_get "last_observed_price" record)
                 (v_coalesce (get quote "price") VNull)) in
  let symbol := storagePair ||s coerceTrim (v_or (assoc_get "pair" fs) (VStr "")) in
  (symbol, VObj
    [("network", VStr network); ("symbol", VStr symbol); ("target_chain", VStr "neo_n3"); ("price", price);
     ("attestation_hash", VStr (coerceTrim (v_or (assoc_get "attestation_hash" record)
        (v_or (get quote "attestation_hash") (VStr "")))));
     ("payload", VObj (spread record
        [("relay_status", v_or (assoc_get "relay_status" fs) VNull); ("skip_reason", v_or (assoc_get "skip_reason" fs) VNull);
         ("change_bps", v_coalesce (assoc_get "change_bps" fs) VNull);
         ("comparison_basis", v_coalesce (assoc_get "comparison_basis" fs) VNull);
         ("anchored_tx", v_coalesce (assoc_get "anchored_tx" fs) (v_coalesce batchTx VNull))]))]).

Definition buildFeedSnapshotRows (network : string) (results : list fields) (recs : fields) (batchTx : val) : list val :=
  omap (fun row => if (trim row.1 =? "")%string then None else Some row.2)
    (snapshot_row network recs batchTx <$> results).

(** ** The handler *)

Definition resolveRequestedSymbols (payload : val) : list string :=
  let explicitSymbols :=
    match get payload "symbols" with
    | VArr symbols => symbols
    | _ => VStr <$> parseProviderList (v_or (get payload "symbols") (v_or (get payload "symbol_list") (VStr ""))) []
    end in
  if negb (bool_decide (explicitSymbols = [])) then normalizePairSymbol <$> explicitSymbols
  else if negb (coerceTrim (get payload "symbol") =? "")%string then [normalizePairSymbol (get payload "symbol")]
  else (normalizePairSymbol ∘ VStr) <$> getDefaultFeedSymbols (fe_json_parse fe) (registry_json (fe_env fe)).

(** [loadOnchainFeedRecords]: the records, or the error that hid them. *)
Definition loadOnchainFeedRecords (neoContext : option neo_context) (dataFeedHash : string) : fprog (string + fields) :=
  let rpcUrl := match neoContext with Some c => nc_rpcUrl c | None => "" end in
  if (trim rpcUrl =? "")%string || (trim dataFeedHash =? "")%string then Ret (inr [])
  else attempt (await (OnchainFeedRecords rpcUrl dataFeedHash)).

Definition report_header (network : string) (symbols : list string) : fields :=
  [("mode", VStr "pricefeed"); ("network", VStr network); ("target_chain", VStr "neo_n3");
   ("symbols", VArr (VStr <$> symbols))].

(** The batch, when there is one to submit: its transaction or [null], the
    quotes with their signatures, and what stood in the way. *)
Definition submit_batch (network dataFeedHash : string) (neoContext : option neo_context) (payload : val) (pg : progress)
    : fprog (val * list val * string) :=
  match pg_updates pg with
  | [] => Ret (VNull, pg_quotes pg, "")
  | updates =>
      let target := isConfiguredHash160 dataFeedHash in
      let submissionIssue := resolveFeedSubmissionIssue "neo_n3" target (nc_rpcUrl <$> neoContext) in
      match (submissionIssue =? "")%string, neoContext with
      | true, Some context =>
          '(tx, quotes) <-- submitQuotesToN3WithFallback (fe_env_for fe) network dataFeedHash context payload
                              (pg_quotes pg) updates ;;
          Ret (tx, quotes, "")
      | _, _ => Ret (VNull, pg_quotes pg, submissionIssue)
      end
  end.

Definition submission_errors (payload : val) (pg : progress) (batchTx : val) (submissionIssue : string) : list val :=
  let requireSubmission :=
    normalizeBooleanLike (v_coalesce (get payload "require_submission") (get payload "requireSubmission")) false in
  let error message := VObj [("target_chain", VStr "neo_n3"); ("error", VStr message)] in
  (if (submissionIssue =? "")%string then [] else [error submissionIssue])
  ++ (if requireSubmission && negb (bool_decide (pg_updates pg = [])) && negb (truthy batchTx)
         && (submissionIssue =? "")%string
      then [error "feed batch submission returned no transaction metadata"] else []).

(** From the quotes on: submit, record, save, report. *)
Definition conclude (run : feed_run) (id : nat) (symbols : list string) (dataFeedHash : string)
    (neoContext : option neo_context) (pg : progress) : fprog (Z * val) :=
  let payload := fr_payload run in
  '(batchTx, quotes, submissionIssue) <-- submit_batch (fr_network run) dataFeedHash neoContext payload pg ;;
  outcome <-- with_records id (record_updates (truthy batchTx) quotes (pg_updates pg)) ;;
  lift_result outcome ;;;
  let results := result_fields quotes ∘ finish_result batchTx submissionIssue <$> pg_results pg in
  saveFeedState id (fr_network run) ;;;
  (if isEnabled (fe_env fe "MORPHEUS_FEED_SNAPSHOT_SUPABASE_ENABLED") true then
     recs <-- reads (records_of ∘ state_at id) ;;
     _ <-- attempt (persistFeedSnapshots (buildFeedSnapshotRows (fr_network run) results recs batchTx)) ;; Ret tt
   else Ret tt) ;;;
  Ret (200, VObj (report_header (fr_network run) symbols
    ++ [("batch_submitted", VBool (truthy batchTx)); ("batch_count", VNum (Z.of_nat (length (pg_updates pg))));
        ("batch_tx", batchTx); ("sync_results", VArr (VObj <$> results));
        ("errors", VArr (pg_errors pg ++ submission_errors payload pg batchTx submissionIssue))]
    ++ (if bool_decide (pg_aggregations pg = []) then [] else [("aggregations", VObj (pg_aggregations pg))]))).

Definition handleOracleFeed (payload : val) : fprog (Z * val) :=
  let network := resolveFeedNetwork (fe_env fe) payload in
  let scopedPayload :=
    if truthy (get payload "network") then payload
    else VObj (spread (own_fields payload) [("network", VStr network)]) in
  let symbols := resolveRequestedSymbols scopedPayload in
  let policy := buildSyncPolicy (fe_env_for fe) network scopedPayload in
  id <-- loadFeedState network ;;
  let dataFeedHash := fe_contract_hash fe network in
  neoContext <-- (if isConfiguredHash160 dataFeedHash then await (LoadNeoContext scopedPayload) else Ret None) ;;
  baseline <-- reads (fun h => shouldLoadOnchainFeedBaseline scopedPayload (records_of (state_at id h))) ;;
  onchain <-- (if baseline then loadOnchainFeedRecords neoContext dataFeedHash else Ret (inr [])) ;;
  empty <-- reads (fun h => bool_decide (records_of (state_at id h) = [])) ;;
  match onchain with
  | inl error =>
      if empty && negb (truthy (get scopedPayload "force")) then
        Ret (503, VObj (report_header network symbols
          ++ [("batch_submitted", VBool false); ("batch_count", VNum 0); ("sync_results", VArr []);
              ("errors", VArr [VObj [("error", VStr ("on-chain baseline unavailable: " +:+ error))]])]))
      else
        let run := FeedRun network scopedPayload policy [] in
        pg <-- process_symbols run id symbols (Progress [] [] [] [] []) ;;
        conclude run id symbols dataFeedHash neoContext pg
  | inr records =>
      let run := FeedRun network scopedPayload policy records in
      pg <-- process_symbols run id symbols (Progress [] [] [] [] []) ;;
      conclude run id symbols dataFeedHash neoContext pg
  end.

Definition shouldFastAckOracleFeed (payload : val) : bool :=
  let explicitFastAck := v_coalesce (get payload "fast_ack") (v_coalesce (get payload "fastAck")
    (v_coalesce (get payload "async_ack") (get payload "asyncAck"))) in
  if negb (unset explicitFastAck) then normalizeBooleanLike explicitFastAck false
  else if existsb (fun kv => (kv.1 =? "wait")%string) (own_fields payload)
  then negb (normalizeBooleanLike (get payload "wait") true)
  else false.

(** The reply, and the payload of the background task it leaves running. *)
Definition handleOracleFeedRequest (uuid : string) (payload : val) : fprog ((Z * val) * option val) :=
  if negb (shouldFastAckOracleFeed payload) then r <-- handleOracleFeed payload ;; Ret (r, None)
  else
    now <-- clock ;;
    let network := resolveFeedNetwork (fe_env fe) payload in
    let requestId :=
      coerceTrim (v_or (get payload "request_id") (get payload "requestId"))
      ||s join ":" ["pricefeed"; network; num_to_string now; uuid] in
    let task := VObj (spread (own_fields payload)
      [("request_id", VStr requestId); ("requestId", VStr requestId); ("network", VStr network);
       ("target_chain", VStr "neo_n3")]) in
    Ret ((202, VObj [("accepted", VBool true); ("status", VStr "accepted"); ("mode", VStr "pricefeed");
                     ("request_id", VStr requestId); ("network", VStr network); ("target_chain", VStr "neo_n3");
                     ("wait", VBool false)]), Some task).
End feeds.
