(* ===== verification/FeedsSpec.v ===== *)
(** * What the price feed guarantees

    The canonical record of a pair, the baseline that changes are measured
    against, and the signature of every signed update. *)
From S2P Require Import Prelude Numbers Strings Values Text Effects Doubles Decimal Aggregate FeedPolicy FeedRegistry FeedQuote FeedSubmit Feeds.
From Stdlib Require Import QArith.
#[local] Open Scope list_scope.
#[local] Open Scope Z_scope.

(** ** The canonical record *)

Lemma canonical_form now pair a previous key record :
  buildCanonicalAggregateRecord now pair a previous = inr (Some (key, record)) ->
  meetsMinProviders a CANONICAL_AGGREGATE_MIN_PROVIDERS = true /\ dfinite (ag_price a) = true /\
  key = buildCanonicalAggregateStorageKey pair /\
  exists units, decimalToIntegerString (VStr (to_fixed FEED_PRICE_DECIMALS (ag_price a))) FEED_PRICE_DECIMALS = inr units /\
    assoc_get "price" record = VStr (integerToDecimalString (VStr units) FEED_PRICE_DECIMALS) /\
    exists price_units, decimalToIntegerString (VStr (integerToDecimalString (VStr units) FEED_PRICE_DECIMALS))
        FEED_PRICE_DECIMALS = inr price_units /\ assoc_get "price_units" record = VStr price_units.
Proof.
  unfold buildCanonicalAggregateRecord. destruct (meetsMinProviders _ _) eqn:Hm; [|done].
  destruct (dfinite _) eqn:Hf; [|done]. cbn [negb orb].
  destruct (decimalToIntegerString (VStr (to_fixed _ _)) _) as [|units] eqn:Hu; [done|].
  destruct (decimalToIntegerString (VStr (integerToDecimalString _ _)) _) as [|price_units] eqn:Hp; [done|].
  intros [= <- <-]. split_and!; [done|done|done|]. exists units. split_and!; [done| |exists price_units; split; [done|]].
  - by rewrite !assoc_get_set.
  - by rewrite !assoc_get_set.
Qed.

(** C37.  The canonical record of a pair is a real aggregate, to the last unit.
    A record is built only from at least two distinct providers; its price is
    the aggregated price rounded to the nearest unit (half a unit at most), and
    its price text and its integer units are the same number. *)
Theorem canonical_record_sound : forall now pair a previous key record n,
  buildCanonicalAggregateRecord now pair a previous = inr (Some (key, record)) ->
  ag_price a = DFin n -> Z.abs n < 10 ^ 21 * ONE ->
  key = buildCanonicalAggregateStorageKey pair /\ 2 <= countDistinctProviders a /\
  exists u, assoc_get "price_units" record = VStr (num_to_string u) /\
    decimalToIntegerString (assoc_get "price" record) FEED_PRICE_DECIMALS = inr (num_to_string u) /\
    Z.abs (2 * (u * ONE - n * 10 ^ 6)) <= ONE.
Proof.
  intros now pair a previous key record n Hb Hn Hlt.
  destruct (canonical_form _ _ _ _ _ _ Hb) as (Hm & _ & -> & units & Hu & Hprice & price_units & Hp & Hpu).
  split; [done|]. split; [by apply Z.leb_le|].
  destruct (units_of_fixed n FEED_PRICE_DECIMALS) as (u & Hfix & Herr); [unfold FEED_PRICE_DECIMALS; lia|done|].
  rewrite Hn, Hfix in Hu. injection Hu as <-.
  rewrite units_read_back in Hp by (unfold FEED_PRICE_DECIMALS; lia). injection Hp as <-.
  exists u. rewrite Hpu, Hprice. split_and!; [done| |exact Herr].
  apply units_read_back. unfold FEED_PRICE_DECIMALS. lia.
Qed.

Definition sample_aggregate : aggregation :=
  Aggregation (DFin (3 * 2 ^ 1073)) "mean" ["a"; "b"] [] (DFin 0) "medium".

Lemma canonical_record_sound_witness :
  exists key record, buildCanonicalAggregateRecord 1000 (VStr "NEO-USD") sample_aggregate None = inr (Some (key, record)) /\
    key = "AGG:NEO-USD" /\ 2 <= countDistinctProviders sample_aggregate /\
    exists u, assoc_get "price_units" record = VStr (num_to_string u) /\
      decimalToIntegerString (assoc_get "price" record) FEED_PRICE_DECIMALS = inr (num_to_string u) /\
      Z.abs (2 * (u * ONE - 3 * 2 ^ 1073 * 10 ^ 6)) <= ONE.
Proof.
  eexists _, _. split; [vm_compute; reflexivity|].
  apply (canonical_record_sound 1000 (VStr "NEO-USD") sample_aggregate None); [vm_compute; reflexivity|reflexivity|].
  apply Z.ltb_lt. vm_compute. reflexivity.
Defined.

(** ** The baseline *)

(** What observing a price without submitting it may change. *)
Definition observation_keys : list string :=
  ["provider"; "pair"; "storage_pair"; "last_observed_price"; "last_observed_price_units"; "last_observed_at_ms";
   "price_scale_decimals"].

Lemma observed_keeps k base quote sp units at_ms :
  k ∉ observation_keys -> assoc_get k (spread base (observed_fields quote sp units at_ms)) = assoc_get k base.
Proof.
  intros Hk. rewrite get_spread by (by apply (bool_decide_unpack _); vm_compute).
  by rewrite decide_False.
Qed.

(** The record of a pair as the decision sees it: the local one under the one
    read from the chain. *)
Definition known_record (run : feed_run) (sp : string) (recs : fields) : fields :=
  spread (record_at sp recs) (record_at sp (fr_onchain run)).

Lemma record_at_set k k' r recs :
  record_at k (assoc_set k' (VObj r) recs) = if decide (k = k') then r else record_at k recs.
Proof. unfold record_at. rewrite assoc_get_set. by case_decide. Qed.

(** Only a submitted price becomes the baseline.  Processing a quote either
    queues it, leaving the records alone and remembering the known record, or
    changes the record of its pair alone and there only what was observed: the
    on-chain price, round, timestamp and time of the last submission that later
    changes are measured against stay as they were. *)
Theorem observation_keeps_baseline : forall fe run now symbol quote pg recs pg' recs',
  process_quote fe run now symbol quote pg recs = inr (pg', recs') ->
  let sp := getFeedStoragePair (get quote "provider") (get quote "pair") in
  (recs' = recs /\ exists u, pg_updates pg' = pg_updates pg ++ [u] /\ bu_storagePair u = sp /\
     default [] (bu_previous u) = known_record run sp recs) \/
  (pg_updates pg' = pg_updates pg /\ (forall k, k <> sp -> record_at k recs' = record_at k recs) /\
     forall f, f ∉ observation_keys -> assoc_get f (record_at sp recs') = assoc_get f (known_record run sp recs)).
Proof.
  intros fe run now symbol quote pg recs pg' recs' H sp. unfold process_quote in H. fold sp in H.
  change (spread (record_at sp recs) (record_at sp (fr_onchain run))) with (known_record run sp recs) in H.
  destruct (shouldSubmitFeed _ _ _ _ _ _ _) as [|decision]; [done|].
  assert (forall units at_ms recs1, recs' = assoc_set sp (VObj (spread (known_record run sp recs)
      (observed_fields quote sp units at_ms))) recs1 -> recs1 = recs ->
    (forall k, k <> sp -> record_at k recs' = record_at k recs) /\
    forall f, f ∉ observation_keys -> assoc_get f (record_at sp recs') = assoc_get f (known_record run sp recs)) as Hobs.
  { intros units at_ms recs1 -> ->. split.
    - intros k Hk. rewrite record_at_set. by rewrite decide_False.
    - intros f Hf. rewrite record_at_set, decide_True by done. by apply observed_keeps. }
  destruct (clampFeedTimestampSec _ _ _ _ _) as [message|ts].
  - destruct (price_units quote) as [|units]; [done|]. injection H as <- <-. right. split; [done|]. by eapply Hobs.
  - destruct (sd_allow decision).
    + injection H as <- <-. left. split; [done|]. eexists. split; [done|]. split; [done|].
      cbn [bu_previous]. unfold some_if_any. by case_bool_decide as Hn; [rewrite Hn|].
    + destruct (price_units quote) as [|units]; [done|]. injection H as <- <-. right. split; [done|]. by eapply Hobs.
Qed.

Lemma unsent_update_keeps quotes now u recs recs' k :
  record_update false now quotes u recs = inr recs' -> k ∉ observation_keys ->
  assoc_get k (record_at (bu_storagePair u) recs') = assoc_get k (default [] (bu_previous u)).
Proof.
  unfold record_update. destruct (price_units _) as [|units]; [done|]. intros [= <-] Hk.
  rewrite record_at_set, decide_True by done. by apply observed_keeps.
Qed.

(** A submitted record does not keep the on-chain timestamp, so the next clamp
    of the pair has no floor. *)
Lemma submitted_record_drops_timestamp now quote units u :
  assoc_get "timestamp" (submitted_record now quote units u) = VUndef /\
  forall upstream at_sec maxFuture skew,
    clampFeedTimestampSec upstream (val_double (assoc_get "timestamp" (submitted_record now quote units u))) at_sec
      maxFuture skew
    = clampFeedTimestampSec upstream (DFin 0) at_sec maxFuture skew.
Proof.
  assert (assoc_get "timestamp" (submitted_record now quote units u) = VUndef) as ->.
  { unfold submitted_record, buildFeedSignatureFields. rewrite get_spread.
    - by destruct (_ =? "")%string, (_ =? "")%string.
    - destruct (_ =? "")%string, (_ =? "")%string; simpl; by apply (bool_decide_unpack _); vm_compute. }
  split; [done|]. intros. unfold clampFeedTimestampSec. cbn [val_double].
  replace (Z.max (0 / ONE) 0) with 0; [done|]. by rewrite Z.div_0_l by (apply Z.pow_nonzero; lia).
Qed.

Definition sample_feed_env : feed_env :=
  FeedEnv (fun _ => "") (fun _ _ => "") (fun _ => None) (fun _ => "") (fun _ => None) (fun _ => "") (fun s => s)
    (fun s => s) (fun _ => "").

Definition sample_run : feed_run := FeedRun "testnet" (VObj []) (SyncPolicy (of_Z 10) 60000 300000) [].

Definition sample_quote (price : string) : val :=
  VObj [("provider", VStr "twelvedata"); ("pair", VStr "TWELVEDATA:NEO-USD"); ("price", VStr price); ("decimals", VNum 6);
        ("timestamp", VStr ""); ("attestation_hash", VStr "aa"); ("signature", VStr "sig")].

Definition sample_records : fields :=
  [("TWELVEDATA:NEO-USD", VObj [("price", VStr "10"); ("price_units", VStr "10000000");
                                ("last_submitted_at_ms", VNum 1700000000000)])].

Lemma observation_keeps_baseline_witness :
  exists pg' recs',
    process_quote sample_feed_env sample_run 1700000100000 "NEO-USD" (sample_quote "10.000001") (Progress [] [] [] [] [])
      sample_records = inr (pg', recs') /\
    assoc_get "last_observed_price" (record_at "TWELVEDATA:NEO-USD" recs') = VStr "10.000001" /\
    ((recs' = sample_records /\ exists u, pg_updates pg' = [] ++ [u] /\ bu_storagePair u = "TWELVEDATA:NEO-USD" /\
       default [] (bu_previous u) = known_record sample_run "TWELVEDATA:NEO-USD" sample_records) \/
     (pg_updates pg' = [] /\
       (forall k, k <> "TWELVEDATA:NEO-USD" -> record_at k recs' = record_at k sample_records) /\
       forall f, f ∉ observation_keys -> assoc_get f (record_at "TWELVEDATA:NEO-USD" recs')
         = assoc_get f (known_record sample_run "TWELVEDATA:NEO-USD" sample_records))).
Proof.
  eexists _, _. split; [vm_compute; reflexivity|]. split; [vm_compute; reflexivity|].
  apply (observation_keeps_baseline sample_feed_env sample_run 1700000100000 "NEO-USD" (sample_quote "10.000001")
    (Progress [] [] [] [] []) sample_records). vm_compute. reflexivity.
Defined.

(** ** Signed updates *)

Abbreviation fobs := (obs feed_heap fcall).

Definition relay_of (o : fobs) : option relay_invocation :=
  match o with OCall (RelayNeoN3 inv) _ => Some inv | _ => None end.

(** A signing call that was answered: its message, network and reply. *)
Definition sign_of (o : fobs) : option (string * val * val) :=
  match o with
  | @OCall _ _ X c reply =>
      match c in fcall Y return (string + Y) -> option (string * val * val) with
      | SignBytes message network => fun r => match r with inr signed => Some (message, network, signed) | inl _ => None end
      | _ => fun _ => None
      end reply
  | OSave _ => None
  end.

(** A signed update carries the signature that the preceding call returned for
    the message of exactly its own pair, price, timestamp and round. *)
Definition bound_to (inv : relay_invocation) (rest : list fobs) : Prop :=
  exists pair price ts round hash source signature signed,
    ri_params inv = [param "String" (VStr pair); param "Integer" (VStr round); param "Integer" (VStr price);
                     param "Integer" (VStr ts); hash; source; param "ByteArray" (VStr signature)] /\
    head rest ≫= sign_of = Some (buildCanonicalFeedMessage pair price ts round, ri_network inv, signed) /\
    signature = coerceTrim (get signed "signature") /\ signature <> "".

Definition signed_ok : list fobs -> Prop :=
  trace_ok (fun o rest =>
    match relay_of o with Some inv => ri_method inv = "updateFeedSigned" -> bound_to inv rest | None => True end).

(** [keeps p]: whatever happens, [p] only adds such observations. *)
Abbreviation keeps := (stable (fun _ tr => signed_ok tr)).

Lemma keeps_other {X} (c : fcall X) : (forall r, relay_of (OCall c r) = None) -> keeps (await c).
Proof. intros Hc. apply stable_await. intros r s tr Htr. split; [by rewrite Hc|done]. Qed.

Lemma keeps_lifted {A} (r : string + A) : keeps (lift_result r : fprog A).
Proof. destruct r; [apply stable_throw|apply stable_ret]. Qed.

Ltac keeps_step := first [stable_step | apply keeps_lifted | (apply keeps_other; done) ].
Ltac keeps_all := cbv zeta; repeat (keeps_step || case_match).

Section signed.
Context (fe : feed_env).

Lemma keeps_load network : keeps (loadFeedState fe network).
Proof. unfold loadFeedState, readFeedStateFile, fetchLatestFeedSnapshots, new_state. keeps_all. Qed.

Lemma keeps_save id network : keeps (saveFeedState fe id network).
Proof. unfold saveFeedState. keeps_all. Qed.

Lemma keeps_quote env json_parse date_parse to_iso symbol options provider :
  keeps (resolveQuoteForProvider env date_parse to_iso json_parse symbol options provider).
Proof. unfold resolveQuoteForProvider. keeps_all. Qed.

Lemma keeps_settle env json_parse date_parse to_iso symbol options providers :
  keeps (settle_quotes env date_parse to_iso json_parse symbol options providers).
Proof.
  induction providers as [|p ps IH]; cbn [settle_quotes]; [apply stable_ret|].
  apply stable_bind; [apply stable_attempt, keeps_quote|intros r]. apply stable_bind; [done|intros rs]. apply stable_ret.
Qed.

Lemma keeps_symbols run id symbols pg : keeps (process_symbols fe run id symbols pg).
Proof.
  revert pg. induction symbols as [|symbol symbols IH]; intros pg; cbn [process_symbols]; [apply stable_ret|].
  apply stable_bind; [|intros qs; apply stable_bind; [by apply stable_local|intros o];
    apply stable_bind; [apply keeps_lifted|intros pg'; apply IH]].
  unfold fetchPriceQuotes. case_match; [apply stable_throw|].
  apply stable_bind; [apply keeps_settle|intros settled]. keeps_all.
Qed.

Lemma keeps_relayed r fallback : keeps (relayed r fallback).
Proof. unfold relayed. keeps_all. Qed.

Lemma keeps_submit_one env_for network hash ctx payload quote u :
  keeps (submitQuoteToN3 env_for network hash ctx payload quote u).
Proof.
  unfold submitQuoteToN3. apply stable_bind; [apply keeps_lifted|intros units].
  apply stable_intro. intros en s tr Htr. unfold signFeedUpdate.
  cbn [await bind run]. set (reply := env_reply en _ tr _). destruct reply as [m|signed] eqn:Hr; cbn [bind run]; [done|].
  set (signature := coerceTrim (get signed "signature")).
  set (params := buildFeedUpdateInvocation _ _).
  destruct params as [method ps] eqn:Hps. cbn [clock bind run relay await].
  set (inv := RelayInvocation _ _ _ _ _ _ _ _ _ _). set (reply' := env_reply en relay_reply _ _).
  assert (signed_ok (OCall (RelayNeoN3 inv) reply'
    :: OCall (SignBytes (buildCanonicalFeedMessage (bu_storagePair u) units (num_to_string (bu_timestampSec u))
         (bu_roundId u)) (get payload "network")) (inr signed) :: tr)) as Hok.
  { split; [|by split]. cbn [relay_of inv ri_method]. intros ->. unfold bound_to.
    subst params. revert Hps. unfold buildFeedUpdateInvocation. fold signature.
    destruct (String.eqb_spec signature "") as [He|Hne]; [done|].
    destruct (String.eqb_spec (trim signature) "") as [He|Hne']; [done|]. intros [= <-].
    eexists _, _, _, _, _, _, signature, signed. cbn [ri_params inv app]. split; [done|]. split; [done|]. done. }
  destruct reply' as [m|r]; cbn [bind run snd]; [done|].
  match goal with |- signed_ok (run en ?q s _).2 => assert (keeps q) as Hk end; [|by apply (stable_run _ en _ s _ Hk)].
  apply stable_bind; [apply keeps_relayed|intros body; apply stable_ret].
Qed.

Lemma keeps_each env_for network hash ctx payload quotes updates :
  keeps (submit_each env_for network hash ctx payload quotes updates).
Proof.
  revert quotes. induction updates as [|u us IH]; intros quotes; cbn [submit_each]; [apply stable_ret|].
  apply stable_bind; [apply keeps_submit_one|intros [tx quote]].
  apply stable_bind; [apply IH|intros [txs qs]; apply stable_ret].
Qed.

Lemma keeps_batch env_for network hash ctx payload quotes updates :
  keeps (submitQuotesToN3 env_for network hash ctx payload quotes updates).
Proof.
  unfold submitQuotesToN3. destruct updates as [|u us]; [apply stable_throw|].
  apply stable_bind; [apply keeps_lifted|intros units].
  apply stable_bind; [unfold signFeedUpdate; keeps_all|intros [probe|]; [apply stable_throw|]].
  apply stable_bind; [apply stable_clock|intros now]. apply stable_bind; [apply keeps_lifted|intros us'].
  apply stable_bind; [|intros r; apply keeps_relayed].
  apply stable_intro. intros en s tr Htr. unfold relay. cbn [await run]. set (reply := env_reply en _ _ _).
  destruct reply; by split.
Qed.

(** A signed update is signed for what it submits.  In every run of the
    handler, whatever the providers, the signer and the chain answer, each
    [updateFeedSigned] transaction carries the signature that the call just
    before it returned for the message of the pair, price, timestamp and round
    of that same transaction, on the same network. *)
Theorem signed_update_binds : forall payload en s,
  signed_ok (run en (handleOracleFeed fe payload) s []).2.
Proof using.
  intros payload en s. assert (keeps (handleOracleFeed fe payload)) as Hk; [|by apply (stable_run _ en _ s [] Hk)].
  assert (forall run id symbols hash ctx pg, keeps (conclude fe run id symbols hash ctx pg)) as Hconclude.
  { intros fr id symbols hash ctx pg. unfold conclude. apply stable_bind.
    - unfold submit_batch. case_match; [apply stable_ret|]. repeat case_match; try apply stable_ret.
      apply stable_bind; [|intros [tx qs]; apply stable_ret]. unfold submitQuotesToN3WithFallback.
      apply stable_bind; [apply stable_attempt, keeps_batch|intros [e|body]; [|apply stable_ret]].
      case_match; [|apply stable_throw]. apply stable_bind; [apply keeps_each|intros [txs qs]; apply stable_ret].
    - intros [[tx qs] issue]. repeat (apply stable_bind; [|intros ?]).
      all: first [apply keeps_save | unfold persistFeedSnapshots; keeps_all]. }
  unfold handleOracleFeed. apply stable_bind; [apply keeps_load|intros id].
  apply stable_bind; [keeps_all|intros ctx]. apply stable_bind; [keeps_all|intros baseline].
  apply stable_bind; [unfold loadOnchainFeedRecords; keeps_all|intros onchain].
  apply stable_bind; [keeps_all|intros empty].
  destruct onchain as [e|recs]; [case_match; [apply stable_ret|]|];
    (apply stable_bind; [apply keeps_symbols|intros pg; apply Hconclude]).
Qed.
End signed.
