(* ===== verification/Policy.v ===== *)
(** * Policy decisions ([platform/policy-engine.js] of the nitro worker)

    Whether a request's own policy signals allow it. *)
From S2P Require Import Prelude Numbers Strings Values.
#[local] Open Scope list_scope.
#[local] Open Scope Z_scope.

Definition hasValue (v : val) : bool :=
  match v with
  | VUndef | VNull => false
  | VStr s => negb (trim s =? "")%string
  | _ => true
  end.

(** [fallback] is [null] when [None]. *)
Definition readBoolean (v : val) (fallback : option bool) : option bool :=
  if negb (hasValue v) then fallback
  else
    match v with
    | VBool b => Some b
    | _ =>
        let normalized := toLowerCase (trim (js_String v)) in
        if existsb (String.eqb normalized) ["1"; "true"; "yes"; "on"; "enabled"] then Some true
        else if existsb (String.eqb normalized) ["0"; "false"; "no"; "off"; "disabled"] then Some false
        else fallback
    end.

Inductive decision := AllowRequest | Review | Deny.
#[global] Instance decision_eq_dec : EqDecision decision.
Proof. solve_decision. Defined.

Definition normalizeDecision (v : val) (fallback : decision) : decision :=
  let normalized := toLowerCase (coerceTrim v) in
  if (normalized =? "deny")%string then Deny
  else if (normalized =? "review")%string then Review
  else if (normalized =? "allow")%string then AllowRequest
  else fallback.

Definition decision_text (d : decision) : string :=
  match d with AllowRequest => "allow" | Review => "review" | Deny => "deny" end.

(** The fields of a decision that the request guard reads. *)
Record policy_decision := PolicyDecision {
  pd_allow : bool;
  pd_decision : decision;
  pd_reason : string;
  pd_httpStatus : Z;
}.

(** [buildPolicyDecision] with the overrides its callers pass. *)
Definition buildPolicyDecision (d : decision) (reason : string) : policy_decision :=
  PolicyDecision (bool_decide (d = AllowRequest)) d (trim reason ||s "allowed")
    (match d with AllowRequest => 200 | Review => 409 | Deny => 403 end).

Definition either (input : val) (a b : string) : val := v_coalesce (get input a) (get input b).

Definition evaluatePolicyDecision (input : val) : policy_decision :=
  let requireAttestation :=
    bool_decide (readBoolean (either input "require_attestation" "requireAttestation") (Some false) = Some true) in
  let attestationAvailable :=
    readBoolean (either input "attestation_available" "attestationAvailable") (Some true) in
  let riskAction := toLowerCase (coerceTrim
    (v_or (v_or (v_or (get input "risk_action") (get input "paused_action")) (get input "action")) (VStr ""))) in
  let scopePaused :=
    bool_decide (readBoolean (either input "scope_paused" "scopePaused") (Some false) = Some true)
    || (riskAction =? "pause_scope")%string || (riskAction =? "deny")%string in
  let explicitAllow := readBoolean (get input "allow") None in
  let explicitDecision :=
    normalizeDecision (get input "decision")
      (if bool_decide (explicitAllow = Some false) then Deny else AllowRequest) in
  let explicitReason := coerceTrim (get input "reason") in
  if bool_decide (explicitAllow = Some false) || bool_decide (explicitDecision = Deny)
     || bool_decide (explicitDecision = Review)
  then buildPolicyDecision
         (if bool_decide (explicitDecision = AllowRequest) then Deny else explicitDecision)
         (explicitReason ||s (if bool_decide (explicitDecision = Review) then "review_required" else "policy_denied"))
  else if bool_decide (readBoolean (either input "provider_enabled" "providerEnabled") None = Some false)
  then buildPolicyDecision Deny "provider_disabled"
  else if scopePaused then buildPolicyDecision Deny "scope_paused"
  else if requireAttestation && bool_decide (attestationAvailable = Some false)
  then buildPolicyDecision Review "attestation_required"
  else if bool_decide (readBoolean (either input "require_human_approval" "requireHumanApproval") (Some false) = Some true)
  then buildPolicyDecision Review "human_approval_required"
  else buildPolicyDecision AllowRequest "allowed".
