(* ===== verification/Guards.v ===== *)
(** * Request guards and the dispatcher of the nitro worker

    [platform/upstash.js], [platform/request-guards.js], [platform/auth.js] and
    the request path of [worker.js]: authentication, policy, rate limit, the
    idempotency cache and lock, the in-flight limit, the capability and the
    cached response.  The Redis service and the capability handlers are awaited
    calls; the state is the in-flight table. *)
From S2P Require Import Prelude Numbers Strings Values Encoding Text Stringify Effects Capabilities WorkerCore Policy Upkeep.
#[local] Open Scope list_scope.
#[local] Open Scope Z_scope.

(** ** Data *)

Record response := Response {
  rs_status : Z;
  rs_content_type : string;
  rs_retry_after : string;
  rs_text : string;
}.

Definition rs_ok (r : response) : bool := (200 <=? rs_status r) && (rs_status r <=? 299).

(** [json(status, body, headers)] *)
Definition json (status : Z) (body : val) : response :=
  Response status "application/json" "" (default "" (json_stringify body)).
Definition json_retry (status : Z) (body : val) (retry_after : Z) : response :=
  Response status "application/json" (num_to_string retry_after) (default "" (json_stringify body)).

(** A request: [headers.get] with the empty string for an absent header. *)
Record request := Request {
  rq_path : string;
  rq_payload : val;
  rq_header : string -> string;
}.

(** An answer of the Upstash REST service. *)
Record upstash_reply := UpstashReply {
  up_ok : bool;
  up_status : Z;
  up_payload : val;
}.

Record plan := Plan {
  pl_workflow_id : string;
  pl_workflow_version : Z;
  pl_execution_id : string;
  pl_network : string;
}.

Inductive wcall : Type -> Type :=
| UpstashGet (key : string) : wcall upstash_reply
| UpstashPipeline (commands : list (list string)) : wcall upstash_reply
| RunCapability (id path : string) (payload : val) : wcall response
| RunHealth : wcall response
| RunInfo (inFlight : gmap string Z) : wcall response
| RunAttestation (reportData : val) : wcall response.

Abbreviation wprog := (prog overload wcall).

(** What the worker reads from its environment. *)
Record worker_env := WorkerEnv {
  we_upstash_url : string;
  we_upstash_token : string;
  we_fail_closed : string;
  we_default_ttl : string;
  we_guards_enabled : string;
  we_rate_max : string -> string;
  we_rate_window : string -> string;
  we_idempotency_ttl : string -> string;
  we_lock_ttl : string -> string;
  we_bypass_token : string;
  we_bypass_tokens : string;
  we_auth_secret : string;
  we_max_inflight : string -> string;
}.

Section guards.
Context (we : worker_env).
Context (sha256Hex : string -> string) (collate : string -> string -> comparison)
  (json_parse : string -> option val).
#[local] Open Scope prog_scope.

(** ** [upstash.js] *)

Definition upstash_enabled : bool :=
  negb (trim (we_upstash_url we) =? "")%string && negb (trim (we_upstash_token we) =? "")%string.
Definition upstash_failClosed : bool := (toLowerCase (trim (we_fail_closed we)) =? "true")%string.
Definition upstash_defaultTtlMs : Z := parseDurationMs (VStr (we_default_ttl we ||s "5m")) 300000.

Definition upstashRequest (c : wcall upstash_reply) : wprog val :=
  if negb upstash_enabled then Ret VNull
  else
    r <-- await c ;;
    if up_ok r then Ret (up_payload r)
    else Throw (js_String (v_or (v_or (get (up_payload r) "error") (get (up_payload r) "message"))
                  (VStr ("upstash request failed (" +:+ num_to_string (up_status r) +:+ ")")))).

Definition parsePipelineResult (entry : val) : val :=
  match entry with
  | VObj _ | VArr _ => v_coalesce (get entry "result") VNull
  | _ => VNull
  end.

Definition safeUpstash {A} (operation : wprog A) (fallback : A) : wprog A :=
  if negb upstash_enabled then Ret fallback
  else
    r <-- attempt operation ;;
    match r with
    | inr x => Ret x
    | inl e => if upstash_failClosed then Throw e else Ret fallback
    end.

Definition upstashPipeline (commands : list (list string)) : wprog (list val) :=
  safeUpstash (payload <-- upstashRequest (UpstashPipeline commands) ;;
               Ret (match payload with VArr l => l | _ => [] end)) [].

Definition entry (l : list val) (i : nat) : val := default VUndef (l !! i).

Definition upstashGetString (key : string) : wprog val :=
  safeUpstash (payload <-- upstashRequest (UpstashGet key) ;;
               Ret (v_coalesce (get payload "result") VNull)) VNull.

Definition set_command (key value : string) (ttlMs : Z) (nx : bool) : list string :=
  ["SET"; key; value] ++ (if nx then ["NX"] else [])
  ++ (if 0 <? ttlMs then ["PX"; num_to_string ttlMs] else []).

Definition upstashSetString (key value : string) (ttlMs : Z) (nx : bool) : wprog val :=
  safeUpstash (results <-- upstashPipeline [set_command key value ttlMs nx] ;;
               Ret (parsePipelineResult (entry results 0))) VNull.

Definition upstashDelete (key : string) : wprog unit :=
  safeUpstash (_ <-- upstashPipeline [["DEL"; key]] ;; Ret tt) tt.

Definition upstashGetJson (key : string) : wprog val :=
  value <-- upstashGetString key ;;
  if negb (truthy value) then Ret VNull
  else Ret (default VNull (json_parse (js_String value))).

Definition upstashSetJson (key : string) (value : val) (ttlMs : Z) : wprog val :=
  upstashSetString key (stableStringify collate value)
    (if 0 <? ttlMs then ttlMs else upstash_defaultTtlMs) false.

Record window_count := WindowCount {
  wc_allowed : bool;
  wc_count : jsnum;
  wc_retryAfter : Z;
}.

Definition ceil_div (a b : Z) : Z := - (- a / b).

(** [Number(x || d)] *)
Definition number_of (v : val) (d : Z) : jsnum := numeric (v_or v (VNum d)).

Definition incrementFixedWindowCounter (key : string) (max : jsnum) (windowMs : Z) : wprog window_count :=
  safeUpstash
    (entries <-- upstashPipeline [["INCR"; key]; ["PTTL"; key]] ;;
     let count := number_of (parsePipelineResult (entry entries 0)) 0 in
     let ttl := number_of (parsePipelineResult (entry entries 1)) (-1) in
     let expire := num_le count (Fin 1) || num_lt ttl (Fin 0) in
     (if expire then _ <-- upstashPipeline [["PEXPIRE"; key; num_to_string windowMs]] ;; Ret tt else Ret tt) ;;;
     let ttl := if expire then Fin windowMs else ttl in
     let allowed := num_le count max in (* a PTTL is a number *)
     Ret (WindowCount allowed count
            (if allowed then 0
             else match ttl with Fin t => Z.max (ceil_div t 1000) 1 | _ => 1 end)))
    (WindowCount true (Fin 1) 0).

Definition claimIdempotencyLock (key : string) (ttlMs : Z) : wprog bool :=
  result <-- upstashSetString key "1" ttlMs true ;;
  Ret (bool_decide (result = VStr "OK")).

(** ** [request-guards.js] *)

Fixpoint firstTruthy (values : list val) : string :=
  match values with
  | [] => ""
  | v :: values => let trimmed := coerceTrim v in if (trimmed =? "")%string then firstTruthy values else trimmed
  end.

Definition policy_signals : list string :=
  ["provider_enabled"; "providerEnabled"; "require_attestation"; "requireAttestation";
   "attestation_available"; "attestationAvailable"; "scope_paused"; "scopePaused";
   "risk_action"; "paused_action"; "require_human_approval"; "requireHumanApproval"].

Definition or_get (v : val) (ks : list string) : val :=
  foldr (fun k acc => v_or (get v k) acc) (VStr "") ks.

Definition resolveRequestPolicyDecision (payload : val) : option policy_decision :=
  let explicit := match get payload "policy_decision" with VObj kvs => VObj kvs | _ => VObj [] end in
  let hasPolicySignals :=
    negb (bool_decide (own_fields explicit = []))
    || existsb (fun k => negb (is_undefined (get payload k))) policy_signals in
  if negb hasPolicySignals then None
  else Some (evaluatePolicyDecision (VObj (spread (spread (own_fields payload) (own_fields explicit))
    [("workflow_id", v_or (get explicit "workflow_id") (or_get payload ["workflow_id"; "workflowId"]));
     ("workflowId", v_or (get explicit "workflowId") (or_get payload ["workflowId"]));
     ("provider", v_or (get explicit "provider") (or_get payload ["provider"; "provider_id"; "providerId"]));
     ("scope", v_or (get explicit "scope") (or_get payload ["scope"]));
     ("scope_id", v_or (get explicit "scope_id") (v_or (get explicit "scopeId") (or_get payload ["scope_id"; "scopeId"])))]))).

Definition extractTrustedAuthToken (rq : request) : string :=
  let bearer := trim (rq_header rq "authorization") in
  if startsWith (toLowerCase bearer) "bearer " then
    trim (String.substring 7 (String.length bearer - 7) bearer)
  else firstTruthy [VStr (rq_header rq "x-nitro-token"); VStr (rq_header rq "x-morpheus-runtime-token");
                    VStr (rq_header rq "x-api-key")].

Definition trustedRateLimitBypassTokens : list string :=
  filter (fun t => t <> "")
    (trim <$> (split "," (trim (we_bypass_token we)) ++ split "," (trim (we_bypass_tokens we)))).

Definition isTrustedServiceRequest (rq : request) : bool :=
  let token := extractTrustedAuthToken rq in
  if (token =? "")%string then false else existsb (String.eqb token) trustedRateLimitBypassTokens.

Record route_policy := RoutePolicy {
  po_max : jsnum;
  po_windowMs : Z;
  po_idempotencyTtlMs : Z;
  po_lockTtlMs : Z;
}.

(** Route, limit, window, idempotency and lock durations. *)
Definition policy_defaults : list (string * (Z * string * string * string)) :=
  [("paymaster_authorize", (20, "1m", "15m", "30s")); ("relay_transaction", (20, "1m", "15m", "30s"));
   ("txproxy_invoke", (30, "1m", "5m", "15s")); ("compute_execute", (10, "1m", "10m", "30s"));
   ("vrf_random", (15, "1m", "10m", "30s")); ("oracle_query", (30, "1m", "30s", "10s"));
   ("oracle_smart_fetch", (30, "1m", "30s", "10s")); ("oracle_feed", (20, "1m", "2m", "15s"));
   ("neodid_action_ticket", (12, "1m", "5m", "15s")); ("neodid_recovery_ticket", (6, "1m", "5m", "15s"));
   ("neodid_zklogin_ticket", (8, "1m", "5m", "15s"))].

Definition duration_or (setting current : string) (fallback : Z) : Z :=
  parseDurationMs (VStr (setting ||s current)) (parseDurationMs (VStr current) fallback).

Definition routePolicy (name : string) : option route_policy :=
  if negb (normalizeBoolean (we_guards_enabled we) false) || (name =? "")%string then None
  else
    match find (fun kv => (kv.1 =? name)%string) policy_defaults with
    | None => None
    | Some (_, (max, window, idempotencyTtl, lockTtl)) =>
        Some (RoutePolicy
          (let m := we_rate_max we name in if (m =? "")%string then Fin max else js_Number m)
          (duration_or (we_rate_window we name) window 60000)
          (duration_or (we_idempotency_ttl we name) idempotencyTtl 60000)
          (duration_or (we_lock_ttl we name) lockTtl 15000))
    end.

Definition getClientIp (rq : request) : string :=
  let forwarded := firstTruthy [VStr (rq_header rq "cf-connecting-ip"); VStr (rq_header rq "x-real-ip");
                                VStr (rq_header rq "x-client-ip")] in
  if negb (forwarded =? "")%string then forwarded
  else
    let xff := trim (rq_header rq "x-forwarded-for") in
    if negb (xff =? "")%string then trim (default "" (head (split "," xff))) else "unknown".

Record identity := Identity {
  id_accountId : string;
  id_dappId : string;
  id_operationHash : string;
}.

Definition payloadIdentity (payload : val) : identity :=
  let paymaster := object_or_empty (get payload "paymaster") in
  let metaInvocation := object_or_empty (get payload "metaInvocation") in
  let firstArg := match get metaInvocation "args" with VArr (a :: _) => a | VArr [] => VUndef | _ => VNull end in
  let first v ks v' ks' extra := toLowerCase (firstTruthy ((get v <$> ks) ++ (get v' <$> ks') ++ extra)) in
  Identity
    (first payload ["account_id"; "accountId"] paymaster ["account_id"; "accountId"] [get firstArg "value"])
    (first payload ["dapp_id"; "dappId"] paymaster ["dapp_id"; "dappId"] [])
    (first payload ["operation_hash"; "operationHash"; "request_id"; "requestId"; "idempotency_key"]
       paymaster ["operation_hash"; "operationHash"] []).

Definition query_fields : list string :=
  ["provider"; "symbol"; "url"; "method"; "json_path"; "script"; "script_base64"; "headers"; "body";
   "encrypted_params"; "encrypted_params_ref"; "encrypted_input"; "encrypted_input_ref";
   "encrypted_payload"; "encrypted_payload_ref"; "encrypted_token_ref"; "project_slug"].

Definition deriveIdempotencyKey (routeName : string) (payload : val) (rq : request) : string :=
  let explicit := firstTruthy [VStr (rq_header rq "idempotency-key"); VStr (rq_header rq "x-idempotency-key");
                               get payload "idempotency_key"; get payload "idempotencyKey"] in
  if negb (explicit =? "")%string then explicit
  else
    let workflowId := firstTruthy [get payload "workflow_id"; get payload "workflowId"] in
    let executionId := firstTruthy [get payload "execution_id"; get payload "executionId"] in
    if negb (workflowId =? "")%string && negb (executionId =? "")%string then
      join ":" ["workflow"; workflowId; executionId]
    else
      let i := payloadIdentity payload in
      if negb (id_operationHash i =? "")%string then id_operationHash i
      else if (routeName =? "oracle_query")%string || (routeName =? "oracle_smart_fetch")%string then
        sha256Hex (stableStringify collate
          (VObj (("routeName", VStr routeName) :: ((fun k => (k, get payload k)) <$> query_fields))))
      else "".

Definition buildRateLimitKey (routeName : string) (rq : request) (payload : val) : string :=
  let i := payloadIdentity payload in
  join ":" ["morpheus"; "ratelimit"; routeName; getClientIp rq ||s "unknown"; id_accountId i ||s "anon";
            id_dappId i ||s "none"].

Definition buildResponseCacheKey (routeName idempotencyKey : string) : string :=
  "morpheus:idem:response:" +:+ routeName +:+ ":" +:+ sha256Hex idempotencyKey.
Definition buildLockKey (routeName idempotencyKey : string) : string :=
  "morpheus:idem:lock:" +:+ routeName +:+ ":" +:+ sha256Hex idempotencyKey.

Record idempotency := Idempotency {
  im_responseCacheKey : string;
  im_lockKey : string;
  im_ttlMs : Z;
}.

(** [ok: false] with its response, or [ok: true] with the idempotency record. *)
Inductive guard := Refused (r : response) | Passed (i : option idempotency).

(** The response a cache entry replays: [json(cached.status, cached.body, cached.headers || {})]. *)
Definition cached_response (cached : val) : response :=
  let r := json (match numeric (get cached "status") with Fin n => n | _ => 0 end) (get cached "body") in
  match get (get cached "headers") "content-type" with
  | VStr ct => Response (rs_status r) ct "" (rs_text r)
  | _ => r
  end.

(** From the idempotency key on: replay, or claim the lock. *)
Definition apply_idempotency (routeName : string) (policy : route_policy) (idempotencyKey : string) : wprog guard :=
  let responseCacheKey := buildResponseCacheKey routeName idempotencyKey in
  cached <-- upstashGetJson responseCacheKey ;;
  if truthy (get cached "status") && negb (is_undefined (get cached "body"))
  then Ret (Refused (cached_response cached))
  else
    let lockKey := buildLockKey routeName idempotencyKey in
    claimed <-- claimIdempotencyLock lockKey (po_lockTtlMs policy) ;;
    if negb claimed then
      Ret (Refused (json_retry 409 (VObj [("error", VStr "request_in_progress"); ("route", VStr routeName)])
                      (Z.max (ceil_div (po_lockTtlMs policy) 1000) 1)))
    else Ret (Passed (Some (Idempotency responseCacheKey lockKey (po_idempotencyTtlMs policy)))).

Definition rate_limit (routeName : string) (policy : route_policy) (rq : request) : wprog (option response) :=
  if isTrustedServiceRequest rq then Ret None
  else
    rateLimit <-- incrementFixedWindowCounter (buildRateLimitKey routeName rq (rq_payload rq))
                    (po_max policy) (po_windowMs policy) ;;
    Ret (if wc_allowed rateLimit then None
         else Some (json_retry 429 (VObj [("error", VStr "rate_limit_exceeded"); ("route", VStr routeName);
                                          ("retry_after", VNum (wc_retryAfter rateLimit))])
                      (wc_retryAfter rateLimit))).

(** The [TypeError] of reading a property of a [null] payload: the action when
    the path names no capability, else the policy decision. *)
Definition null_payload (rq : request) : option string :=
  match rq_payload rq with
  | VNull => Some ("Cannot read properties of null (reading '"
      +:+ (if (resolveRouteName (rq_path rq) VNull =? "")%string then "action" else "policy_decision") +:+ "')")
  | _ => None
  end.

Definition applyRequestGuards (rq : request) : wprog guard :=
  let payload := rq_payload rq in
  let routeName := resolveRouteName (rq_path rq) payload in
  match null_payload rq with
  | Some e => Throw e
  | None =>
  match resolveRequestPolicyDecision payload with
  | Some (PolicyDecision false d reason httpStatus) =>
      Ret (Refused (json (httpStatus ||n 403)
        (VObj [("error", VStr "policy_denied"); ("route", VStr routeName); ("reason", VStr reason);
               ("decision", VStr (decision_text d))])))
  | _ =>
      match routePolicy routeName with
      | None => Ret (Passed None)
      | Some policy =>
          if negb upstash_enabled then Ret (Passed None)
          else
            limited <-- rate_limit routeName policy rq ;;
            match limited with
            | Some r => Ret (Refused r)
            | None =>
                let idempotencyKey := deriveIdempotencyKey routeName payload rq in
                if (idempotencyKey =? "")%string then Ret (Passed None)
                else apply_idempotency routeName policy idempotencyKey
            end
      end
  end
  end.

Definition isCacheableGuardStatus (status : Z) : bool :=
  ((200 <=? status) && (status <? 300)) || existsb (Z.eqb status) [403; 404; 405; 410; 413; 422].

(** Errors are swallowed: the cache is filled on a best effort. *)
Definition persistGuardResult (i : option idempotency) (r : response) : wprog unit :=
  match i with
  | None => Ret tt
  | Some i =>
      match (if (rs_text r =? "")%string then Some VNull else json_parse (rs_text r)) with
      | None => Ret tt
      | Some body =>
          if isCacheableGuardStatus (rs_status r) then
            _ <-- attempt (upstashSetJson (im_responseCacheKey i)
              (VObj [("status", VNum (rs_status r));
                     ("headers", VObj [("content-type", VStr (rs_content_type r ||s "application/json"))]);
                     ("body", body)]) (im_ttlMs i)) ;;
            Ret tt
          else Ret tt
      end
  end.

Definition releaseGuardLock (i : option idempotency) : wprog unit :=
  match i with
  | None => Ret tt
  | Some i =>
      if (im_lockKey i =? "")%string then Ret tt
      else _ <-- attempt (upstashDelete (im_lockKey i)) ;; Ret tt
  end.

(** ** [auth.js] *)

Definition requireAuth (rq : request) : option response :=
  let expected := we_auth_secret we in
  let auth := trim (rq_header rq "authorization" ||s rq_header rq "x-nitro-token") in
  if (expected =? "")%string then
    Some (json 503 (VObj [("error", VStr "worker auth secret is not configured")]))
  else if (auth =? "Bearer " +:+ expected)%string || (auth =? expected)%string then None
  else Some (json 401 (VObj [("error", VStr "unauthorized")])).

(** ** [worker.js] *)

Definition normalizeRequestNetwork (value : val) : string :=
  let normalized := toLowerCase (coerceTrim value) in
  if (normalized =? "mainnet")%string || (normalized =? "testnet")%string then normalized else "".

Definition inferRequestNetwork (rq : request) : string :=
  normalizeRequestNetwork (VStr (default "" (head (filter (fun p => p <> "") (split "/" (rq_path rq))))))
  ||s normalizeRequestNetwork (VStr (rq_header rq "x-morpheus-network")).

Definition injectRequestNetwork (rq : request) : val :=
  let payload := rq_payload rq in
  match payload with
  | VObj kvs =>
      if negb (coerceTrim (or_get payload ["network"; "morpheus_network"; "runtime_network"; "environment"]) =? "")%string
      then payload
      else
        let network := inferRequestNetwork rq in
        if (network =? "")%string then payload else VObj (spread kvs [("network", VStr network)])
  | _ => payload
  end.

(** The workflow of a capability; every version is 1. *)
Definition capability_workflow (id : string) : option string :=
  snd <$> find (fun kv => (kv.1 =? id)%string)
    [("neodid_bind", "neodid.bind"); ("neodid_action_ticket", "neodid.action_ticket");
     ("neodid_recovery_ticket", "neodid.recovery_ticket"); ("oracle_query", "oracle.query");
     ("oracle_smart_fetch", "oracle.smart_fetch"); ("oracle_feed", "feed.sync");
     ("paymaster_authorize", "paymaster.authorize"); ("compute_execute", "compute.execute")].

(** [resolveExecutionPlan] with [normalizeExecutionPlan]: the fields that the
    result envelope reads. *)
Definition resolveExecutionPlan (id : string) (payload : val) : option plan :=
  let workflow := match capability_workflow id with Some w => VStr w | None => VUndef end in
  let workflowId := coerceTrim (v_or (v_or (get payload "workflow_id") (get payload "workflowId"))
                                     (v_or workflow (VStr ""))) in
  let executionId := coerceTrim (or_get payload ["execution_id"; "executionId"]) in
  if (workflowId =? "")%string || (executionId =? "")%string then None
  else
    let version := v_or (v_or (get payload "workflow_version") (get payload "workflowVersion"))
                        (match capability_workflow id with Some _ => VNum 1 | None => VUndef end) in
    Some (Plan workflowId (normalizeWorkflowVersion version) executionId
            (normalizeMorpheusNetwork (get payload "network") "testnet")).

Definition RESULT_ENVELOPE_VERSION : string := "2026-04-tee-v1".

Definition buildResultEnvelope (p : plan) (ok : bool) (error : string) (output : val) : val :=
  VObj [("version", VStr RESULT_ENVELOPE_VERSION); ("workflow_id", VStr (pl_workflow_id p));
        ("workflow_version", VNum (pl_workflow_version p ||n 1)); ("execution_id", VStr (pl_execution_id p));
        ("network", VStr (pl_network p)); ("status", VStr (if ok then "succeeded" else "failed"));
        ("ok", VBool ok); ("output", output);
        ("error", if (trim error =? "")%string then VNull else VStr (trim error))].

Definition parseBodyMaybe (raw contentType : string) : val :=
  let looksJson := includes contentType "application/json"
    || match trim raw with String a _ => Ascii.eqb a "[" || Ascii.eqb a "{" | "" => false end in
  if (raw =? "")%string || negb looksJson then VNull else default VNull (json_parse raw).

Definition parseResponseOutput (r : response) : val :=
  if (rs_text r =? "")%string then VNull
  else v_coalesce (parseBodyMaybe (rs_text r) (rs_content_type r)) (VObj [("raw", VStr (rs_text r))]).

Definition wrapWorkflowResponse (r : response) (p : option plan) : response :=
  match p with
  | None => r
  | Some p =>
      let output := parseResponseOutput r in
      let error := match rs_ok r, output with
                   | false, VObj _ | false, VArr _ => coerceTrim (v_or (get output "error") (VStr ""))
                   | _, _ => ""
                   end in
      json (rs_status r) (buildResultEnvelope p (rs_ok r) error output)
  end.

(** The outer [catch]. *)
Definition error_response (p : option plan) (error : string) : response :=
  let message := sanitizeErrorMessage error in
  let body := VObj [("error", VStr message)] in
  match p with
  | Some p => json 400 (buildResultEnvelope p false message body)
  | None => json 400 body
  end.

(** The inner [try]: run the capability, wrap and cache its response. *)
Definition dispatch (rq : request) (i : option idempotency) (p : option plan) : wprog response :=
  r <-- match resolveCapability (rq_path rq) (rq_payload rq) with
        | Some (c, _) =>
            r <-- await (RunCapability (cap_id c) (rq_path rq) (rq_payload rq)) ;;
            Ret (wrapWorkflowResponse r p)
        | None => Ret (json 404 (VObj [("error", VStr "not found"); ("path", VStr (rq_path rq))]))
        end ;;
  persistGuardResult i r ;;;
  Ret r.

Definition overloaded_response (routeName : string) (limit inFlight : Z) : response :=
  json_retry 503 (VObj [("error", VStr "overloaded"); ("route", VStr routeName); ("limit", VNum limit);
                        ("in_flight", VNum inFlight)]) 1.

(** Admission, the capability, and the [finally] block. *)
Definition guarded (rq : request) (i : option idempotency) : wprog response :=
  slot <-- local (fun _ _ o => acquireOverloadSlot (we_max_inflight we) (rq_path rq) (rq_payload rq) o) ;;
  match slot with
  | Overloaded routeName limit inFlight => Ret (overloaded_response routeName limit inFlight)
  | _ =>
      let p := match resolveCapability (rq_path rq) (rq_payload rq) with
               | Some (c, _) => resolveExecutionPlan (cap_id c) (rq_payload rq)
               | None => None
               end in
      outcome <-- attempt (dispatch rq i p) ;;
      (match slot with Admitted_slot _ _ _ n => modify (release n) | _ => Ret tt end) ;;;
      releaseGuardLock i ;;;
      Ret (match outcome with inr r => r | inl e => error_response p e end)
  end.

(** [handler], with the request as parsed. *)
Definition handler (rq0 : request) : wprog response :=
  let rq := Request (rq_path rq0) (injectRequestNetwork rq0) (rq_header rq0) in
  let payload := rq_payload rq in
  outcome <-- attempt (
    if endsWith (rq_path rq) "/health" then await RunHealth
    else if endsWith (rq_path rq) "/info" then
      inFlight <-- reads ov_inFlight ;; await (RunInfo inFlight)
    else if endsWith (rq_path rq) "/attestation" then
      match payload with
      | VNull => Throw "Cannot read properties of null (reading 'report_data')"
      | _ => await (RunAttestation
               (v_or (or_get payload ["report_data"; "reportData"; "output_hash"; "message"])
                     (VStr "morpheus-attestation")))
      end
    else
      match requireAuth rq with
      | Some r => Ret r
      | None =>
          g <-- applyRequestGuards rq ;;
          match g with
          | Refused r => Ret r
          | Passed i => guarded rq i
          end
      end) ;;
  Ret (match outcome with inr r => r | inl e => error_response None e end).
End guards.
