(* ===== verification/GuardsSpec.v ===== *)
(** * The fate of a request ([worker.js], [platform/request-guards.js])

    What the dispatcher does with an authenticated request whose route is
    guarded and whose idempotency key is not empty, as the calls it makes and
    the reply it gives; authentication comes before every call; the in-flight
    table is left as it was found. *)
From S2P Require Import Prelude Numbers Strings Values Encoding Text Stringify Effects Capabilities WorkerCore Policy Upkeep Guards.
From Stdlib Require Import QArith.
#[local] Open Scope list_scope.
#[local] Open Scope Z_scope.

Abbreviation wobs := (obs overload wcall).
Abbreviation wenv := (Effects.env overload wcall).

(** A reply of the pipeline whose first entry is the [OK] of a [SET NX]. *)
Definition granted (rep : string + upstash_reply) : bool :=
  match rep with
  | inr r => up_ok r && match up_payload r with
                        | VArr (e :: _) => bool_decide (parsePipelineResult e = VStr "OK") | _ => false end
  | inl _ => false
  end.

(** The calls of the rate limiter. *)
Definition limiter_call (o : wobs) : bool :=
  match o with
  | OCall (UpstashPipeline (("INCR" :: _) :: _)) _ | OCall (UpstashPipeline (("PEXPIRE" :: _) :: _)) _ => true
  | _ => false
  end%string.

Definition is_capability (X : Type) (c : wcall X) : bool :=
  match c with RunCapability _ _ _ => true | _ => false end.

Section fates.
Context (we : worker_env).
Context (sha256Hex : string -> string) (collate : string -> string -> comparison)
  (json_parse : string -> option val).

(** ** Each operation of the store makes one call *)

Section enabled.
#[local] Set Default Proof Using "Type*".
Context (Hon : upstash_enabled we = true).

Definition failed {A} (e : string) (fallback : A) : string + A :=
  if upstash_failClosed we then inl e else inr fallback.

(** What [upstashRequest] makes of a reply. *)
Definition read_reply (rep : string + upstash_reply) : string + val :=
  match rep with
  | inl e => inl e
  | inr r =>
      if up_ok r then inr (up_payload r)
      else inl (js_String (v_or (v_or (get (up_payload r) "error") (get (up_payload r) "message"))
                  (VStr ("upstash request failed (" +:+ num_to_string (up_status r) +:+ ")"))))
  end.

Lemma run_request en c (s : overload) tr :
  run en (upstashRequest we c) s tr =
  (read_reply (env_reply en _ tr c), s, OCall c (env_reply en _ tr c) :: tr).
Proof.
  unfold upstashRequest. rewrite Hon. cbn [negb await bind run].
  destruct (env_reply en _ tr c) as [e|r]; cbn [bind run read_reply]; [done|]. by destruct (up_ok r).
Qed.

Lemma run_safe {A} en (p : wprog A) fb s tr :
  run en (safeUpstash we p fb) s tr =
  let '(o, s', tr') := run en p s tr in
  (match o with inr x => inr x | inl e => failed e fb end, s', tr').
Proof.
  unfold safeUpstash, failed. rewrite Hon. cbn [negb].
  rewrite run_bind, run_attempt. destruct (run en p s tr) as [[[e|x] s'] tr']; [|done].
  by destruct (upstash_failClosed we).
Qed.

Definition pipeline_outcome (rep : string + upstash_reply) : string + list val :=
  match read_reply rep with
  | inr (VArr l) => inr l
  | inr _ => inr []
  | inl e => failed e []
  end.

Lemma run_pipeline en cmds (s : overload) tr :
  let rep := env_reply en _ tr (UpstashPipeline cmds) in
  run en (upstashPipeline we cmds) s tr = (pipeline_outcome rep, s, OCall (UpstashPipeline cmds) rep :: tr).
Proof.
  cbv zeta. unfold upstashPipeline, pipeline_outcome. rewrite run_safe, run_bind, run_request.
  destruct (read_reply _) as [e|v]; [done|]. cbn. by destruct v.
Qed.

Definition set_outcome (rep : string + upstash_reply) : string + val :=
  match pipeline_outcome rep with
  | inr l => inr (parsePipelineResult (entry l 0))
  | inl e => inl e
  end.

Lemma run_setString en key value ttl nx (s : overload) tr :
  let c := UpstashPipeline [set_command key value ttl nx] in
  let rep := env_reply en _ tr c in
  run en (upstashSetString we key value ttl nx) s tr = (set_outcome rep, s, OCall c rep :: tr).
Proof.
  cbv zeta. unfold upstashSetString, set_outcome. rewrite run_safe, run_bind, run_pipeline.
  unfold pipeline_outcome, failed. destruct (read_reply _) as [e|v].
  - by destruct (upstash_failClosed we).
  - by destruct v.
Qed.

Lemma claim_granted rep : set_outcome rep = inr (VStr "OK") <-> granted rep = true.
Proof.
  unfold set_outcome, pipeline_outcome, granted, failed. destruct rep as [e|r]; cbn [read_reply].
  - destruct (upstash_failClosed we); split; discriminate.
  - destruct (up_ok r); cbn [andb]; [|destruct (upstash_failClosed we); split; discriminate].
    destruct (up_payload r) as [| | | | | | |[|x l]|]; try (split; discriminate). cbn. rewrite bool_decide_eq_true.
    split; [by intros [=]|by intros ->].
Qed.

Lemma run_claim en key ttl (s : overload) tr :
  let c := UpstashPipeline [set_command key "1" ttl true] in
  let rep := env_reply en _ tr c in
  exists o, run en (claimIdempotencyLock we key ttl) s tr = (o, s, OCall c rep :: tr) /\
    match o with
    | inr b => b = granted rep
    | inl _ => upstash_failClosed we = true /\ granted rep = false
    end.
Proof.
  cbv zeta. unfold claimIdempotencyLock. rewrite run_bind, run_setString.
  set (rep := env_reply _ _ _ _). destruct (set_outcome rep) as [e|v] eqn:Ho.
  - eexists; split; [done|]. pose proof (claim_granted rep) as Hg. rewrite Ho in Hg.
    destruct (granted rep) eqn:Hr; [discriminate (proj2 Hg eq_refl)|]. split; [|done].
    revert Ho. unfold set_outcome, pipeline_outcome, failed. destruct (read_reply rep) as [e'|[]]; [|done..].
    by destruct (upstash_failClosed we).
  - eexists; split; [done|]. apply eq_true_iff_eq. rewrite bool_decide_eq_true, <-claim_granted, Ho.
    split; [by intros ->|by intros [=]].
Qed.

(** The entry of the response cache that a reply carries. *)
Definition cache_entry (rep : string + upstash_reply) : string + val :=
  match (match read_reply rep with
         | inr payload => inr (v_coalesce (get payload "result") VNull)
         | inl e => failed e VNull
         end) with
  | inl e => inl e
  | inr value => inr (if truthy value then default VNull (json_parse (js_String value)) else VNull)
  end.

Lemma run_getJson en key (s : overload) tr :
  let rep := env_reply en _ tr (UpstashGet key) in
  run en (upstashGetJson we json_parse key) s tr = (cache_entry rep, s, OCall (UpstashGet key) rep :: tr).
Proof.
  cbv zeta. unfold upstashGetJson, upstashGetString, cache_entry. rewrite run_bind.
  rewrite run_safe, run_bind, run_request.
  destruct (read_reply _) as [e|v]; cbn.
  - unfold failed. by destruct (upstash_failClosed we).
  - by destruct (truthy _).
Qed.

Lemma run_release en i (s : overload) tr :
  im_lockKey i <> "" ->
  let c := UpstashPipeline [["DEL"; im_lockKey i]] in
  run en (releaseGuardLock we (Some i)) s tr = (inr tt, s, OCall c (env_reply en _ tr c) :: tr).
Proof.
  intros Hne. cbv zeta. unfold releaseGuardLock. apply String.eqb_neq in Hne as ->.
  rewrite run_bind, run_attempt. unfold upstashDelete. rewrite run_safe, run_bind, run_pipeline.
  by destruct (pipeline_outcome _).
Qed.

(** The cache write of a served request: at most one [SET], of a reply that may
    be replayed. *)
Definition cache_write (i : idempotency) (r : response) (t : list wobs) : Prop :=
  t = [] \/ isCacheableGuardStatus (rs_status r) = true /\
    exists value ttl rep, t = [OCall (UpstashPipeline [set_command (im_responseCacheKey i) value ttl false]) rep].

Lemma run_persist en i r (s : overload) tr :
  exists t, cache_write i r t /\
    run en (persistGuardResult we collate json_parse (Some i) r) s tr = (inr tt, s, t ++ tr).
Proof.
  unfold persistGuardResult. destruct (if (rs_text r =? "")%string then _ else _) as [body|];
    [|exists []; split; [by left|done]].
  destruct (isCacheableGuardStatus (rs_status r)) eqn:Hc; [|exists []; split; [by left|done]].
  rewrite run_bind, run_attempt. unfold upstashSetJson. rewrite run_setString.
  eexists [_]. split; [right; split; by eauto|done].
Qed.

Lemma run_limit en name po rq (s : overload) tr :
  exists o t, run en (rate_limit we name po rq) s tr = (o, s, t ++ tr) /\ Forall limiter_call t /\
    match o with
    | inr None => True
    | inr (Some r) => isTrustedServiceRequest we rq = false /\ rs_status r = 429
    | inl _ => upstash_failClosed we = true
    end.
Proof.
  unfold rate_limit. destruct (isTrustedServiceRequest we rq); [by exists (inr None), []|].
  rewrite run_bind. unfold incrementFixedWindowCounter. set (key := buildRateLimitKey _ _ _).
  set (fb := WindowCount true (Fin 1) 0).
  set (p := bind _ _).
  assert (exists o t, run en p s tr = (o, s, t ++ tr) /\ Forall limiter_call t) as (o & t & Hp & Ht).
  { subst p. rewrite run_bind, run_pipeline. set (rep := env_reply _ _ _ _).
    destruct (pipeline_outcome rep) as [e|l]; [by eexists _, [_]; repeat constructor|].
    cbv zeta. set (ex := num_le _ _ || _). destruct ex.
    - rewrite !run_bind, run_pipeline. set (rep' := env_reply _ _ _ _).
      destruct (pipeline_outcome rep') as [e|l']; eexists _, [_; _]; repeat constructor.
    - by eexists _, [_]; repeat constructor. }
  rewrite run_safe, Hp. destruct o as [e|w].
  - unfold failed. destruct (upstash_failClosed we) eqn:Hf; [by exists (inl e), t|].
    by exists (inr None), t.
  - cbn. destruct (wc_allowed w); by eexists _, t.
Qed.
End enabled.

(** ** The in-flight table *)

Lemma slot_restored path payload o r l n slot :
  (forall r n, ov_inFlight o !! r = Some n -> 0 < n) ->
  (acquireOverloadSlot (we_max_inflight we) path payload o).1 = Admitted_slot r l n slot ->
  ov_inFlight (release slot (acquireOverloadSlot (we_max_inflight we) path payload o).2) = ov_inFlight o.
Proof.
  intros Hpos. unfold acquireOverloadSlot. set (r' := resolveRouteName _ _).
  case_match; [done|]. case_match; [done|]. cbn [fst snd]. intros [= -> _ _ <-].
  unfold release. simpl ov_slots. rewrite lookup_app_r, Nat.sub_diag by done. simpl lookup.
  unfold setInFlight, currentInFlight. simpl.
  destruct (ov_inFlight o !! r) as [m|] eqn:Hm; simpl.
  - specialize (Hpos _ _ Hm). replace (m + 1 <=? 0) with false by lia. rewrite lookup_insert_eq. simpl.
    replace (m + 1 - 1 <=? 0) with false by lia. rewrite insert_insert_eq.
    apply insert_id. rewrite Hm. f_equal. lia.
  - rewrite lookup_insert_eq. simpl. rewrite delete_insert_eq. by apply delete_id.
Qed.

(** ** Fates *)

Section request.
Context (rq : request) (name : string) (po : route_policy) (key : string).

Definition cache_key : string := buildResponseCacheKey sha256Hex name key.
Definition lock_key : string := buildLockKey sha256Hex name key.
Definition ask_lock : wcall upstash_reply :=
  UpstashPipeline [set_command lock_key "1" (po_lockTtlMs po) true].
Definition drop_lock : wcall upstash_reply := UpstashPipeline [["DEL"; lock_key]].

(** [fate t r]: the request makes the calls [t] (newest first) and answers [r]. *)
Inductive fate : list wobs -> response -> Prop :=
| fate_denied d reason status r :
    resolveRequestPolicyDecision (rq_payload rq) = Some (PolicyDecision false d reason status) ->
    rs_status r = status ||n 403 -> fate [] r
| fate_null r : rq_payload rq = VNull -> rs_status r = 400 -> fate [] r
| fate_limited t r :
    Forall limiter_call t -> isTrustedServiceRequest we rq = false -> rs_status r = 429 -> fate t r
| fate_outage t pre r :
    upstash_failClosed we = true -> Forall limiter_call t ->
    (pre = [] \/ (exists rep, pre = [OCall (UpstashGet cache_key) rep]) \/
     exists rep rep', granted rep' = false /\ pre = [OCall ask_lock rep'; OCall (UpstashGet cache_key) rep]) ->
    rs_status r = 400 -> fate (pre ++ t) r
| fate_replayed t rep cached :
    Forall limiter_call t -> cache_entry rep = inr cached ->
    truthy (get cached "status") = true -> is_undefined (get cached "body") = false ->
    fate (OCall (UpstashGet cache_key) rep :: t) (cached_response cached)
| fate_in_progress t rep rep' r :
    Forall limiter_call t -> granted rep' = false -> rs_status r = 409 ->
    fate (OCall ask_lock rep' :: OCall (UpstashGet cache_key) rep :: t) r
| fate_overloaded t rep rep' r :
    Forall limiter_call t -> granted rep' = true -> rs_status r = 503 ->
    fate (OCall ask_lock rep' :: OCall (UpstashGet cache_key) rep :: t) r
| fate_executed t rep rep' c m reply w rep'' r :
    Forall limiter_call t -> granted rep' = true ->
    resolveCapability (rq_path rq) (rq_payload rq) = Some (c, m) ->
    let p := resolveExecutionPlan (cap_id c) (rq_payload rq) in
    match reply with
    | inr served => r = wrapWorkflowResponse json_parse served p /\
        cache_write (Idempotency cache_key lock_key (po_idempotencyTtlMs po)) r w
    | inl e => r = error_response p e /\ w = []
    end ->
    fate (OCall drop_lock rep'' :: w
          ++ OCall (RunCapability (cap_id c) (rq_path rq) (rq_payload rq)) reply
          :: OCall ask_lock rep' :: OCall (UpstashGet cache_key) rep :: t) r.

(** ** The guards and the guarded dispatch *)

Section steps.
Context (Hon : upstash_enabled we = true) (Hname : name = resolveRouteName (rq_path rq) (rq_payload rq))
  (Hpol : routePolicy we name = Some po)
  (Hkey : key = deriveIdempotencyKey sha256Hex collate name (rq_payload rq) rq) (Hne : key <> "").
#[local] Set Default Proof Using "All".

Lemma run_idempotency en (s : overload) tr t0 :
  Forall limiter_call t0 ->
  exists o t, run en (apply_idempotency we sha256Hex json_parse name po key) s tr = (o, s, t ++ tr) /\
    match o with
    | inl e => forall r, rs_status r = 400 -> fate (t ++ t0) r
    | inr (Refused r) => fate (t ++ t0) r
    | inr (Passed i) =>
        i = Some (Idempotency cache_key lock_key (po_idempotencyTtlMs po)) /\
        exists rep rep', t = [OCall ask_lock rep'; OCall (UpstashGet cache_key) rep] /\ granted rep' = true
    end.
Proof.
  intros Ht. unfold apply_idempotency. rewrite run_bind, (run_getJson Hon).
  fold cache_key lock_key. set (rep := env_reply _ _ _ _).
  destruct (cache_entry rep) as [e|cached] eqn:Hc.
  { eexists (inl e), [_]. split; [done|]. intros r Hr. apply (fate_outage t0 [_]); eauto.
    revert Hc. unfold cache_entry, failed. destruct (read_reply rep); [|done]. by destruct (upstash_failClosed we). }
  destruct (truthy (get cached "status") && negb (is_undefined (get cached "body"))) eqn:Hhit.
  { apply andb_true_iff in Hhit as [Hs Hb%negb_true_iff].
    eexists (inr (Refused _)), [_]. split; [done|]. by eapply fate_replayed. }
  rewrite run_bind. destruct (run_claim Hon en lock_key (po_lockTtlMs po) s
    (OCall (UpstashGet cache_key) rep :: tr)) as (o & -> & Ho).
  set (rep' := env_reply en _ (OCall _ rep :: tr) _) in *. destruct o as [e|b].
  { destruct Ho. eexists (inl e), [_; _]. split; [done|]. intros r Hr. apply (fate_outage t0 [_; _]); eauto 8. }
  subst b. destruct (granted rep') eqn:Hg; cbn [negb].
  - eexists (inr (Passed _)), [_; _]. split; [done|]. split; [done|]. by eexists _, _.
  - eexists (inr (Refused _)), [_; _]. split; [done|]. by apply fate_in_progress.
Qed.

(** What the guards leave: a refusal, an error, or the lock. *)
Lemma run_guards en (s : overload) tr :
  exists o t, run en (applyRequestGuards we sha256Hex collate json_parse rq) s tr = (o, s, t ++ tr) /\
    match o with
    | inl e => forall r, rs_status r = 400 -> fate t r
    | inr (Refused r) => fate t r
    | inr (Passed i) =>
        i = Some (Idempotency cache_key lock_key (po_idempotencyTtlMs po)) /\
        exists t0 rep rep', t = OCall ask_lock rep' :: OCall (UpstashGet cache_key) rep :: t0 /\
          Forall limiter_call t0 /\ granted rep' = true
    end.
Proof.
  unfold applyRequestGuards. rewrite <-Hname, Hpol, Hon, <-Hkey. cbn [negb].
  destruct (null_payload rq) as [e|] eqn:Hnull.
  { exists (inl e), []. split; [done|]. intros r Hr. apply fate_null; [|done].
    revert Hnull. unfold null_payload. by destruct (rq_payload rq). }
  destruct (resolveRequestPolicyDecision (rq_payload rq)) as [[[] d reason status]|] eqn:Hd.
  2: { eexists (inr (Refused _)), []. split; [done|]. by eapply fate_denied. }
  all: rewrite run_bind; destruct (run_limit Hon en name po rq s tr) as (o & t & -> & Ht & Ho);
    destruct o as [e|[r|]];
    [exists (inl e), t; split; [done|]; intros r Hr; apply (fate_outage t []); auto
    |exists (inr (Refused r)), t; split; [done|]; destruct Ho; by apply fate_limited|].
  all: pose proof Hne as ->%String.eqb_neq;
    destruct (run_idempotency en s (t ++ tr) t Ht) as (o & t' & -> & Ho');
    exists o, (t' ++ t); (split; [by rewrite app_assoc|]);
    destruct o as [e|[r|i]]; [exact Ho'|exact Ho'|];
    destruct Ho' as (-> & rep & rep' & -> & Hg); split; [done|]; by eexists t, _, _.
Qed.

Lemma capability_resolved :
  exists c m, resolveCapability (rq_path rq) (rq_payload rq) = Some (c, m).
Proof.
  revert Hpol. rewrite Hname. unfold routePolicy, resolveRouteName.
  destruct (resolveCapability _ _) as [[c m]|]; [by eauto|]. by rewrite orb_true_r.
Qed.

Lemma run_dispatch en (s : overload) tr c m i :
  resolveCapability (rq_path rq) (rq_payload rq) = Some (c, m) ->
  let p := resolveExecutionPlan (cap_id c) (rq_payload rq) in
  exists o reply w,
    run en (dispatch we collate json_parse rq (Some i) p) s tr =
      (o, s, w ++ OCall (RunCapability (cap_id c) (rq_path rq) (rq_payload rq)) reply :: tr) /\
    match reply with
    | inr served => let r := wrapWorkflowResponse json_parse served p in o = inr r /\ cache_write i r w
    | inl e => o = inl e /\ w = []
    end.
Proof.
  intros Hc p. unfold dispatch. rewrite Hc. cbn [await bind run]. rewrite run_bind. cbn [run].
  set (reply := env_reply _ _ _ _). destruct reply as [e|served] eqn:Hreply; cbn [bind run].
  - by eexists _, (inl e), [].
  - rewrite run_bind. destruct (run_persist Hon en i (wrapWorkflowResponse json_parse served p) s
      (OCall (RunCapability (cap_id c) (rq_path rq) (rq_payload rq)) (inr served) :: tr)) as (w & Hw & ->).
    by eexists _, (inr served), w.
Qed.

(** The inner [try] with its [finally], whatever the release of the slot does
    to the table. *)
Lemma run_finally en (s1 s2 : overload) tr t0 rep rep' c m (rel : wprog unit) :
  resolveCapability (rq_path rq) (rq_payload rq) = Some (c, m) ->
  (forall tr', run en rel s1 tr' = (inr tt, s2, tr')) ->
  Forall limiter_call t0 -> granted rep' = true ->
  let p := resolveExecutionPlan (cap_id c) (rq_payload rq) in
  let i := Some (Idempotency cache_key lock_key (po_idempotencyTtlMs po)) in
  exists r t,
    run en (outcome <-- attempt (dispatch we collate json_parse rq i p) ;;
            rel ;;; releaseGuardLock we i ;;;
            Ret (match outcome with inr r => r | inl e => error_response p e end))%prog s1 tr
    = (inr r, s2, t ++ tr) /\
    fate (t ++ OCall ask_lock rep' :: OCall (UpstashGet cache_key) rep :: t0) r.
Proof.
  intros Hc Hrel Ht Hg p i.
  destruct (run_dispatch en s1 tr c m (Idempotency cache_key lock_key (po_idempotencyTtlMs po)) Hc)
    as (o & reply & w & Hrun & Ho).
  rewrite run_bind, run_attempt. subst i p. rewrite Hrun, run_bind, Hrel, run_bind, (run_release Hon) by done.
  cbn [run]. set (rep'' := env_reply _ _ _ _).
  eexists _, (OCall drop_lock rep'' :: w ++ [OCall (RunCapability _ _ _) reply]).
  split; [by rewrite <-app_comm_cons, <-app_assoc|].
  rewrite <-app_comm_cons, <-app_assoc. eapply fate_executed; [done..|].
  destruct reply as [e|served]; [by destruct Ho as [-> ->]|by destruct Ho as [-> Hw]].
Qed.

Lemma run_guarded en (s : overload) tr t0 rep rep' :
  (forall r n, ov_inFlight s !! r = Some n -> 0 < n) ->
  Forall limiter_call t0 -> granted rep' = true ->
  exists r s' t,
    run en (guarded we collate json_parse rq
      (Some (Idempotency cache_key lock_key (po_idempotencyTtlMs po)))) s tr = (inr r, s', t ++ tr) /\
    ov_inFlight s' = ov_inFlight s /\
    fate (t ++ OCall ask_lock rep' :: OCall (UpstashGet cache_key) rep :: t0) r.
Proof.
  intros Hpos Ht Hg. destruct capability_resolved as (c & m & Hc).
  pose proof (slot_restored (rq_path rq) (rq_payload rq) s) as Hrest.
  unfold guarded. rewrite run_bind. cbn [local run]. rewrite Hc.
  destruct (acquireOverloadSlot (we_max_inflight we) (rq_path rq) (rq_payload rq) s) as [slot s1] eqn:Ha.
  assert (match slot with Admitted_slot _ _ _ _ => True | _ => s1 = s end) as Hs1.
  { revert Ha. unfold acquireOverloadSlot. case_match; [by intros [= <- <-]|].
    case_match; [by intros [= <- <-]|by intros [= <- _]]. }
  destruct slot as [r l n|r l n|r l n slot]; cbn [run].
  - subst s1. eexists _, s, []. split; [done|]. split; [done|]. by apply fate_overloaded.
  - subst s1. destruct (run_finally en s s tr t0 rep rep' c m (Ret tt) Hc) as (r' & t & Hrun & Hf); [done..|].
    exists r', s, t. by rewrite Hrun.
  - destruct (run_finally en s1 (release slot s1) tr t0 rep rep' c m (modify (release slot)) Hc)
      as (r' & t & Hrun & Hf); [done..|].
    exists r', (release slot s1), t. rewrite Hrun. split; [done|]. split; [|done]. by eapply Hrest.
Qed.

End steps.
End request.

(** ** The dispatcher *)

(** The paths the dispatcher answers before it authenticates. *)
Definition open_path (path : string) : bool :=
  endsWith path "/health" || endsWith path "/info" || endsWith path "/attestation".

(** The request with the network of its path or header in its payload. *)
Definition with_network (rq : request) : request :=
  Request (rq_path rq) (injectRequestNetwork rq) (rq_header rq).

Definition presented (rq : request) : string :=
  trim (rq_header rq "authorization" ||s rq_header rq "x-nitro-token").

(** Authentication comes first.  On every other path than the three open
    ones, a request passes only when the secret is configured and it presents
    exactly that secret (bare or as a bearer token); any other request is
    answered 401 or 503 without one call to the store or to a capability and
    without touching the in-flight table. *)
Theorem authentication_first : forall rq en (s : overload) tr,
  open_path (rq_path rq) = false ->
  (requireAuth we rq = None <->
     we_auth_secret we <> "" /\
     (presented rq = we_auth_secret we \/ presented rq = "Bearer " +:+ we_auth_secret we)) /\
  (requireAuth we rq <> None ->
     exists r, run en (handler we sha256Hex collate json_parse rq) s tr = (inr r, s, tr) /\
       rs_status r = if (we_auth_secret we =? "")%string then 503 else 401).
Proof.
  intros rq en s tr Hopen. unfold open_path in Hopen.
  apply orb_false_iff in Hopen as [[Hh Hi]%orb_false_iff Ha]. split.
  - unfold requireAuth. fold (presented rq). destruct (String.eqb_spec (we_auth_secret we) ""); [naive_solver|].
    destruct (String.eqb_spec (presented rq) ("Bearer " +:+ we_auth_secret we)),
      (String.eqb_spec (presented rq) (we_auth_secret we)); naive_solver.
  - intros Hr. unfold handler. cbn [rq_path rq_payload]. rewrite Hh, Hi, Ha.
    change (requireAuth we (Request _ _ _)) with (requireAuth we rq).
    revert Hr. unfold requireAuth. destruct (we_auth_secret we =? "")%string; [by eexists|].
    case_match; [done|by eexists].
Qed.

(** C18.  The fate of a guarded request.  An authenticated request on a guarded
    route with an idempotency key always gets a reply and leaves the in-flight
    table as it found it, whatever the store and the capability answer, and it
    has exactly one of these fates: denied by its policy or rate limited without
    touching the lock; replayed from the cache; refused because the lock is
    held; refused by the in-flight limit; failed with a store that must be up;
    or its capability ran once, after the store granted the lock of its key and
    before that lock was deleted, the cache being written only with that
    capability's reply and only when it may be replayed. *)
Theorem request_fate : forall rq0 po en s tr,
  let rq := with_network rq0 in
  let name := resolveRouteName (rq_path rq) (rq_payload rq) in
  let key := deriveIdempotencyKey sha256Hex collate name (rq_payload rq) rq in
  open_path (rq_path rq) = false -> requireAuth we rq = None -> upstash_enabled we = true ->
  routePolicy we name = Some po -> key <> "" ->
  (forall r n, ov_inFlight s !! r = Some n -> 0 < n) ->
  exists r s' t,
    run en (handler we sha256Hex collate json_parse rq0) s tr = (inr r, s', t ++ tr) /\
    ov_inFlight s' = ov_inFlight s /\ fate rq name po key t r.
Proof.
  intros rq0 po en s tr rq name key Hopen Hauth Hon Hpol Hne Hpos.
  unfold open_path in Hopen. apply orb_false_iff in Hopen as [[Hh Hi]%orb_false_iff Ha].
  unfold handler. fold rq. change (Request _ _ _) with rq. rewrite Hh, Hi, Ha, Hauth, run_bind, run_attempt, run_bind.
  destruct (run_guards rq name po key Hon eq_refl Hpol eq_refl Hne en s tr) as (o & t & -> & Ho).
  destruct o as [e|[r|i]].
  - eexists _, s, t. split; [done|]. split; [done|]. by apply Ho.
  - by eexists r, s, t.
  - destruct Ho as (-> & t0 & rep & rep' & -> & Ht & Hg).
    destruct (run_guarded rq name po key Hon eq_refl Hpol eq_refl Hne en s
      (OCall (ask_lock name po key) rep' :: OCall (UpstashGet (cache_key name key)) rep :: t0 ++ tr)
      t0 rep rep' Hpos Ht Hg) as (r & s' & t & Hrun & Hs & Hf).
    cbn [app]. rewrite Hrun. eexists r, s', (t ++ _ :: _ :: t0). split; [by rewrite <-app_assoc|done].
Qed.
End fates.

(** ** Witnesses and consequences *)

Definition sample_worker_env : worker_env :=
  WorkerEnv "https://redis" "token" "" "" "true" (fun _ => "") (fun _ => "") (fun _ => "") (fun _ => "")
    "" "" "secret" (fun _ => "").

Definition sample_request (auth : string) : request :=
  Request "/testnet/oracle/query" (VObj [("symbol", VStr "NEO-USD")])
    (fun h => if (h =? "authorization")%string then auth
              else if (h =? "idempotency-key")%string then "k1" else "").

(** A store that answers [v] to a [SET] and 1 to every other command, has an
    empty cache, and a capability that answers 200. *)
Definition sample_store (ok : bool) (v : val) : wenv :=
  Env (fun _ => 0) (fun _ => 0%Q)
    (fun X _ c => match c in wcall Y return string + Y with
                  | UpstashGet _ => inr (UpstashReply ok 503 (VObj [("result", VNull)]))
                  | UpstashPipeline cs => inr (UpstashReply ok 503 
                      (VArr ((fun cmd => VObj [("result", match cmd with "SET" :: _ => v | _ => VNum 1 end%string)]) <$> cs)))
                  | RunCapability _ _ _ => inr (Response 200 "application/json" "" "{}")
                  | _ => inl "not asked"
                  end).

Definition run_sample en (auth : string) (s : overload) :=
  run en (handler sample_worker_env (fun x => x) (fun _ _ => Eq) (fun _ => None) (sample_request auth)) s [].

Lemma authentication_first_witness :
  (run_sample (sample_store true (VStr "OK")) "Bearer secre" no_load).2 = [] /\
  exists r, run_sample (sample_store true (VStr "OK")) "Bearer secre" no_load = (inr r, no_load, []) /\
    rs_status r = 401.
Proof.
  split; [vm_compute; reflexivity|].
  apply (authentication_first sample_worker_env (fun x => x) (fun _ _ => Eq) (fun _ => None)
    (sample_request "Bearer secre") (sample_store true (VStr "OK")) no_load []); vm_compute; [reflexivity|discriminate].
Defined.

Lemma request_fate_witness :
  count_obs is_capability (run_sample (sample_store true (VStr "OK")) "Bearer secret" no_load).2 = 1%nat /\
  exists r s' t,
    run_sample (sample_store true (VStr "OK")) "Bearer secret" no_load = (inr r, s', t ++ []) /\
    ov_inFlight s' = ∅ /\
    fate sample_worker_env (fun x => x) (fun _ => None) (with_network (sample_request "Bearer secret")) "oracle_query"
      (RoutePolicy (Fin 30) 60000 30000 10000) "k1" t r.
Proof.
  split; [vm_compute; reflexivity|].
  apply (request_fate sample_worker_env (fun x => x) (fun _ _ => Eq) (fun _ => None) (sample_request "Bearer secret")
    (RoutePolicy (Fin 30) 60000 30000 10000) (sample_store true (VStr "OK")) no_load []);
    try (vm_compute; reflexivity); [vm_compute; discriminate|].
  intros r n. simpl. by rewrite lookup_empty.
Defined.

(** A request refused by the in-flight limit keeps the idempotency lock it was
    just granted: the release is in the [finally] of a [try] it never enters. *)
Lemma overload_leaks_lock :
  exists r s' lock_rep get_rep t0,
    run_sample (sample_store true (VStr "OK")) "Bearer secret" (Overload {["oracle_query" := 100]} [])
    = (inr r, s',
       OCall (UpstashPipeline [["SET"; "morpheus:idem:lock:oracle_query:k1"; "1"; "NX"; "PX"; "10000"]]) lock_rep
       :: get_rep :: t0) /\
    rs_status r = 503 /\ granted lock_rep = true /\ Forall limiter_call t0.
Proof.
  eexists _, _, (inr (UpstashReply true 503 (VArr [VObj [("result", VStr "OK")]]))), _, [_; _].
  split; [vm_compute; reflexivity|]. split; [reflexivity|]. split; [reflexivity|]. by repeat constructor.
Qed.

(** With the fail-closed switch off, a store that is down lets every request
    past the rate limiter and refuses every request with an idempotency key. *)
Lemma outage_refuses_idempotent :
  upstash_failClosed sample_worker_env = false /\
  exists r s' t, run_sample (sample_store false VNull) "Bearer secret" no_load = (inr r, s', t) /\
    rs_status r = 409 /\ count_obs is_capability t = 0%nat.
Proof. split; [reflexivity|]. vm_compute. by eexists _, _, _. Qed.
