(* ===== verification/Samples.v ===== *)
(** * Sample configuration and environments

    The concrete values at which theorems are instantiated: a configuration, an
    environment with a fixed clock whose replies are given by a function, and a
    store that implements the PostgREST filters. *)
From S2P Require Import Prelude Numbers Strings Values Encoding Envelope Attestation Externals State StateFacts StateSpec Config Effects Persistence World.
From Stdlib Require Import QArith.
#[local] Open Scope list_scope.
#[local] Open Scope Z_scope.

Definition sample_durable : durable_config := DurableConfig true true false 200 120000.

Definition sample_config : config :=
  Config "testnet" "requests_only" "relayer-1" [neo_n3] 4 50 sample_retry_config no_limits (Fin 2)
    sample_durable (BackpressureConfig 1 10 5000) (fun _ => Some (Fin 10)) (fun _ => Some (Fin 100))
    (fun _ => 1) 0
    (NitroConfig false "https://signer" "https://enclave" "" false "" sample_attestation_env "")
    "0x1122334455667788990011223344556677889900" (Fin 894710606) 47763 "" "".

(** [{ ...config, nitro: { ...config.nitro, enclaveFulfill } }] *)
Definition with_enclave (b : bool) (cfg : config) : config :=
  Config (cfg_network cfg) (cfg_mode cfg) (cfg_instanceId cfg) (cfg_activeChains cfg)
    (cfg_concurrency cfg) (cfg_maxBlocksPerTick cfg) (cfg_retry cfg) (cfg_limits cfg)
    (cfg_maxCallbackRetries cfg) (cfg_durable cfg) (cfg_backpressure cfg) (cfg_startRequestIds cfg)
    (cfg_startBlocks cfg) (cfg_confirmations cfg) (cfg_discoveryIdleBackoffMs cfg)
    (NitroConfig b (nitro_signerUrl (cfg_nitro cfg)) (nitro_enclaveFulfillUrl (cfg_nitro cfg))
       (nitro_decryptUrl (cfg_nitro cfg)) (nitro_verifyEnclaveSignature (cfg_nitro cfg))
       (nitro_env_verify_signature (cfg_nitro cfg)) (nitro_attestation (cfg_nitro cfg))
       (nitro_pinned_verifier (cfg_nitro cfg)))
    (cfg_oracleContract cfg) (cfg_networkMagic cfg) (cfg_neox_chainId cfg)
    (cfg_neox_oracleContract cfg) (cfg_neox_messageContract cfg).

(** The replies of a sample environment. *)
Record replies := Replies {
  rp_store : string + http_reply;
  rp_worker : string + worker_response;
  rp_submit : string + val;
  rp_tip : Z;
  rp_events : list event;
}.

Definition reply_of (r : replies) {X} (c : rel_call X) : string + X :=
  match c in rel_call X return string + X with
  | Supabase _ => rp_store r
  | CallNitro _ _ _ _ => rp_worker r
  | EvmSign _ => inr "c3d4"
  | SubmitFulfillment _ _ _ => rp_submit r
  | AutomationControl _ _ => inl "automation unavailable"
  | AutomationGuard _ => inr (AutomationGuardResult false VNull "" "" "")
  | RandomBytes n => inr (repeat 7 (Z.to_nat n))
  | LatestBlock _ => inr (rp_tip r)
  | LatestRequestId _ => inr (rp_tip r)
  | ScanBlocks _ _ _ => inr (rp_events r)
  | ScanRequestIds _ _ _ => inr (rp_events r)
  end.

Definition sample_env (now : Z) (r : replies) : env world rel_call :=
  Env (fun _ => now) (fun _ => 0%Q) (fun X _ c => reply_of r c).

Definition ok_replies (rows : list job_row) : replies :=
  Replies (inr (HttpReply 200 "" rows)) (inr (WorkerResponse true 200 (VObj [("result", VNum 42)])))
    (inr (VStr "0xfeed")) 120 [].

Definition sample_world : world := World createEmptyRelayerState initial_backoff.

(** A world in an outage until instant 5000. *)
Definition sample_outage : world := World createEmptyRelayerState (Backoff 5000 "connectivity").

Definition sample_row (id status : string) : job_row :=
  JobRow "" id status 1 "" 0 1000 (Some 900) (Some (sample_event id "0xab")) false VNull false None.

(** Stand-ins for the cryptographic primitives, a local signer included. *)
Definition sample_externals : externals := {|
  x_sha256 bs := bs;
  x_cert := unit;
  x_cert_of_der _ := None;
  x_cert_of_pem _ := None;
  x_issued_by _ _ := false;
  x_es384_verify _ _ _ := false;
  x_buffer_from _ := inl "TypeError";
  x_json_parse _ := None;
  x_sha256Hex _ := "00";
  x_keccak256 bs := bs;
  x_abi_encode _ := inr [];
  x_getAddress a := inr a;
  x_local_sign _ := Some "a1b2";
  x_neon_verify _ _ _ := true;
|}.

(** ** A store that filters like PostgREST *)

Definition pg_matches (p : or_part) (row : job_row) : bool :=
  match p with
  | StatusIn l => bool_decide (jr_status row ∈ l)
  | StatusStale st before => bool_decide (jr_status row = st) && (jr_updated_at row <? before)
  end.

Definition pg_patched (f : job_patch) (row : job_row) : job_row :=
  JobRow (jr_event_key row) (jr_request_id row) (pt_status f)
    (default (jr_attempts row) (pt_attempts f)) (pt_last_error f)
    (default 0 (pt_next_retry_at f)) (pt_updated_at f) (jr_created_at row) (jr_event row)
    (jr_finalize_only row) (jr_terminal_error row) (jr_durable_claimed row)
    (jr_prepared_fulfillment row).
