(* ===== verification/Queue.v ===== *)
(** * The durable queue ([queue.js])

    Back-pressure deferral, manual operator actions, the cross-instance claim,
    and the hydration of the local retry queue from the durable job table. *)
From S2P Require Import Prelude Numbers Strings Values Encoding Envelope State StateFacts Config Effects Persistence World Cursor.
From Stdlib Require Import QArith.
#[local] Open Scope list_scope.
#[local] Open Scope Z_scope.

(** ** Pure decisions *)

Definition retrying_statuses : list string :=
  ["retry_scheduled"; "failure_callback_retry_scheduled"; "callback_retry_scheduled"].

Definition stale_statuses : list string := ["processing"; "retrying"; "callback_pending"].

Definition str_mem (s : string) (l : list string) : bool := existsb (String.eqb s) l.

(** [isDurableQueueReadyJob] *)
Definition isDurableQueueReadyJob (job : job_row) (nowMs staleProcessingMs : Z) : bool :=
  let status := jr_status job in
  if str_mem status ["queued"; "queued_backpressure"] then true
  else if str_mem status retrying_statuses then
    (jr_next_retry_at job =? 0) || (jr_next_retry_at job <=? nowMs)
  else if str_mem status stale_statuses then
    (0 <? jr_updated_at job) && (staleProcessingMs <=? nowMs - jr_updated_at job)
  else false.

Record retry_meta := RetryMeta {
  rm_finalize_only : bool;
  rm_terminal_error : string;
  rm_durable_claimed : bool;
  rm_prepared_fulfillment : option prepared;
}.

(** [extractDurableRetryMeta]: a terminal error that is not a string, or blank,
    is dropped. *)
Definition extractDurableRetryMeta (job : job_row) : retry_meta :=
  RetryMeta (jr_finalize_only job) (trimString (jr_terminal_error job))
    (jr_durable_claimed job) (jr_prepared_fulfillment job).

Definition transient_markers : list string :=
  ["exceed_db_size_quota"; "database size quota"; "quota exceeded"; "402 payment required";
   "failed: 402"; "pgrst002"; "schema cache"; "503"; "502"; "504"; "timed out"; "timeout";
   "econnreset"; "econnrefused"; "eauthquery"; "connection to database not available";
   "network"; "unavailable"].

Definition open_statuses : list string :=
  ["queued"; "queued_backpressure"; "retry_scheduled"; "failure_callback_retry_scheduled";
   "callback_retry_scheduled"; "callback_pending"; "processing"; "retrying"].

Section queue.
Context (pe : penv) (cfg : config).
#[local] Open Scope prog_scope.

(** [isTransientDurableQueueError]: also arms the backoff window. *)
Definition isTransientDurableQueueError (message : string) : rprog bool :=
  marked <-- markUnavailable pe message ;;
  if (marked : bool) then Ret true
  else Ret (existsb (includes (toLowerCase message)) transient_markers).

(** [ensureDurableQueueAvailable] *)
Definition ensureDurableQueueAvailable (context : string) : rprog bool :=
  if negb (dq_enabled (cfg_durable cfg)) then Ret false
  else if hasSupabasePersistence pe then Ret true
  else if dq_failClosed (cfg_durable cfg) then
    Throw ("durable queue enabled but Supabase persistence unavailable during " +:+ context)
  else Ret false.

(** [maybeUpsertJob]: never throws. *)
Definition maybeUpsertJob (e : event) (details : Z -> job_details) : rprog unit :=
  skip <-- skipPersistence ;;
  if (skip : bool) then Ret tt
  else
    attempt
      (now <-- clock ;;
       upsertRelayerJob pe (buildRelayerJobRecord pe now e (details now))) ;;;
    Ret tt.

(** [upsertJobOrThrow] *)
Definition upsertJobOrThrow (e : event) (details : Z -> job_details) : rprog unit :=
  skip <-- skipPersistence ;;
  if (skip : bool) then Throw "supabase persistence unavailable during quota backoff"
  else
    now <-- clock ;;
    upsertRelayerJob pe (buildRelayerJobRecord pe now e (details now)) ;;;
    Ret tt.

(** ** Back-pressure *)

Fixpoint defer_events (c : chain) (nextRetryAt : Z) (events : list event) : rprog unit :=
  match events with
  | [] => Ret tt
  | e :: events =>
      op (fun now _ => enqueueRetryItem now c e
        (RetryOptions 0 nextRetryAt None "backpressure_deferred" "" false "" None false
           (cfg_limits cfg))) ;;;
      maybeUpsertJob e (fun _ =>
        JobDetails (buildEventKey e) "queued_backpressure" 0 "" "backpressure_deferred"
          (Some nextRetryAt) None VUndef VUndef None) ;;;
      defer_events c nextRetryAt events
  end.

(** [Math.max(Number(config.backpressure?.maxFreshEventsPerTick || events.length), 1)] *)
Definition fresh_cap (events : list event) : nat :=
  Z.to_nat (Z.max (bp_maxFreshEventsPerTick (cfg_backpressure cfg) ||n Z.of_nat (length events)) 1).

Definition deferEventsForBackpressure (c : chain) (events : list event)
    : rprog (list event * list event) :=
  let maxFreshEventsPerTick := fresh_cap events in
  if (length events <=? maxFreshEventsPerTick)%nat then Ret (events, [])
  else
    let processable := take maxFreshEventsPerTick events in
    let deferred := drop maxFreshEventsPerTick events in
    now <-- clock ;;
    let nextRetryAt := now + Z.max (bp_deferDelayMs (cfg_backpressure cfg) ||n 5000) 250 in
    defer_events c nextRetryAt deferred ;;;
    incr "backpressure_deferred_total" (Z.of_nat (length deferred)) ;;;
    persistState ;;;
    Ret (processable, deferred).

(** ** Manual actions *)

Definition usable_event (job : job_row) : option event :=
  match jr_event job with
  | Some e => if decide (ev_requestId e = "") then None else Some e
  | None => None
  end.

Definition job_key (job : job_row) (e : event) : string := jr_event_key job ||s buildEventKey e.

(** The synchronous part of one manual action. *)
Definition apply_manual_action (c : chain) (job : job_row) (e : event) (now : Z)
    (s : relayer_state) : relayer_state :=
  let eventKey := job_key job e in
  let s1 := if (jr_status job =? "manual_replay_requested")%string
            then removeProcessedEvent c eventKey s else s in
  let s2 := removeDeadLetter c eventKey s1 in
  let s3 := clearRetryItem c eventKey s2 in
  let s4 := (enqueueRetryItem now c e
    (RetryOptions 0 now None "" (jr_status job) false "" None false (Limits 0 0 0)) s3).2 in
  incrementMetric "manual_actions_loaded_total" 1 s4.

Fixpoint apply_manual_actions (c : chain) (jobs : list job_row) (applied : list (string * string))
    : rprog (list (string * string)) :=
  match jobs with
  | [] => Ret applied
  | job :: jobs =>
      match usable_event job with
      | None =>
          patchRelayerJob pe (jr_event_key job) (fun now =>
            JobPatch "manual_action_failed" None "missing or invalid event payload for manual action"
              None None VUndef now) ;;;
          apply_manual_actions c jobs applied
      | Some e =>
          update_at (apply_manual_action c job e) ;;;
          patchRelayerJob pe (job_key job e) (fun now =>
            JobPatch "queued" (Some 0) "" (Some now) None VUndef now) ;;;
          apply_manual_actions c jobs (applied ++ [(job_key job e, jr_status job)])
      end
  end.

Definition syncManualActions (c : chain) : rprog (list (string * string)) :=
  skip <-- skipPersistence ;;
  if (skip : bool) then Ret []
  else
    fetched <-- attempt (fetchRelayerJobsByStatuses pe
      ["manual_retry_requested"; "manual_replay_requested"] (Some c) 50) ;;
    match fetched with
    | inl error => markUnavailable pe error ;;; Ret []
    | inr [] => Ret []
    | inr jobs =>
        applied <-- apply_manual_actions c jobs [] ;;
        match applied with
        | [] => Ret []
        | _ => save ;;; Ret applied
        end
    end.

(** ** Fresh events *)

(** The events are inserted one after the other; the pool of [Concurrency] is
    what bounds and orders the concurrent inserts. *)
Fixpoint insert_events (nextRetryAt : Z) (events : list event) : rprog unit :=
  match events with
  | [] => Ret tt
  | e :: events =>
      now <-- clock ;;
      insertRelayerJobIfAbsent pe (buildRelayerJobRecord pe now e
        (JobDetails (buildEventKey e) "queued" 0 "" "" (Some nextRetryAt) None VUndef VUndef None)) ;;;
      insert_events nextRetryAt events
  end.

Definition persistFreshEventsToDurableQueue (c : chain) (events : list event) : rprog unit :=
  match events with
  | [] => Ret tt
  | _ =>
      skip <-- skipPersistence ;;
      if (skip : bool) then Ret tt
      else
        available <-- ensureDurableQueueAvailable (chain_name c +:+ ":fresh-event-persist") ;;
        if negb available then Ret tt
        else
          now <-- clock ;;
          outcome <-- attempt (insert_events now events) ;;
          match outcome with
          | inr _ => Ret tt
          | inl error =>
              transient <-- isTransientDurableQueueError error ;;
              if (transient : bool) then Ret tt else Throw error
          end
  end.

(** ** The cross-instance claim *)

Inductive claim_reason := BackoffSkip | Unavailable | Conflict.
Inductive claim_outcome := ClaimGranted | ClaimDenied (r : claim_reason).

Definition claim_fields (retryItem : option retry_item) (now : Z) : job_patch :=
  JobPatch (match retryItem with Some _ => "retrying" | None => "processing" end)
    (Some (from_option ri_attempts 0 retryItem)) "" None None
    (VObj [("durable_claimed", VBool true);
           ("claimed_by", VStr (cfg_instanceId cfg));
           ("claimed_at", VNum now);
           ("finalize_only", VBool (from_option ri_finalize_only false retryItem));
           ("terminal_error",
             let t := from_option ri_terminal_error "" retryItem in
             if decide (t = "") then VNull else VStr t)]) now.

Definition claim_ready_statuses (retryItem : option retry_item) : list string :=
  match retryItem with
  | Some _ => ["retry_scheduled"; "failure_callback_retry_scheduled"; "callback_retry_scheduled";
               "callback_pending"; "queued"; "queued_backpressure"]
  | None => ["queued"; "queued_backpressure"]
  end.

Definition claimDurableJobForProcessing (e : event) (retryItem : option retry_item)
    : rprog claim_outcome :=
  if negb (dq_enabled (cfg_durable cfg)) then Ret ClaimGranted
  else if from_option ri_durable_claimed false retryItem then Ret ClaimGranted
  else
    skip <-- skipPersistence ;;
    if (skip : bool) then
      incr "durable_claim_skipped_during_backoff_total" 1 ;;;
      if dq_allowLocalClaimDuringBackoff (cfg_durable cfg) then Ret ClaimGranted
      else Ret (ClaimDenied BackoffSkip)
    else
      available <-- ensureDurableQueueAvailable (chain_name (ev_chain e) +:+ ":durable-claim") ;;
      if negb available then Ret (ClaimDenied Unavailable)
      else
        now <-- clock ;;
        let staleBefore := now - Z.max (dq_staleProcessingMs (cfg_durable cfg) ||n 120000) 1000 in
        claim <-- attempt (claimRelayerJob pe (buildEventKey e) (claim_fields retryItem)
          (claim_ready_statuses retryItem) stale_statuses staleBefore) ;;
        match claim with
        | inl error =>
            transient <-- isTransientDurableQueueError error ;;
            if (transient : bool) then Ret ClaimGranted (* { local_fallback: true } *)
            else Throw error
        | inr (Some _) => Ret ClaimGranted
        | inr None => Ret (ClaimDenied Conflict)
        end.

(** ** Hydration *)

Definition hydration_floor (c : chain) : option Z := getRequestCursorFloor cfg c.

Definition below_floor (minRequestId : option Z) (job : job_row) : bool :=
  match minRequestId with
  | None => false
  | Some m =>
      let n := if decide (jr_request_id job = "") then Fin 0 else js_Number (jr_request_id job) in
      isFinite n && num_lt n (Fin m)
  end.

(** One iteration of the hydration loop. *)
Definition hydrate_job (c : chain) (minRequestId : option Z) (nowMs now : Z) (job : job_row)
    (acc : list string * relayer_state) : list string * relayer_state :=
  let '(hydrated, s) := acc in
  if below_floor minRequestId job then acc
  else if negb (isDurableQueueReadyJob job nowMs (dq_staleProcessingMs (cfg_durable cfg) ||n 120000))
  then acc
  else
    match usable_event job with
    | None => acc
    | Some e =>
        let eventKey := job_key job e in
        if hasProcessedEvent s c eventKey || isEventQueuedForRetry s c eventKey then acc
        else
          let retryMeta := extractDurableRetryMeta job in
          let s1 := if str_mem (jr_status job) ["processing"; "retrying"]
                    then incrementMetric "stale_reclaims_total" 1 s else s in
          let s2 := (enqueueRetryItem now c e
            (RetryOptions (jr_attempts job) (jr_next_retry_at job ||n nowMs)
               (Some (default nowMs (jr_created_at job))) (jr_last_error job) ""
               (rm_finalize_only retryMeta) (rm_terminal_error retryMeta)
               (rm_prepared_fulfillment retryMeta) true (Limits 0 0 0)) s1).2 in
          (hydrated ++ [eventKey], s2)
    end.

Definition hydrate_jobs (c : chain) (nowMs : Z) (jobs : list job_row) (s : relayer_state)
    : list string * relayer_state :=
  foldl (fun acc job => hydrate_job c (hydration_floor c) nowMs nowMs job acc) ([], s) jobs.

Definition hydrateDurableQueue (c : chain) : rprog (list string) :=
  if (cfg_mode cfg =? "feed_only")%string then Ret []
  else
    skip <-- skipPersistence ;;
    if (skip : bool) then Ret []
    else
      available <-- ensureDurableQueueAvailable (chain_name c +:+ ":durable-queue-hydration") ;;
      if negb available then Ret []
      else
        fetched <-- attempt (fetchRelayerJobsByStatuses pe open_statuses (Some c)
          (Z.max (dq_syncLimit (cfg_durable cfg) ||n 200) 1)) ;;
        match fetched with
        | inl error =>
            markUnavailable pe error ;;;
            transient <-- isTransientDurableQueueError error ;;
            if (transient : bool) then Ret [] else Throw error
        | inr [] => Ret []
        | inr jobs =>
            hydrated <-- op (fun now _ => hydrate_jobs c now jobs) ;;
            match hydrated with
            | [] => Ret []
            | _ => persistState ;;; Ret hydrated
            end
        end.

Definition quarantineDurableBacklogBelowRequestFloor (c : chain) : rprog Z :=
  match getRequestCursorFloor cfg c with
  | None => Ret 0
  | Some minRequestId =>
      skip <-- skipPersistence ;;
      if (skip : bool) then Ret 0
      else
        available <-- ensureDurableQueueAvailable (chain_name c +:+ ":durable-floor-quarantine") ;;
        if negb available then Ret 0
        else
          patched <-- attempt (quarantineRelayerJobsBelowRequestId pe c minRequestId open_statuses
            ("auto-quarantined below request cursor floor " +:+ num_to_string minRequestId)) ;;
          match patched with
          | inr n => Ret n
          | inl error =>
              markUnavailable pe error ;;;
              transient <-- isTransientDurableQueueError error ;;
              if (transient : bool) then Ret 0 else Throw error
          end
  end.
End queue.
