(* ===== verification/QueueSpec.v ===== *)
(** * Specification of the durable queue

    Safety of every queue program under interleaving, the claim protocol, and
    the properties of hydration and back-pressure. *)
From S2P Require Import Prelude Numbers Strings Values Encoding Envelope State StateFacts StateSpec Config Effects Persistence World Cursor Samples Queue.
From Stdlib Require Import Sorted QArith.
#[local] Open Scope list_scope.
#[local] Open Scope Z_scope.

(** ** Every segment keeps the state well formed *)

Section safety.
Context {I : relayer_state -> Prop} `{HI : !StateInvariant I}.
Context (pe : penv) (cfg : config).
#[local] Set Default Proof Using "Type*".

Lemma safe_transient m : safe (world_inv I) (isTransientDurableQueueError pe m).
Proof. unfold isTransientDurableQueueError. safe_tac. Qed.

Lemma safe_ensure ctx : safe (world_inv I) (ensureDurableQueueAvailable pe cfg ctx).
Proof. unfold ensureDurableQueueAvailable. safe_tac. Qed.

Lemma safe_maybeUpsert e d : safe (world_inv I) (maybeUpsertJob pe e d).
Proof. unfold maybeUpsertJob, upsertRelayerJob. safe_tac. Qed.

Lemma safe_upsertOrThrow e d : safe (world_inv I) (upsertJobOrThrow pe e d).
Proof. unfold upsertJobOrThrow, upsertRelayerJob. safe_tac. Qed.
#[local] Hint Resolve safe_transient safe_ensure safe_maybeUpsert : relayer_state.

Lemma safe_enqueue c e (o : Z -> retry_options) :
  safe (world_inv I) (op (fun now _ => enqueueRetryItem now c e (o now))).
Proof. apply safe_op. intros. by apply inv_enqueue. Qed.

Lemma safe_defer c t es : safe (world_inv I) (defer_events pe cfg c t es).
Proof.
  induction es as [|e es IH]; [done|]. cbn [defer_events].
  apply safe_bind; [|safe_tac]. apply safe_op. intros. by apply inv_enqueue.
Qed.
#[local] Hint Resolve safe_defer : relayer_state.

Lemma safe_deferEvents c es : safe (world_inv I) (deferEventsForBackpressure pe cfg c es).
Proof. unfold deferEventsForBackpressure. safe_tac. Qed.

Lemma apply_manual_wf c job e now s : I s -> I (apply_manual_action c job e now s).
Proof.
  intros H. unfold apply_manual_action. apply inv_metrics, inv_enqueue, inv_clear, inv_removeDead.
  case_match; [by apply inv_removeProcessed|done].
Qed.

Lemma safe_manual_actions c jobs ap : safe (world_inv I) (apply_manual_actions pe c jobs ap).
Proof.
  revert ap. induction jobs as [|job jobs IH]; intros ap; [done|].
  cbn [apply_manual_actions]. unfold patchRelayerJob.
  destruct (usable_event job); apply safe_bind; try safe_tac.
  apply safe_update_at. intros. by apply apply_manual_wf.
Qed.
#[local] Hint Resolve safe_manual_actions : relayer_state.

Lemma safe_syncManual c : safe (world_inv I) (syncManualActions pe c).
Proof. unfold syncManualActions. safe_tac. Qed.

Lemma safe_insert_events t es : safe (world_inv I) (insert_events pe t es).
Proof. induction es; [done|]. cbn [insert_events]. unfold insertRelayerJobIfAbsent. safe_tac. Qed.
#[local] Hint Resolve safe_insert_events : relayer_state.

Lemma safe_persistFresh c es : safe (world_inv I) (persistFreshEventsToDurableQueue pe cfg c es).
Proof. unfold persistFreshEventsToDurableQueue. safe_tac. Qed.

Lemma safe_claimJob e it : safe (world_inv I) (claimDurableJobForProcessing pe cfg e it).
Proof. unfold claimDurableJobForProcessing. safe_tac. Qed.

Lemma hydrate_job_wf c fl now now' job acc :
  I acc.2 -> I (hydrate_job cfg c fl now now' job acc).2.
Proof.
  intros H. destruct acc as [hydrated s]. unfold hydrate_job.
  case_match; [done|]. case_match; [done|]. case_match; [|done]. case_match; [done|]. cbn [snd].
  apply inv_enqueue. case_match; [by apply inv_metrics|done].
Qed.

Lemma hydrate_jobs_wf c now jobs s : I s -> I (hydrate_jobs cfg c now jobs s).2.
Proof.
  intros H. unfold hydrate_jobs. generalize (hydration_floor cfg c). intros fl.
  assert (forall acc, I acc.2 ->
    I (foldl (fun acc job => hydrate_job cfg c fl now now job acc) acc jobs).2) as Hf.
  { induction jobs as [|job jobs IH]; intros acc Hacc; [done|]. simpl. by apply IH, hydrate_job_wf. }
  by apply Hf.
Qed.

Lemma safe_hydrate c : safe (world_inv I) (hydrateDurableQueue pe cfg c).
Proof.
  unfold hydrateDurableQueue. safe_tac. apply safe_op. intros. by apply hydrate_jobs_wf.
Qed.

Lemma safe_floorQuarantine c : safe (world_inv I) (quarantineDurableBacklogBelowRequestFloor pe cfg c).
Proof.
  unfold quarantineDurableBacklogBelowRequestFloor.
  destruct (getRequestCursorFloor cfg c); [|done]. safe_tac.
Qed.
End safety.

#[export] Hint Resolve safe_transient safe_ensure safe_maybeUpsert safe_upsertOrThrow safe_enqueue
  safe_defer safe_deferEvents safe_syncManual safe_persistFresh safe_claimJob safe_hydrate
  safe_floorQuarantine : relayer_state.

(** ** Programs that never throw and leave the relayer state alone *)

(** [quiet p]: [p] returns, and does not touch the relayer state. *)
Definition quiet {A} (p : rprog A) : Prop :=
  forall en w tr, exists a b tr', run en p w tr = (inr a, World (w_state w) b, tr').

(** [stateless p]: [p] may throw, but does not touch the relayer state. *)
Definition stateless {A} (p : rprog A) : Prop :=
  forall en w tr, exists o b tr', run en p w tr = (o, World (w_state w) b, tr').

Lemma stateless_attempt {A} (p : rprog A) : stateless p -> quiet (attempt p).
Proof.
  intros H en w tr. destruct (H en w tr) as (o & b & tr' & Hr).
  rewrite run_attempt, Hr. eauto.
Qed.

Lemma stateless_bind {A B} (p : rprog A) (k : A -> rprog B) :
  stateless p -> (forall a, stateless (k a)) -> stateless (bind p k).
Proof.
  intros Hp Hk en w tr. destruct (Hp en w tr) as ([m|a] & b & tr' & Hr); rewrite run_bind, Hr; [eauto|].
  destruct (Hk a en (World (w_state w) b) tr') as (o & b' & tr'' & Hr'). rewrite Hr'. simpl. eauto.
Qed.

Lemma quiet_stateless {A} (p : rprog A) : quiet p -> stateless p.
Proof. intros H en w tr. destruct (H en w tr) as (a & b & tr' & ->). eauto. Qed.

Lemma quiet_bind {A B} (p : rprog A) (k : A -> rprog B) :
  quiet p -> (forall a, quiet (k a)) -> quiet (bind p k).
Proof.
  intros Hp Hk en w tr. destruct (Hp en w tr) as (a & b & tr' & Hr). rewrite run_bind, Hr.
  destruct (Hk a en (World (w_state w) b) tr') as (o & b' & tr'' & ->). simpl. eauto.
Qed.

Lemma quiet_ret {A} (a : A) : quiet (Ret a).
Proof. intros en [s b] tr. simpl. eauto. Qed.

Lemma stateless_throw {A} m : stateless (Throw m : rprog A).
Proof. intros en [s b] tr. simpl. eauto. Qed.

Lemma quiet_skip : quiet skipPersistence.
Proof. intros en [s b] tr. simpl. eauto. Qed.

Lemma quiet_clock : quiet clock.
Proof. intros en [s b] tr. simpl. eauto. Qed.

Lemma quiet_mark pe m : quiet (markUnavailable pe m).
Proof.
  intros en [s b] tr. simpl. destruct (markSupabasePersistenceUnavailable pe m (env_now en tr) b).
  simpl. eauto.
Qed.

Lemma stateless_await {X} (c : rel_call X) : stateless (await c).
Proof. intros en [s b] tr. simpl. destruct (env_reply en X tr c); simpl; eauto. Qed.

Lemma stateless_supabase pe t r : stateless (supabaseRequest pe t r).
Proof.
  unfold supabaseRequest. case_match; [apply quiet_stateless, quiet_ret|].
  apply stateless_bind; [apply stateless_await|]. intros a.
  case_match; [apply quiet_stateless, quiet_ret|].
  apply stateless_bind; [apply quiet_stateless, quiet_mark|]. intros _. apply stateless_throw.
Qed.

Lemma quiet_maybeUpsert pe e d : quiet (maybeUpsertJob pe e d).
Proof.
  unfold maybeUpsertJob. apply quiet_bind; [apply quiet_skip|]. intros [|]; [apply quiet_ret|].
  apply quiet_bind; [|intros _; apply quiet_ret]. apply stateless_attempt.
  apply stateless_bind; [apply quiet_stateless, quiet_clock|]. intros now. apply stateless_supabase.
Qed.

(** ** The claim protocol *)

Section claim.
Context (pe : penv) (cfg : config).

Definition skipping (en : env world rel_call) (w : world) (tr : list (obs world rel_call)) : bool :=
  shouldSkipSupabasePersistence (env_now en tr) (w_backoff w).

(** During an outage the claim fails closed: when the durable queue is on,
    the item does not already carry a claim, and the backoff window is open,
    no request leaves the process, the state changes by one counter only, and
    the claim is denied as [backoff_skip] unless the operator opted in to local
    claims. *)
Theorem claim_fails_closed : forall e it en w tr,
  dq_enabled (cfg_durable cfg) = true ->
  from_option ri_durable_claimed false it = false ->
  skipping en w tr = true ->
  run en (claimDurableJobForProcessing pe cfg e it) w tr =
    (inr (if dq_allowLocalClaimDuringBackoff (cfg_durable cfg)
          then ClaimGranted else ClaimDenied BackoffSkip),
     on_state (incrementMetric "durable_claim_skipped_during_backoff_total" 1) w, tr).
Proof.
  intros e it en w tr Hon Hit Hskip. unfold claimDurableJobForProcessing. rewrite Hon, Hit.
  cbn [negb]. rewrite run_bind. cbn [run skipPersistence local].
  unfold skipping in Hskip. rewrite Hskip, run_bind. cbn.
  by destruct (dq_allowLocalClaimDuringBackoff _).
Qed.

(** The reply of the store to the claim request. *)
Definition claim_request (e : event) (it : option retry_item) (now staleBefore : Z) : sb_request :=
  SbClaimJob (buildEventKey e) (resolveSupabaseNetwork pe)
    (StatusIn (claim_ready_statuses it)
      :: ((fun st => StatusStale st staleBefore) <$> stale_statuses))
    (claim_fields cfg it now).

(** What each reply to the claim request makes of the claim: the error text of
    a failure, or the outcome. *)
Definition claim_reply_outcome (r : string + http_reply) : string + claim_outcome :=
  match r with
  | inl m => inl m
  | inr r =>
      if hr_ok r
      then inr (match hr_rows r with [] => ClaimDenied Conflict | _ => ClaimGranted end)
      else inl (trim ("supabase morpheus_relayer_jobs PATCH failed: "
                      +:+ num_to_string (hr_status r) +:+ " " +:+ hr_text r))
  end.

Definition transient_error (m : string) : bool :=
  isSupabaseQuotaRestrictedError m || isSupabaseConnectivityError m
  || existsb (includes (toLowerCase m)) transient_markers.

Lemma mark_fst m now b :
  (markSupabasePersistenceUnavailable pe m now b).1
  = isSupabaseQuotaRestrictedError m || isSupabaseConnectivityError m.
Proof. unfold markSupabasePersistenceUnavailable. by repeat case_match. Qed.

Lemma run_mark en m w tr : exists b,
  run en (markUnavailable pe m) w tr =
    (inr (isSupabaseQuotaRestrictedError m || isSupabaseConnectivityError m), World (w_state w) b, tr).
Proof.
  unfold markUnavailable, local. cbn [run].
  pose proof (mark_fst m (env_now en tr) (w_backoff w)) as Hm.
  destruct (markSupabasePersistenceUnavailable _ _ _ _) as [r b]. cbn [fst] in Hm. subst r. eauto.
Qed.

Lemma run_transient en m w tr : exists b,
  run en (isTransientDurableQueueError pe m) w tr = (inr (transient_error m), World (w_state w) b, tr).
Proof.
  unfold isTransientDurableQueueError, transient_error. rewrite run_bind.
  destruct (run_mark en m w tr) as [b ->].
  destruct (isSupabaseQuotaRestrictedError m || isSupabaseConnectivityError m); cbn [run orb]; eauto.
Qed.

Lemma claim_or_parts it sb :
  (match filter (fun s => s <> "") (claim_ready_statuses it) with [] => [] | l => [StatusIn l] end)
  ++ ((fun st => StatusStale st sb) <$> filter (fun s => s <> "") stale_statuses)
  = StatusIn (claim_ready_statuses it) :: ((fun st => StatusStale st sb) <$> stale_statuses).
Proof. by destruct it. Qed.

Lemma run_supabase en t r w tr :
  hasSupabasePersistence pe = true ->
  exists b, run en (supabaseRequest pe t r) w tr =
    (match env_reply en http_reply tr (Supabase r) with
     | inl m => inl m
     | inr rep => if hr_ok rep then inr (Some rep)
                  else inl (trim ("supabase " +:+ t +:+ " " +:+ sb_method r +:+ " failed: "
                         +:+ num_to_string (hr_status rep) +:+ " " +:+ hr_text rep))
     end, World (w_state w) b, OCall (Supabase r) (env_reply en http_reply tr (Supabase r)) :: tr).
Proof.
  intros Hsb. unfold supabaseRequest. rewrite Hsb. cbn [negb].
  rewrite run_bind. cbn [run await].
  destruct (env_reply en http_reply tr (Supabase r)) as [m|rep] eqn:Er; cbn [run].
  { exists (w_backoff w). by destruct w. }
  rewrite ?Er. destruct (hr_ok rep); cbn [run].
  { exists (w_backoff w). by destruct w. }
  rewrite run_bind. edestruct (run_mark en) as [b ->]. cbn [run]. eauto.
Qed.

(** A claim outside an outage is decided by the store alone: exactly one
    request is sent, the relayer state does not change, a returned row grants
    the claim and an empty answer is a conflict; a failure is rethrown unless
    it is classified transient, in which case the claim is granted locally. *)
Theorem claim_decided_by_store : forall e it en w tr,
  dq_enabled (cfg_durable cfg) = true ->
  from_option ri_durable_claimed false it = false ->
  skipping en w tr = false ->
  hasSupabasePersistence pe = true ->
  let staleBefore := env_now en tr - Z.max (dq_staleProcessingMs (cfg_durable cfg) ||n 120000) 1000 in
  let call := Supabase (claim_request e it (env_now en tr) staleBefore) in
  let r := env_reply en http_reply tr call in
  exists b, run en (claimDurableJobForProcessing pe cfg e it) w tr =
    (match claim_reply_outcome r with
     | inr o => inr o
     | inl m => if transient_error m then inr ClaimGranted else inl m
     end, World (w_state w) b, OCall call r :: tr).
Proof.
  intros e it en w tr Hon Hit Hskip Hsb staleBefore call r.
  unfold claimDurableJobForProcessing. rewrite Hon, Hit.
  cbn [negb]. rewrite run_bind. cbn [run skipPersistence local].
  unfold skipping in Hskip. rewrite Hskip.
  unfold ensureDurableQueueAvailable. rewrite Hon, Hsb. cbn [negb bind].
  rewrite run_bind. cbn [run clock]. fold staleBefore.
  rewrite run_bind, run_attempt. unfold claimRelayerJob. rewrite run_bind. cbn [run clock].
  rewrite claim_or_parts. change (SbClaimJob _ _ _ _) with (claim_request e it (env_now en tr) staleBefore).
  rewrite run_bind. destruct (run_supabase en "morpheus_relayer_jobs"
    (claim_request e it (env_now en tr) staleBefore) w tr Hsb) as [b ->].
  fold call. fold r. unfold claim_reply_outcome.
  destruct r as [m|rep]; [|destruct (hr_ok rep)]; cbn [run].
  - rewrite run_bind. edestruct (run_transient en m) as [b' ->]. cbn [w_state].
    destruct (transient_error m); cbn [run]; eauto.
  - destruct (hr_rows rep); cbn [run head]; eauto.
  - change (sb_method (claim_request e it (env_now en tr) staleBefore)) with "PATCH".
    rewrite run_bind. edestruct (run_transient en) as [b' ->]. cbn [w_state].
    destruct (transient_error _); cbn [run]; eauto.
Qed.
End claim.

(** ** Exclusion between relayer instances *)

Section exclusion.
(** The store, by the documented behaviour of the PostgREST filters and of a
    PATCH: a disjunct selects by status, or by status and age. *)
Context (matches : or_part -> job_row -> bool) (patched : job_patch -> job_row -> job_row).
Context (matches_in : forall l row, matches (StatusIn l) row = true -> jr_status row ∈ l).
Context (matches_stale : forall st b row, matches (StatusStale st b) row = true ->
  jr_status row = st /\ jr_updated_at row < b).
Context (patched_status : forall f row, jr_status (patched f row) = pt_status f).
Context (patched_updated : forall f row, jr_updated_at (patched f row) = pt_updated_at f).

(** One try of one relayer to claim: its settings, its clock, its state, the
    event and the retry item it holds, and the fate of its request: answered, or
    lost with an error, before or after the store applied it. *)
Inductive delivery := Answered | Lost (message : string) (applied : bool).

Record attempt_to_claim := AttemptToClaim {
  ac_config : config;
  ac_persistence : penv;
  ac_now : list (obs world rel_call) -> Z;
  ac_world : world;
  ac_event : event;
  ac_item : option retry_item;
  ac_delivery : delivery;
}.

(** The store holds [row] in [network].  A claim is one conditional PATCH, which
    the store applies atomically: the row, patched, when the key and the network
    are its own and a disjunct matches; nothing otherwise. *)
Definition row_claimed (network : string) (row : job_row) (r : sb_request) : option job_row :=
  match r with
  | SbClaimJob key net parts f =>
      if (key =? jr_event_key row)%string && (net =? network)%string && existsb (fun p => matches p row) parts
      then Some (patched f row) else None
  | _ => None
  end.

(** The row after the requests of a trace, the newest first. *)
Definition row_after (network : string) (d : delivery) (row : job_row) (tr : list (obs world rel_call)) : job_row :=
  match d with
  | Lost _ false => row
  | _ => foldr (fun o row => match o with
                             | OCall (Supabase r) _ => default row (row_claimed network row r)
                             | _ => row
                             end) row tr
  end.

Definition claim_env (network : string) (row : job_row) (a : attempt_to_claim) : Effects.env world rel_call :=
  Env (ac_now a) (fun _ => 0%Q)
    (fun X tr c => match c in rel_call X return string + X with
                   | Supabase r =>
                       match ac_delivery a with
                       | Answered => inr (HttpReply 200 "" (option_list (row_claimed network (row_after network Answered row tr) r)))
                       | Lost message _ => inl message
                       end
                   | _ => inl "not a request to the store"
                   end).

(** The code of the claim runs against the row: its outcome, and the row then. *)
Definition claim_attempt (network : string) (row : job_row) (a : attempt_to_claim) : (string + claim_outcome) * job_row :=
  let '(o, _, tr) := run (claim_env network row a)
    (claimDurableJobForProcessing (ac_persistence a) (ac_config a) (ac_event a) (ac_item a)) (ac_world a) [] in
  (o, row_after network (ac_delivery a) row tr).

(** The times of the claims that the store granted and the relayer learned of,
    in the order in which the tries reach the store. *)
Fixpoint granted_times (network : string) (row : job_row) (tries : list attempt_to_claim) : list Z :=
  match tries with
  | [] => []
  | a :: tries =>
      let '(o, row') := claim_attempt network row a in
      match ac_delivery a, o with
      | Answered, inr ClaimGranted => [ac_now a []]
      | _, _ => []
      end ++ granted_times network row' tries
  end.

Definition stale_timeout (c : config) : Z := Z.max (dq_staleProcessingMs (cfg_durable c) ||n 120000) 1000.

(** A relayer that takes its claims from the store: the durable queue is on and
    configured, the item carries no claim already, claims during an outage are
    not taken locally, and its stale timeout is at least [T]. *)
Definition claims_through_store (T : Z) (a : attempt_to_claim) : Prop :=
  dq_enabled (cfg_durable (ac_config a)) = true /\ from_option ri_durable_claimed false (ac_item a) = false /\
  hasSupabasePersistence (ac_persistence a) = true /\
  dq_allowLocalClaimDuringBackoff (cfg_durable (ac_config a)) = false /\ T <= stale_timeout (ac_config a).

(** The row as a claim at [t] leaves it. *)
Definition held (t : Z) (row : job_row) : Prop :=
  jr_status row ∈ ["processing"; "retrying"] /\ jr_updated_at row = t.

(** A held row is only claimed again when the claim is stale. *)
Lemma held_excludes T t network row a :
  held t row -> T <= stale_timeout (ac_config a) ->
  let now := ac_now a [] in
  is_Some (row_claimed network row (claim_request (ac_persistence a) (ac_config a) (ac_event a) (ac_item a) now
    (now - stale_timeout (ac_config a)))) -> t + T < now.
Proof using matches_in matches_stale.
  intros [Hst Hup] HT now [row' Hrow]. cbn [row_claimed claim_request] in Hrow.
  destruct (_ && existsb _ _) eqn:Hm; [|done]. apply andb_true_iff in Hm as [_ Hm].
  apply existsb_exists in Hm as (p & Hp & Hm). apply list_elem_of_In in Hp.
  apply elem_of_cons in Hp as [->|Hp].
  - apply matches_in in Hm. exfalso. revert Hm.
    apply elem_of_cons in Hst as [->| ->%list_elem_of_singleton]; destruct (ac_item a); apply (bool_decide_unpack (_ ∉ _)); by vm_compute.
  - apply list_elem_of_fmap in Hp as (st & -> & _). apply matches_stale in Hm as [_ Hlt]. lia.
Qed.

(** One try: either the row stays and no claim is granted by an answer, or the
    claim's disjuncts matched and the row is held since the try's own clock. *)
Lemma attempt_step T network row a o row' :
  claims_through_store T a -> claim_attempt network row a = (o, row') ->
  let now := ac_now a [] in
  (row' = row /\ (ac_delivery a = Answered -> o <> inr ClaimGranted)) \/
  (held now row' /\
   is_Some (row_claimed network row (claim_request (ac_persistence a) (ac_config a) (ac_event a) (ac_item a) now
     (now - stale_timeout (ac_config a))))).
Proof using patched_status patched_updated.
  intros (Hon & Hit & Hsb & Hlocal & _). unfold claim_attempt. set (en := claim_env network row a).
  destruct (skipping en (ac_world a) []) eqn:Hskip.
  { rewrite (claim_fails_closed _ _ _ _ en) by done. rewrite Hlocal. intros [= <- <-]. left.
    split; [|done]. by destruct (ac_delivery a) as [|m []]. }
  destruct (claim_decided_by_store (ac_persistence a) (ac_config a) (ac_event a) (ac_item a) en (ac_world a) [])
    as [b Hrun]; [done..|]. cbv zeta in Hrun |- *. change (env_now en []) with (ac_now a []) in Hrun.
  change (Z.max (dq_staleProcessingMs (cfg_durable (ac_config a)) ||n 120000) 1000) with (stale_timeout (ac_config a)) in Hrun.
  set (now := ac_now a []) in *.
  set (r := claim_request _ _ _ _ now _) in *.
  assert (forall new, row_claimed network row r = Some new -> held now new) as Hheld.
  { intros new. unfold r, claim_request. cbn [row_claimed]. destruct (_ && existsb _ _); [|done]. intros [= <-].
    split; [rewrite patched_status|by rewrite patched_updated]. destruct (ac_item a); [right|]; by left. }
  clearbody r. rewrite Hrun. clear Hrun. intros [= <- <-]. subst en. cbn [claim_env env_reply row_after foldr]. destruct (ac_delivery a) as [|m applied].
  - cbn [row_after foldr]. destruct (row_claimed network row r) as [row'|] eqn:Hrow; cbn [option_list default].
    + right. split; [|done]. apply Hheld. reflexivity.
    + left. by split.
  - destruct applied; [|by left]. cbn [row_after foldr]. destruct (row_claimed network row r) as [row'|] eqn:Hrow; cbn [default].
    + right. split; [|done]. apply Hheld. reflexivity.
    + by left.
Qed.

Lemma granted_after T network tries : 0 <= T -> Forall (claims_through_store T) tries ->
  forall row t, held t row -> Forall (fun t' => t + T < t') (granted_times network row tries).
Proof using All.
  intros HT. induction 1 as [|a tries Ha _ IH]; intros row t Hheld; [constructor|]. cbn [granted_times].
  destruct (claim_attempt network row a) as [o row'] eqn:Hc.
  destruct (attempt_step T _ _ _ _ _ Ha Hc) as [[-> Hno]|[Hheld' Hm]].
  - destruct (ac_delivery a), o as [|[]]; cbn [app]; try (by apply IH). by destruct (Hno eq_refl).
  - pose proof (held_excludes T t _ _ _ Hheld ltac:(apply Ha) Hm) as Hlt.
    assert (Forall (fun t' => t + T < t') (granted_times network row' tries)) as Hrest.
    { eapply Forall_impl; [by apply (IH row' (ac_now a []))|]. cbn. intros. lia. }
    destruct (ac_delivery a), o as [|[]]; cbn [app]; try exact Hrest. by constructor.
Qed.

(** C39.  A claim excludes the other instances.  Let any number of tries to claim
    one row, of any relayers with their own clocks, settings and retry items,
    reach the store in any order, each running the code of the claim, while
    nothing else writes the row.  However often a request is lost, before or
    after the store applied it, the claims that the store answered as granted
    lie further apart than the stale timeout, as the clocks of their relayers
    have it: no two relayers are granted the row within it.  The durable queue
    is on and configured, and claims are not taken locally during an outage.
    The grants of lost requests are not among them: a transient error of the
    claim's own request is granted locally ([claim_timeout_grants]). *)
Theorem claim_excludes : forall T network row tries,
  0 <= T -> Forall (claims_through_store T) tries ->
  StronglySorted (fun t t' => t + T < t') (granted_times network row tries).
Proof using All.
  intros T network row tries HT Hall. revert row. induction Hall as [|a tries Ha Hall IH]; intros row; [constructor|].
  cbn [granted_times]. destruct (claim_attempt network row a) as [o row'] eqn:Hc.
  destruct (attempt_step T _ _ _ _ _ Ha Hc) as [[-> Hno]|[Hheld Hm]].
  - destruct (ac_delivery a), o as [|[]]; cbn [app]; try apply IH. by destruct (Hno eq_refl).
  - destruct (ac_delivery a), o as [|[]]; cbn [app]; try apply IH. constructor; [apply IH|]. by apply (granted_after T).
Qed.
End exclusion.

(** ** Hydration *)

Section hydration.
Context (cfg : config) (c : chain) (now : Z).

(** The row is stored under the key of its event. *)
Definition consistent_key (job : job_row) : Prop :=
  forall e, usable_event job = Some e -> jr_event_key job = "" \/ jr_event_key job = buildEventKey e.

Lemma consistent_job_key job e :
  consistent_key job -> usable_event job = Some e -> job_key job e = buildEventKey e.
Proof.
  intros H He. unfold job_key, or_str. destruct (H e He) as [Hk|Hk]; rewrite Hk; [done|].
  by case_decide.
Qed.

Definition ready (job : job_row) : bool :=
  isDurableQueueReadyJob job now (dq_staleProcessingMs (cfg_durable cfg) ||n 120000).

(** A job the loop passes over in state [s]. *)
Definition skip_job (s : relayer_state) (job : job_row) : bool :=
  below_floor (hydration_floor cfg c) job || negb (ready job) ||
  match usable_event job with
  | None => true
  | Some e => hasProcessedEvent s c (job_key job e) || isEventQueuedForRetry s c (job_key job e)
  end.

Definition hydrated_item (job : job_row) (e : event) : retry_item :=
  RetryItem (buildEventKey e) e (jr_attempts job) ((jr_next_retry_at job ||n now) ||n now)
    (default now (jr_created_at job)) now (jr_last_error job) "" (jr_finalize_only job)
    (trimString (jr_terminal_error job)) (jr_prepared_fulfillment job) true.

Definition add_item (it : retry_item) (s : relayer_state) : relayer_state :=
  set_chain c (set_retry_queue (retry_queue (chain_at s c) ++ [it]) (chain_at s c)) s.

(** [s'] differs from [s] by items appended to the queue of [c], and metrics. *)
Definition grows (s s' : relayer_state) (items : list retry_item) : Prop :=
  chain_at s' c = set_retry_queue (retry_queue (chain_at s c) ++ items) (chain_at s c) /\
  (forall c', c' <> c -> chain_at s' c' = chain_at s c').

Lemma grows_nil s : grows s s [].
Proof. split; [|done]. rewrite app_nil_r. by destruct (chain_at s c). Qed.

Lemma grows_trans s1 s2 s3 l l' : grows s1 s2 l -> grows s2 s3 l' -> grows s1 s3 (l ++ l').
Proof.
  intros [H1 H1'] [H2 H2']. split.
  - rewrite H2, H1. cbn. by rewrite app_assoc.
  - intros c' Hc. by rewrite H2', H1'.
Qed.

Lemma grows_queued s s' items k :
  grows s s' items -> isEventQueuedForRetry s' c k = true <->
    isEventQueuedForRetry s c k = true \/ k ∈ keys items.
Proof. intros [H _]. rewrite !isEventQueued_keys, H. cbn. rewrite fmap_app. set_solver. Qed.

Lemma grows_processed s s' items k :
  grows s s' items -> hasProcessedEvent s' c k = hasProcessedEvent s c k.
Proof. intros [H _]. unfold hasProcessedEvent. by rewrite H. Qed.

Lemma grows_skip s s' items job : grows s s' items -> skip_job s job = true -> skip_job s' job = true.
Proof.
  intros Hg. unfold skip_job. case_match; [|done].
  rewrite !orb_true_iff, (grows_processed _ _ _ _ Hg), (grows_queued _ _ _ _ Hg). tauto.
Qed.

Lemma hydrate_skip job h s : skip_job s job = true -> hydrate_job cfg c (hydration_floor cfg c) now now job (h, s) = (h, s).
Proof.
  unfold skip_job, hydrate_job, ready. intros H.
  destruct (below_floor _ _); [done|]. destruct (isDurableQueueReadyJob _ _ _); [|done].
  destruct (usable_event job); [|done]. cbn [negb orb] in *. by rewrite H.
Qed.

Lemma hydrate_take job h s :
  consistent_key job -> skip_job s job = false -> exists e s',
  usable_event job = Some e /\
  hydrate_job cfg c (hydration_floor cfg c) now now job (h, s) = (h ++ [buildEventKey e], s') /\
  grows s s' [hydrated_item job e].
Proof.
  intros Hk. unfold skip_job, hydrate_job, ready. intros H.
  destruct (below_floor _ _); [done|]. destruct (isDurableQueueReadyJob _ _ _); [|done].
  destruct (usable_event job) as [e|] eqn:He; [|done]. cbn [negb orb] in *. rewrite H.
  rewrite (consistent_job_key job e) in * by done.
  eexists e, _. split_and!; [done..|].
  apply orb_false_iff in H as [_ Hq].
  match goal with |- grows _ (enqueueRetryItem _ _ _ ?o ?s1).2 _ => set (s1' := s1); set (o' := o) end.
  assert (forall c', chain_at s1' c' = chain_at s c') as Hc.
  { intros c'. unfold s1'. case_match; [apply chain_at_incr|done]. }
  unfold enqueueRetryItem. cbn [snd]. rewrite enforce_noop by (cbn; lia). cbn [snd].
  rewrite Hc, put_item_out.
  2: { intros Hin. by rewrite (proj2 (isEventQueued_keys s c (buildEventKey e)) Hin) in Hq. }
  split.
  - by rewrite chain_at_set_eq.
  - intros c' Hne. by rewrite chain_at_set_ne, Hc.
Qed.

(** An item made from a ready row above the floor. *)
Definition from_row (jobs : list job_row) (it : retry_item) : Prop :=
  exists job e, job ∈ jobs /\ usable_event job = Some e /\ ready job = true /\
    below_floor (hydration_floor cfg c) job = false /\ it = hydrated_item job e.

Lemma hydrate_fold jobs : forall h s,
  Forall consistent_key jobs ->
  exists items s',
    foldl (fun acc job => hydrate_job cfg c (hydration_floor cfg c) now now job acc) (h, s) jobs
      = (h ++ keys items, s') /\
    grows s s' items /\ Forall (from_row jobs) items /\ NoDup (keys items) /\
    Forall (fun k => hasProcessedEvent s c k = false /\ isEventQueuedForRetry s c k = false) (keys items) /\
    Forall (fun job => skip_job s' job = true) jobs.
Proof.
  induction jobs as [|job jobs IH]; intros h s Hcons.
  { exists [], s. rewrite app_nil_r. split_and!; try constructor; try apply grows_nil; done. }
  apply Forall_cons in Hcons as [Hj Hcons]. cbn [foldl].
  destruct (skip_job s job) eqn:Hs.
  - rewrite (hydrate_skip job h s Hs). destruct (IH h s Hcons) as (items & s' & -> & Hg & Hfr & Hnd & Hk & Hsk).
    exists items, s'. split_and!; try done.
    + eapply Forall_impl; [done|]. intros it (j & e & ? & ?). exists j, e. set_solver.
    + constructor; [|done]. by eapply grows_skip.
  - destruct (hydrate_take job h s Hj Hs) as (e & s1 & He & -> & Hg1).
    destruct (IH (h ++ [buildEventKey e]) s1 Hcons) as (items & s' & -> & Hg & Hfr & Hnd & Hk & Hsk).
    exists (hydrated_item job e :: items), s'. unfold skip_job in Hs. rewrite He in Hs.
    rewrite consistent_job_key in Hs by done.
    apply orb_false_iff in Hs as [[Hfl Hrd%negb_false_iff]%orb_false_iff [Hp Hq]%orb_false_iff].
    assert (forall k, k ∈ keys items -> k <> buildEventKey e /\ hasProcessedEvent s c k = false
              /\ isEventQueuedForRetry s c k = false) as Hall.
    { intros k Hin. rewrite Forall_forall in Hk. destruct (Hk k Hin) as [Hk1 Hk2].
      rewrite (grows_processed _ _ _ _ Hg1) in Hk1.
      pose proof (grows_queued _ _ _ k Hg1) as Hgq. split_and!; [|done|].
      - intros ->. rewrite (proj2 Hgq) in Hk2; [done|]. right. cbn. set_solver.
      - destruct (isEventQueuedForRetry s c k) eqn:E; [|done]. rewrite (proj2 Hgq) in Hk2; auto. }
    split_and!.
    + cbn. by rewrite <-app_assoc.
    + exact (grows_trans _ _ _ _ _ Hg1 Hg).
    + constructor.
      * exists job, e. set_solver.
      * eapply Forall_impl; [done|]. intros it (j & e' & ? & ?). exists j, e'. set_solver.
    + cbn. constructor; [|done]. intros Hin. by destruct (Hall _ Hin).
    + cbn. constructor; [done|]. apply Forall_forall. intros k Hin. by destruct (Hall k Hin).
    + constructor; [|done]. apply (grows_skip _ _ _ _ Hg). unfold skip_job. rewrite He.
      rewrite consistent_job_key by done. rewrite !orb_true_iff. do 2 right.
      apply (grows_queued _ _ _ _ Hg1). right. cbn. set_solver.
Qed.

Lemma hydrate_all_skip jobs h s :
  Forall (fun job => skip_job s job = true) jobs ->
  foldl (fun acc job => hydrate_job cfg c (hydration_floor cfg c) now now job acc) (h, s) jobs = (h, s).
Proof.
  revert h. induction jobs as [|job jobs IH]; intros h Hf; [done|]. apply Forall_cons in Hf as [Hj Hf].
  cbn [foldl]. rewrite hydrate_skip by done. by apply IH.
Qed.

(** Hydration rebuilds the local queue from the durable job table without
    duplicating work: it appends one claimed item per returned key, each made
    from a ready row above the request floor (attempts, prepared fulfillment
    and finalize flag included), for keys that were neither processed nor
    queued, touches nothing else of the chains, and running it again over the
    same rows adds nothing. *)
Theorem hydration_exactly_once : forall jobs s,
  Forall consistent_key jobs ->
  exists items s',
    hydrate_jobs cfg c now jobs s = (keys items, s') /\
    grows s s' items /\
    Forall (from_row jobs) items /\
    NoDup (keys items) /\
    Forall (fun k => hasProcessedEvent s c k = false /\ isEventQueuedForRetry s c k = false) (keys items) /\
    hydrate_jobs cfg c now jobs s' = ([], s').
Proof.
  intros jobs s Hcons. destruct (hydrate_fold jobs [] s Hcons) as (items & s' & Hf & Hg & Hfr & Hnd & Hk & Hsk).
  exists items, s'. split_and!; try done. by apply hydrate_all_skip.
Qed.
End hydration.

(** ** Back-pressure *)

Section backpressure.
Context (pe : penv) (cfg : config) (c : chain).
Context (Hlim : retryQueueLimit (cfg_limits cfg) <= 0).

(** [s'] keeps the processed events of [s] and its queued keys. *)
Definition retains (s s' : relayer_state) : Prop :=
  (forall k, isEventQueuedForRetry s c k = true -> isEventQueuedForRetry s' c k = true) /\
  (forall k, hasProcessedEvent s' c k = hasProcessedEvent s c k).

#[local] Instance retains_preorder : PreOrder retains.
Proof.
  split; [done|]. intros s1 s2 s3 [H1 H2] [H3 H4]. split; [auto|]. intros k. by rewrite H4.
Qed.

Lemma enqueue_retains now e o s :
  retryQueueLimit (o_limits o) <= 0 ->
  let s' := (enqueueRetryItem now c e o s).2 in
  retains s s' /\ isEventQueuedForRetry s' c (buildEventKey e) = true.
Proof.
  intros Ho. unfold enqueueRetryItem. cbn [snd]. rewrite enforce_noop by done. cbn [snd].
  split; [split|].
  - intros k. rewrite !isEventQueued_keys, chain_at_set_eq. cbn [retry_queue set_retry_queue].
    rewrite put_item_keys. intros. case_decide; [done|]. apply elem_of_app. by left.
  - intros k. unfold hasProcessedEvent. by rewrite chain_at_set_eq.
  - rewrite isEventQueued_keys, chain_at_set_eq. cbn [retry_queue set_retry_queue].
    rewrite put_item_keys. cbn [ri_key]. case_decide; [done|]. apply elem_of_app. right. by left.
Qed.

Lemma run_defer en t es : forall w tr, exists w' tr',
  run en (defer_events pe cfg c t es) w tr = (inr tt, w', tr') /\
  retains (w_state w) (w_state w') /\
  Forall (fun e => isEventQueuedForRetry (w_state w') c (buildEventKey e) = true) es.
Proof using Hlim.
  induction es as [|e es IH]; intros w tr; cbn [defer_events].
  { exists w, tr. by split_and!; [|reflexivity|]. }
  rewrite run_bind. unfold op, local. cbn [run].
  match goal with |- context [enqueueRetryItem ?now c e ?o (w_state w)] =>
    destruct (enqueue_retains now e o (w_state w) Hlim) as [Hr Hq];
    destruct (enqueueRetryItem now c e o (w_state w)) as [it s1] end.
  cbn [run snd] in *. rewrite run_bind.
  edestruct (quiet_maybeUpsert pe) as (u & b & tr1 & ->). cbn [w_state].
  destruct (IH (World s1 b) tr1) as (w' & tr' & -> & Hr' & Hf). cbn [w_state] in Hr'.
  exists w', tr'. split_and!; [done|by etransitivity|]. constructor; [|done]. by apply (proj1 Hr').
Qed.

(** Back-pressure never drops an event and never fails: whatever the store
    answers, the fresh events are split, in order, into the batch the tick
    processes (the configured cap, at least one) and the rest, each of which
    is in the retry queue afterwards; nothing queued before is lost and no
    event becomes processed. *)
Theorem backpressure_retains : forall en es w tr, exists processable deferred w' tr',
  run en (deferEventsForBackpressure pe cfg c es) w tr = (inr (processable, deferred), w', tr') /\
  es = processable ++ deferred /\
  length processable = Nat.min (length es) (fresh_cap cfg es) /\
  Forall (fun e => isEventQueuedForRetry (w_state w') c (buildEventKey e) = true) deferred /\
  retains (w_state w) (w_state w').
Proof using Hlim.
  intros en es w tr. unfold deferEventsForBackpressure.
  destruct (length es <=? fresh_cap cfg es)%nat eqn:E.
  - apply Nat.leb_le in E. exists es, [], w, tr.
    split_and!; [done|by rewrite app_nil_r|lia|done|done].
  - apply Nat.leb_gt in E. rewrite run_bind. unfold clock. cbn [run]. rewrite run_bind.
    edestruct run_defer as (w' & tr' & -> & Hr & Hf).
    eexists _, _, _, _. split_and!; [reflexivity|by rewrite take_drop|rewrite length_take; lia|..].
    + eapply Forall_impl; [exact Hf|]. intros e He. unfold isEventQueuedForRetry in *. cbn [on_state w_state].
      by rewrite chain_at_incr.
    + destruct Hr as [H1 H2]. split; intros k.
      * intros Hk. specialize (H1 k Hk). unfold isEventQueuedForRetry in *. cbn [on_state w_state].
        by rewrite chain_at_incr.
      * unfold hasProcessedEvent in *. cbn [on_state w_state]. by rewrite chain_at_incr.
Qed.
End backpressure.

(** ** Manual actions *)

Abbreviation queued k q := (existsb (fun item => bool_decide (ri_key item = k)) q).

Lemma queued_in k q : queued k q = true <-> k ∈ keys q.
Proof.
  rewrite existsb_exists, list_elem_of_fmap. setoid_rewrite <-list_elem_of_In.
  setoid_rewrite bool_decide_eq_true. naive_solver.
Qed.

Lemma put_item_queued it k q : k <> ri_key it -> queued k (put_item it q) = true <-> queued k q = true.
Proof.
  intros Hk. rewrite !queued_in, put_item_keys. case_decide; [done|]. rewrite elem_of_app. set_solver.
Qed.

Lemma clear_item_queued key k q : k <> key -> queued k (clear_item key q) = true <-> queued k q = true.
Proof. intros Hk. rewrite !queued_in. apply clear_item_other. congruence. Qed.

(** A manual action re-arms exactly its event: afterwards the event is in
    the queue with a fresh attempt budget, due at once, no longer dead-lettered,
    and no longer processed when a replay was asked for; every other key keeps
    its processed and queued status. *)
Theorem manual_action_rearms : forall c job e now s,
  consistent_key job -> usable_event job = Some e ->
  let s' := apply_manual_action c job e now s in
  let key := buildEventKey e in
  (exists it, it ∈ retry_queue (chain_at s' c) /\ ri_key it = key /\ ri_event it = e /\
     ri_attempts it = 0 /\ ri_next_retry_at it = now /\ ri_manual_action it = jr_status job) /\
  key ∉ (dl_key <$> dead_letters (chain_at s' c)) /\
  (jr_status job = "manual_replay_requested" -> hasProcessedEvent s' c key = false) /\
  (forall k, k <> key -> hasProcessedEvent s' c k = hasProcessedEvent s c k) /\
  (forall k, k <> key -> isEventQueuedForRetry s' c k = isEventQueuedForRetry s c k).
Proof.
  intros c job e now s Hcons He s' key.
  set (s1 := if (jr_status job =? "manual_replay_requested")%string
             then removeProcessedEvent c key s else s).
  set (it := RetryItem key e 0 (now ||n now) now now "" (jr_status job) false "" None false).
  assert (retry_queue (chain_at s1 c) = retry_queue (chain_at s c)) as Hq.
  { unfold s1. case_match; [|done]. unfold removeProcessedEvent. by rewrite chain_at_set_eq. }
  assert (chain_at s' c = set_retry_queue (put_item it (clear_item key (retry_queue (chain_at s c))))
    (set_dead_letters (filter (fun d => dl_key d <> key) (dead_letters (chain_at s1 c)))
       (chain_at s1 c))) as Hs'.
  { unfold s', apply_manual_action. rewrite (consistent_job_key job e) by done. fold key s1.
    unfold enqueueRetryItem. cbn [snd]. rewrite enforce_noop by (cbn; lia). cbn [snd].
    rewrite chain_at_incr, chain_at_set_eq. unfold clearRetryItem, removeDeadLetter.
    rewrite !chain_at_set_eq. cbn [retry_queue set_retry_queue set_dead_letters]. by rewrite Hq. }
  unfold hasProcessedEvent, isEventQueuedForRetry. rewrite Hs'.
  cbn [retry_queue dead_letters processed_records set_retry_queue set_dead_letters].
  split_and!.
  - exists it. split_and!; [apply put_item_in|done|done|done| |done]. cbn. unfold or_num. by case_decide.
  - intros (d & Hd & Hin)%list_elem_of_fmap. by apply list_elem_of_filter in Hin as [? _].
  - intros Hst. unfold s1. rewrite Hst. cbn. unfold removeProcessedEvent. rewrite chain_at_set_eq.
    cbn. by rewrite lookup_delete_eq.
  - intros k Hk. unfold s1. case_match; [|done]. unfold removeProcessedEvent.
    rewrite chain_at_set_eq. cbn. by rewrite lookup_delete_ne.
  - intros k Hk. apply eq_bool_prop_intro. rewrite !Is_true_true.
    rewrite put_item_queued by done. by apply clear_item_queued.
Qed.

(** ** Quarantine below the request floor *)

Lemma chunks_spec size : (0 < size)%nat -> forall fuel l, (length l <= fuel)%nat ->
  concat (chunks fuel size l) = l /\
  Forall (fun ch => (0 < length ch <= size)%nat) (chunks fuel size l).
Proof.
  intros Hs. induction fuel as [|fuel IH]; intros [|x l] Hl; try (by split; [|constructor]); [cbn in Hl; lia|].
  destruct (IH (drop size (x :: l))) as [Hc Hf].
  { rewrite length_drop. cbn [length] in *. lia. }
  cbn [chunks concat]. split; [by rewrite Hc, take_drop|]. constructor; [|done].
  rewrite length_take. cbn [length]. lia.
Qed.

Lemma group_push_perm k v gs : concat (group_push k v gs).*2 ≡ₚ v :: concat gs.*2.
Proof.
  induction gs as [|[k' vs] gs IH]; cbn [group_push]; [done|]. case_decide; cbn.
  - rewrite <-app_assoc. symmetry. apply Permutation_middle.
  - rewrite IH. symmetry. apply Permutation_middle.
Qed.

Lemma group_fold_perm (err : job_row -> string) rows : forall gs,
  concat (foldl (fun g row => group_push (err row) (jr_event_key row) g) gs rows).*2
  ≡ₚ (jr_event_key <$> rows) ++ concat gs.*2.
Proof.
  induction rows as [|row rows IH]; intros gs; [done|]. cbn [foldl]. rewrite IH, group_push_perm.
  cbn. symmetry. apply Permutation_middle.
Qed.

Lemma group_push_err (err : job_row -> string) row gs (P : string -> string -> Prop) :
  Forall (fun g => Forall (P g.1) g.2) gs -> P (err row) (jr_event_key row) ->
  Forall (fun g => Forall (P g.1) g.2) (group_push (err row) (jr_event_key row) gs).
Proof.
  intros Hgs HP. induction Hgs as [|[k vs] gs Hg Hgs IH]; cbn [group_push].
  { repeat constructor. done. }
  case_decide as Hk; constructor; try done. cbn in *. subst k. apply Forall_app. auto.
Qed.

Lemma group_rows_err (err : job_row -> string) (P : string -> string -> Prop) rows :
  Forall (fun row => P (err row) (jr_event_key row)) rows ->
  Forall (fun g => Forall (P g.1) g.2) (group_rows err rows).
Proof.
  unfold group_rows. assert (Forall (fun g => Forall (P g.1) g.2) ([] : list (string * list string))) as H0 by constructor.
  revert H0. generalize ([] : list (string * list string)) as gs. induction rows as [|row rows IH]; intros gs Hgs Hr; [done|].
  apply Forall_cons in Hr as [? ?]. cbn [foldl]. apply IH; [|done]. by apply group_push_err.
Qed.

(** What a run asked the store to quarantine: error text and keys of each PATCH. *)
Definition quarantine_patch (o : obs world rel_call) : option (string * list string) :=
  match o with
  | @OCall _ _ X c _ =>
      match c with Supabase (SbQuarantine _ ks err _) => Some (err, ks) | _ => None end
  | OSave _ => None
  end.

Definition batches (gs : list (string * list string)) : list (string * list string) :=
  concat ((fun g => pair g.1 <$> chunks (length g.2) QUARANTINE_PATCH_CHUNK_SIZE g.2) <$> gs).

Lemma batches_spec gs :
  concat (batches gs).*2 = concat gs.*2 /\
  Forall (fun b => (0 < length b.2 <= 40)%nat) (batches gs) /\
  (forall b, b ∈ batches gs -> forall k, k ∈ b.2 -> exists g, g ∈ gs /\ g.1 = b.1 /\ k ∈ g.2).
Proof.
  induction gs as [|[err ks] gs (IH1 & IH2 & IH3)]; [by split_and!; [|constructor|intros b ?%elem_of_nil]|].
  destruct (chunks_spec QUARANTINE_PATCH_CHUNK_SIZE ltac:(unfold QUARANTINE_PATCH_CHUNK_SIZE; lia)
    (length ks) ks) as [Hc Hf]; [lia|].
  change (batches ((err, ks) :: gs))
    with ((pair err <$> chunks (length ks) QUARANTINE_PATCH_CHUNK_SIZE ks) ++ batches gs). split_and!.
  - rewrite fmap_app, concat_app, IH1, <-list_fmap_compose. cbn. f_equal.
    etransitivity; [|exact Hc]. f_equal. apply list_fmap_id.
  - apply Forall_app. split; [|done]. by apply Forall_fmap.
  - intros b [(ch & -> & Hch)%list_elem_of_fmap|Hb]%elem_of_app k Hk.
    + exists (err, ks). split_and!; [left|done|]. cbn in *. rewrite <-Hc. apply list_elem_of_In, in_concat.
      exists ch. by rewrite <-!list_elem_of_In.
    + destruct (IH3 b Hb k Hk) as (g & ? & ? & ?). exists g. split_and!; [by right|done..].
Qed.

Section quarantine.
Context (pe : penv) (en : env world rel_call).
Context (store_ok : forall tr r, exists rep,
  env_reply en http_reply tr (Supabase r) = inr rep /\ hr_ok rep = true).
Context (has_store : hasSupabasePersistence pe = true).

Lemma run_supabase_ok t r w tr : exists rep,
  run en (supabaseRequest pe t r) w tr =
    (inr (Some rep), w, OCall (Supabase r) (inr rep) :: tr) /\
  env_reply en http_reply tr (Supabase r) = inr rep.
Proof using All.
  destruct (store_ok tr r) as (rep & Hr & Hok). exists rep. split; [|done].
  unfold supabaseRequest. rewrite has_store. cbn [negb].
  rewrite run_bind. cbn [run await]. rewrite Hr. cbn [run]. by rewrite Hok.
Qed.

Lemma run_patch_chunks err now cs : forall n w tr, exists tr',
  run en (patch_chunks pe err now cs n) w tr = (inr (n + Z.of_nat (length (concat cs))), w, tr') /\
  omap quarantine_patch tr' = reverse (pair err <$> cs) ++ omap quarantine_patch tr.
Proof using All.
  induction cs as [|ch cs IH]; intros n w tr; cbn [patch_chunks].
  { exists tr. cbn. by rewrite Z.add_0_r. }
  rewrite run_bind. edestruct run_supabase_ok as (rep & -> & _).
  edestruct IH as (tr' & -> & Htr). exists tr'. split.
  - cbn [concat]. rewrite length_app. do 3 f_equal. lia.
  - rewrite Htr. cbn [omap list_omap quarantine_patch fmap list_fmap]. by rewrite reverse_cons, <-app_assoc.
Qed.

Lemma run_patch_groups now gs : forall n w tr, exists tr',
  run en (patch_groups pe now gs n) w tr = (inr (n + Z.of_nat (length (concat gs.*2))), w, tr') /\
  omap quarantine_patch tr' = reverse (batches gs) ++ omap quarantine_patch tr.
Proof using All.
  induction gs as [|[err ks] gs IH]; intros n w tr; cbn [patch_groups].
  { exists tr. cbn. by rewrite Z.add_0_r. }
  rewrite run_bind. edestruct run_patch_chunks as (tr1 & -> & Htr1).
  edestruct IH as (tr' & -> & Htr). exists tr'.
  destruct (chunks_spec QUARANTINE_PATCH_CHUNK_SIZE ltac:(unfold QUARANTINE_PATCH_CHUNK_SIZE; lia)
    (length ks) ks) as [Hc _]; [lia|]. split.
  - rewrite Hc. cbn [fmap list_fmap concat snd]. rewrite length_app. do 3 f_equal. lia.
  - rewrite Htr, Htr1. unfold batches. cbn [fmap list_fmap concat fst snd].
    by rewrite reverse_app, <-app_assoc.
Qed.

(** Quarantine covers the backlog below the floor exactly: of the rows the
    store returned, the event keys of those below the threshold are patched,
    each exactly once, in requests of at most forty keys, each key under the
    error text built from its own row, and their number is returned. *)
Theorem quarantine_exact : forall c lt statuses note w tr rep,
  statuses <> [] ->
  env_reply en http_reply tr
    (Supabase (SbSelectJobs (resolveSupabaseNetwork pe) statuses (Some c) 5000)) = inr rep ->
  let targets := filter (fun row => below_threshold lt row = true) (hr_rows rep) in
  exists tr' bs,
    run en (quarantineRelayerJobsBelowRequestId pe c lt statuses note) w tr =
      (inr (Z.of_nat (length targets)), w, tr') /\
    omap quarantine_patch tr' = bs ++ omap quarantine_patch tr /\
    concat bs.*2 ≡ₚ jr_event_key <$> targets /\
    Forall (fun b => (0 < length b.2 <= 40)%nat) bs /\
    (forall b, b ∈ bs -> forall k, k ∈ b.2 -> exists row, row ∈ targets /\
       jr_event_key row = k /\ b.1 = quarantine_error note lt row).
Proof using All.
  intros c lt statuses note w tr rep Hst Hrep targets.
  unfold quarantineRelayerJobsBelowRequestId, fetchRelayerJobsByStatuses.
  destruct statuses as [|st sts]; [done|].
  rewrite run_bind, run_bind. edestruct run_supabase_ok as (rep' & -> & Hrep'). cbn [run].
  rewrite Hrep in Hrep'. injection Hrep' as <-. fold targets.
  destruct targets as [|row0 rest] eqn:Ht.
  { cbn [run]. eexists _, []. split_and!; [done..|]. by intros b ?%elem_of_nil. }
  rewrite <-Ht. rewrite run_bind. unfold clock. cbn [run].
  set (gs := group_rows (quarantine_error note lt) targets).
  edestruct run_patch_groups as (tr' & -> & Htr'). exists tr', (reverse (batches gs)).
  destruct (batches_spec gs) as (Hb1 & Hb2 & Hb3).
  assert (concat gs.*2 ≡ₚ jr_event_key <$> targets) as Hperm.
  { unfold gs, group_rows. rewrite group_fold_perm. cbn. by rewrite app_nil_r. }
  assert (Forall (fun g => Forall (fun k => exists row, row ∈ targets /\ jr_event_key row = k /\
            g.1 = quarantine_error note lt row) g.2) gs) as Herr.
  { apply (group_rows_err (quarantine_error note lt) (fun err k => exists row, row ∈ targets /\
      jr_event_key row = k /\ err = quarantine_error note lt row)).
    apply Forall_forall. intros row Hrow. by exists row. }
  split_and!.
  - rewrite Hperm, length_fmap. done.
  - rewrite Htr'. done.
  - rewrite reverse_Permutation. by rewrite Hb1.
  - rewrite Forall_forall in Hb2 |- *. intros b Hb. apply Hb2, elem_of_reverse, Hb.
  - intros b Hb k Hk. rewrite ?elem_of_reverse in Hb.
    destruct (Hb3 b Hb k Hk) as (g & Hg & <- & Hkg). rewrite Forall_forall in Herr. specialize (Herr g Hg). rewrite Forall_forall in Herr. eauto.
Qed.
End quarantine.

(** ** Concrete instances *)

Example claim_fails_closed_witness :
  run (sample_env 1000 (ok_replies []))
    (claimDurableJobForProcessing sample_penv sample_config (sample_event "12" "0xab") None)
    sample_outage [] =
  (inr (ClaimDenied BackoffSkip),
   on_state (incrementMetric "durable_claim_skipped_during_backoff_total" 1) sample_outage, []).
Proof.
  exact (claim_fails_closed sample_penv sample_config (sample_event "12" "0xab") None
    (sample_env 1000 (ok_replies [])) sample_outage [] eq_refl eq_refl eq_refl).
Defined.

Example claim_decided_by_store_witness : exists b tr,
  run (sample_env 1000 (ok_replies []))
    (claimDurableJobForProcessing sample_penv sample_config (sample_event "12" "0xab") None)
    sample_world [] = (inr (ClaimDenied Conflict), World createEmptyRelayerState b, tr).
Proof.
  destruct (claim_decided_by_store sample_penv sample_config (sample_event "12" "0xab") None
    (sample_env 1000 (ok_replies [])) sample_world [] eq_refl eq_refl eq_refl eq_refl) as [b Hb].
  eexists b, _. exact Hb.
Defined.

(** With the durable queue configured to fail closed and local claims during an
    outage forbidden, a claim request that times out still grants the claim
    locally: the two relayers that time out both process the request. *)
Lemma claim_timeout_grants : exists b tr,
  run (sample_env 1000 (Replies (inl "timeout") (inl "") (inl "") 0 []))
    (claimDurableJobForProcessing sample_penv sample_config (sample_event "12" "0xab") None)
    sample_world [] = (inr ClaimGranted, World createEmptyRelayerState b, tr).
Proof. eexists _, _. vm_compute. reflexivity. Qed.

(** Two relayers at once, a third after the timeout, and a lost request. *)
Definition sample_try (now : Z) (d : delivery) (it : option retry_item) : attempt_to_claim :=
  AttemptToClaim sample_config sample_penv (fun _ => now) sample_world (sample_event "12" "0xab") it d.

Definition sample_tries : list attempt_to_claim :=
  [sample_try 1000 Answered None; sample_try 1500 Answered None; sample_try 2000 (Lost "timeout" true) None;
   sample_try 122000 Answered None; sample_try 122001 Answered None].

Example claim_excludes_witness :
  let row := pg_patched (JobPatch "queued" None "" None None VNull 10) (sample_row "12" "queued") in
  let row := JobRow (buildEventKey (sample_event "12" "0xab")) (jr_request_id row) (jr_status row) 0 "" 0 10 None None false VNull false None in
  granted_times pg_matches pg_patched "testnet" row sample_tries = [1000; 122000] /\
  StronglySorted (fun t t' => t + 120000 < t') (granted_times pg_matches pg_patched "testnet" row sample_tries).
Proof.
  cbv zeta. split; [vm_compute; reflexivity|].
  apply (claim_excludes pg_matches pg_patched); [| | | |lia|].
  - intros l row H. by apply bool_decide_eq_true in H.
  - intros st b row [H1%bool_decide_eq_true H2%Z.ltb_lt]%andb_true_iff. done.
  - done.
  - done.
  - repeat constructor; vm_compute; discriminate.
Defined.

Example hydration_exactly_once_witness : exists items s',
  hydrate_jobs sample_config neo_n3 2000 [sample_row "12" "queued"; sample_row "12" "queued"]
    createEmptyRelayerState = (keys items, s') /\
  keys items = ["neo_n3:12:0xab:0:17"].
Proof.
  destruct (hydration_exactly_once sample_config neo_n3 2000
    [sample_row "12" "queued"; sample_row "12" "queued"] createEmptyRelayerState)
    as (items & s' & H & _).
  - repeat constructor; intros e He; injection He as <-; by left.
  - exists items, s'. split; [done|]. apply (f_equal fst) in H. cbn [fst] in H. rewrite <-H.
    vm_compute. reflexivity.
Defined.

Example backpressure_retains_witness : exists w' tr',
  run (sample_env 1000 (ok_replies []))
    (deferEventsForBackpressure sample_penv sample_config neo_n3
       [sample_event "12" "0xab"; sample_event "13" "0xcd"]) sample_world []
  = (inr ([sample_event "12" "0xab"], [sample_event "13" "0xcd"]), w', tr') /\
  isEventQueuedForRetry (w_state w') neo_n3 "neo_n3:13:0xcd:0:17" = true.
Proof.
  destruct (backpressure_retains sample_penv sample_config neo_n3 ltac:(vm_compute; discriminate)
    (sample_env 1000 (ok_replies [])) [sample_event "12" "0xab"; sample_event "13" "0xcd"]
    sample_world []) as (p & d & w' & tr' & Hrun & Hes & Hlen & Hq & _).
  exists w', tr'. destruct p as [|p0 [|]]; try done. cbn in Hes. injection Hes as <- <-.
  split; [exact Hrun|]. by apply Forall_inv in Hq.
Defined.

Example manual_action_rearms_witness : exists it,
  it ∈ retry_queue (chain_at (apply_manual_action neo_n3 (sample_row "12" "manual_replay_requested")
    (sample_event "12" "0xab") 3000 sample_queued) neo_n3) /\ ri_next_retry_at it = 3000.
Proof.
  destruct (manual_action_rearms neo_n3 (sample_row "12" "manual_replay_requested")
    (sample_event "12" "0xab") 3000 sample_queued) as [(it & Hin & _ & _ & _ & Hdue & _) _].
  - intros e He. by left.
  - reflexivity.
  - by exists it.
Defined.

Example quarantine_exact_witness : exists tr' bs,
  run (sample_env 1000 (ok_replies [sample_row "7" "queued"; sample_row "12" "queued"]))
    (quarantineRelayerJobsBelowRequestId sample_penv neo_n3 10 ["queued"] "floor") sample_world []
  = (inr 1, sample_world, tr') /\ omap quarantine_patch tr' = bs.
Proof.
  set (en := sample_env 1000 (ok_replies [sample_row "7" "queued"; sample_row "12" "queued"])).
  destruct (quarantine_exact sample_penv en) with (c := neo_n3) (lt := 10) (statuses := ["queued"])
    (note := "floor") (w := sample_world) (tr := [] : list (obs world rel_call))
    (rep := HttpReply 200 "" [sample_row "7" "queued"; sample_row "12" "queued"])
    as (tr' & bs & Hrun & Hbs & _).
  - intros tr r. by eexists.
  - reflexivity.
  - done.
  - reflexivity.
  - exists tr', bs. rewrite app_nil_r in Hbs. split; [exact Hrun|exact Hbs].
Defined.
