(* ===== verification/Signing.v ===== *)
(** * Signing a fulfillment ([fulfillment.js], [neox.js])

    The context a digest is bound to, the Neo X digest, and the program that
    obtains the verifier's signature. *)
From S2P Require Import Prelude Numbers Strings Values Encoding Envelope Digest Cbor Attestation Externals State StateFacts Config Effects Persistence World Errors.
From Stdlib Require Import QArith.
#[local] Open Scope list_scope.
#[local] Open Scope Z_scope.

(** [throw] on [inl]. *)
Definition lift {A} (r : string + A) : rprog A :=
  match r with inl e => Throw e | inr a => Ret a end.

Record fulfillment_context := FulfillmentContext {
  fc_appId : string;
  fc_moduleId : string;
  fc_operation : string;
}.

(** What is signed. *)
Record signed_payload := SignedPayload {
  sp_requestId : string;
  sp_requestType : string;
  sp_context : fulfillment_context;
  sp_fulfillment : fulfillment;
}.

Definition resolveEventFulfillmentContext (e : event) (i : kernel_intent) : fulfillment_context :=
  FulfillmentContext (ev_appId e) (ev_moduleId e ||s moduleId i) (ev_operation e ||s operation i).

Definition resolveFulfillmentSigningContext (chain : string) (fc : fulfillment_context) : digest_context :=
  let normalizedChain := trim chain ||s "neo_n3" in
  if (normalizedChain =? "neo_n3")%string && (fc_appId fc =? "")%string
  then DigestContext "legacy" "" "" "" "" NaN
  else DigestContext normalizedChain (fc_appId fc) (fc_moduleId fc) (fc_operation fc) "" NaN.

Definition resolveDigestBinding (cfg : config) (c : chain) (fc : fulfillment_context) : digest_context :=
  let d := resolveFulfillmentSigningContext (chain_name c) fc in
  match c with
  | neo_n3 => DigestContext (dc_chain d) (dc_appId d) (dc_moduleId d) (dc_operation d)
                (cfg_oracleContract cfg) (cfg_networkMagic cfg)
  | neox => d
  end.

(** ** Identifier hygiene *)

Definition has_space (s : string) : bool := str_exists js_space s.

(** The first field with white space. *)
Definition findWhitespaceIdentifier (e : event) : option (string * string) :=
  find (fun fv => has_space fv.2)
    [("appId", ev_appId e); ("moduleId", ev_moduleId e); ("operation", ev_operation e);
     ("requestType", ev_requestType e)].

Definition assertEventIdentifiersClean (e : event) : string + unit :=
  match findWhitespaceIdentifier e with
  | Some (field, _) =>
      inl ("invalid identifier: request " +:+ ev_requestId e +:+ " field " +:+ field
           +:+ " contains whitespace")
  | None => inr tt
  end.

Section signing.
Context (cfg : config).
Context (X : externals).
#[local] Abbreviation keccak256 := (x_keccak256 X).
#[local] Open Scope prog_scope.

(** ** Neo X *)

Definition resolveResultBytesHex (result resultBytesBase64 : string) : string :=
  "0x" +:+ hex_encode (result_bytes result resultBytesBase64).

Definition FULFILLMENT_DOMAIN : string := "morpheus-evm-fulfillment-v1".

Definition buildNeoXDigest (chainId : Z) (oracleContract : string) (p : signed_payload) (resultBytesHex : string)
    : string + bytes :=
  let f := sp_fulfillment p in
  match x_getAddress X oracleContract with
  | inl e => inl e
  | inr address =>
      match js_BigInt (sp_requestId p) with
      | None => inl ("Cannot convert " +:+ sp_requestId p +:+ " to a BigInt")
      | Some requestId =>
          match x_abi_encode X
            [AbiString FULFILLMENT_DOMAIN; AbiUint chainId; AbiAddress address;
             AbiUint requestId;
             AbiBytes32 (keccak256 (utf8 (fc_appId (sp_context p))));
             AbiBytes32 (keccak256 (utf8 (fc_moduleId (sp_context p))));
             AbiBytes32 (keccak256 (utf8 (fc_operation (sp_context p))));
             AbiBool (ff_success f);
             AbiBytes32 (keccak256 (hex_decode (strip0x resultBytesHex)));
             AbiBytes32 (keccak256 (utf8 (ff_error f)))] with
          | inl e => inl e
          | inr enc => inr (keccak256 enc)
          end
      end
  end.

Definition neox_digest (p : signed_payload) : string + bytes :=
  buildNeoXDigest (cfg_neox_chainId cfg) (cfg_neox_oracleContract cfg) p (resolveResultBytesHex (ff_result (sp_fulfillment p))
                       (ff_result_bytes_base64 (sp_fulfillment p))).

Definition signNeoXFulfillment (p : signed_payload) : rprog string :=
  digest <-- lift (neox_digest p) ;;
  await (EvmSign digest).

(** ** Neo N3 *)

Definition n3_digest (c : chain) (p : signed_payload) : string + bytes :=
  let f := sp_fulfillment p in
  buildFulfillmentDigestBytes (x_sha256 X) (sp_requestId p) (sp_requestType p) (ff_success f)
    (ff_result f) (ff_error f) (ff_result_bytes_base64 f) (resolveDigestBinding cfg c (sp_context p)).

Definition string_or (v : val) (d : string) : string := match v with VStr s => s | _ => d end.

Definition signFulfillmentPayload (c : chain) (p : signed_payload) : rprog string :=
  match c with
  | neox => signNeoXFulfillment p
  | neo_n3 =>
      digestBytes <-- lift (n3_digest c p) ;;
      match x_local_sign X digestBytes with
      | Some signature => Ret signature
      | None =>
          response <-- await (CallNitro "/sign/payload"
            (VObj [("target_chain", VStr (chain_name c)); ("key_role", VStr "oracle_verifier");
                   ("data_hex", VStr (hex_encode digestBytes))])
            (nitro_signerUrl (cfg_nitro cfg)) true) ;;
          let signature := as_string (get (wr_body response) "signature") in
          if negb (wr_ok response) || (signature =? "")%string
          then Throw (string_or (get (wr_body response) "error")
                 ("worker signing failed with status " +:+ num_to_string (wr_status response)))
          else Ret signature
      end
  end.

Definition signEncodedFulfillment (e : event) (fc : fulfillment_context) (f : fulfillment) : rprog string :=
  signFulfillmentPayload (ev_chain e) (SignedPayload (ev_requestId e) (ev_requestType e) fc f).

(** [recomputeFulfillmentDigestHex] *)
Definition recomputeFulfillmentDigestHex (c : chain) (p : signed_payload) : string + string :=
  match c with
  | neox => match neox_digest p with
            | inl e => inl e
            | inr d => inr (normalizePublicKey ("0x" +:+ hex_encode d))
            end
  | neo_n3 => match n3_digest c p with inl e => inl e | inr d => inr (hex_encode d) end
  end.
End signing.
