(* ===== verification/Prepare.v ===== *)
(** * Preparing a fulfillment ([fulfillment.js])

    From a request event to a signed result that is ready to be delivered: the
    lanes of [prepareOracleFulfillment], and the enclave's compute-and-sign call
    with its cross-checks. *)
From S2P Require Import Prelude Numbers Strings Values Encoding Envelope Digest Cbor Attestation Externals State StateFacts Config Effects Persistence World Errors Signing Upkeep.
From Stdlib Require Import QArith.
#[local] Open Scope list_scope.
#[local] Open Scope Z_scope.

Definition TRUST_TIER_ENCLAVE_ATTESTED : string := "enclave-attested".
Definition TRUST_TIER_HOST_UNATTESTED : string := "host-unattested".

(** ** Prepared fulfillments *)

(** [Number(null)] is 0, so an absent status is stored as 0. *)
Definition buildPreparedFulfillmentRetryMeta (p : prepared) : prepared :=
  Prepared (p_success p) (p_result p) (p_result_bytes_base64 p) (p_error p) (p_route p)
    (p_module_id p) (p_operation p) (Some (default 0 (p_worker_status p)))
    (if is_object (p_worker_response p) then p_worker_response p else VNull)
    (p_verification_signature p) (p_trust_tier p ||s TRUST_TIER_ENCLAVE_ATTESTED).

Definition buildPreparedFulfillment (f : fulfillment) (fc : fulfillment_context) (route : string)
    (worker_response : val) (worker_status : option Z) (signature trust_tier : string) : prepared :=
  buildPreparedFulfillmentRetryMeta
    (Prepared (ff_success f) (ff_result f) (ff_result_bytes_base64 f) (ff_error f) route
       (fc_moduleId fc) (fc_operation fc) worker_status (v_or worker_response VNull) signature
       (trust_tier ||s TRUST_TIER_ENCLAVE_ATTESTED)).

(** ** Payloads *)

(** [enrichAutomationExecutionPayload] *)
Definition enrichAutomationExecutionPayload (e : event) (payload : val) : string + val :=
  let automationId := coerceTrim (v_or (get payload "automation_id") (VStr "")) in
  if negb (startsWith (normalizeRequestType (ev_requestType e)) "automation_") then inr payload
  else if (automationId =? "")%string then inr payload
  else
    let text k d := coerceTrim (v_or (get payload k) (VStr d)) in
    match buildUpkeepDispatch
      (VObj [("chain", VStr (chain_name (ev_chain e))); ("automation_id", VStr automationId);
             ("execution_id", VStr (text "execution_id" "" ||s ev_requestId e));
             ("workflow_id", VStr (text "workflow_id" "automation.upkeep"));
             ("request_id", VStr (text "request_id" ""));
             ("idempotency_key", VStr (text "idempotency_key" ""))]) with
    | inl err => inl err
    | inr d =>
        inr (VObj (spread (own_fields payload)
          [("workflow_id", v_or (get payload "workflow_id") (VStr (up_workflow_id d)));
           ("workflow_version", v_or (get payload "workflow_version") (VNum (up_workflow_version d)));
           ("execution_id", v_or (get payload "execution_id") (VStr (up_execution_id d)));
           ("idempotency_key", v_or (get payload "idempotency_key") (VStr (up_idempotency_key d)));
           ("replay_window", v_or (get payload "replay_window") (VStr (up_replay_window d)));
           ("delivery_mode", v_or (get payload "delivery_mode") (VStr (up_delivery_mode d)))]))
    end.

Definition isQueuedAutomationExecutionPayload (payload : val) : bool :=
  let has snake camel :=
    negb (coerceTrim (v_or (v_or (get payload snake) (get payload camel)) (VStr "")) =? "")%string in
  match payload with
  | VObj _ =>
      has "automation_id" "automationId"
      && (has "workflow_id" "workflowId" || has "execution_id" "executionId"
          || has "idempotency_key" "idempotencyKey" || has "delivery_mode" "deliveryMode")
  | _ => false
  end.

(** [a || payload.k || ''] *)
Definition or_prop (a : string) (payload : val) (k : string) : string + val :=
  if (a =? "")%string then
    match getp payload k with inl e => inl e | inr v => inr (v_or v (VStr "")) end
  else inr (VStr a).

Definition buildWorkerPayload (chain requestType : string) (payload : val) (requestId : string)
    (requester callbackContract callbackMethod : string) : string + val :=
  let kernelIntent := resolveKernelIntent requestType in
  match getp payload "target_chain", or_prop requester payload "requester",
        or_prop callbackContract payload "callback_contract",
        or_prop callbackMethod payload "callback_method" with
  | inr target, inr requester, inr callback_contract, inr callback_method =>
      inr (VObj (spread (own_fields payload)
        [("request_id", VStr requestId);
         ("request_source", VStr ("morpheus-relayer:" +:+ chain));
         ("target_chain", v_or target (VStr chain));
         ("legacy_request_type", VStr (legacyRequestType kernelIntent));
         ("kernel_module_id", VStr (moduleId kernelIntent));
         ("kernel_operation", VStr (operation kernelIntent));
         ("requester", requester); ("callback_contract", callback_contract);
         ("callback_method", callback_method)]))
  | inl e, _, _, _ | _, inl e, _, _ | _, _, inl e, _ | _, _, _, inl e => inl e
  end.

Definition isHostUnattestedFetchLane (i : kernel_intent) (payload : val) : bool :=
  (workerRoute i =? "/oracle/smart-fetch")%string
  && negb (coerceTrim (v_or (get payload "url") (VStr "")) =? "")%string.

Definition isAutomationControlRequestType (requestType : string) : bool :=
  let normalized := normalizeRequestType requestType in
  (normalized =? "automation_register")%string || (normalized =? "automation_cancel")%string.

(** [parseBooleanEnv] ([shared/utils.js]) *)
Definition parseBooleanEnv (value : string) (fallback : bool) : bool :=
  let raw := toLowerCase (trim value) in
  let one_of := existsb (String.eqb raw) in
  if one_of ["1"; "true"; "yes"; "on"] then true
  else if one_of ["0"; "false"; "no"; "off"] then false
  else fallback.

Definition num_val (n : jsnum) : val :=
  match n with Fin z => VNum z | _ => VUndef end.

Section prepare.
Context (cfg : config) (X : externals).
#[local] Open Scope prog_scope.

Definition decodePayloadText (rawPayload : string) : val :=
  let text := trim rawPayload in
  if (text =? "")%string then VObj []
  else match x_json_parse X text with
       | Some v => v
       | None => VObj [("raw_payload", VStr text)]
       end.

Definition enclaveSignatureVerificationEnabled : bool :=
  nitro_verifyEnclaveSignature (cfg_nitro cfg)
  || parseBooleanEnv (nitro_env_verify_signature (cfg_nitro cfg)) false.

Definition defaultHostWorkerTrustTier : string :=
  if nitro_enclaveFulfill (cfg_nitro cfg)
  then TRUST_TIER_ENCLAVE_ATTESTED else TRUST_TIER_HOST_UNATTESTED.

(** [buildDecryptBindingRequest] *)
Definition buildDecryptBindingRequest (e : event) (payload : val) (envelope : string) : val :=
  let messageId :=
    v_coalesce (get payload "message_id")
      (v_coalesce (get payload "messageId")
        (v_coalesce (get payload "id") (VStr (ev_messageId e)))) in
  let text := coerceTrim (VStr (js_String messageId)) in
  if (text =? "")%string then VObj [("envelope", VStr envelope)]
  else
    let contract :=
      coerceTrim (v_or (v_or (get payload "contract") (get payload "contract_address")) (VStr ""))
      ||s trim (cfg_neox_messageContract cfg ||s cfg_neox_oracleContract cfg) in
    VObj ([("envelope", VStr envelope); ("message_id", VStr text); ("chain", VStr "neox")]
          ++ if (contract =? "")%string then [] else [("contract", VStr contract)]).

Definition buildEnclaveFulfillmentContext (c : chain) (fc : fulfillment_context) : val :=
  VObj ([("app_id", VStr (fc_appId fc)); ("module_id", VStr (fc_moduleId fc));
         ("operation", VStr (fc_operation fc))]
        ++ match c with
           | neox => [("chain_id", VNum (cfg_neox_chainId cfg));
                      ("oracle_contract", VStr (cfg_neox_oracleContract cfg))]
           | neo_n3 => [("contract_script_hash", VStr (cfg_oracleContract cfg));
                        ("network_magic", num_val (cfg_networkMagic cfg))]
           end).

(** ** The enclave lane *)

Record enclave_result := EnclaveResult {
  er_fulfillment : fulfillment;
  er_signature : string;
  er_trust_tier : string;
  er_worker_response : val;
}.

Definition enclave_payload (e : event) (fc : fulfillment_context) (payload : val) (nonce : string)
    : string + val :=
  match or_prop (ev_requester e) payload "requester",
        or_prop (ev_callbackContract e) payload "callback_contract",
        or_prop (ev_callbackMethod e) payload "callback_method" with
  | inr requester, inr callback_contract, inr callback_method =>
      inr (VObj
        [("chain", VStr (chain_name (ev_chain e))); ("request_type", VStr (ev_requestType e));
         ("request_id", VStr (ev_requestId e));
         ("payload", VObj (spread (own_fields payload)
            [("requester", requester); ("callback_contract", callback_contract);
             ("callback_method", callback_method)]));
         ("payload_text", VStr (ev_payloadText e));
         ("fulfillment_context", buildEnclaveFulfillmentContext (ev_chain e) fc);
         ("nonce", VStr nonce)])
  | inl err, _, _ | _, inl err, _ | _, _, inl err => inl err
  end.

Definition nonempty_string_or (v : val) (d : string) : string := as_string v ||s d.

(** The fulfillment the enclave reports. *)
Definition enclave_fulfillment (body : val) : fulfillment :=
  Fulfillment (truthy (get body "success")) (as_string (get body "result"))
    (as_string (get body "result_bytes_base64")) (as_string (get body "error")).

(** The checks between the enclave's reply and its submission: the digest, the
    signature when that is enabled, and the attestation document. *)
Definition check_enclave_reply (e : event) (fc : fulfillment_context) (body : val)
    (nonce : string) (now : Z) : string + enclave_result :=
  let c := ev_chain e in
  let f := enclave_fulfillment body in
  let returnedDigest := normalizePublicKeyOf (v_or (get body "fulfillment_digest_hex") (VStr "")) in
  match recomputeFulfillmentDigestHex cfg X c (SignedPayload (ev_requestId e) (ev_requestType e) fc f) with
  | inl err => inl err
  | inr digest =>
      let localDigest := normalizePublicKey digest in
      if (returnedDigest =? "")%string || negb (returnedDigest =? localDigest)%string then
        inl ("invalid signature: enclave fulfillment digest mismatch (enclave="
             +:+ (returnedDigest ||s "missing") +:+ " relayer=" +:+ localDigest +:+ ")")
      else
        match (if enclaveSignatureVerificationEnabled
               then verifyEnclaveSignatureAgainstPinnedVerifier (x_neon_verify X)
                      (nitro_pinned_verifier (cfg_nitro cfg)) (chain_name c) body localDigest
               else None) with
        | Some err => inl err
        | None =>
            match verifyEnclaveAttestation (x_sha256 X) (x_buffer_from X) (x_cert_of_der X)
                    (x_cert_of_pem X) (x_issued_by X) (x_es384_verify X)
                    (nitro_attestation (cfg_nitro cfg)) body localDigest nonce now with
            | inl err => inl err
            | inr attestation =>
                inr (EnclaveResult f (as_string (get body "signature"))
                  (if ar_attested attestation
                   then TRUST_TIER_ENCLAVE_ATTESTED else TRUST_TIER_HOST_UNATTESTED)
                  (if is_object (get body "verification") then get body "verification" else body))
            end
        end
  end.

Definition callEnclaveFulfill (e : event) (fc : fulfillment_context) (payload : val)
    : rprog enclave_result :=
  random <-- await (RandomBytes 16) ;;
  let requestNonce := hex_encode random in
  enclavePayload <-- lift (enclave_payload e fc payload requestNonce) ;;
  response <-- await (CallNitro "/oracle/fulfill" enclavePayload
    (nitro_enclaveFulfillUrl (cfg_nitro cfg)) true) ;;
  if negb (wr_ok response) && isTransientWorkerStatus (wr_status response) then
    Throw (buildTransientWorkerError (wr_status response)
      (string_or (get (wr_body response) "error") "enclave fulfill"))
  else
    let body := if is_object (wr_body response) then wr_body response else VObj [] in
    if negb (wr_ok response) then
      Throw (nonempty_string_or (get body "error")
        ("enclave fulfill failed with status " +:+ num_to_string (wr_status response)))
    else if (as_string (get body "signature") =? "")%string then
      Throw (nonempty_string_or (get body "error") "enclave fulfill returned no signature")
    else
      now <-- clock ;;
      lift (check_enclave_reply e fc body requestNonce now).

(** ** The lanes *)

Definition operator_only_error : string :=
  "datafeed requests are operator-only; users should read synchronized on-chain feed data".

Definition sign_encoded := signEncodedFulfillment cfg X.

(** [encodeFulfillmentResult], then signing, then the prepared fulfillment. *)
Definition encode_and_sign (e : event) (fc : fulfillment_context) (r : worker_response)
    (route : string) (trust_tier : string) : rprog prepared :=
  f <-- lift (encodeFulfillmentResult (x_sha256Hex X) (ev_requestType e) r) ;;
  signature <-- sign_encoded e fc f ;;
  Ret (buildPreparedFulfillment f fc route (wr_body r) (Some (wr_status r)) signature trust_tier).

Definition prepare_automation_control (e : event) (fc : fulfillment_context) (payload : val) : rprog prepared :=
  automationResponse <-- await (AutomationControl e payload) ;;
  encode_and_sign e fc (ar_response automationResponse) (ar_route automationResponse) "".

Definition guard_response (e : event) (g : automation_guard) : worker_response :=
  WorkerResponse false 409
    (VObj [("mode", VStr "automation"); ("action", VStr "execute");
           ("automation_id", ag_automation_id g);
           ("status", VStr (ag_job_status g ||s "cancelled"));
           ("chain", VStr (chain_name (ev_chain e))); ("error", VStr (ag_error g))]).

Definition prepare_operator_only (e : event) (fc : fulfillment_context) : rprog prepared :=
  let f := Fulfillment false "" "" operator_only_error in
  signature <-- sign_encoded e fc f ;;
  Ret (buildPreparedFulfillment f fc "operator-only:rejected" VNull None signature "").

Definition prepare_enclave (e : event) (fc : fulfillment_context) (i : kernel_intent) (payload : val)
    : rprog prepared :=
  r <-- callEnclaveFulfill e fc payload ;;
  Ret (buildPreparedFulfillment (er_fulfillment r) fc ("enclave:" +:+ moduleId i)
    (er_worker_response r) (Some 200) (er_signature r) (er_trust_tier r)).

Definition prepare_vrf (e : event) (fc : fulfillment_context) : rprog prepared :=
  random <-- await (RandomBytes 32) ;;
  encode_and_sign e fc
    (WorkerResponse true 200 (VObj [("randomness", VStr (hex_encode random))])) "local:vrf"
    defaultHostWorkerTrustTier.

Definition prepare_decrypt (e : event) (fc : fulfillment_context) (payload : val) : rprog prepared :=
  let envelope := trim (ev_payloadText e) in
  response <-- await (CallNitro "/oracle/decrypt" (buildDecryptBindingRequest e payload envelope)
    (nitro_decryptUrl (cfg_nitro cfg) ||s nitro_signerUrl (cfg_nitro cfg)) false) ;;
  if negb (wr_ok response) && isTransientWorkerStatus (wr_status response) then
    Throw (buildTransientWorkerError (wr_status response)
      (string_or (get (wr_body response) "error") "confidential decrypt"))
  else
    let f :=
      match wr_ok response, get (wr_body response) "plaintext" with
      | true, VStr plaintext => Fulfillment true "" (base64_encode (utf8 plaintext)) ""
      | _, _ => Fulfillment false "" "" (trimOnchainErrorMessage
          (js_String (v_or (get (wr_body response) "error") (VStr "confidential decrypt failed"))))
      end in
    signature <-- sign_encoded e fc f ;;
    Ret (buildPreparedFulfillment f fc "oracle:decrypt" (wr_body response)
      (Some (wr_status response)) signature "").

Definition prepare_worker (e : event) (fc : fulfillment_context) (i : kernel_intent) (payload : val)
    : rprog prepared :=
  let route := resolveWorkerRoute (ev_requestType e) in
  workerPayload <-- lift (buildWorkerPayload (chain_name (ev_chain e)) (ev_requestType e) payload (ev_requestId e)
    (ev_requester e) (ev_callbackContract e) (ev_callbackMethod e)) ;;
  workerResponse <-- await (CallNitro route workerPayload "" true) ;;
  if negb (wr_ok workerResponse) && isTransientWorkerStatus (wr_status workerResponse) then
    Throw (buildTransientWorkerError (wr_status workerResponse)
      (as_string (get (wr_body workerResponse) "error")))
  else
    encode_and_sign e fc workerResponse route
      (if isHostUnattestedFetchLane i payload
       then TRUST_TIER_HOST_UNATTESTED else defaultHostWorkerTrustTier).

(** The guard of a queued automation execution: [Some] when it blocks. *)
Definition automation_block (e : event) (payload : val) : rprog (option automation_guard) :=
  if isQueuedAutomationExecutionPayload payload then
    g <-- await (AutomationGuard e) ;;
    Ret (if ag_blocked g then Some g else None)
  else Ret None.

Definition prepareOracleFulfillment (e : event) : rprog prepared :=
  lift (assertEventIdentifiersClean e) ;;;
  payload <-- lift (enrichAutomationExecutionPayload e (decodePayloadText (ev_payloadText e))) ;;
  let kernelIntent := resolveKernelIntent (ev_requestType e) in
  let fc := resolveEventFulfillmentContext e kernelIntent in
  if isAutomationControlRequestType (ev_requestType e) then prepare_automation_control e fc payload
  else
    blocked <-- automation_block e payload ;;
    match blocked with
    | Some g => encode_and_sign e fc (guard_response e g) (ag_route g) ""
    | None =>
        if isOperatorOnlyRequestType (ev_requestType e) then prepare_operator_only e fc
        else if nitro_enclaveFulfill (cfg_nitro cfg)
                && negb (isHostUnattestedFetchLane kernelIntent payload)
        then prepare_enclave e fc kernelIntent payload
        else if (moduleId kernelIntent =? "random.generate")%string then prepare_vrf e fc
        else if (moduleId kernelIntent =? "confidential.decrypt")%string
        then prepare_decrypt e fc payload
        else prepare_worker e fc kernelIntent payload
    end.
End prepare.
