(* ===== verification/EnclaveCore.v ===== *)
(** * The enclave server: keys, authorization, attestation ([deploy/nitro/enclave-server.mjs])

    What the server keeps is its process environment, where provisioning and the
    key service put its keys, a cache of signers and the outcome of a diagnostic.
    The worker, the attestation device, the key service, price requests and
    randomness are awaited calls; the key service is called synchronously by the
    code, and no theorem here interleaves two requests.  [enclave_lib] collects
    the third-party functions. *)
From stdpp Require Import gmap strings sorting.
From S2P Require Import Prelude Numbers Strings Values Text Encoding Cbor Attestation Externals Effects Doubles Buffers Signers.
#[local] Open Scope list_scope.
#[local] Open Scope Z_scope.

(** An error with the HTTP status attached to it, if there is one. *)
Inductive failure :=
| HttpError (status : Z) (message : string)
| PlainError (message : string).

Definition failure_message (f : failure) : string := match f with HttpError _ m | PlainError m => m end.

Record evm_wallet := EvmWallet { ew_address : string; ew_publicKey : string }.

(** Neon-js, ethers, [JSON.parse] and the digest's functions. *)
Record enclave_lib := EnclaveLib {
  el_account : string -> option neo_account;
  el_address_hash : string -> option string;
  el_wallet_sign : string -> string -> string;
  el_registry : val;
  el_json_parse : string -> option val;
  el_X : externals;
  el_evm_wallet : string -> string + evm_wallet;
  el_evm_sign : string -> bytes -> string;
}.

Inductive ecall : Type -> Type :=
| WorkerHandle (route token : string) (payload : val) : ecall (bool * Z * string)
| NsmAttest (args : list string) : ecall val
| KmsDecrypt (region ciphertext : string) : ecall val
| FetchPrices (url : string) : ecall (Z * string)
| RandomUint32 : ecall Z.

Record enclave_state := EnclaveState {
  es_env : gmap string string;
  es_signers : list (string * neo_account);
  es_kmsDiag : val;
}.

(** A program that ends with a value or an error. *)
Abbreviation eprog A := (prog enclave_state ecall (failure + A)).

Definition ok {A} (x : A) : eprog A := Ret (inr x).
Definition http_error {A} (status : Z) (message : string) : eprog A := Ret (inl (HttpError status message)).
Definition plain_error {A} (message : string) : eprog A := Ret (inl (PlainError message)).

Definition andThen {A B} (p : eprog A) (k : A -> eprog B) : eprog B :=
  bind p (fun r => match r with inl e => Ret (inl e) | inr x => k x end).
Notation "x <-! p ;; k" := (andThen p (fun x => k)) (at level 100, p at next level, right associativity).
Notation "p !;; k" := (andThen p (fun _ => k)) (at level 100, right associativity).

Definition or_throw {A} (r : string + A) : eprog A := match r with inl m => plain_error m | inr x => ok x end.
Definition or_fail {A} (r : failure + A) : eprog A := Ret r.

(** An awaited call; a rejection is an error without a status. *)
Definition call {A} (c : ecall A) : eprog A :=
  bind (attempt (await c)) (fun r => or_throw r).

(** [try { p }] with the outcome as a value. *)
Definition try {A} (p : eprog A) : eprog (failure + A) := bind p (fun r => ok r).

Definition get_state : eprog enclave_state := bind (reads (fun s => s)) ok.
Definition update (f : enclave_state -> enclave_state) : eprog unit := bind (modify f) ok.
Definition now_ms : eprog Z := bind clock ok.

(** ** The environment *)

(** [trimString(process.env[name])]; an unset variable reads "". *)
Definition env_text (env : gmap string string) (name : string) : string := default "" (env !! name).
Definition setting (env : gmap string string) (name : string) : string := trim (env_text env name).

Definition first_setting (env : gmap string string) (names : list string) : string :=
  foldr (fun name rest => setting env name ||s rest) "" names.

Definition normalizeHex (v : val) : string := toLowerCase (strip0x (trimString v)).

(** [/^[0-9a-f]*$/] *)
Definition lower_hex (s : string) : bool :=
  str_forall (fun a => is_decimal_digit a || ((97 <=? code a) && (code a <=? 102))) s.

Definition resolveNetwork (env : gmap string string) : string :=
  normalizeMorpheusNetwork_strict (VStr (env_text env "MORPHEUS_NETWORK" ||s "testnet")).

Definition resolveWorkerAuthToken (env : gmap string string) : string :=
  first_setting env ["NITRO_API_TOKEN"; "NITRO_SHARED_SECRET"].

(** ** Authorization *)

Definition TOKEN_ENV_KEYS : list string :=
  ["NITRO_SIGNER_TOKEN"; "MORPHEUS_RUNTIME_TOKEN"; "NITRO_API_TOKEN"; "NITRO_SHARED_SECRET"].

Definition PLAINTEXT_KEY_ENV_KEYS : list string :=
  ["MORPHEUS_ORACLE_VERIFIER_WIF_MAINNET"; "MORPHEUS_ORACLE_VERIFIER_WIF_TESTNET"; "MORPHEUS_ORACLE_VERIFIER_WIF";
   "MORPHEUS_ORACLE_VERIFIER_PRIVATE_KEY_MAINNET"; "MORPHEUS_ORACLE_VERIFIER_PRIVATE_KEY_TESTNET";
   "MORPHEUS_UPDATER_NEO_N3_WIF_MAINNET"; "MORPHEUS_UPDATER_NEO_N3_WIF_TESTNET"; "MORPHEUS_UPDATER_NEO_N3_WIF";
   "MORPHEUS_UPDATER_NEO_N3_PRIVATE_KEY_MAINNET"; "MORPHEUS_UPDATER_NEO_N3_PRIVATE_KEY_TESTNET";
   "MORPHEUS_NEOX_VERIFIER_PRIVATE_KEY"; "MORPHEUS_NEOX_VERIFIER_KEY"; "NEOX_VERIFIER_PK";
   "MORPHEUS_NEOX_UPDATER_PRIVATE_KEY"; "NEOX_UPDATER_PK"; "MORPHEUS_NEOX_FEED_PRIVATE_KEY"; "NEOX_FEED_PK";
   "NEOX_FEED_PRIVATE_KEY"; "MORPHEUS_ORACLE_KEY_MATERIAL_JSON"; "MORPHEUS_ORACLE_KEY_MATERIAL_BASE64"].

Definition plaintextKeyProvisionAllowed (env : gmap string string) : bool :=
  bool_decide (toLowerCase (setting env "MORPHEUS_ALLOW_PLAINTEXT_KEY_PROVISION") ∈ ["1"; "true"; "yes"; "on"]).

Definition currentTrustedTokens (env : gmap string string) : list string :=
  uniqueOrdered (filter (fun token => token <> "") (setting env <$> TOKEN_ENV_KEYS)).

(** Equal as UTF-8 bytes. *)
Definition timingSafeTokenMatch (candidate trusted : string) : bool := (candidate =? trusted)%string.

Definition extractRequestToken (headers : val) : string :=
  let authorization := trimString (v_or (v_or (get headers "authorization") (get headers "Authorization")) (VStr "")) in
  let bearer := if startsWith (toLowerCase authorization) "bearer " then trim (drop_str 7 authorization) else "" in
  bearer ||s trimString (v_or (get headers "x-nitro-token") (get headers "x-runtime-token")).

Definition assertAuthorized (env : gmap string string) (headers : val) : failure + unit :=
  match currentTrustedTokens env with
  | [] => inr tt
  | trusted =>
      if existsb (timingSafeTokenMatch (extractRequestToken headers)) trusted then inr tt
      else inl (HttpError 401 "unauthorized")
  end.

Definition assertProvisionAuthorized (env : gmap string string) (headers : val) : failure + unit :=
  match currentTrustedTokens env with
  | _ :: _ => assertAuthorized env headers
  | [] =>
      let bootstrap := setting env "MORPHEUS_ENCLAVE_BOOTSTRAP_TOKEN" in
      if (bootstrap =? "")%string
      then inl (HttpError 401 "provision requires MORPHEUS_ENCLAVE_BOOTSTRAP_TOKEN or a runtime token")
      else if timingSafeTokenMatch (extractRequestToken headers) bootstrap then inr tt
      else inl (HttpError 401 "unauthorized")
  end.

(** ** Roles *)

Definition normalizeSignerRole (value : val) : string :=
  let role := toLowerCase (trimString value) in
  if (role =? "oracle_verifier")%string || (role =? "verifier")%string then "oracle_verifier"
  else if bool_decide (role ∈ ["updater"; "relayer"; "worker"]) then role else "updater".

Definition roleHasKmsCiphertext (env : gmap string string) (role : string) : bool :=
  if (role =? "oracle_verifier")%string then negb (setting env "MORPHEUS_ORACLE_VERIFIER_KMS_CIPHERTEXT_BASE64" =? "")%string
  else if (role =? "updater")%string then negb (setting env "MORPHEUS_UPDATER_NEO_N3_KMS_CIPHERTEXT_BASE64" =? "")%string
  else false.

Definition roleKeySource (env : gmap string string) (role : string) (materialized : bool) : string :=
  if negb materialized then "none" else if roleHasKmsCiphertext env role then "kms_attested" else "host_plaintext".

Section enclave.
Context (L : enclave_lib).

Definition role_report_of (env : gmap string string) (role : string) : string + role_report :=
  reportPinnedNeoN3Role (el_account L) (el_address_hash L) (env_text env) (el_registry L)
    (VStr (resolveNetwork env)) role (EnvObject (env_text env)) false.

Definition identity_val (i : signer_identity) : val :=
  VObj [("address", VStr (id_address i)); ("script_hash", VStr (id_script_hash i)); ("public_key", VStr (id_public_key i))].

(** [report.selected_identity || report.pinned || other] *)
Definition report_identity (r : role_report) (other : val) : val :=
  match rr_selected_identity r with Some i => identity_val i | None => v_or (rr_pinned r) other end.

Definition has_key (r : role_report) : bool := match rr_materialized r with Some _ => true | None => false end.

Definition role_health (env : gmap string string) (role : string) : string + bool * val :=
  match role_report_of env role with
  | inl e => inl e
  | inr r =>
      let good := rr_ok r && has_key r in
      inr (good, VObj [("role", VStr role); ("ok", VBool good); ("identity", report_identity r VNull);
                       ("issues", VArr (VStr <$> rr_issues r)); ("key_source", VStr (roleKeySource env role (has_key r)))])
  end.

Definition signerRolesHealth (env : gmap string string) : string + list (bool * val) :=
  match role_health env "updater", role_health env "oracle_verifier" with
  | inl e, _ | _, inl e => inl e
  | inr updater, inr verifier => inr [updater; verifier]
  end.

(** ** Signers

    The cache holds the account of a role of a network. *)
Definition clear_signers (s : enclave_state) : enclave_state := EnclaveState (es_env s) [] (es_kmsDiag s).
Definition set_env (key value : string) (s : enclave_state) : enclave_state :=
  EnclaveState (<[key := value]> (es_env s)) (es_signers s) (es_kmsDiag s).
Definition set_kms_diag (v : val) (s : enclave_state) : enclave_state := EnclaveState (es_env s) (es_signers s) v.

Definition find_signer (key : string) (cache : list (string * neo_account)) : option neo_account :=
  snd ∘ snd <$> list_find (fun e => e.1 = key) cache.

(** The account of the secret a report selected. *)
Definition report_account (r : role_report) : string + option neo_account :=
  match rr_materialized r with
  | Some m =>
      if rr_ok r then
        match el_account L (mt_private_key m ||s mt_wif m) with Some a => inr (Some a) | None => inl "invalid private key" end
      else inr None
  | None => inr None
  end.

Definition resolvePinnedSigner (role : string) : eprog (option neo_account) :=
  s <-! get_state ;;
  let cacheKey := resolveNetwork (es_env s) +:+ ":" +:+ role in
  match find_signer cacheKey (es_signers s) with
  | Some a => ok (Some a)
  | None =>
      report <-! or_throw (role_report_of (es_env s) role) ;;
      found <-! or_throw (report_account report) ;;
      match found with
      | None => ok None
      | Some a =>
          update (fun s => EnclaveState (es_env s) (es_signers s ++ [(cacheKey, a)]) (es_kmsDiag s)) !;;
          ok (Some a)
      end
  end.

Record enclave_signature := EnclaveSignature { eg_signature : string; eg_public_key : string }.

Definition signNeoN3OracleVerifier (digestHex : string) : eprog enclave_signature :=
  resolved <-! resolvePinnedSigner "oracle_verifier" ;;
  match resolved with
  | None => plain_error "oracle_verifier signer is not configured or does not match pinned identity"
  | Some a => ok (EnclaveSignature (el_wallet_sign L digestHex (na_privateKey a)) (na_publicKey a))
  end.

Definition resolveUpdaterIdentity : eprog neo_account :=
  resolved <-! resolvePinnedSigner "updater" ;;
  match resolved with
  | None => http_error 503 "updater signer is not configured or does not match pinned identity"
  | Some a => ok a
  end.

Definition signUpdaterMessage (messageHex : string) : eprog enclave_signature :=
  a <-! resolveUpdaterIdentity ;;
  ok (EnclaveSignature (el_wallet_sign L (normalizeHex (VStr messageHex)) (na_privateKey a)) (na_publicKey a)).

(** A role's report, or the 503 of a role that has no key. *)
Definition pinned_report (role : string) : eprog role_report :=
  s <-! get_state ;;
  report <-! or_throw (role_report_of (es_env s) role) ;;
  if rr_ok report && has_key report then ok report
  else http_error 503 (role +:+ " signer is not configured or does not match pinned identity").

(** [payload.a || payload.b || payload.c] *)
Definition first_field (payload : val) (a b c : string) : string + val :=
  match getp payload a with
  | inl e => inl e
  | inr v => inr (v_or v (v_or (get payload b) (get payload c)))
  end.

Definition handleSignPayload (payload : val) : eprog val :=
  roleField <-! or_throw (first_field payload "key_role" "dstack_key_role" "role") ;;
  let role := normalizeSignerRole roleField in
  let dataHex := normalizeHex (v_or (get payload "data_hex") (v_or (get payload "message_hex") (VStr ""))) in
  if (dataHex =? "")%string || negb (lower_hex dataHex) || negb (Nat.even (String.length dataHex))
  then http_error 400 "data_hex is required"
  else
    report <-! pinned_report role ;;
    found <-! or_throw (report_account report) ;;
    s <-! get_state ;;
    match found with
    | None => plain_error "invalid private key"
    | Some a =>
        let signature := VStr (el_wallet_sign L dataHex (na_privateKey a)) in
        ok (VObj [("status", VStr "ok"); ("network", VStr (resolveNetwork (es_env s))); ("role", VStr role);
                  ("signature", signature); ("signature_hex", signature); ("public_key", VStr (na_publicKey a));
                  ("address", VStr (na_address a)); ("script_hash", VStr ("0x" +:+ na_scriptHash a));
                  ("key_source", VStr "nitro_explicit_pinned")])
    end.

Definition handleKeysDerived (payload : val) : eprog val :=
  roleField <-! or_throw (first_field payload "role" "key_role" "dstack_key_role") ;;
  let role := normalizeSignerRole roleField in
  report <-! pinned_report role ;;
  s <-! get_state ;;
  let identity := report_identity report (VObj []) in
  let field k := v_or (get identity k) VNull in
  let neo := VObj [("address", field "address"); ("script_hash", field "script_hash");
                   ("public_key", v_or (get identity "public_key") (v_or (VStr (rr_public_key report)) VNull))] in
  ok (VObj [("status", VStr "ok"); ("network", VStr (resolveNetwork (es_env s))); ("role", VStr role);
            ("derived", VObj [("neo_n3", neo)]); ("neo_n3", neo); ("key_source", VStr "nitro_explicit_pinned")]).

(** ** Keys from the key service *)

Definition kms_region (env : gmap string string) : string :=
  setting env "AWS_REGION" ||s (setting env "NITRO_AWS_REGION" ||s "us-east-1").

(** The plaintext of a ciphertext: [None] when the call fails or its answer is
    unusable. *)
Definition kms_plaintext (ciphertext : string) : eprog (option string) :=
  s <-! get_state ;;
  outcome <-! try (call (KmsDecrypt (kms_region (es_env s)) ciphertext)) ;;
  match outcome with
  | inl _ => ok None
  | inr parsed =>
      if truthy (get parsed "ok") && truthy (get parsed "plaintext_b64") then
        bytes <-! or_throw (buffer_base64 (get parsed "plaintext_b64")) ;;
        ok (Some (utf8_decode bytes))
      else ok None
  end.

Definition runKmsDiag : eprog unit :=
  s <-! get_state ;;
  let ct := setting (es_env s) "MORPHEUS_ORACLE_KMS_DIAG_CIPHERTEXT" in
  let report fields := update (set_kms_diag (VObj fields)) in
  if (ct =? "")%string then report [("state", VStr "no_diag_ciphertext")]
  else
    outcome <-! try (call (KmsDecrypt (kms_region (es_env s)) ct)) ;;
    match outcome with
    | inl e => report [("state", VStr "error"); ("message", VStr (slice_to (failure_message e) 700))]
    | inr parsed =>
        report [("state", VStr (if truthy (get parsed "ok") && truthy (get parsed "plaintext_b64") then "ok" else "bad_output"))]
    end.

Definition materializeOracleKeyFromKms : eprog unit :=
  s <-! get_state ;;
  let ciphertext := setting (es_env s) "MORPHEUS_ORACLE_KMS_CIPHERTEXT_BASE64" in
  if (ciphertext =? "")%string then ok tt
  else if negb (first_setting (es_env s) ["MORPHEUS_ORACLE_KEY_MATERIAL_JSON"; "MORPHEUS_ORACLE_KEY_MATERIAL_BASE64"] =? "")%string
  then ok tt
  else
    plaintext <-! kms_plaintext ciphertext ;;
    match plaintext with
    | Some text => update (set_env "MORPHEUS_ORACLE_KEY_MATERIAL_JSON" text)
    | None => ok tt
    end.

(** The key in a plaintext: a JSON envelope is searched for the first of the
    fields that is set. *)
Definition plaintext_key (jsonFields : list string) (text : string) : string :=
  let plaintext := trim text in
  if startsWith plaintext "{" then
    match el_json_parse L plaintext with
    | Some obj => foldr (fun f rest => trimString (get obj f) ||s rest) "" jsonFields
    | None => ""
    end
  else plaintext.

Record kms_key := KmsKey {
  kk_ciphertext : string;
  kk_alreadySet : list string;
  kk_target : string;
  kk_jsonFields : list string;
}.

Definition materializeNeoXSecpKeyFromKms (k : kms_key) : eprog unit :=
  s <-! get_state ;;
  let ciphertext := setting (es_env s) (kk_ciphertext k) in
  if (ciphertext =? "")%string then ok tt
  else if negb (first_setting (es_env s) (kk_alreadySet k) =? "")%string then ok tt
  else
    plaintext <-! kms_plaintext ciphertext ;;
    match plaintext with
    | None => ok tt
    | Some text =>
        let privateKey := plaintext_key (kk_jsonFields k) text in
        if (privateKey =? "")%string then ok tt
        else update (set_env (kk_target k) privateKey) !;; update clear_signers
    end.

Definition neox_verifier_key : kms_key := KmsKey "MORPHEUS_NEOX_VERIFIER_KMS_CIPHERTEXT_BASE64"
  ["MORPHEUS_NEOX_VERIFIER_PRIVATE_KEY"; "MORPHEUS_NEOX_VERIFIER_KEY"; "NEOX_VERIFIER_PK"]
  "MORPHEUS_NEOX_VERIFIER_PRIVATE_KEY" ["neox_verifier_private_key"; "neoxVerifierPrivateKey"; "private_key"].

Definition neox_feed_key : kms_key := KmsKey "MORPHEUS_NEOX_FEED_KMS_CIPHERTEXT_BASE64"
  ["MORPHEUS_NEOX_FEED_PRIVATE_KEY"; "NEOX_FEED_PK"; "NEOX_FEED_PRIVATE_KEY"]
  "MORPHEUS_NEOX_FEED_PRIVATE_KEY" ["neox_feed_private_key"; "neoxFeedPrivateKey"; "private_key"].

Definition n3_verifier_key : kms_key := KmsKey "MORPHEUS_ORACLE_VERIFIER_KMS_CIPHERTEXT_BASE64"
  ["MORPHEUS_ORACLE_VERIFIER_WIF_MAINNET"; "MORPHEUS_ORACLE_VERIFIER_PRIVATE_KEY_MAINNET"; "MORPHEUS_ORACLE_VERIFIER_WIF"]
  "MORPHEUS_ORACLE_VERIFIER_WIF_MAINNET" ["wif"; "oracle_verifier_wif"; "private_key"].

Definition n3_updater_key : kms_key := KmsKey "MORPHEUS_UPDATER_NEO_N3_KMS_CIPHERTEXT_BASE64"
  ["MORPHEUS_UPDATER_NEO_N3_WIF_MAINNET"; "MORPHEUS_UPDATER_NEO_N3_PRIVATE_KEY_MAINNET"; "MORPHEUS_UPDATER_NEO_N3_WIF"]
  "MORPHEUS_UPDATER_NEO_N3_WIF_MAINNET" ["wif"; "updater_wif"; "private_key"].

(** ** Provisioning *)

Definition sort_names (l : list string) : list string := merge_sort String.le l.

(** [/^[A-Z0-9_]{1,96}$/] *)
Definition env_key (key : string) : bool :=
  (1 <=? str_length key) && (str_length key <=? 96)
  && str_forall (fun a => ((65 <=? code a) && (code a <=? 90)) || is_decimal_digit a || (code a =? 95)) key.

(** [payload?.env] when it is an object. *)
Definition provision_env (payload : val) : list (string * val) := obj_fields (get payload "env").

Definition rejected_keys (entries : list (string * val)) : list string :=
  sort_names ((filter (fun kv => kv.1 ∈ PLAINTEXT_KEY_ENV_KEYS /\ trimString kv.2 <> "") entries).*1).

(** The entries that are written to the environment, trimmed. *)
Definition applied_entries (entries : list (string * val)) : list (string * string) :=
  omap (fun kv => if env_key kv.1 && negb (trimString kv.2 =? "")%string then Some (kv.1, trimString kv.2) else None) entries.

Definition apply_entries (applied : list (string * string)) (s : enclave_state) : enclave_state :=
  let s := foldl (fun s kv => set_env kv.1 kv.2 s) s applied in
  match applied with [] => s | _ => clear_signers s end.

Definition handleProvision (payload : val) : eprog val :=
  let entries := provision_env payload in
  s <-! get_state ;;
  if negb (plaintextKeyProvisionAllowed (es_env s)) && negb (bool_decide (rejected_keys entries = [])) then
    http_error 403 ("plaintext signing-key provisioning is disabled; provide the *_KMS_CIPHERTEXT_BASE64 "
      +:+ "variant instead (set MORPHEUS_ALLOW_PLAINTEXT_KEY_PROVISION=1 to override). Rejected: "
      +:+ join ", " (rejected_keys entries))
  else
    let applied := applied_entries entries in
    update (apply_entries applied) !;;
    materializeOracleKeyFromKms !;;
    materializeNeoXSecpKeyFromKms neox_verifier_key !;;
    materializeNeoXSecpKeyFromKms neox_feed_key !;;
    materializeNeoXSecpKeyFromKms n3_verifier_key !;;
    materializeNeoXSecpKeyFromKms n3_updater_key !;;
    runKmsDiag !;;
    s <-! get_state ;;
    roles <-! or_throw (signerRolesHealth (es_env s)) ;;
    ok (VObj [("status", VStr (if forallb fst roles then "ok" else "degraded"));
              ("runtime", VStr "morpheus-enclave-server"); ("network", VStr (resolveNetwork (es_env s)));
              ("provisioned", VBool true); ("env_keys", VArr (VStr <$> sort_names applied.*1));
              ("roles", VArr (snd <$> roles))]).

(** ** Compute *)

(** The body of an answer; one that is not JSON is kept as text. *)
Definition answer_body (text : string) : val :=
  if (text =? "")%string then VObj [] else default (VObj [("raw", VStr text)]) (el_json_parse L text).

Definition computeViaWorker (route : string) (workerPayload : val) : eprog (bool * Z * val) :=
  s <-! get_state ;;
  reply <-! call (WorkerHandle route (resolveWorkerAuthToken (es_env s)) workerPayload) ;;
  let '(good, status, text) := reply in
  ok (good, status, answer_body text).

(** ** Attestation *)

(** The entries of [payload.pcrs], with the text of each value. *)
Definition pcr_entries (map : cval) : list (string * string) :=
  let text v := match v with CBuf bs => hex_encode bs | CText t => normalizeHex (VStr (utf8_decode t)) | _ => "" end in
  match map with
  | CMap kvs => (fun kv => (utf8_decode kv.1, text kv.2)) <$> kvs
  | CArr l => imap (fun i v => (num_to_string (Z.of_nat i), text v)) l
  | _ => []
  end.

Definition extractAttestationPcrs (docBase64 : val) : list (string * val) :=
  match decodeCoseSign1 (x_buffer_from (el_X L)) (base64_decode (js_String (v_or docBase64 (VStr "")))) with
  | Got c _ =>
      foldl (fun out kv => if (kv.2 =? "")%string then out else assoc_set ("pcr" +:+ kv.1) (VStr kv.2) out) []
        (pcr_entries (cget (cose_payload c) "pcrs"))
  | _ => []
  end.

(** The role and its public key, blank when it cannot be resolved. *)
Definition resolveAttestationPublicKey (env : gmap string string) (role : val) : string * string :=
  let normalized := if (toLowerCase (trimString role) =? "updater")%string then "updater" else "oracle_verifier" in
  (normalized, match role_report_of env normalized with inr r => normalizeHex (VStr (rr_public_key r)) | inl _ => "" end).

Definition even_hex (s : string) : bool := lower_hex s && Nat.even (String.length s).

(** The commitment of a binding: the SHA-256 of its bytes. *)
Definition user_data_of (digestSource : string) : string :=
  if (digestSource =? "")%string then "" else hex_encode (x_sha256 (el_X L) (hex_decode digestSource)).

Definition flag_arg (flag value : string) : list string := if (value =? "")%string then [] else [flag; value].

Definition text_or_null (s : string) : val := if (s =? "")%string then VNull else VStr s.

Definition handleAttestation (payload : val) : eprog val :=
  first <-! or_throw (getp payload "fulfillment_digest_hex") ;;
  let field k rest := v_or (get payload k) rest in
  let digestSource := normalizeHex (v_or first (field "fulfillment_digest" (field "tx_message_hex" (field "tx_message"
    (field "user_data" (field "user_data_hex" (VStr ""))))))) in
  let nonceHex := normalizeHex (field "nonce" (field "report_data" (field "report_data_hex" (VStr "")))) in
  if negb (even_hex nonceHex) then http_error 400 "nonce must be even-length hex"
  else if negb (even_hex digestSource) then http_error 400 "binding (digest/tx_message/user_data) must be even-length hex"
  else
    s <-! get_state ;;
    let userDataHex := user_data_of digestSource in
    let '(role, publicKeyHex) := resolveAttestationPublicKey (es_env s) (field "role" (get payload "key_role")) in
    outcome <-! try (call (NsmAttest (flag_arg "--user-data" userDataHex ++ flag_arg "--nonce" nonceHex
                                      ++ flag_arg "--public-key" publicKeyHex))) ;;
    match outcome with
    | inl e =>
        http_error 503 ("nsm attestation helper failed: " +:+ (failure_message e ||s "spawn failed"))
    | inr parsed =>
        if negb (is_object parsed) then http_error 503 "nsm attestation helper returned invalid output"
        else if negb (truthy (get parsed "ok")) then
          http_error 503 (js_String (v_or (get parsed "error") (VStr "nsm attestation failed")))
        else
          s <-! get_state ;;
          let document := v_or (get parsed "attestation_b64") (v_or (get parsed "attestation_document") VNull) in
          let pcrs := if truthy document then extractAttestationPcrs document else [] in
          ok (VObj ([("status", VStr "ok"); ("runtime", VStr "morpheus-enclave-server");
                     ("network", VStr (resolveNetwork (es_env s))); ("role", VStr role);
                     ("format", VStr "cose-sign1-cbor-base64"); ("public_key", text_or_null publicKeyHex);
                     ("nonce", text_or_null nonceHex); ("user_data_hex", text_or_null userDataHex);
                     ("document_len", v_or (get parsed "document_len") VNull); ("attestation_document", document)]
                    ++ match pcrs with [] => [] | _ => [("pcrs", VObj pcrs)] end
                    ++ [("trust_tier", VStr "enclave-attested")]))
    end.

(** ** Health *)

(** Whether the server is ready, and its report. *)
Definition handleHealth : eprog (bool * val) :=
  s <-! get_state ;;
  let env := es_env s in
  let verifier := role_report_of env "oracle_verifier" in
  let verifierMaterialized := match verifier with inr r => has_key r | inl _ => false end in
  let updaterMaterialized := match role_report_of env "updater" with inr r => has_key r | inl _ => false end in
  let signerOk := match verifier with inr r => rr_ok r && has_key r | inl _ => false end in
  let publicKey := match verifier with inr r => rr_public_key r | inl _ => "" end in
  let signerError :=
    match verifier with inr r => if rr_ok r && has_key r then "" else join "; " (rr_issues r) | inl e => e end in
  ok (signerOk,
      VObj ([("status", VStr (if signerOk then "ok" else "degraded")); ("ready", VBool signerOk);
             ("runtime", VStr "morpheus-enclave-server"); ("network", VStr (resolveNetwork env));
             ("checks", VObj ([("compute", VBool true); ("signer", VBool signerOk)]
                ++ if (publicKey =? "")%string then [] else [("oracle_verifier_public_key", VStr publicKey)]));
             ("key_source", VObj [("oracle_verifier", VStr (roleKeySource env "oracle_verifier" verifierMaterialized));
                                  ("updater", VStr (roleKeySource env "updater" updaterMaterialized))]);
             ("plaintext_key_provision_allowed", VBool (plaintextKeyProvisionAllowed env)); ("kms_diag", es_kmsDiag s)]
            ++ if (signerError =? "")%string then [] else [("signer_error", VStr signerError)])).
End enclave.
