(* ===== verification/EnclaveFulfill.v ===== *)
(** * Atomic compute and sign ([deploy/nitro/enclave-server.mjs], [/oracle/fulfill])

    The enclave has the worker compute the answer of a request, encodes it as the
    relayer does, builds the fulfillment digest, signs it, and has the device
    attest the digest. *)
From stdpp Require Import gmap strings.
From S2P Require Import Prelude Numbers Strings Values Text Encoding Envelope Digest Cbor Attestation Externals State Config Effects Persistence World Errors Doubles Buffers Signing Prepare Signers EnclaveCore.
#[local] Open Scope list_scope.
#[local] Open Scope Z_scope.

Definition normalizeChain (value : val) : string :=
  let chain := toLowerCase (trimString value) in
  if bool_decide (chain ∈ ["neox"; "legacy"]) then chain else "neo_n3".

(** [String(a ?? b ?? '')] *)
Definition text_of (a b : val) : string := js_String (v_coalesce a (v_coalesce b (VStr ""))).

(** [Number(v)] as the digest reads it: finite numbers in whole units. *)
Definition magic_of (v : val) : jsnum :=
  match val_double v with
  | DFin n => Fin (Z.quot n ONE)
  | DNaN => NaN
  | DInf negative => if negative then NInf else PInf
  end.

Definition isHostUnattestedLane (i : kernel_intent) (payload : val) : bool :=
  (workerRoute i =? "/oracle/smart-fetch")%string && negb (trimString (v_or (get payload "url") (VStr "")) =? "")%string.

Definition host_unattested_reply : val :=
  VObj [("status", VStr "host-unattested"); ("success", VBool false); ("result", VStr "");
        ("error", VStr "arbitrary-url fetch is host-tier (not attested in-enclave)"); ("signature", VNull);
        ("public_key", VNull); ("fulfillment_digest_hex", VNull); ("verification", VNull);
        ("trust_tier", VStr "host-unattested")].

(** What a request asks for. *)
Record fulfill_request := FulfillRequest {
  fr_chain : string;
  fr_requestType : string;
  fr_requestId : string;
  fr_payload : val;
  fr_context : val;
  fr_nonce : string;
  fr_payloadText : val;
}.

Definition read_request (body : val) : failure + fulfill_request :=
  let requestType := trimString (v_or (get body "request_type") (v_or (get body "requestType") (VStr ""))) in
  let requestId := trimString (v_coalesce (get body "request_id") (v_coalesce (get body "requestId") (VStr ""))) in
  let payload := match get body "payload" with VObj kvs => VObj kvs | _ => VObj [] end in
  let context := if is_object (get body "fulfillment_context") then get body "fulfillment_context" else VObj [] in
  if (requestType =? "")%string then inl (HttpError 400 "request_type is required")
  else if (requestId =? "")%string then inl (HttpError 400 "request_id is required")
  else inr (FulfillRequest (normalizeChain (get body "chain")) requestType requestId payload context
              (normalizeHex (v_or (get body "nonce") (VStr "")))
              (v_coalesce (get body "payload_text")
                 (v_coalesce (get payload "payload_text") (v_coalesce (get payload "envelope") (VStr ""))))).

(** The kernel envelope the digest binds. *)
Definition request_context (r : fulfill_request) : fulfillment_context :=
  let i := resolveKernelIntent (fr_requestType r) in
  let field := get (fr_context r) in
  FulfillmentContext (text_of (field "app_id") (field "appId"))
    (text_of (field "module_id") (field "moduleId") ||s moduleId i)
    (js_String (v_coalesce (field "operation") (VStr "")) ||s operation i).

Definition request_binding (r : fulfill_request) : digest_context :=
  let fc := request_context r in
  DigestContext (fr_chain r) (fc_appId fc) (fc_moduleId fc) (fc_operation fc)
    (trimString (v_or (get (fr_context r) "contract_script_hash") (v_or (get (fr_context r) "contractScriptHash") (VStr ""))))
    (magic_of (v_coalesce (get (fr_context r) "network_magic") (get (fr_context r) "networkMagic"))).

Record neox_config := NeoXConfig { nx_chainId : dbl; nx_oracleContract : string; nx_privateKey : string }.

Section fulfill.
Context (L : enclave_lib).

(** What the worker is asked, by the lane of the request: the route and its payload. *)
Definition worker_request (r : fulfill_request) : string + string * val :=
  let payload := fr_payload r in
  if (moduleId (resolveKernelIntent (fr_requestType r)) =? "confidential.decrypt")%string then
    let envelope := trimString (v_or (fr_payloadText r) (v_or (get payload "envelope") (VStr ""))) in
    inr ("/oracle/decrypt", VObj (assoc_set "envelope" (VStr envelope) (obj_fields payload)))
  else
    let text k := trimString (v_or (get payload k) (VStr "")) in
    match buildWorkerPayload (fr_chain r) (fr_requestType r) payload (fr_requestId r)
            (text "requester") (text "callback_contract") (text "callback_method") with
    | inl e => inl e
    | inr workerPayload => inr (resolveWorkerRoute (fr_requestType r), workerPayload)
    end.

Definition computeWorkerResponse (r : fulfill_request) : eprog worker_response :=
  request <-! or_throw (worker_request r) ;;
  reply <-! computeViaWorker L (fst request) (snd request) ;;
  let '(good, status, body) := reply in
  ok (WorkerResponse good status body).

(** ** Signing *)

Definition resolveNeoXConfig (env : gmap string string) (context : val) : string + neox_config :=
  let chainId := val_double (v_coalesce (get context "chain_id") (get context "chainId")) in
  let oracleContract := trimString (v_or (get context "oracle_contract") (v_or (get context "oracleContract") (VStr ""))) in
  let first names := foldr (fun name rest => env_text env name ||s rest) "" names in
  let verifier := trim (first ["MORPHEUS_NEOX_VERIFIER_PRIVATE_KEY"; "MORPHEUS_NEOX_VERIFIER_KEY"; "NEOX_VERIFIER_PK"]) in
  let updater := trim (first ["MORPHEUS_NEOX_UPDATER_PRIVATE_KEY"; "NEOX_UPDATER_PK"]) in
  if negb (dfinite chainId) || dle chainId (DFin 0) then inl "neox fulfillment_context.chain_id is required"
  else if (oracleContract =? "")%string then inl "neox fulfillment_context.oracle_contract is required"
  else if (verifier =? "")%string && (updater =? "")%string then inl "neox verifier private key is not configured"
  else inr (NeoXConfig chainId oracleContract (verifier ||s updater)).

(** The digest of Neo X and its signature. *)
Definition sign_neox (r : fulfill_request) (f : fulfillment) : eprog (string * enclave_signature) :=
  s <-! get_state ;;
  config <-! or_throw (resolveNeoXConfig (es_env s) (fr_context r)) ;;
  chainId <-! or_throw (dbl_BigInt (nx_chainId config)) ;;
  digest <-! or_throw (buildNeoXDigest (el_X L) chainId (nx_oracleContract config)
    (SignedPayload (fr_requestId r) (fr_requestType r) (request_context r) f)
    (resolveResultBytesHex (ff_result f) (ff_result_bytes_base64 f))) ;;
  wallet <-! or_throw (el_evm_wallet L (nx_privateKey config)) ;;
  ok ("0x" +:+ hex_encode digest, EnclaveSignature (el_evm_sign L (nx_privateKey config) digest) (ew_publicKey wallet)).

(** The digest of Neo N3 and its signature. *)
Definition sign_n3 (r : fulfill_request) (f : fulfillment) : eprog (string * enclave_signature) :=
  digest <-! or_throw (buildFulfillmentDigestBytes (x_sha256 (el_X L)) (fr_requestId r) (fr_requestType r) (ff_success f)
    (ff_result f) (ff_error f) (ff_result_bytes_base64 f) (request_binding r)) ;;
  signed <-! signNeoN3OracleVerifier L (hex_encode digest) ;;
  ok (hex_encode digest, signed).

Definition sign_fulfillment (r : fulfill_request) (f : fulfillment) : eprog (string * enclave_signature) :=
  if (fr_chain r =? "neox")%string then sign_neox r f else sign_n3 r f.

(** The fields that tell about the attestation of the digest. *)
Definition attestation_fields (outcome : failure + val) : list (string * val) :=
  match outcome with
  | inl e => [("attestation_error", VStr (slice_to (failure_message e) 300))]
  | inr attestation =>
      let field k := get attestation k in
      if truthy (field "attestation_document") then
        [("attestation_doc_base64", field "attestation_document");
         ("attestation_user_data_hex", v_or (field "user_data_hex") VNull)]
        ++ (if truthy (field "public_key") then [("attestation_public_key", field "public_key")] else [])
        ++ match field "pcrs" with VObj (_ :: _ as pcrs) => [("attestation_pcrs", VObj pcrs)] | _ => [] end
      else []
  end.

Definition fulfill_reply (r : fulfill_request) (f : fulfillment) (verification : val) (digestHex : string)
    (signed : enclave_signature) : list (string * val) :=
  [("status", VStr "ok"); ("success", VBool (ff_success f)); ("result", VStr (ff_result f)); ("error", VStr (ff_error f));
   ("signature", VStr (eg_signature signed)); ("public_key", VStr (eg_public_key signed));
   ("fulfillment_digest_hex", VStr digestHex); ("verification", verification); ("trust_tier", VStr "enclave-attested")]
  ++ (if (ff_result_bytes_base64 f =? "")%string then [] else [("result_bytes_base64", VStr (ff_result_bytes_base64 f))])
  ++ (if (fr_nonce r =? "")%string then [] else [("nonce", VStr (fr_nonce r))]).

Definition attest_digest (r : fulfill_request) (digestHex : string) : eprog (failure + val) :=
  try (handleAttestation L (VObj ([("fulfillment_digest_hex", VStr digestHex)]
         ++ (if (fr_nonce r =? "")%string then [] else [("nonce", VStr (fr_nonce r))])
         ++ [("role", VStr "oracle_verifier")]))).

Definition handleOracleFulfill (body : val) : eprog val :=
  r <-! or_fail (read_request body) ;;
  if isHostUnattestedLane (resolveKernelIntent (fr_requestType r)) (fr_payload r) then ok host_unattested_reply
  else
    workerResponse <-! computeWorkerResponse r ;;
    f <-! or_throw (encodeFulfillmentResult (x_sha256Hex (el_X L)) (fr_requestType r) workerResponse) ;;
    let verification := buildOnchainResultEnvelope (x_sha256Hex (el_X L)) (fr_requestType r) workerResponse "" in
    signed <-! sign_fulfillment r f ;;
    let '(digestHex, signature) := signed in
    attestation <-! attest_digest r digestHex ;;
    ok (VObj (fulfill_reply r f verification digestHex signature ++ attestation_fields attestation)).
End fulfill.
