(* ===== verification/EnclaveFeed.v ===== *)
(** * Signing price updates in the enclave ([deploy/nitro/enclave-server.mjs], [/feed/sign])

    Prices are fetched, planned and scaled as the feed pusher does, and the
    transaction of the update is built and signed, for Neo N3 with the updater's
    key and for Neo X with the feed key.  [magic] and [limits] are the settings
    read when the server starts. *)
From stdpp Require Import gmap strings.
From S2P Require Import Prelude Numbers Strings Values Text Encoding Externals Effects Doubles Buffers Signers FeedPlan EnclaveCore EnclaveFulfill.
#[local] Open Scope list_scope.
#[local] Open Scope Z_scope.

(** ** Planning *)

Definition non_nan_or_0 (x : dbl) : dbl := match x with DNaN => DFin 0 | _ => x end.

Definition state_number (v : val) : dbl := non_nan_or_0 (val_double (v_coalesce v (VNum 0))).

(** The records of a request, by symbol. *)
Definition normalizeOnchainState (rawState : val) : list (string * feed_cur) :=
  omap (fun kv =>
    if is_object kv.2 then
      Some (kv.1, FeedCur (dmax (state_number (get kv.2 "round")) (DFin 0)) (state_number (get kv.2 "price"))
                    (dmax (state_number (v_coalesce (get kv.2 "timestamp") (get kv.2 "ts"))) (DFin 0)))
    else None)
  (obj_fields rawState).

Definition record_for (state : list (string * feed_cur)) (s : string) : feed_cur :=
  match snd <$> list_find (fun kv => kv.1 = s) state with Some (_, cur) => cur | None => no_record end.

Record planned := Planned {
  pn_updates : list (string * dbl * feed_plan);
  pn_skipped : list (string * string);
  pn_missing : list string;
}.

Definition plan_symbol (limits : plan_limits) (state : list (string * feed_cur)) (prices : feed_prices) (now : dbl)
    (acc : planned) (s : string) : planned :=
  match price_of prices s with
  | None => Planned (pn_updates acc) (pn_skipped acc) (pn_missing acc ++ [s])
  | Some price =>
      let plan := planFeedUpdate (record_for state s) price now limits in
      if plan_push plan then Planned (pn_updates acc ++ [(s, price, plan)]) (pn_skipped acc) (pn_missing acc)
      else Planned (pn_updates acc) (pn_skipped acc ++ [(s, default "unchanged_recent" (plan_rejected plan))]) (pn_missing acc)
  end.

Definition plan_symbols (limits : plan_limits) (state : list (string * feed_cur)) (prices : feed_prices) (now : dbl)
    (symbols : list string) : planned :=
  foldl (plan_symbol limits state prices now) (Planned [] [] []) symbols.

Definition batch_of (sha256 : bytes -> bytes) (updates : list (string * dbl * feed_plan)) : feed_batch :=
  foldl (fun b u => add_planned sha256 u.1.1 u.1.2 u.2 b) empty_batch updates.

(** ** The request *)

Definition requested_symbols (body : val) : list string :=
  match get body "symbols" with VArr l => filter (fun s => s <> "") (trimString <$> l) | _ => [] end.

Definition requested_state (body : val) : list (string * feed_cur) :=
  normalizeOnchainState (v_or (get body "onchain_state") (get body "onchainState")).

(** [now] of the request, or the clock, in whole seconds. *)
Definition requested_now (body : val) (clock : Z) : dbl :=
  let requested := val_double (get body "now") in
  if dfinite requested then dfloor requested else of_Z (clock / 1000).

Definition skip_val (s : string * string) : val := VObj [("symbol", VStr s.1); ("reason", VStr s.2)].

Definition numbers (l : list dbl) : val := VArr (dbl_val <$> l).
Definition texts (l : list string) : val := VArr (VStr <$> l).

(** An integer from 0 to [0xffffffff] *)
Definition uint32_of (x : dbl) : option Z :=
  match x with
  | DFin n => if (n mod ONE =? 0) && (0 <=? n / ONE) && (n / ONE <=? 4294967295) then Some (n / ONE) else None
  | _ => None
  end.

(** The first four bytes, big endian. *)
Definition first_uint32 (bs : bytes) : Z := foldl (fun acc b => acc * 256 + b) 0 (take 4 bs).

Section feed.
Context (L : enclave_lib) (F : feed_lib) (magic : dbl) (limits : plan_limits).

(** [defaultPriceFetcher] *)
Definition fetch_prices (syms : list string) : eprog feed_prices :=
  s <-! get_state ;;
  let t := toTwelveDataSymbol <$> syms in
  reply <-! call (FetchPrices ("https://api.twelvedata.com/price?symbol=" +:+ encodeURIComponent (join "," t)
                               +:+ "&apikey=" +:+ setting (es_env s) "TD_KEY")) ;;
  let '(status, text) := reply in
  match el_json_parse L text with
  | None => plain_error ("TwelveData non-JSON (HTTP " +:+ num_to_string status +:+ ")")
  | Some parsed => or_throw (read_prices (length t =? 1)%nat parsed syms)
  end.

Record tx_params := TxParams { tp_blockCount : dbl; tp_systemFee : dbl; tp_networkFee : dbl }.

Definition buildUpdateFeedsTxMessage (b : feed_batch) (p : tx_params) (nonce : Z) (updaterPublicKey : string) : string + string :=
  match fl_createScript F FEED_N3_CONTRACT "updateFeeds" (update_args b) with
  | inl e => inl e
  | inr script =>
      match fl_bigInteger F (dbl_val (tp_systemFee p)), fl_bigInteger F (dbl_val (tp_networkFee p)) with
      | inl e, _ | _, inl e => inl e
      | inr systemFee, inr networkFee =>
          inr (fl_message F (N3Tx nonce (fl_scriptHashOfKey F updaterPublicKey)
                 (dadd (tp_blockCount p) (of_Z FEED_VALID_UNTIL_OFFSET)) script systemFee networkFee) magic)
      end
  end.

(** The supplied parameters; without them none are available. *)
Definition resolve_tx_params (body : val) : eprog tx_params :=
  let supplied := get body "tx_params" in
  let number a b := val_double (v_coalesce (get supplied a) (get supplied b)) in
  let p := TxParams (number "block_count" "blockCount") (number "system_fee" "systemFee") (number "network_fee" "networkFee") in
  if is_object supplied && dfinite (tp_blockCount p) && dfinite (tp_systemFee p) && dfinite (tp_networkFee p) then ok p
  else http_error 503 ("feed tx network params (block_count/system_fee/network_fee) unavailable: "
                       +:+ "supply tx_params in the request or configure an RPC provider").

(** The transaction's nonce: the supplied one, one derived from the freshness
    nonce, or a random one. *)
Definition resolve_tx_nonce (body : val) (nonce : string) : eprog Z :=
  let supplied := get body "tx_params" in
  match uint32_of (val_double (v_coalesce (get supplied "nonce") (v_coalesce (get supplied "tx_nonce")
                                 (v_coalesce (get body "tx_nonce") VNaN)))) with
  | Some n => ok n
  | None =>
      if (nonce =? "")%string then call RandomUint32 else ok (first_uint32 (x_sha256 (el_X L) (hex_decode nonce)))
  end.

Definition nonce_field (nonce : string) : list (string * val) := if (nonce =? "")%string then [] else [("nonce", VStr nonce)].

Definition no_update_n3 (nonce : string) (pn : planned) : val :=
  VObj ([("status", VStr "no-update"); ("chain", VStr "neo_n3"); ("pairs", VArr []); ("rounds", VArr []);
         ("prices_scaled", VArr []); ("timestamps", VArr []); ("attestation_hashes", VArr []); ("source_set_ids", VArr []);
         ("tx_message_hex", VNull); ("signature", VNull); ("public_key", VNull); ("trust_tier", VStr "enclave-attested");
         ("skipped", VArr (skip_val <$> pn_skipped pn)); ("missing", texts (pn_missing pn))] ++ nonce_field nonce).

Definition signed_n3 (nonce : string) (pn : planned) (b : feed_batch) (message : string) (txNonce : Z) (validUntil : dbl)
    (signed : enclave_signature) : val :=
  VObj ([("status", VStr "ok"); ("chain", VStr "neo_n3"); ("pairs", texts (fb_pairs b)); ("rounds", numbers (fb_rounds b));
         ("prices_scaled", numbers (fb_prices b)); ("timestamps", numbers (fb_timestamps b));
         ("attestation_hashes", texts (fb_hashes b)); ("source_set_ids", numbers (fb_sources b));
         ("tx_message_hex", VStr message); ("tx_nonce", VNum txNonce); ("valid_until_block", dbl_val validUntil);
         ("signature", VStr (eg_signature signed)); ("public_key", VStr (eg_public_key signed));
         ("trust_tier", VStr "enclave-attested"); ("skipped", VArr (skip_val <$> pn_skipped pn));
         ("missing", texts (pn_missing pn))] ++ nonce_field nonce).

(** The plan of a request, from the prices of now. *)
Definition plan_request (body : val) (symbols : list string) : eprog planned :=
  t <-! now_ms ;;
  prices <-! fetch_prices symbols ;;
  ok (plan_symbols limits (requested_state body) prices (requested_now body t) symbols).

Definition sign_n3_feed (body : val) (symbols : list string) : eprog val :=
  let nonce := normalizeHex (v_or (get body "nonce") (VStr "")) in
  pn <-! plan_request body symbols ;;
  let b := batch_of (x_sha256 (el_X L)) (pn_updates pn) in
  match pn_updates pn with
  | [] => ok (no_update_n3 nonce pn)
  | _ =>
      updater <-! resolveUpdaterIdentity L ;;
      params <-! resolve_tx_params body ;;
      txNonce <-! resolve_tx_nonce body nonce ;;
      message <-! or_throw (buildUpdateFeedsTxMessage b params txNonce (na_publicKey updater)) ;;
      signed <-! signUpdaterMessage L message ;;
      ok (signed_n3 nonce pn b message txNonce (dadd (tp_blockCount params) (of_Z FEED_VALID_UNTIL_OFFSET)) signed)
  end.

(** ** Neo X *)

(** Pairs, prices, timestamps and rounds as big integers. *)
Fixpoint neox_arrays (updates : list (string * dbl * feed_plan)) : string + (list string * list Z * list Z * list Z) :=
  match updates with
  | [] => inr ([], [], [], [])
  | (s, price, plan) :: updates =>
      match dbl_BigInt (price_scaled price), dbl_BigInt (plan_ts plan), dbl_BigInt (plan_round plan), neox_arrays updates with
      | inl e, _, _, _ | _, inl e, _, _ | _, _, inl e, _ | _, _, _, inl e => inl e
      | inr px, inr ts, inr round, inr (syms, pxs, tss, rounds) =>
          inr ((FEED_PAIR_PREFIX +:+ s) :: syms, px :: pxs, ts :: tss, round :: rounds)
      end
  end.

Definition big_texts (l : list Z) : val := VArr (VStr ∘ num_to_string <$> l).

Definition nullish (v : val) : bool := match v with VUndef | VNull => true | _ => false end.

Definition is_nonce (x : dbl) : bool := match x with DFin n => (n mod ONE =? 0) && (0 <=? n) | _ => false end.

Definition no_update_neox (pn : planned) : val :=
  VObj [("status", VStr "no-update"); ("chain", VStr "neox"); ("symbols", VArr []); ("prices_scaled", VArr []);
        ("timestamps", VArr []); ("round_ids", VArr []); ("signed_tx", VNull); ("from", VNull);
        ("trust_tier", VStr "enclave-attested"); ("skipped", VArr (skip_val <$> pn_skipped pn));
        ("missing", texts (pn_missing pn))].

Definition handleNeoXFeedSign (body : val) : eprog val :=
  let symbols := requested_symbols body in
  s <-! get_state ;;
  let key name := env_text (es_env s) name in
  let feedKey := trim (key "MORPHEUS_NEOX_FEED_PRIVATE_KEY" ||s (key "NEOX_FEED_PK" ||s key "NEOX_FEED_PRIVATE_KEY")) in
  let txp := if is_object (get body "tx_params") then get body "tx_params" else VObj [] in
  let field a b := v_coalesce (get txp a) (get txp b) in
  let to := trimString (v_or (get txp "to") (v_or (get txp "contract") (v_or (get body "contract") (VStr "")))) in
  let chainId := val_double (field "chain_id" "chainId") in
  let nonce := val_double (get txp "nonce") in
  let gas := [field "gas_limit" "gasLimit"; field "max_fee_per_gas" "maxFeePerGas";
              field "max_priority_fee_per_gas" "maxPriorityFeePerGas"] in
  if bool_decide (symbols = []) then http_error 400 "symbols[] is required"
  else if (feedKey =? "")%string then http_error 503 "neox feed key is not configured"
  else if (to =? "")%string then http_error 400 "neox tx_params.to (feed contract) is required"
  else if negb (dfinite chainId) || dle chainId (DFin 0) then http_error 400 "neox tx_params.chain_id is required"
  else if negb (is_nonce nonce) then http_error 400 "neox tx_params.nonce is required"
  else if existsb nullish gas then
    http_error 400 "neox tx_params.{gas_limit,max_fee_per_gas,max_priority_fee_per_gas} are required"
  else
    pn <-! plan_request body symbols ;;
    arrays <-! or_throw (neox_arrays (pn_updates pn)) ;;
    let '(syms, px, ts, rounds) := arrays in
    match pn_updates pn with
    | [] => ok (no_update_neox pn)
    | _ =>
        data <-! or_throw (fl_encodeUpdate F syms px ts rounds) ;;
        wallet <-! or_throw (el_evm_wallet L feedKey) ;;
        gasLimit <-! or_throw (val_BigInt (field "gas_limit" "gasLimit")) ;;
        maxFee <-! or_throw (val_BigInt (field "max_fee_per_gas" "maxFeePerGas")) ;;
        maxPriorityFee <-! or_throw (val_BigInt (field "max_priority_fee_per_gas" "maxPriorityFeePerGas")) ;;
        signedTx <-! or_throw (fl_signTransaction F feedKey (EvmTx chainId nonce to data gasLimit maxFee maxPriorityFee)) ;;
        ok (VObj [("status", VStr "ok"); ("chain", VStr "neox"); ("signed_tx", VStr signedTx);
                  ("from", VStr (ew_address wallet)); ("to", VStr to); ("nonce", dbl_val nonce);
                  ("chain_id", dbl_val chainId); ("data", VStr data); ("symbols", texts syms);
                  ("prices_scaled", big_texts px); ("timestamps", big_texts ts); ("round_ids", big_texts rounds);
                  ("gas_limit", VStr (num_to_string gasLimit)); ("max_fee_per_gas", VStr (num_to_string maxFee));
                  ("max_priority_fee_per_gas", VStr (num_to_string maxPriorityFee));
                  ("trust_tier", VStr "enclave-attested"); ("skipped", VArr (skip_val <$> pn_skipped pn));
                  ("missing", texts (pn_missing pn))])
    end.

Definition handleFeedSign (body : val) : eprog val :=
  if (normalizeChain (get body "chain") =? "neox")%string then handleNeoXFeedSign body
  else
    match requested_symbols body with
    | [] => http_error 400 "symbols[] is required"
    | symbols => sign_n3_feed body symbols
    end.
End feed.
