(* ===== verification/EnclaveServer.v ===== *)
(** * The enclave server's requests ([deploy/nitro/enclave-server.mjs], [dispatch])

    Which handler answers a request, which requests need a token, and how an
    error becomes a reply.  [parse_url] is [new URL(rawUrl, base)]: the path and
    the query parameters, [None] when it throws. *)
From stdpp Require Import gmap strings.
From S2P Require Import Prelude Numbers Strings Values Text Encoding Effects Doubles FeedRegistry FeedPlan EnclaveCore EnclaveFulfill EnclaveFeed.
#[local] Open Scope list_scope.
#[local] Open Scope Z_scope.

Definition EXECUTION_PLANE_PASSTHROUGH : list string :=
  ["/oracle/query"; "/oracle/smart-fetch"; "/compute/execute"; "/oracle/decrypt"; "/oracle/message-reveal";
   "/neodid/bind"; "/neodid/action-ticket"; "/neodid/recovery-ticket"].

(** What precedes the first [p] in [s]. *)
Fixpoint before (p s : string) : option string :=
  if startsWith s p then Some ""
  else match s with "" => None | String a s => String a <$> before p s end.

Definition segment_char (a : ascii) : bool :=
  let c := code a in
  ((65 <=? c) && (c <=? 90)) || ((97 <=? c) && (c <=? 122)) || is_decimal_digit a || existsb (Ascii.eqb a) ["."; "_"; "-"]%char.

(** [/^\/[A-Za-z0-9._-]+$/] *)
Definition one_segment (prefix : string) : bool :=
  match prefix with String "/" (String _ _ as name) => str_forall segment_char name | _ => false end.

Definition matchesRoute (path route : string) : bool :=
  (path =? route)%string
  || match before route path with
     | Some prefix => negb (prefix =? "")%string && (path =? prefix +:+ route)%string && one_segment prefix
     | None => false
     end.

(** [path.replace(/\/$/, '') || '/'] *)
Definition clean_path (pathname : string) : string := (if endsWith pathname "/" then slice_to pathname (str_length pathname - 1) else pathname) ||s "/".

(** The reply to a request. *)
Record response := Response { rp_status : Z; rp_body : val }.

Section server.
Context (L : enclave_lib) (F : feed_lib) (magic : dbl) (limits : plan_limits)
  (parse_url : string -> string -> option (string * list (string * val))).

Definition parseBody (body : val) : string + val :=
  if is_object body then inr body
  else
    let text := trimString body in
    if (text =? "")%string then inr (VObj [])
    else match el_json_parse L text with Some v => inr v | None => inl "Unexpected token in JSON" end.

(** A handler on the parsed body, answered 200. *)
Definition on_body (body : val) (handler : val -> eprog val) : eprog response :=
  payload <-! or_throw (parseBody body) ;;
  result <-! handler payload ;;
  ok (Response 200 result).

Definition authorized {A} (headers : val) (p : eprog A) : eprog A :=
  s <-! get_state ;;
  or_fail (assertAuthorized (es_env s) headers) !;;
  p.

Definition passthrough (route : string) (payload : val) : eprog response :=
  reply <-! computeViaWorker L route payload ;;
  let '(_, status, body) := reply in
  ok (Response status body).

Definition route_request (method path : string) (query : list (string * val)) (headers body : val) : eprog response :=
  let get_ := (method =? "GET")%string in
  let post := (method =? "POST")%string in
  let on route := matchesRoute path route in
  if get_ && on "/health" then
    health <-! handleHealth L ;;
    ok (Response (if fst health then 200 else 503) (snd health))
  else if (get_ || post) && on "/attestation" then
    if get_ then
      result <-! handleAttestation L (VObj query) ;;
      ok (Response 200 result)
    else on_body body (handleAttestation L)
  else if post && on "/provision" then
    s <-! get_state ;;
    or_fail (assertProvisionAuthorized (es_env s) headers) !;;
    on_body body (handleProvision L)
  else if post && on "/oracle/fulfill" then authorized headers (on_body body (handleOracleFulfill L))
  else if post && on "/feed/sign" then authorized headers (on_body body (handleFeedSign L F magic limits))
  else if post && on "/sign/payload" then authorized headers (on_body body (handleSignPayload L))
  else if post && on "/keys/derived" then authorized headers (on_body body (handleKeysDerived L))
  else
    match (if post then find on EXECUTION_PLANE_PASSTHROUGH else None) with
    | Some route =>
        authorized headers
          (payload <-! or_throw (parseBody body) ;; passthrough route payload)
    | None =>
        if (get_ || post) && on "/oracle/public-key" then
          payload <-! (if post then or_throw (parseBody body) else ok (VObj [])) ;;
          passthrough "/oracle/public-key" payload
        else ok (Response 404 (VObj [("error", VStr "not found"); ("path", VStr path)]))
    end.

Definition failure_response (f : failure) : response :=
  Response (match f with HttpError 0 _ | PlainError _ => 500 | HttpError status _ => status end)
    (VObj [("status", VStr "error"); ("error", VStr (failure_message f)); ("runtime", VStr "morpheus-enclave-server")]).

(** A URL that does not parse throws. *)
Definition dispatch (method rawUrl : string) (headers body : val) : prog enclave_state ecall response :=
  let hostHeader := trimString (v_or (get headers "host") (v_or (get headers "Host") (VStr ""))) ||s "127.0.0.1" in
  match parse_url (rawUrl ||s "/") ("http://" +:+ hostHeader) with
  | None => Throw "Invalid URL"
  | Some (pathname, query) =>
      bind (route_request (toUpperCase (trim (method ||s "GET"))) (clean_path pathname) query headers body)
        (fun r => Ret (match r with inl f => failure_response f | inr reply => reply end))
  end.

(** ** The socket *)

(** The body, while its chunks stay within the limit. *)
Fixpoint readBody (limit total : Z) (chunks : list bytes) : failure + bytes :=
  match chunks with
  | [] => inr []
  | chunk :: chunks =>
      let total := total + Z.of_nat (length chunk) in
      if limit <? total then inl (HttpError 413 "request body too large")
      else match readBody limit total chunks with inl e => inl e | inr rest => inr (chunk ++ rest) end
  end.

Definition serve (limit : Z) (method rawUrl : string) (headers : val) (chunks : list bytes)
    : prog enclave_state ecall response :=
  let bodyless := (method =? "GET")%string || (method =? "HEAD")%string in
  match (if bodyless then inr [] else readBody limit 0 chunks) with
  | inl f =>
      Ret (Response (match f with HttpError status _ => status | PlainError _ => 400 end)
             (VObj [("status", VStr "error"); ("error", VStr (failure_message f))]))
  | inr bs => dispatch (method ||s "GET") (rawUrl ||s "/") headers (VStr (utf8_decode bs))
  end.
End server.
