(* ===== verification/EnclaveSamples.v ===== *)
(** * A sample enclave

    A library with one key and constant hashes, and an environment whose worker
    and device always answer: the concrete values the enclave's theorems are
    instantiated at, and what the server does with them. *)
From stdpp Require Import gmap strings.
From S2P Require Import Prelude Numbers Strings Values Text Encoding Envelope Digest Externals Config Effects Persistence World Doubles Signers Samples FeedPlan EnclaveCore EnclaveFulfill EnclaveFeed EnclaveServer.
From Stdlib Require Import QArith.
#[local] Open Scope list_scope.
#[local] Open Scope Z_scope.

(** A hash of 32 bytes. *)
Definition constant_hash (_ : bytes) : bytes := repeat 7 32.

Definition enclave_externals : externals := {|
  x_sha256 := constant_hash;
  x_cert := unit;
  x_cert_of_der _ := None;
  x_cert_of_pem _ := None;
  x_issued_by _ _ := false;
  x_es384_verify _ _ _ := false;
  x_buffer_from _ := inl "TypeError";
  x_json_parse _ := None;
  x_sha256Hex _ := "07";
  x_keccak256 := constant_hash;
  x_abi_encode _ := inr [];
  x_getAddress a := inr a;
  x_local_sign _ := None;
  x_neon_verify _ _ _ := true;
|}.

Definition pinned_roles : val :=
  let role := VObj [("script_hash", VStr "0x1111111111111111111111111111111111111111")] in
  VObj [("neo_n3", VObj [("testnet", VObj [("roles", VObj [("updater", role); ("oracle_verifier", role)])])])].

(** The account of a WIF and of its private key. *)
Definition wallet_account (secret : string) : option neo_account :=
  if (secret =? "k1")%string then sample_account "good"
  else if (secret =? "k2")%string then sample_account "other"
  else sample_account secret.

Definition sample_enclave : enclave_lib := {|
  el_account := wallet_account;
  el_address_hash _ := None;
  el_wallet_sign data key := key +:+ ":" +:+ data;
  el_registry := pinned_roles;
  el_json_parse text :=
    if (text =? "answer")%string then Some (VObj [("result", VNum 42)])
    else if (text =? "price")%string then Some (VObj [("price", VStr "10.5")]) else None;
  el_X := enclave_externals;
  el_evm_wallet key := inr (EvmWallet "0xaa" key);
  el_evm_sign key digest := key +:+ ":" +:+ hex_encode digest;
|}.

Definition sample_feed_lib : feed_lib := {|
  fl_createScript _ _ _ := inr "00";
  fl_bigInteger _ := inr 0;
  fl_message _ _ := "aa";
  fl_scriptHashOfKey k := k;
  fl_encodeUpdate _ _ _ _ := inr "0x";
  fl_signTransaction _ _ := inr "0x02";
|}.

Definition sample_limits : plan_limits := PlanLimits (of_Z 10) (of_Z 3600) (of_Z 2000).

Definition enclave_reply {X} (c : ecall X) : string + X :=
  match c in ecall X return string + X with
  | WorkerHandle _ _ _ => inr (true, 200, "answer")
  | NsmAttest _ => inr (VObj [("ok", VBool true); ("attestation_b64", VStr "AAAA")])
  | KmsDecrypt _ _ => inr (VObj [("ok", VBool true); ("plaintext_b64", VStr "b3RoZXI=")])
  | FetchPrices _ => inr (200, "price")
  | RandomUint32 => inr 5
  end.

Definition enclave_env : env enclave_state ecall := Env (fun _ => 1000) (fun _ => 0%Q) (fun X _ c => enclave_reply c).

(** The path, and the query of the attestation route. *)
Definition sample_url (rawUrl base : string) : option (string * list (string * val)) :=
  if (rawUrl =? "//")%string then None
  else if startsWith rawUrl "/attestation?" then
    Some ("/attestation", [("fulfillment_digest_hex", VStr (drop_str 13 rawUrl))])
  else Some (rawUrl, []).

Definition started (vars : list (string * string)) : enclave_state := EnclaveState (list_to_map vars) [] VNull.

Definition respond (method rawUrl : string) (headers body : val) (s : enclave_state) :=
  run enclave_env (dispatch sample_enclave sample_feed_lib (DFin ONE) sample_limits sample_url method rawUrl headers body) s [].

Definition status_of {A} (r : (string + response) * A * A) : option Z :=
  match r with (inr reply, _, _) => Some (rp_status reply) | _ => None end.

Definition bearer (token : string) : val := VObj [("authorization", VStr ("Bearer " +:+ token))].

(** A URL that does not parse is not answered: the exception leaves the handler. *)
Example bad_url_throws : (respond "GET" "//" (VObj []) (VStr "") (started [])).1.1 = inl "Invalid URL".
Proof. vm_compute. reflexivity. Qed.

(** The variables of a provisioning request, and the states it leads to. *)
Definition provisioning (vars : list (string * string)) : val :=
  VObj [("env", VObj ((fun kv => (kv.1, VStr kv.2)) <$> vars))].

Definition provision_after (vars : list (string * string)) (s : enclave_state) : enclave_state * option Z :=
  let '(o, s', _) := run enclave_env (handleProvision sample_enclave (provisioning vars)) s [] in
  (s', match o with inr (inl (HttpError status _)) => Some status | inr (inr _) => Some 200 | _ => None end).

(** The override of the gate is itself a variable that a request may set: a key
    that is refused is accepted by the request after it. *)
Example gate_opened_by_request :
  let key := ("MORPHEUS_ORACLE_VERIFIER_WIF", "good") in
  let '(s1, refused) := provision_after [key] (started []) in
  let '(s2, opened) := provision_after [("MORPHEUS_ALLOW_PLAINTEXT_KEY_PROVISION", "1")] s1 in
  let '(s3, accepted) := provision_after [key] s2 in
  (refused, opened, accepted, es_env s3 !! "MORPHEUS_ORACLE_VERIFIER_WIF") = (Some 403, Some 200, Some 200, Some "good").
Proof. vm_compute. reflexivity. Qed.

(** The verifier's fallback variables are not on the list: the signing key comes
    in the clear while the gate is closed. *)
Example fallback_key_provisioned :
  let '(s, accepted) := provision_after [("MORPHEUS_RELAYER_NEO_N3_WIF", "good")] (started []) in
  let '(o, _, _) := run enclave_env (resolvePinnedSigner sample_enclave "oracle_verifier") s [] in
  (accepted, plaintextKeyProvisionAllowed (es_env s), na_wif <$> match o with inr (inr a) => a | _ => None end)
  = (Some 200, false, Some "good").
Proof. vm_compute. reflexivity. Qed.
