(* ===== verification/EnclaveSpec.v ===== *)
(** * What the enclave server guarantees

    A program logic for the server's programs, then: its signers are those of its
    live keys, a request without a token changes nothing, and a document of the
    device can be had for any digest. *)
From stdpp Require Import gmap strings.
From S2P Require Import Prelude Numbers Strings Values Text Encoding Envelope Digest Cbor Attestation Externals State Config Effects Persistence World Errors Doubles Buffers Signing Prepare Signers FeedRegistry FeedPlan EnclaveCore EnclaveFulfill EnclaveFeed EnclaveServer EnclaveSamples.
#[local] Open Scope list_scope.
#[local] Open Scope Z_scope.

Abbreviation etrace := (list (obs enclave_state ecall)).

(** ** Programs that end with a value or an error *)

(** Whatever the environment answers, [p] ends in [post]; it never throws. *)
Definition espec {A} (pre : enclave_state -> etrace -> Prop) (p : eprog A)
    (post : failure + A -> enclave_state -> etrace -> Prop) : Prop :=
  hoare pre p (fun o s tr => exists r, o = inr r /\ post r s tr).

Lemma espec_conseq {A} pre pre' (p : eprog A) post post' :
  espec pre p post -> (forall s tr, pre' s tr -> pre s tr) -> (forall r s tr, post r s tr -> post' r s tr) -> espec pre' p post'.
Proof. intros H Hp Hq. eapply hoare_conseq; [exact H|exact Hp|]. intros o s tr (r & -> & Hr). eauto. Qed.

Lemma espec_ret {A} (pre : enclave_state -> etrace -> Prop) (r : failure + A) post : (forall s tr, pre s tr -> post r s tr) -> espec pre (Ret r) post.
Proof. intros H. apply hoare_ret. eauto. Qed.

Lemma espec_andThen {A B} pre (p : eprog A) (k : A -> eprog B) mid post :
  espec pre p (fun r s tr => match r with inr a => mid a s tr | inl e => post (inl e) s tr end) ->
  (forall a, espec (mid a) (k a) post) -> espec pre (andThen p k) post.
Proof.
  intros Hp Hk. unfold andThen. apply hoare_bind with (fun r s tr => match r with inr a => mid a s tr | inl e => post (inl e) s tr end).
  - eapply hoare_conseq; [exact Hp|done|]. intros o s tr (r & -> & Hr). exact Hr.
  - intros [e|a]; [by refine (espec_ret _ _ _ _)|apply Hk].
Qed.

Lemma espec_call {A} pre (c : ecall A) post :
  (forall x s tr, pre s tr -> post (inr x) s (OCall c (inr x) :: tr)) ->
  (forall m s tr, pre s tr -> post (inl (PlainError m)) s (OCall c (inl m) :: tr)) -> espec pre (call c) post.
Proof.
  intros Hx Hm. unfold espec, call. eapply hoare_bind with (fun r s tr => match r with
    | inr x => post (inr x) s tr | inl m => post (inl (PlainError m)) s tr end).
  - apply hoare_attempt, hoare_await. intros [m|x] s tr H; [by apply Hm|by apply Hx].
  - intros [m|x]; by refine (espec_ret _ _ _ _).
Qed.

Lemma espec_try {A} pre (p : eprog A) post : espec pre p (fun r => post (inr r)) -> espec pre (try p) post.
Proof.
  intros H. unfold espec, try. eapply hoare_bind with (fun r => post (inr r)).
  - eapply hoare_conseq; [exact H|done|]. intros o s tr (r & -> & Hr). exact Hr.
  - intros r. by refine (espec_ret _ _ _ _).
Qed.

Lemma espec_throw {A} pre (r : string + A) post :
  (forall s tr, pre s tr -> match r with inl m => post (inl (PlainError m)) s tr | inr x => post (inr x) s tr end) ->
  espec pre (or_throw r) post.
Proof. intros H. destruct r; by apply espec_ret. Qed.
Lemma espec_get_state pre post : (forall s tr, pre s tr -> post (inr s) s tr) -> espec pre get_state post.
Proof.
  intros H. unfold espec, get_state. apply hoare_bind with (fun x => post (inr x)).
  - apply (hoare_local (fun _ _ s => (s, s))). intros _ _ s tr. apply H.
  - intros x. by refine (espec_ret _ _ _ _).
Qed.

Lemma espec_update f pre post : (forall s tr, pre s tr -> post (inr tt) (f s) tr) -> espec pre (update f) post.
Proof.
  intros H. unfold espec, update. apply hoare_bind with (fun x => post (inr x)).
  - apply (hoare_local (fun _ _ s => (tt, f s))). intros _ _ s tr. apply H.
  - intros x. by refine (espec_ret _ _ _ _).
Qed.

Lemma espec_now pre post : (forall t s tr, pre s tr -> post (inr t) s tr) -> espec pre now_ms post.
Proof.
  intros H. unfold espec, now_ms. apply hoare_bind with (fun x => post (inr x)).
  - apply (hoare_local (fun t _ s => (t, s))). intros t _ s tr. apply H.
  - intros x. by refine (espec_ret _ _ _ _).
Qed.

(** What does not depend on the state. *)
Lemma espec_pull {A} (P : Prop) (pre : enclave_state -> etrace -> Prop) (p : eprog A) post :
  (P -> espec pre p post) -> espec (fun s tr => P /\ pre s tr) p post.
Proof. intros H en s tr [HP Hs]. exact (H HP en s tr Hs). Qed.

(** [J] holds after [p] when it held before. *)
Abbreviation ekeeps J p := (espec J p (fun _ => J)).

Lemma ekeeps_ret {A} J (r : failure + A) : ekeeps J (Ret r).
Proof. by apply espec_ret. Qed.

Lemma ekeeps_throw {A} J (r : string + A) : ekeeps J (or_throw r).
Proof. apply espec_throw. intros s tr H. by destruct r. Qed.

Lemma ekeeps_then {A B} J (p : eprog A) (k : A -> eprog B) : ekeeps J p -> (forall a, ekeeps J (k a)) -> ekeeps J (andThen p k).
Proof.
  intros Hp Hk. apply espec_andThen with (fun _ => J); [|done]. eapply espec_conseq; [exact Hp|done|]. by intros [].
Qed.

Lemma ekeeps_try {A} J (p : eprog A) : ekeeps J p -> ekeeps J (try p).
Proof. intros H. by apply espec_try. Qed.

Lemma ekeeps_get J : ekeeps J get_state.
Proof. by apply espec_get_state. Qed.

(** Two postconditions of one program. *)
Lemma espec_and {A} (pre : enclave_state -> etrace -> Prop) (p : eprog A) post1 post2 :
  espec pre p post1 -> espec pre p post2 -> espec pre p (fun r s tr => post1 r s tr /\ post2 r s tr).
Proof.
  intros H1 H2 en s tr Hs. specialize (H1 en s tr Hs). specialize (H2 en s tr Hs). destruct (run en p s tr) as [[o s'] tr'].
  destruct H1 as (r & -> & H1), H2 as (r' & [= <-] & H2). eauto.
Qed.

(** Split a program into its parts; what is left are updates and calls. *)
Ltac ekeeps_step :=
  first [ apply ekeeps_ret | apply ekeeps_throw | apply ekeeps_get | apply ekeeps_try | (apply ekeeps_then; [|intros ?])
        | (apply espec_now; intros; assumption) | case_match ].

(** ** The signers are those of the live keys *)

(** The variables a role's report reads. *)
Definition report_vars : list string :=
  "MORPHEUS_NETWORK" :: "MORPHEUS_ALLOW_UNPINNED_SIGNERS" :: NEO_N3_SIGNER_ENV_KEYS.

Lemma collect_secrets_agree account f g keys :
  (forall k, k ∈ keys -> f k = g k) -> collectSecrets account f keys = collectSecrets account g keys.
Proof.
  intros H. unfold collectSecrets. assert (forall k, k ∈ uniqueOrdered keys -> f k = g k) as H'.
  { intros k Hk. by apply H, uniqueOrdered_spec. }
  clear H. revert H'. generalize (uniqueOrdered keys) as l. induction l as [|k l IH]; intros H'; [done|]. cbn [omap list_omap].
  rewrite (H' k) by (by left). by rewrite IH by (intros; apply H'; by right).
Qed.

Lemma collect_publics_agree f g keys :
  (forall k, k ∈ keys -> f k = g k) -> collectPublicKeys f keys = collectPublicKeys g keys.
Proof.
  intros H. unfold collectPublicKeys. assert (forall k, k ∈ uniqueOrdered keys -> f k = g k) as H'.
  { intros k Hk. by apply H, uniqueOrdered_spec. }
  clear H. revert H'. generalize (uniqueOrdered keys) as l. induction l as [|k l IH]; intros H'; [done|]. cbn [omap list_omap].
  rewrite (H' k) by (by left). by rewrite IH by (intros; apply H'; by right).
Qed.

Section signers.
Context (L : enclave_lib).

Lemma report_agree env env' role :
  (forall k, k ∈ report_vars -> env_text env k = env_text env' k) -> role_report_of L env role = role_report_of L env' role.
Proof.
  intros H. unfold role_report_of, resolveNetwork. rewrite (H "MORPHEUS_NETWORK") by (by left).
  unfold reportPinnedNeoN3Role, buildRoleReport.
  assert (pinning_off (env_text env) (EnvObject (env_text env)) = pinning_off (env_text env') (EnvObject (env_text env'))) as ->.
  { unfold pinning_off. by rewrite (H "MORPHEUS_ALLOW_UNPINNED_SIGNERS") by (right; by left). }
  destruct (ROLE_KEY_GROUPS _ _) as [config|] eqn:Hc; [|done].
  assert (forall k, k ∈ rg_primary config ++ rg_fallback config ++ rg_public config -> env_text env k = env_text env' k) as Hk.
  { intros k Hk. apply H. right; right. exact (role_keys_known _ _ _ _ Hc Hk). }
  cbn [toEnvSnapshot].
  rewrite (collect_secrets_agree _ _ (env_text env') (rg_primary config)) by (intros; apply Hk; rewrite !elem_of_app; auto).
  rewrite (collect_secrets_agree _ _ (env_text env') (rg_fallback config)) by (intros; apply Hk; rewrite !elem_of_app; auto).
  by rewrite (collect_publics_agree _ (env_text env') (rg_public config)) by (intros; apply Hk; rewrite !elem_of_app; auto).
Qed.

(** Every cached account is the one a fresh report selects. *)
Definition signers_fresh (s : enclave_state) : Prop :=
  forall key a, (key, a) ∈ es_signers s -> exists role report,
    key = resolveNetwork (es_env s) +:+ ":" +:+ role /\ role_report_of L (es_env s) role = inr report /\
    report_account L report = inr (Some a).

Lemma fresh_cleared s : signers_fresh (clear_signers s).
Proof. intros key a H. by apply not_elem_of_nil in H. Qed.

Lemma fresh_kms_diag v s : signers_fresh s -> signers_fresh (set_kms_diag v s).
Proof. done. Qed.

Lemma fresh_oracle_key text s : signers_fresh s -> signers_fresh (set_env "MORPHEUS_ORACLE_KEY_MATERIAL_JSON" text s).
Proof.
  intros H key a Hin. destruct (H key a Hin) as (role & report & Hk & Hr & Ha). exists role, report.
  assert (forall k, k ∈ report_vars -> env_text (es_env s) k =
    env_text (es_env (set_env "MORPHEUS_ORACLE_KEY_MATERIAL_JSON" text s)) k) as Hagree.
  { intros k Hin'. cbn. unfold env_text. rewrite lookup_insert_ne; [done|]. intros <-. revert Hin'.
    by apply (bool_decide_unpack _). }
  split_and!; [|by rewrite <-(report_agree _ _ _ Hagree)|done].
  rewrite Hk. unfold resolveNetwork. by rewrite (Hagree "MORPHEUS_NETWORK") by (by left).
Qed.

#[local] Abbreviation fresh := (fun s (_ : etrace) => signers_fresh s).

Lemma find_signer_in key cache a : find_signer key cache = Some a -> (key, a) ∈ cache.
Proof.
  unfold find_signer. destruct (list_find _ cache) as [[i [k b]]|] eqn:Hf; [|done]. cbn. intros [= <-].
  apply list_find_Some in Hf as (Hl & Hk & _). cbn in Hk. subst. by apply list_elem_of_lookup_2 in Hl.
Qed.

Lemma fresh_call {A} (c : ecall A) : ekeeps fresh (call c).
Proof. by apply espec_call. Qed.

(** The account that is returned is that of the live keys. *)
Lemma resolve_signer_fresh role :
  espec fresh (resolvePinnedSigner L role) (fun r s _ => signers_fresh s /\ forall a, r = inr (Some a) ->
    exists report, role_report_of L (es_env s) role = inr report /\ report_account L report = inr (Some a)).
Proof.
  unfold resolvePinnedSigner. apply espec_andThen with (fun x s _ => x = s /\ signers_fresh s).
  { apply espec_get_state. auto. }
  intros s. destruct (find_signer _ _) as [a|] eqn:Hf.
  - apply espec_ret. intros s' tr [<- Hs]. split; [done|]. intros a' [= <-].
    destruct (Hs _ _ (find_signer_in _ _ _ Hf)) as (role' & report & Hk & Hr & Ha).
    apply (inj (String.append _)), (inj (String.append ":")) in Hk as <-. eauto.
  - apply espec_andThen with (fun r s' _ => s' = s /\ signers_fresh s /\ role_report_of L (es_env s) role = inr r).
    { apply espec_throw. intros s' tr [<- Hs]. destruct (role_report_of _ _ _); [|done]. split; [done|]. intros a Ha. discriminate. }
    intros report. apply espec_andThen with (fun found s' _ => s' = s /\ signers_fresh s /\
      role_report_of L (es_env s) role = inr report /\ report_account L report = inr found).
    { apply espec_throw. intros s' tr (-> & Hs & Hr). destruct (report_account _ _); [|done]. split; [done|]. intros a Ha. discriminate. }
    intros [a|].
    + apply espec_andThen with (fun _ s' _ => signers_fresh s' /\ role_report_of L (es_env s') role = inr report /\
        report_account L report = inr (Some a)).
      * apply espec_update. intros s' tr (-> & Hs & Hr & Ha). split; [|done]. intros key a' Hin.
        cbn in Hin. apply elem_of_app in Hin as [Hin|Hin]; [by apply Hs|]. apply list_elem_of_singleton in Hin as [= -> ->].
        by exists role, report.
      * intros []. apply espec_ret. intros s' tr (Hs & Hr & Ha). split; [done|]. intros a' [= <-]. eauto.
    + apply espec_ret. intros s' tr (-> & Hs & _). split; [done|]. intros a Ha. discriminate.
Qed.

Lemma fresh_resolve role : ekeeps fresh (resolvePinnedSigner L role).
Proof. eapply espec_conseq; [apply resolve_signer_fresh|done|]. by intros r s tr [H _]. Qed.

#[local] Ltac fresh_go := repeat first [ apply fresh_call | apply fresh_resolve | ekeeps_step ].

Lemma fresh_kms_plaintext ct : ekeeps fresh (kms_plaintext ct).
Proof. unfold kms_plaintext. fresh_go. Qed.

Lemma fresh_secp_key k : ekeeps fresh (materializeNeoXSecpKeyFromKms L k).
Proof.
  unfold materializeNeoXSecpKeyFromKms. ekeeps_step; [fresh_go|]. ekeeps_step; [fresh_go|]. ekeeps_step; [fresh_go|].
  ekeeps_step; [apply fresh_kms_plaintext|]. ekeeps_step; [|fresh_go]. ekeeps_step; [fresh_go|].
  apply espec_andThen with (fun _ _ _ => True); [by apply espec_update|]. intros _. apply espec_update. intros. apply fresh_cleared.
Qed.

Lemma fresh_provision payload : ekeeps fresh (handleProvision L payload).
Proof.
  unfold handleProvision. ekeeps_step; [fresh_go|]. ekeeps_step; [fresh_go|]. ekeeps_step.
  { apply espec_update. intros s tr Hs. unfold apply_entries. destruct (applied_entries _); [done|apply fresh_cleared]. }
  ekeeps_step; [|repeat (ekeeps_step; [apply fresh_secp_key|]); ekeeps_step; [|by fresh_go]].
  - unfold materializeOracleKeyFromKms. ekeeps_step; [fresh_go|]. ekeeps_step; [fresh_go|]. ekeeps_step; [fresh_go|].
    ekeeps_step; [apply fresh_kms_plaintext|]. ekeeps_step; [|fresh_go]. apply espec_update. intros. by apply fresh_oracle_key.
  - unfold runKmsDiag. repeat first [ apply fresh_call | ekeeps_step | (apply espec_update; intros; by apply fresh_kms_diag) ].
Qed.

Lemma fresh_attestation payload : ekeeps fresh (handleAttestation L payload).
Proof. unfold handleAttestation. fresh_go. Qed.

Lemma fresh_compute route payload : ekeeps fresh (computeViaWorker L route payload).
Proof. unfold computeViaWorker. fresh_go. Qed.

Lemma fresh_fulfill body : ekeeps fresh (handleOracleFulfill L body).
Proof.
  unfold handleOracleFulfill, computeWorkerResponse, sign_fulfillment, sign_neox, sign_n3, signNeoN3OracleVerifier, attest_digest, or_fail.
  repeat first [ apply fresh_compute | apply fresh_attestation | apply fresh_resolve | ekeeps_step ].
Qed.

Lemma fresh_feed F magic limits body : ekeeps fresh (handleFeedSign L F magic limits body).
Proof.
  unfold handleFeedSign, handleNeoXFeedSign, sign_n3_feed, plan_request, fetch_prices, resolveUpdaterIdentity, resolve_tx_params,
    resolve_tx_nonce, signUpdaterMessage, resolveUpdaterIdentity. cbv zeta. fresh_go.
Qed.
End signers.

(** ** Sequences of requests *)

Record http_request := HttpRequest {
  hr_method : string;
  hr_url : string;
  hr_headers : val;
  hr_chunks : list bytes;
}.

Section requests.
Context (L : enclave_lib) (F : feed_lib) (magic : dbl) (limits : plan_limits)
  (parse_url : string -> string -> option (string * list (string * val))) (limit : Z).
#[local] Set Default Proof Using "All".
#[local] Abbreviation route := (route_request L F magic limits).
#[local] Abbreviation dispatched := (dispatch L F magic limits parse_url).

(** The requests are answered one after the other; an uncaught exception ends
    the process. *)
Fixpoint serve_all (requests : list http_request) : prog enclave_state ecall (list response) :=
  match requests with
  | [] => Ret []
  | r :: requests =>
      bind (serve L F magic limits parse_url limit (hr_method r) (hr_url r) (hr_headers r) (hr_chunks r)) (fun reply =>
      bind (serve_all requests) (fun replies => Ret (reply :: replies)))
  end.

#[local] Abbreviation fresh := (fun s (_ : etrace) => signers_fresh L s).

Lemma fresh_route method path query headers body : ekeeps fresh (route method path query headers body).
Proof.
  unfold route_request, on_body, authorized, passthrough, or_fail, handleHealth, handleSignPayload, handleKeysDerived, pinned_report.
  repeat first [ apply fresh_attestation | apply fresh_compute | apply fresh_provision | apply fresh_fulfill | apply fresh_feed
               | ekeeps_step ].
Qed.

Lemma stable_dispatch J method rawUrl headers body :
  (forall m p q, ekeeps J (route m p q headers body)) -> stable J (dispatched method rawUrl headers body).
Proof.
  intros H. unfold dispatch. destruct (parse_url _ _) as [[pathname query]|]; [|apply stable_throw].
  apply stable_bind; [|intros ?; apply stable_ret]. eapply hoare_conseq; [apply H|done|]. intros o s tr (r & _ & Hr). exact Hr.
Qed.

Lemma fresh_serve_all requests : stable fresh (serve_all requests).
Proof.
  induction requests as [|r requests IH]; cbn [serve_all]; [apply stable_ret|].
  apply stable_bind; [|intros ?; apply stable_bind; [exact IH|intros ?; apply stable_ret]].
  unfold serve. case_match; [apply stable_ret|]. apply stable_dispatch. intros. apply fresh_route.
Qed.

(** C16.  The enclave signs with its live keys.  Whatever requests the server has
    answered since it started with no cached signer, provisioning and key
    recovery included, the account that a role resolves to is the one a fresh
    report on the current environment selects, not one of a key that has been
    replaced. *)
Theorem cached_signer_is_live : forall requests env diag role en en',
  let '(_, s, tr) := run en (serve_all requests) (EnclaveState env [] diag) [] in
  let '(o, s', _) := run en' (resolvePinnedSigner L role) s tr in
  forall a, o = inr (inr (Some a)) ->
    exists report, role_report_of L (es_env s') role = inr report /\ report_account L report = inr (Some a).
Proof.
  intros requests env diag role en en'.
  pose proof (fresh_serve_all requests en (EnclaveState env [] diag) []) as H.
  assert (signers_fresh L (EnclaveState env [] diag)) as H0 by (intros key a Hin; by apply not_elem_of_nil in Hin).
  specialize (H H0). destruct (run en _ _ _) as [[o s] tr]. cbn in H.
  pose proof (resolve_signer_fresh L role en' s tr H) as Hr. destruct (run en' _ s tr) as [[o' s'] tr'].
  destruct Hr as (r & -> & _ & Hr). intros a [= ->]. by apply Hr.
Qed.

(** ** Without a token *)

(** A call that neither computes for the caller nor uses a key. *)
Definition harmless (o : obs enclave_state ecall) (_ : etrace) : Prop :=
  match o with
  | OCall (NsmAttest _) _ => True
  | OCall (WorkerHandle r _ _) _ => r = "/oracle/public-key"
  | _ => False
  end.

Definition open_route (path : string) : bool :=
  matchesRoute path "/health" || matchesRoute path "/attestation" || matchesRoute path "/oracle/public-key".

(** The path of a request. *)
Definition request_path (rawUrl : string) (headers : val) : option string :=
  clean_path ∘ fst <$> parse_url (rawUrl ||s "/")
    ("http://" +:+ (trimString (v_or (get headers "host") (v_or (get headers "Host") (VStr ""))) ||s "127.0.0.1")).

Definition no_token (env : gmap string string) (headers : val) : Prop :=
  currentTrustedTokens env <> [] /\ extractRequestToken headers ∉ currentTrustedTokens env.

Lemma unauthorized env headers : no_token env headers -> assertAuthorized env headers = inl (HttpError 401 "unauthorized").
Proof.
  intros [Hne Hin]. unfold assertAuthorized. destruct (currentTrustedTokens env) as [|t l] eqn:Ht; [done|]. rewrite <-Ht in Hin |- *.
  destruct (existsb _ _) eqn:He; [|done]. apply existsb_exists in He as (x & Hx & Heq). unfold timingSafeTokenMatch in Heq.
  apply String.eqb_eq in Heq. subst x. by apply list_elem_of_In in Hx.
Qed.

Lemma provision_unauthorized env headers :
  no_token env headers -> assertProvisionAuthorized env headers = inl (HttpError 401 "unauthorized").
Proof.
  intros H. unfold assertProvisionAuthorized. pose proof (unauthorized _ _ H). destruct H as [H _].
  by destruct (currentTrustedTokens env).
Qed.

#[local] Abbreviation at_ s0 tr0 := (fun s tr => s = s0 /\ tr = tr0).

Lemma denied {A} (guard : enclave_state -> failure + unit) (p : eprog A) s0 tr0 e :
  guard s0 = inl e ->
  espec (at_ s0 tr0) (s <-! get_state ;; or_fail (guard s) !;; p) (fun r s tr => r = inl e /\ s = s0 /\ tr = tr0).
Proof.
  intros Hg. apply espec_andThen with (fun x s tr => x = s0 /\ s = s0 /\ tr = tr0).
  { apply espec_get_state. intros s tr [-> ->]. done. }
  intros s. apply espec_andThen with (fun _ _ _ => False); [|by intros ? ? ? ? ?].
  apply espec_ret. intros s' tr (-> & -> & ->). by rewrite Hg.
Qed.

(** What a route that is not open answers. *)
Definition refused (r : failure + response) : Prop :=
  match r with
  | inl f => f = HttpError 401 "unauthorized"
  | inr reply => rp_status reply = 404
  end.

Lemma closed_route method path query headers body s0 tr0 :
  no_token (es_env s0) headers -> open_route path = false ->
  espec (at_ s0 tr0) (route method path query headers body) (fun r s tr => refused r /\ s = s0 /\ tr = tr0).
Proof.
  intros Hno Hopen. unfold open_route in Hopen. rewrite !orb_false_iff in Hopen. destruct Hopen as [[H1 H2] H3].
  unfold route_request. rewrite H1, H2, H3, !andb_false_r. unfold authorized.
  repeat case_match;
    try (eapply espec_conseq;
      [apply (denied _ _ s0 tr0); first [by apply unauthorized | by apply provision_unauthorized]|done|]; by intros ? ? ? (-> & -> & ->)).
  all: by apply espec_ret; intros ? ? [-> ->].
Qed.

Lemma open_harmless method path query headers body s0 :
  no_token (es_env s0) headers -> ekeeps (fun s tr => s = s0 /\ trace_ok harmless tr) (route method path query headers body).
Proof.
  intros Hno. set (J := fun s tr => s = s0 /\ trace_ok harmless tr).
  assert (forall A (guard : enclave_state -> failure + unit) (p : eprog A) e, guard s0 = inl e ->
    ekeeps J (s <-! get_state ;; or_fail (guard s) !;; p)) as Hden.
  { intros A guard p e Hg en s tr Hs. pose proof Hs as [-> Htr].
    pose proof (denied guard p s0 tr e Hg en s0 tr (conj eq_refl eq_refl)) as H. destruct (run en _ s0 tr) as [[o s'] tr'].
    destruct H as (r & -> & -> & -> & ->). by exists (inl e). }
  unfold route_request, on_body, authorized, passthrough, handleHealth, handleAttestation, computeViaWorker.
  repeat first
    [ (eapply Hden; first [by apply provision_unauthorized | by apply unauthorized]) | ekeeps_step
    | (apply espec_call; intros ? ? ? [-> ?]; by split_and!) ].
Qed.

(** C15.  A request without the token uses no key and changes nothing.  Once a
    token is configured, a request that does not present one leaves the
    environment, the keys and the cached signers as they are, and makes no call
    but for the attestation of the device or the public encryption key; on every
    path but the three open ones it makes no call at all and is answered 401 or
    404. *)
Theorem token_gates_signing : forall method rawUrl headers body en s,
  no_token (es_env s) headers ->
  let '(o, s', tr) := run en (dispatched method rawUrl headers body) s [] in
  s' = s /\ trace_ok harmless tr /\
  forall path, request_path rawUrl headers = Some path -> open_route path = false ->
    tr = [] /\ exists reply, o = inr reply /\ (rp_status reply = 401 \/ rp_status reply = 404).
Proof.
  intros method rawUrl headers body en s Hno.
  pose proof (stable_dispatch _ method rawUrl headers body
    (fun m p q => open_harmless m p q headers body s Hno) en s [] (conj eq_refl I)) as H.
  destruct (run en _ s []) as [[o s'] tr] eqn:Hrun. destruct H as [-> Htr]. split_and!; [done..|].
  intros path Hp Hopen. unfold request_path in Hp. unfold dispatch in Hrun.
  destruct (parse_url _ _) as [[pathname query]|]; [|done]. injection Hp as <-. cbn in Hopen.
  pose proof (closed_route (toUpperCase (trim (method ||s "GET"))) _ query headers body s [] Hno Hopen en s [] (conj eq_refl eq_refl)) as H.
  rewrite run_bind in Hrun. destruct (run en (route _ _ _ _ _) s []) as [[o1 s1] tr1]. destruct H as (r & -> & Hr & -> & ->).
  cbn in Hrun. injection Hrun as <- <-. split; [done|]. destruct r as [f|reply]; cbn in Hr; [subst f|]; eauto.
Qed.

(** The device is asked for a document with the hash of the binding. *)
Lemma attestation_call payload text digest s0 tr0 :
  get payload "fulfillment_digest_hex" = VStr text -> text <> "" -> normalizeHex (VStr text) = digest -> digest <> "" ->
  even_hex digest = true ->
  length (x_sha256 (el_X L) (hex_decode digest)) = 32%nat ->
  even_hex (normalizeHex (v_or (get payload "nonce") (v_or (get payload "report_data") (v_or (get payload "report_data_hex") (VStr "")))))
    = true ->
  espec (at_ s0 tr0) (handleAttestation L payload) (fun _ s tr => s = s0 /\ exists rest reply,
    tr = OCall (NsmAttest (["--user-data"; hex_encode (x_sha256 (el_X L) (hex_decode digest))] ++ rest)) reply :: tr0).
Proof using L.
  intros Hget Ht Hn Hd He Hlen Hnonce. unfold handleAttestation. apply espec_andThen with (fun x s tr => x = VStr text /\ s = s0 /\ tr = tr0).
  { apply espec_throw. intros s tr [-> ->]. by destruct payload. }
  intros first. cbv zeta. apply espec_pull. intros ->.
  replace (v_or (VStr text) _) with (VStr text) by (unfold v_or; cbn; by rewrite (proj2 (String.eqb_neq _ _) Ht)).
  rewrite Hn, He, Hnonce. cbn [negb].
  apply espec_andThen with (fun x s tr => x = s0 /\ s = s0 /\ tr = tr0).
  { apply espec_get_state. intros s tr [-> ->]. done. }
  intros x. apply espec_pull. intros ->. destruct (resolveAttestationPublicKey _ _ _) as [role publicKeyHex].
  unfold user_data_of, flag_arg at 1. rewrite (proj2 (String.eqb_neq _ _) Hd).
  assert (hex_encode (x_sha256 (el_X L) (hex_decode digest)) <> "") as Hz by (by destruct (x_sha256 (el_X L) (hex_decode digest))).
  rewrite (proj2 (String.eqb_neq _ _) Hz).
  set (J := fun s (tr : etrace) => s = s0 /\ exists rest reply, tr = OCall (NsmAttest (["--user-data";
    hex_encode (x_sha256 (el_X L) (hex_decode digest))] ++ rest)) reply :: tr0).
  apply espec_andThen with (fun _ => J).
  - apply espec_try, espec_call; intros y s tr [-> ->]; split; eauto.
  - intros outcome. repeat ekeeps_step.
Qed.

(** Any digest can be attested.  The device's attestation of a digest, bound
    to the verifier's key, is given to a request without a token for whatever
    digest it names: it shows that the document comes from this enclave, not
    that the enclave computed or signed the digest. *)
Theorem attestation_is_open : forall rawUrl headers body digest en s,
  (forall bs, length (x_sha256 (el_X L) bs) = 32%nat) ->
  parse_url rawUrl ("http://" +:+ (trimString (v_or (get headers "host") (v_or (get headers "Host") (VStr ""))) ||s "127.0.0.1"))
    = Some ("/attestation", [("fulfillment_digest_hex", VStr digest)]) ->
  rawUrl <> "" -> digest <> "" -> normalizeHex (VStr digest) = digest -> even_hex digest = true ->
  let '(_, s', tr) := run en (dispatched "GET" rawUrl headers body) s [] in
  s' = s /\ exists rest reply,
    tr = [OCall (NsmAttest (["--user-data"; hex_encode (x_sha256 (el_X L) (hex_decode digest))] ++ rest)) reply].
Proof.
  intros rawUrl headers body digest en s Hlen Hurl Hraw Hd Hn He. unfold dispatch. rewrite or_str_nonempty by done. rewrite Hurl.
  change (toUpperCase (trim ("GET" ||s "GET"))) with "GET". change (clean_path "/attestation") with "/attestation".
  assert (forall q, route "GET" "/attestation" q headers body =
    (result <-! handleAttestation L (VObj q) ;; ok (Response 200 result))) as -> by (intros; reflexivity).
  rewrite run_bind. unfold andThen. rewrite run_bind.
  pose proof (attestation_call (VObj [("fulfillment_digest_hex", VStr digest)]) digest digest s [] eq_refl Hd Hn Hd He (Hlen _) eq_refl
    en s [] (conj eq_refl eq_refl)) as H.
  destruct (run en (handleAttestation _ _) s []) as [[o s'] tr]. destruct H as (r & -> & -> & H). by destruct r.
Qed.
End requests.

(** ** Concrete runs *)

Lemma cached_signer_is_live_witness :
  let env := list_to_map [("MORPHEUS_ORACLE_VERIFIER_WIF", "good")] in
  let r := run enclave_env (resolvePinnedSigner sample_enclave "oracle_verifier") (EnclaveState env [] VNull) [] in
  (exists a, r.1.1 = inr (inr (Some a)) /\ na_wif a = "good") /\
  exists report, role_report_of sample_enclave (es_env r.1.2) "oracle_verifier" = inr report /\
    (exists a, report_account sample_enclave report = inr (Some a)).
Proof.
  split; [vm_compute; eauto|].
  pose proof (cached_signer_is_live sample_enclave sample_feed_lib (DFin ONE) sample_limits sample_url 1000 []
    (list_to_map [("MORPHEUS_ORACLE_VERIFIER_WIF", "good")]) VNull "oracle_verifier" enclave_env enclave_env) as H.
  cbn [serve_all run] in H. revert H.
  destruct (run enclave_env _ _ _) as [[o s] tr] eqn:Hrun. intros H.
  assert (exists a, o = inr (inr (Some a))) as [a Ha].
  { assert (o = (o, s, tr).1.1) as -> by done. rewrite <-Hrun. vm_compute. eauto. }
  destruct (H a Ha) as (report & Hr & Hacc). eauto.
Defined.

Lemma token_gates_signing_witness :
  let s := started [("NITRO_SIGNER_TOKEN", "secret")] in
  no_token (es_env s) (bearer "guess") /\
  let '(o, s', tr) := respond "POST" "/sign/payload" (bearer "guess") (VStr "") s in
  s' = s /\ tr = [] /\ exists reply, o = inr reply /\ (rp_status reply = 401 \/ rp_status reply = 404).
Proof.
  assert (no_token (es_env (started [("NITRO_SIGNER_TOKEN", "secret")])) (bearer "guess")) as Hno.
  { split; [done|]. by apply (bool_decide_unpack _). }
  split; [exact Hno|].
  pose proof (token_gates_signing sample_enclave sample_feed_lib (DFin ONE) sample_limits sample_url 1000 "POST" "/sign/payload"
    (bearer "guess") (VStr "") enclave_env _ Hno) as H.
  unfold respond. destruct (run _ _ _ _) as [[o s'] tr]. destruct H as (Hs & _ & H).
  destruct (H "/sign/payload" eq_refl eq_refl) as [Htr Hr]. by split_and!.
Defined.

Lemma attestation_is_open_witness :
  let '(_, s', tr) := respond "GET" "/attestation?abcd" (VObj []) (VStr "") (started [("NITRO_SIGNER_TOKEN", "secret")]) in
  s' = started [("NITRO_SIGNER_TOKEN", "secret")] /\ exists rest reply,
    tr = [OCall (NsmAttest (["--user-data"; hex_encode (constant_hash [171; 205])] ++ rest)) reply].
Proof.
  pose proof (attestation_is_open sample_enclave sample_feed_lib (DFin ONE) sample_limits sample_url 1000 "/attestation?abcd"
    (VObj []) (VStr "") "abcd" enclave_env (started [("NITRO_SIGNER_TOKEN", "secret")])
    (fun _ => eq_refl) eq_refl ltac:(done) ltac:(done) eq_refl eq_refl) as H.
  unfold respond. destruct (run _ _ _ _) as [[o s'] tr]. exact H.
Defined.
