(* ===== verification/EnclaveKeys.v ===== *)
(** * How keys reach the enclave

    Provisioning writes settings into the server's environment.  Unless the
    operator's flag is on it refuses signing keys in the clear, and such a key
    then only comes from the key service. *)
From stdpp Require Import gmap strings sorting.
From S2P Require Import Prelude Numbers Strings Values Text Encoding Effects Doubles Buffers Signers FeedPlan EnclaveCore EnclaveFulfill EnclaveFeed EnclaveServer EnclaveSamples EnclaveSpec.
#[local] Open Scope list_scope.
#[local] Open Scope Z_scope.

Section keys.
Context (L : enclave_lib) (s0 : enclave_state).
#[local] Set Default Proof Using "All".

(** The text of a plaintext the key service returned, or the key in it. *)
Definition from_kms (tr : etrace) (v : string) : Prop :=
  exists region ciphertext parsed bs,
    OCall (KmsDecrypt region ciphertext) (inr parsed) ∈ tr /\ truthy (get parsed "ok") = true /\
    buffer_base64 (get parsed "plaintext_b64") = inr bs /\
    (v = utf8_decode bs \/ exists fields, v = plaintext_key L fields (utf8_decode bs)).

(** Every protected variable is as it was, or came from the key service. *)
Definition keys_protected (s : enclave_state) (tr : etrace) : Prop :=
  forall name, name ∈ PLAINTEXT_KEY_ENV_KEYS ->
    es_env s !! name = es_env s0 !! name \/ exists v, es_env s !! name = Some v /\ from_kms tr v.

Lemma from_kms_more o tr v : from_kms tr v -> from_kms (o :: tr) v.
Proof. intros (r & c & p & bs & Hin & H). exists r, c, p, bs. split; [by right|done]. Qed.

Lemma protected_more o s tr : keys_protected s tr -> keys_protected s (o :: tr).
Proof. intros H name Hn. destruct (H name Hn) as [?|(v & ? & ?)]; [by left|right]. exists v. split; [done|]. by apply from_kms_more. Qed.

Lemma protected_call {A} (c : ecall A) : ekeeps keys_protected (call c).
Proof. apply espec_call; intros; by apply protected_more. Qed.

Lemma protected_set name v s tr : keys_protected s tr -> from_kms tr v -> keys_protected (set_env name v s) tr.
Proof.
  intros H Hv name' Hn. cbn. destruct (decide (name = name')) as [->|Hne].
  - right. exists v. by rewrite lookup_insert_eq.
  - rewrite lookup_insert_ne by done. by apply H.
Qed.

Lemma plaintext_protected ciphertext :
  espec keys_protected (kms_plaintext ciphertext) (fun r s tr => keys_protected s tr /\ forall text, r = inr (Some text) ->
    exists bs, text = utf8_decode bs /\ from_kms tr text /\ forall fields, from_kms tr (plaintext_key L fields text)).
Proof.
  unfold kms_plaintext. apply espec_andThen with (fun _ => keys_protected); [by apply espec_get_state|]. intros x.
  apply espec_andThen with (fun outcome s tr => keys_protected s tr /\ forall parsed, outcome = inr parsed ->
    OCall (KmsDecrypt (kms_region (es_env x)) ciphertext) (inr parsed) ∈ tr).
  { apply espec_try, espec_call; intros y s tr H; (split; [by apply protected_more|]); [|done]. intros parsed [= <-]. by left. }
  intros [e|parsed].
  { apply espec_ret. intros s tr [H _]. split; [done|]. intros text Ht. discriminate. }
  destruct (truthy (get parsed "ok")) eqn:Hok; [|by apply espec_ret; intros s tr [H _]; split].
  destruct (truthy (get parsed "plaintext_b64")); [|by apply espec_ret; intros s tr [H _]; split]. cbn [andb].
  apply espec_andThen with (fun bs s tr => keys_protected s tr /\ buffer_base64 (get parsed "plaintext_b64") = inr bs /\
    OCall (KmsDecrypt (kms_region (es_env x)) ciphertext) (inr parsed) ∈ tr).
  { apply espec_throw. intros s tr [H Hin]. specialize (Hin _ eq_refl). destruct (buffer_base64 _); [|done]. split; [done|]. by intros text Ht. }
  intros bs. apply espec_ret. intros s tr (H & Hb & Hin). split; [done|]. intros text [= <-]. exists bs. split; [done|].
  split; [|intros fields]; exists (kms_region (es_env x)), ciphertext, parsed, bs; eauto 6.
Qed.

(** What a recovered key is written over. *)
Lemma protected_recovery ciphertext (k : string -> eprog unit) :
  (forall text, espec (fun s tr => keys_protected s tr /\ from_kms tr text /\ forall fields, from_kms tr (plaintext_key L fields text))
                  (k text) (fun _ => keys_protected)) ->
  ekeeps keys_protected
    (plaintext <-! kms_plaintext ciphertext ;; match plaintext with Some text => k text | None => ok tt end).
Proof.
  intros Hk. apply espec_andThen with (fun r s tr => keys_protected s tr /\ forall text, r = Some text ->
    from_kms tr text /\ forall fields, from_kms tr (plaintext_key L fields text)).
  { eapply espec_conseq; [apply plaintext_protected|done|]. intros [e|r] s tr [H Ht]; [done|]. split; [done|]. intros text ->.
    destruct (Ht _ eq_refl) as (bs & _ & H1 & H2). by split. }
  intros [text|]; [|by apply espec_ret; intros s tr []]. eapply espec_conseq; [apply Hk| |done].
  intros s tr [H Ht]. split; [done|]. by apply Ht.
Qed.

Lemma protected_secp k : ekeeps keys_protected (materializeNeoXSecpKeyFromKms L k).
Proof.
  unfold materializeNeoXSecpKeyFromKms. do 3 (ekeeps_step; [first [apply ekeeps_get|apply ekeeps_ret]|]).
  apply protected_recovery. intros text. case_match.
  { apply espec_ret. by intros s tr []. }
  apply espec_andThen with (fun _ => keys_protected); [|intros _; by apply espec_update].
  apply espec_update. intros s tr (Hs & _ & Hv). by apply protected_set.
Qed.

Lemma protected_oracle_key : ekeeps keys_protected materializeOracleKeyFromKms.
Proof.
  unfold materializeOracleKeyFromKms. do 3 (ekeeps_step; [first [apply ekeeps_get|apply ekeeps_ret]|]).
  apply protected_recovery. intros text. apply espec_update. intros s tr (H1 & H2 & _). by apply protected_set.
Qed.

Lemma protected_diag : ekeeps keys_protected runKmsDiag.
Proof. unfold runKmsDiag. repeat first [apply protected_call | ekeeps_step | by apply espec_update]. Qed.

(** ** What provisioning writes *)

Lemma apply_entries_env applied s name :
  name ∉ applied.*1 -> es_env (apply_entries applied s) !! name = es_env s !! name.
Proof.
  intros H. assert (forall s, es_env (foldl (fun s kv => set_env kv.1 kv.2 s) s applied) !! name = es_env s !! name) as Hf.
  { clear s. induction applied as [|[k v] applied IH]; intros s; [done|]. cbn [foldl fst snd]. cbn in H.
    apply not_elem_of_cons in H as [Hne H]. rewrite IH by done. cbn. by rewrite lookup_insert_ne. }
  unfold apply_entries. destruct applied; [done|]. cbn. apply Hf.
Qed.

Lemma rejected_empty entries :
  rejected_keys entries = [] -> Forall (fun kv => kv.1 ∈ PLAINTEXT_KEY_ENV_KEYS -> trimString kv.2 = "") entries.
Proof.
  unfold rejected_keys, sort_names. intros H. pose proof (merge_sort_Permutation String.le
    ((filter (fun kv => kv.1 ∈ PLAINTEXT_KEY_ENV_KEYS /\ trimString kv.2 <> "") entries).*1)) as Hp.
  rewrite H in Hp. apply Permutation_nil_l in Hp. symmetry in Hp. apply fmap_nil_inv in Hp. apply Forall_forall. intros kv Hin Hk.
  destruct (decide (trimString kv.2 = "")) as [|Hne]; [done|].
  assert (kv ∈ filter (fun kv => kv.1 ∈ PLAINTEXT_KEY_ENV_KEYS /\ trimString kv.2 <> "") entries) as Hf
    by (by apply list_elem_of_filter).
  rewrite Hp in Hf. by apply not_elem_of_nil in Hf.
Qed.

Lemma applied_not_protected entries name :
  rejected_keys entries = [] -> name ∈ PLAINTEXT_KEY_ENV_KEYS -> name ∉ (applied_entries entries).*1.
Proof.
  intros Hr Hn Hin. apply rejected_empty in Hr. rewrite Forall_forall in Hr.
  apply list_elem_of_fmap in Hin as ([k v] & -> & Hin). unfold applied_entries in Hin.
  apply list_elem_of_omap in Hin as ([k' v'] & Hin & Heq). cbn in Heq.
  destruct (env_key k' && _) eqn:He; [|done]. injection Heq as <- <-. apply andb_true_iff in He as [_ He].
  specialize (Hr _ Hin Hn). cbn in Hr, He. by rewrite Hr in He.
Qed.

(** C17.  Signing keys are not provisioned in the clear.  While the operator's flag
    is off, a provisioning request that carries one of the protected variables is
    refused with 403 and changes nothing, and after any other every protected
    variable holds what it held, or a key that the key service released to this
    enclave during the request. *)
Theorem provision_protects_keys : forall payload en,
  plaintextKeyProvisionAllowed (es_env s0) = false ->
  let '(o, s, tr) := run en (handleProvision L payload) s0 [] in
  keys_protected s tr /\
  (rejected_keys (provision_env payload) <> [] -> s = s0 /\ tr = [] /\ exists m, o = inr (inl (HttpError 403 m))).
Proof.
  intros payload en Hoff. set (allowed := rejected_keys (provision_env payload)).
  destruct (decide (allowed = [])) as [Hr|Hr].
  - assert (espec (fun s tr => s = s0 /\ tr = []) (handleProvision L payload) (fun _ => keys_protected)) as H.
    { unfold handleProvision. apply espec_andThen with (fun x s tr => x = s0 /\ s = s0 /\ tr = []).
      { apply espec_get_state. by intros s tr [-> ->]. }
      intros x. apply espec_pull. intros ->. fold allowed. rewrite Hoff, (bool_decide_eq_true_2 _ Hr). cbn [negb andb].
      apply espec_andThen with (fun _ => keys_protected).
      { apply espec_update. intros s tr [-> ->] name Hn. left. apply apply_entries_env. by apply applied_not_protected. }
      intros _. repeat first [apply protected_oracle_key | apply protected_secp | apply protected_diag | ekeeps_step]. }
    specialize (H en s0 [] (conj eq_refl eq_refl)). destruct (run en _ s0 []) as [[o s] tr]. destruct H as (r & -> & H). done.
  - unfold handleProvision. cbn -[rejected_keys]. fold allowed. rewrite Hoff, (bool_decide_eq_false_2 _ Hr). cbn.
    split; [by left|]. eauto.
Qed.
End keys.

(** A plaintext key is refused, also beside an encrypted one. *)
Lemma provision_protects_keys_witness :
  let payload := provisioning [("NEOX_FEED_PK", "k2"); ("MORPHEUS_NEOX_FEED_KMS_CIPHERTEXT_BASE64", "AAAA")] in
  let '(o, s, tr) := run enclave_env (handleProvision sample_enclave payload) (started []) [] in
  plaintextKeyProvisionAllowed (es_env (started [])) = false /\ s = started [] /\ tr = [] /\
  exists m, o = inr (inl (HttpError 403 m)).
Proof.
  pose proof (provision_protects_keys sample_enclave (started [])
    (provisioning [("NEOX_FEED_PK", "k2"); ("MORPHEUS_NEOX_FEED_KMS_CIPHERTEXT_BASE64", "AAAA")]) enclave_env eq_refl) as H.
  cbv zeta. destruct (run _ _ _ _) as [[o s] tr]. destruct H as [_ H].
  split; [reflexivity|]. apply H. vm_compute. discriminate.
Defined.
