(* ===== verification/EnclaveAgree.v ===== *)
(** * The fulfillment the enclave signs, and the relayer's check of it

    What the enclave computes is what it signs and has the device attest, and the
    digest it reports is the one the relayer recomputes from the reply.  A request
    without an application id is the exception. *)
From stdpp Require Import gmap strings.
From S2P Require Import Prelude Numbers Strings Values Text Encoding Envelope Digest Cbor Externals State Config Effects Persistence World Errors Doubles Buffers Allowlist Samples Signers Attestation Signing Prepare FeedRegistry FeedPlan EnclaveCore EnclaveFulfill EnclaveFeed EnclaveServer EnclaveSamples EnclaveSpec.
#[local] Open Scope list_scope.
#[local] Open Scope Z_scope.

(** ** Texts of digests *)

Lemma hex_encode_length bs : String.length (hex_encode bs) = (2 * length bs)%nat.
Proof. induction bs as [|b bs IH]; [done|]. cbn [hex_encode String.length length]. rewrite IH. lia. Qed.

(** Bytes, and at least one. *)
Definition digest_bytes (d : bytes) : Prop := Forall is_byte d /\ d <> [].

(** The text of a digest on a chain. *)
Definition digest_text (chain : string) (d : bytes) : string :=
  if (chain =? "neox")%string then "0x" +:+ hex_encode d else hex_encode d.

Lemma hex_trimmed d : digest_bytes d -> trim (hex_encode d) = hex_encode d.
Proof. intros [Hd _]. by apply trim_no_space, hash_digits_solid, hex_digits_hash. Qed.

Lemma hex_bare d : digest_bytes d -> strip0x (hex_encode d) = hex_encode d.
Proof.
  intros Hd. unfold strip0x. rewrite (hex_trimmed d Hd). destruct Hd as [Hd _]. pose proof (hex_digits_hash d Hd) as H.
  destruct d as [|b d]; [done|]. cbn [hex_encode] in *. cbn [str_forall] in H. apply andb_true_iff in H as [_ [H _]%andb_true_iff].
  destruct (hex_digit (b / 16)) as [[] [] [] [] [] [] [] []]; try done.
  destruct (hex_digit (b mod 16)) as [[] [] [] [] [] [] [] []]; done.
Qed.

Lemma hex_nonempty d : digest_bytes d -> hex_encode d <> "".
Proof. intros [_ Hd]. by destruct d. Qed.

Lemma digest_text_trimmed chain d : digest_bytes d -> trim (digest_text chain d) = digest_text chain d.
Proof.
  intros Hd. unfold digest_text. destruct (_ =? _)%string; [|by apply hex_trimmed]. apply trim_no_space.
  rewrite str_forall_app, (hash_digits_solid _ (hex_digits_hash d (proj1 Hd))). done.
Qed.

Lemma text_digits chain d : digest_bytes d -> normalizePublicKey (digest_text chain d) = hex_encode d.
Proof.
  intros Hd. unfold normalizePublicKey. transitivity (toLowerCase (hex_encode d)); [|by apply hash_digits_lower, hex_digits_hash, Hd].
  f_equal. unfold digest_text. destruct (chain =? "neox")%string eqn:Hc; [|by apply hex_bare]. unfold strip0x.
  pose proof (digest_text_trimmed "neox" d Hd) as Ht. unfold digest_text in Ht. rewrite String.eqb_refl in Ht. rewrite Ht.
  change ("0x" +:+ hex_encode d) with (String "0" (String "x" (hex_encode d))). reflexivity.
Qed.

Lemma text_nonempty chain d : digest_bytes d -> digest_text chain d <> "".
Proof. intros Hd. unfold digest_text. destruct (_ =? _)%string; [done|by apply hex_nonempty]. Qed.

Lemma normal_text chain d : digest_bytes d -> normalizeHex (VStr (digest_text chain d)) = hex_encode d.
Proof. intros Hd. unfold normalizeHex. cbn [trimString]. rewrite digest_text_trimmed by done. by apply text_digits. Qed.

Lemma normal_text_of chain d : digest_bytes d ->
  normalizePublicKeyOf (v_or (VStr (digest_text chain d)) (VStr "")) = hex_encode d.
Proof.
  intros Hd. unfold normalizePublicKeyOf, coerceTrim, v_or. cbn [truthy].
  rewrite (proj2 (String.eqb_neq _ _) (text_nonempty chain d Hd)). cbn [negb]. cbn [truthy].
  rewrite (proj2 (String.eqb_neq _ _) (text_nonempty chain d Hd)). cbn [negb js_String]. rewrite digest_text_trimmed by done. by apply text_digits.
Qed.

Lemma hex_even d : digest_bytes d -> even_hex (hex_encode d) = true.
Proof.
  intros Hd. unfold even_hex. apply andb_true_iff. split; [exact (hex_digits_hash d (proj1 Hd))|].
  rewrite hex_encode_length. apply Nat.even_spec. by exists (length d).
Qed.

Section fulfill.
Context (L : enclave_lib).
#[local] Set Default Proof Using "All".

(** What is documented of the hash functions: they return 32 bytes. *)
Definition hashes_ok : Prop :=
  forall bs, (Forall is_byte (x_sha256 (el_X L) bs) /\ length (x_sha256 (el_X L) bs) = 32%nat) /\
             (Forall is_byte (x_keccak256 (el_X L) bs) /\ length (x_keccak256 (el_X L) bs) = 32%nat).

(** ** The parts of a reply *)

(** The digest of a fulfillment of a request. *)
Definition request_digest (r : fulfill_request) (f : fulfillment) : string + bytes :=
  if (fr_chain r =? "neox")%string then
    match dbl_BigInt (val_double (v_coalesce (get (fr_context r) "chain_id") (get (fr_context r) "chainId"))) with
    | inl e => inl e
    | inr chainId =>
        buildNeoXDigest (el_X L) chainId
          (trimString (v_or (get (fr_context r) "oracle_contract") (v_or (get (fr_context r) "oracleContract") (VStr ""))))
          (SignedPayload (fr_requestId r) (fr_requestType r) (request_context r) f)
          (resolveResultBytesHex (ff_result f) (ff_result_bytes_base64 f))
    end
  else
    buildFulfillmentDigestBytes (x_sha256 (el_X L)) (fr_requestId r) (fr_requestType r) (ff_success f) (ff_result f)
      (ff_error f) (ff_result_bytes_base64 f) (request_binding r).

(** A signature of the digest with the key that [env] has for the chain. *)
Definition signed_by (env : gmap string string) (r : fulfill_request) (d : bytes) (sg : enclave_signature) : Prop :=
  if (fr_chain r =? "neox")%string then
    exists config wallet, resolveNeoXConfig env (fr_context r) = inr config /\ el_evm_wallet L (nx_privateKey config) = inr wallet /\
      sg = EnclaveSignature (el_evm_sign L (nx_privateKey config) d) (ew_publicKey wallet)
  else
    exists report a, role_report_of L env "oracle_verifier" = inr report /\ report_account L report = inr (Some a) /\
      sg = EnclaveSignature (el_wallet_sign L (hex_encode d) (na_privateKey a)) (na_publicKey a).

(** An answer of the worker to a request. *)
Definition answered (r : fulfill_request) (w : worker_response) (o : obs enclave_state ecall) : Prop :=
  exists route payload token good status text,
    worker_request r = inr (route, payload) /\ o = OCall (WorkerHandle route token payload) (inr (good, status, text)) /\
    w = WorkerResponse good status (answer_body L text).

(** A document of the device for a digest. *)
Definition attested (d : bytes) (o : obs enclave_state ecall) : Prop :=
  exists rest reply, o = OCall (NsmAttest (["--user-data"; hex_encode (x_sha256 (el_X L) d)] ++ rest)) reply.

#[local] Abbreviation at_ s0 tr0 := (fun s tr => s = s0 /\ tr = tr0).

Lemma espec_see {A} s0 tr0 (k : enclave_state -> eprog A) post :
  espec (at_ s0 tr0) (k s0) post -> espec (at_ s0 tr0) (s <-! get_state ;; k s) post.
Proof.
  intros H. apply espec_andThen with (fun x s tr => x = s0 /\ s = s0 /\ tr = tr0).
  { apply espec_get_state. by intros s tr [-> ->]. }
  intros x. apply espec_pull. by intros ->.
Qed.

(** A step that neither calls nor changes the state. *)
Lemma espec_value {A B} s0 tr0 (r : failure + A) (k : A -> eprog B) (post : failure + B -> enclave_state -> etrace -> Prop) :
  (forall e, r = inl e -> post (inl e) s0 tr0) -> (forall a, r = inr a -> espec (at_ s0 tr0) (k a) post) ->
  espec (at_ s0 tr0) (andThen (Ret r) k) post.
Proof.
  intros He Hk. unfold andThen. cbn [bind]. destruct r as [e|a]; [|by apply Hk].
  apply espec_ret. intros s tr [-> ->]. by apply He.
Qed.

Lemma espec_or_throw {A B} s0 tr0 (r : string + A) (k : A -> eprog B) (post : failure + B -> enclave_state -> etrace -> Prop) :
  (forall m, post (inl (PlainError m)) s0 tr0) -> (forall a, r = inr a -> espec (at_ s0 tr0) (k a) post) ->
  espec (at_ s0 tr0) (andThen (or_throw r) k) post.
Proof. intros He Hk. destruct r as [m|a]; [apply espec_value|apply espec_value]; intros ? [= <-]; auto. Qed.

(** ** The steps *)

Lemma digest_shape r f d : hashes_ok -> request_digest r f = inr d -> digest_bytes d.
Proof.
  intros Hh. assert (forall d, Forall is_byte d /\ length d = 32%nat -> digest_bytes d) as Hb.
  { intros d' [H1 H2]. split; [done|]. by intros ->. }
  unfold request_digest, buildNeoXDigest, buildFulfillmentDigestBytes. intros H.
  repeat (case_match; try done); injection H as <-; apply Hb, Hh.
Qed.

(** The signer is found without a call; from a fresh cache it is the live one. *)
Lemma resolve_signer_live role s0 tr0 :
  espec (at_ s0 tr0) (resolvePinnedSigner L role) (fun r s tr => tr = tr0 /\ es_env s = es_env s0 /\
    (signers_fresh L s0 -> forall a, r = inr (Some a) ->
      exists report, role_report_of L (es_env s) role = inr report /\ report_account L report = inr (Some a))).
Proof.
  assert (ekeeps (fun s tr => tr = tr0 /\ es_env s = es_env s0) (resolvePinnedSigner L role)) as Hk.
  { unfold resolvePinnedSigner. repeat first [ekeeps_step | (apply espec_update; intros s tr [-> ?]; by split)]. }
  intros en s tr [-> ->]. specialize (Hk en s0 tr0 (conj eq_refl eq_refl)). pose proof (resolve_signer_fresh L role en s0 tr0) as Hf.
  destruct (run en _ s0 tr0) as [[o s] tr]. destruct Hk as (r & -> & -> & He). exists r. split_and!; [done..|].
  intros H. specialize (Hf H). destruct Hf as (r' & [= <-] & _ & Hf). exact Hf.
Qed.

(** What signing returns: the text of the digest and its signature. *)
Definition signs (r : fulfill_request) (f : fulfillment) (s0 : enclave_state) (x : failure + string * enclave_signature)
    (s : enclave_state) : Prop :=
  es_env s = es_env s0 /\ forall t sg, x = inr (t, sg) -> exists d, request_digest r f = inr d /\
    t = digest_text (fr_chain r) d /\ (signers_fresh L s0 -> signed_by (es_env s0) r d sg).

Lemma sign_spec r f s0 tr0 :
  espec (at_ s0 tr0) (sign_fulfillment L r f) (fun x s tr => tr = tr0 /\ signs r f s0 x s).
Proof.
  unfold sign_fulfillment, signs, request_digest, signed_by. destruct (fr_chain r =? "neox")%string eqn:Hc.
  - unfold sign_neox. apply espec_see. apply espec_or_throw; [intros ?; by split_and!|]. intros config Hconfig.
    assert (nx_chainId config = val_double (v_coalesce (get (fr_context r) "chain_id") (get (fr_context r) "chainId")) /\
      nx_oracleContract config = trimString (v_or (get (fr_context r) "oracle_contract")
        (v_or (get (fr_context r) "oracleContract") (VStr "")))) as [Hid Hcontract].
    { unfold resolveNeoXConfig in Hconfig. cbv zeta in Hconfig. repeat (case_match; try done). by injection Hconfig as <-. }
    rewrite <-Hid, <-Hcontract. apply espec_or_throw; [intros ?; by split_and!|]. intros chainId ->.
    apply espec_or_throw; [intros ?; by split_and!|]. intros d Hd. rewrite Hd. apply espec_or_throw; [intros ?; by split_and!|]. intros wallet Hw.
    apply espec_ret. intros s tr [-> ->]. split_and!; [done..|]. intros t sg [= <- <-]. exists d. unfold digest_text. rewrite Hc.
    split_and!; [done..|]. intros _. by exists config, wallet.
  - unfold sign_n3. apply espec_or_throw; [intros ?; by split_and!|]. intros d Hd. rewrite Hd. unfold signNeoN3OracleVerifier.
    apply espec_andThen with (fun sg s tr => tr = tr0 /\ es_env s = es_env s0 /\ (signers_fresh L s0 -> exists report a,
      role_report_of L (es_env s0) "oracle_verifier" = inr report /\ report_account L report = inr (Some a) /\
      sg = EnclaveSignature (el_wallet_sign L (hex_encode d) (na_privateKey a)) (na_publicKey a))).
    + apply espec_andThen with (fun resolved s tr => tr = tr0 /\ es_env s = es_env s0 /\ (signers_fresh L s0 -> forall a,
        resolved = Some a -> exists report,
        role_report_of L (es_env s) "oracle_verifier" = inr report /\ report_account L report = inr (Some a))).
      * eapply espec_conseq; [apply (resolve_signer_live _ s0 tr0)|done|].
        intros [e|resolved] s tr (-> & He & Ha); [by split_and!|]. split_and!; [done..|]. intros Hf a ->. by apply Ha.
      * intros [a|]; [|apply espec_ret; by intros s tr (-> & He & _)]. apply espec_ret. intros s tr (-> & He & Ha).
        split_and!; [done..|]. intros Hf. destruct (Ha Hf a eq_refl) as (report & Hr & Hacc). exists report, a. by rewrite <-He.
    + intros sg. apply espec_ret. intros s tr (-> & He & Hsg). split_and!; [done..|]. intros t sg' [= <- <-]. exists d.
      unfold digest_text. rewrite Hc. by split_and!.
Qed.

(** The device is asked about the digest, or not at all. *)
Lemma attest_spec r d s0 tr0 :
  hashes_ok -> digest_bytes d ->
  espec (at_ s0 tr0) (attest_digest L r (digest_text (fr_chain r) d)) (fun _ s tr => s = s0 /\
    (tr = tr0 \/ exists o, attested d o /\ tr = o :: tr0)).
Proof.
  intros Hh Hd. unfold attest_digest. apply espec_try.
  set (payload := VObj (_ ++ _)).
  assert (get payload "fulfillment_digest_hex" = VStr (digest_text (fr_chain r) d)) as Hget by done.
  set (nonce := normalizeHex (v_or (get payload "nonce") (v_or (get payload "report_data")
    (v_or (get payload "report_data_hex") (VStr ""))))).
  destruct (even_hex nonce) eqn:Hn.
  - eapply espec_conseq; [apply (attestation_call L) with (payload := payload) (text := digest_text (fr_chain r) d)
      (digest := hex_encode d) (s0 := s0) (tr0 := tr0)|done|]; try done.
    + by apply text_nonempty.
    + by apply normal_text.
    + by apply hex_nonempty.
    + by apply hex_even.
    + by destruct (Hh (hex_decode (hex_encode d))) as [[_ Hl] _].
    + intros x s tr (-> & rest & reply & ->). split; [done|]. right. eexists. split; [|done]. exists rest, reply.
      destruct Hd as [Hd _]. by rewrite hex_decode_encode.
  - unfold handleAttestation. apply espec_or_throw; [by split; [|left]|]. intros first _. cbv zeta.
    change (normalizeHex (v_or (get payload "nonce") _)) with nonce. rewrite Hn. cbn [negb].
    apply espec_ret. intros s tr [-> ->]. by split; [|left].
Qed.

Lemma compute_spec r s0 :
  espec (at_ s0 []) (computeWorkerResponse L r) (fun x s tr => forall w, x = inr w ->
    s = s0 /\ exists o, answered r w o /\ tr = [o]).
Proof.
  unfold computeWorkerResponse. apply espec_or_throw; [by intros|]. intros [route payload] Hr. cbn [fst snd].
  apply espec_andThen with (fun x s tr => s = s0 /\ exists token text,
    tr = [OCall (WorkerHandle route token payload) (inr (x.1.1, x.1.2, text))] /\ x.2 = answer_body L text).
  - unfold computeViaWorker. apply espec_see.
    apply espec_andThen with (fun x s tr => s = s0 /\ exists token, tr = [OCall (WorkerHandle route token payload) (inr x)]).
    + apply espec_call; [|by intros]. intros x s tr [-> ->]. eauto.
    + intros [[good status] text]. apply espec_ret. intros s tr (-> & token & ->). split; [done|]. by exists token, text.
  - intros [[good status] body]. apply espec_ret. intros s tr (-> & token & text & -> & Hb) w [= <-]. split; [done|].
    eexists. split; [|done]. exists route, payload, token, good, status, text. cbn in Hb. by rewrite <-Hb.
Qed.

(** How the relayer reads the reply. *)
Lemma reply_read r f verification t sg outcome :
  let reply := VObj (fulfill_reply r f verification t sg ++ attestation_fields outcome) in
  enclave_fulfillment reply = f /\ get reply "fulfillment_digest_hex" = VStr t /\ get reply "signature" = VStr (eg_signature sg).
Proof.
  cbv zeta. split_and!; [|done..]. unfold enclave_fulfillment. cbn -[attestation_fields].
  assert (forall nonce, assoc_get "result_bytes_base64" ((if (nonce =? "")%string then [] else [("nonce", VStr nonce)])
    ++ attestation_fields outcome) = VUndef) as Ha.
  { intros nonce. destruct (_ =? _)%string; unfold attestation_fields; repeat case_match; done. }
  destruct f as [success result rb err]. cbn -[attestation_fields]. f_equal. destruct (rb =? "")%string eqn:Hrb.
  - apply String.eqb_eq in Hrb as ->. cbn [app]. by rewrite Ha.
  - done.
Qed.

(** What stands behind a signed reply. *)
Definition reply_backed (body reply : val) (s0 : enclave_state) (tr : etrace) : Prop :=
  exists r w f d sg o,
    read_request body = inr r /\ answered r w o /\ encodeFulfillmentResult (x_sha256Hex (el_X L)) (fr_requestType r) w = inr f /\
    request_digest r f = inr d /\ (signers_fresh L s0 -> signed_by (es_env s0) r d sg) /\
    (tr = [o] \/ exists a, attested d a /\ tr = [a; o]) /\ enclave_fulfillment reply = f /\
    get reply "fulfillment_digest_hex" = VStr (digest_text (fr_chain r) d) /\ get reply "signature" = VStr (eg_signature sg).

Lemma fulfill_spec body s0 :
  hashes_ok -> espec (at_ s0 []) (handleOracleFulfill L body) (fun x _ tr => forall reply, x = inr reply ->
    get reply "signature" <> VNull -> reply_backed body reply s0 tr).
Proof.
  intros Hh. unfold handleOracleFulfill, or_fail. apply espec_value; [by intros|]. intros r Hr. case_match.
  { apply espec_ret. intros s tr _ reply [= <-]. done. }
  apply espec_andThen with (fun w s tr => s = s0 /\ exists o, answered r w o /\ tr = [o]).
  { eapply espec_conseq; [apply (compute_spec r s0)|done|]. intros [e|w] s tr Hw; [by intros|]. by apply Hw. }
  intros w en s tr (-> & o & Ho & ->). revert en.
  enough (espec (at_ s0 [o]) _ _) as He by (intros en; apply He; done).
  apply espec_or_throw; [by intros|]. intros f Hf. cbv zeta.
  apply espec_andThen with (fun x s tr => tr = [o] /\ signs r f s0 (inr x) s).
  { eapply espec_conseq; [apply (sign_spec r f s0 [o])|done|]. intros [e|x] s tr Hx; [by intros|exact Hx]. }
  intros [t sg] en s tr (-> & Henv & Hs). destruct (Hs t sg eq_refl) as (d & Hd & -> & Hsg).
  pose proof (digest_shape r f d Hh Hd) as Hb. revert en.
  enough (espec (at_ s [o]) _ _) as He by (intros en; apply He; done).
  eapply espec_andThen; [eapply espec_conseq; [apply (attest_spec r d s [o] Hh Hb)|done|]|].
  - intros [e|x] s' tr Hx; [by intros|]. exact (proj2 Hx).
  - intros outcome. apply espec_ret. intros s' tr Htr reply [= <-] _. exists r, w, f, d, sg, o.
    destruct (reply_read r f (buildOnchainResultEnvelope (x_sha256Hex (el_X L)) (fr_requestType r) w "")
      (digest_text (fr_chain r) d) sg outcome) as (Hr1 & Hr2 & Hr3). by split_and!.
Qed.

(** C5.  The enclave signs what it computed.  When [/oracle/fulfill] answers with a
    signature, the worker was asked once, for the request as the enclave routes
    it; the fields of the reply are the encoding of the worker's answer; the
    reported digest is the digest of those very fields under the request's
    binding, and the signature is one of that digest with the key the
    environment holds for the chain.  The device is asked for a document of that
    digest or for none. *)
Theorem signed_is_computed : forall body en s,
  hashes_ok -> signers_fresh L s ->
  let '(o, _, tr) := run en (handleOracleFulfill L body) s [] in
  forall reply, o = inr (inr reply) -> get reply "signature" <> VNull ->
    exists r w f d sg call,
      read_request body = inr r /\ answered r w call /\
      encodeFulfillmentResult (x_sha256Hex (el_X L)) (fr_requestType r) w = inr f /\ enclave_fulfillment reply = f /\
      request_digest r f = inr d /\ get reply "fulfillment_digest_hex" = VStr (digest_text (fr_chain r) d) /\
      signed_by (es_env s) r d sg /\ get reply "signature" = VStr (eg_signature sg) /\
      (tr = [call] \/ exists document, attested d document /\ tr = [document; call]).
Proof.
  intros body en s Hh Hf. pose proof (fulfill_spec body s Hh en s [] (conj eq_refl eq_refl)) as H.
  destruct (run en _ s []) as [[o s'] tr]. destruct H as (x & -> & H). intros reply [= ->] Hsig.
  destruct (H reply eq_refl Hsig) as (r & w & f & d & sg & o & Hr & Hw & He & Hd & Hs & Htr & Hrf & Hrd & Hrs).
  exists r, w, f, d, sg, o. specialize (Hs Hf). by split_and!.
Qed.
End fulfill.

(** ** The relayer's check *)

Lemma js_BigInt_trim s : js_BigInt (trim s) = js_BigInt s.
Proof. unfold js_BigInt, read_integer. by rewrite trim_idem. Qed.

Lemma intent_moduleId t : moduleId (resolveKernelIntent t) <> "".
Proof. unfold resolveKernelIntent. by repeat case_match. Qed.

Lemma intent_operation t : operation (resolveKernelIntent t) <> "".
Proof.
  unfold resolveKernelIntent.
  repeat match goal with |- context [if ?b then _ else _] => destruct b eqn:? end;
    cbn [operation]; first [by apply or_str_ne | intros Hn; rewrite Hn in *; discriminate].
Qed.

(** The parts of a digest that decide its bytes. *)
Lemma digest_bytes_agree sha id type success result error rb ctx type' ctx' d :
  dc_chain ctx = "neo_n3" -> dc_chain ctx' = "neo_n3" -> dc_appId ctx' = dc_appId ctx -> dc_moduleId ctx' = dc_moduleId ctx ->
  dc_operation ctx' = dc_operation ctx -> deploymentSuffix ctx' = deploymentSuffix ctx ->
  buildFulfillmentDigestBytes sha (trim id) type success result error rb ctx = inr d ->
  buildFulfillmentDigestBytes sha id type' success result error rb ctx' = inr d.
Proof.
  intros Hc Hc' Ha Hm Ho Hs. unfold buildFulfillmentDigestBytes, digest_preimage, encodeUint256Bytes.
  rewrite js_BigInt_trim, Hc, Hc', Ha, Hm, Ho, Hs. destruct (js_BigInt id) as [n|]; [|done]. by destruct (n <? 0).
Qed.

Lemma neox_digest_agree X chainId contract id type type' fc f hex d :
  buildNeoXDigest X chainId contract (SignedPayload (trim id) type fc f) hex = inr d ->
  buildNeoXDigest X chainId contract (SignedPayload id type' fc f) hex = inr d.
Proof.
  unfold buildNeoXDigest. cbn [sp_requestId sp_context sp_fulfillment]. destruct (x_getAddress _ _); [done|].
  rewrite js_BigInt_trim. by destruct (js_BigInt id).
Qed.

Lemma magic_read n : match n with Fin m => Z.abs m < 2 ^ 53 | _ => True end ->
  magic_of (v_coalesce (num_val n) VUndef) = match n with Fin m => Fin m | _ => NaN end.
Proof.
  destruct n as [m| | |]; try done. intros Hm. unfold magic_of. cbn [num_val v_coalesce val_double]. rewrite of_Z_exact by done.
  f_equal. apply Z.quot_mul. done.
Qed.

Lemma suffix_agree chain appId module op c n : match n with Fin m => Z.abs m < 2 ^ 53 | _ => True end ->
  deploymentSuffix (DigestContext chain appId module op (trim c) (magic_of (v_coalesce (num_val n) VUndef)))
  = deploymentSuffix (DigestContext chain appId module op c n).
Proof.
  intros Hn. rewrite magic_read by done. unfold deploymentSuffix. cbn [dc_networkMagic dc_contractScriptHash].
  rewrite trim_idem. by destruct n.
Qed.

Lemma trim_or c : trimString (v_or (VStr c) (VStr "")) = trim c.
Proof. unfold v_or. cbn. destruct (c =? "")%string eqn:Hc; [|done]. by apply String.eqb_eq in Hc as ->. Qed.

Section agree.
Context (L : enclave_lib) (cfg : config) (e : event).
#[local] Set Default Proof Using "All".
#[local] Abbreviation fc := (resolveEventFulfillmentContext e (resolveKernelIntent (ev_requestType e))).

(** The request has an application, and the deployment's numbers are exact as
    doubles. *)
Definition bindable : Prop :=
  match ev_chain e with
  | neo_n3 => ev_appId e <> "" /\ match cfg_networkMagic cfg with Fin m => Z.abs m < 2 ^ 53 | _ => True end
  | neox => 0 < cfg_neox_chainId cfg < 2 ^ 53 /\ trim (cfg_neox_oracleContract cfg) = cfg_neox_oracleContract cfg
  end.

(** What the enclave reads of the relayer's request. *)
Lemma read_relayed payload nonce req r :
  enclave_payload cfg e fc payload nonce = inr req -> read_request req = inr r ->
  fr_chain r = chain_name (ev_chain e) /\ fr_requestId r = trim (ev_requestId e) /\
  fr_context r = buildEnclaveFulfillmentContext cfg (ev_chain e) fc.
Proof.
  intros Hp Hr. unfold enclave_payload in Hp. repeat (case_match; try done). injection Hp as <-.
  unfold read_request in Hr. cbv zeta in Hr. repeat (case_match; try done). injection Hr as <-.
  cbn [fr_chain fr_requestId fr_context]. split_and!; [by destruct (ev_chain e)|done|done].
Qed.

Lemma context_relayed r :
  fr_context r = buildEnclaveFulfillmentContext cfg (ev_chain e) fc -> request_context r = fc.
Proof.
  intros Hc. unfold request_context. rewrite Hc. cbn -[resolveKernelIntent].
  assert (ev_moduleId e ||s moduleId (resolveKernelIntent (ev_requestType e)) <> "") as Hm by apply or_str_ne, intent_moduleId.
  assert (ev_operation e ||s operation (resolveKernelIntent (ev_requestType e)) <> "") as Ho by apply or_str_ne, intent_operation.
  unfold resolveEventFulfillmentContext. f_equal; by apply or_str_nonempty.
Qed.

(** The digest of the enclave is the digest of the relayer. *)
Lemma digest_relayed r f d :
  bindable -> fr_chain r = chain_name (ev_chain e) -> fr_requestId r = trim (ev_requestId e) ->
  fr_context r = buildEnclaveFulfillmentContext cfg (ev_chain e) fc -> request_digest L r f = inr d -> digest_bytes d ->
  recomputeFulfillmentDigestHex cfg (el_X L) (ev_chain e) (SignedPayload (ev_requestId e) (ev_requestType e) fc f) = inr (hex_encode d).
Proof.
  intros Hb Hchain Hid Hctx Hd Hbytes. pose proof (context_relayed r Hctx) as Hreq. unfold request_digest in Hd.
  rewrite Hchain, Hid in Hd. unfold bindable in Hb. unfold recomputeFulfillmentDigestHex. destruct (ev_chain e); cbn [chain_name] in *.
  - change (("neo_n3" =? "neox")%string) with false in Hd. cbv iota in Hd. destruct Hb as [Ha Hmagic].
    assert (n3_digest cfg (el_X L) neo_n3 (SignedPayload (ev_requestId e) (ev_requestType e) fc f) = inr d) as ->; [|done].
    unfold n3_digest. cbv zeta. cbn [sp_requestId sp_requestType sp_context sp_fulfillment].
    unfold request_binding in Hd. rewrite Hreq, Hchain, Hctx in Hd. cbv zeta in Hd.
    rewrite (eq_refl : get (buildEnclaveFulfillmentContext cfg neo_n3 fc) "contract_script_hash" = VStr (cfg_oracleContract cfg)),
      (eq_refl : v_or (get (buildEnclaveFulfillmentContext cfg neo_n3 fc) "contractScriptHash") (VStr "") = VStr ""), trim_or,
      (eq_refl : get (buildEnclaveFulfillmentContext cfg neo_n3 fc) "network_magic" = num_val (cfg_networkMagic cfg)),
      (eq_refl : get (buildEnclaveFulfillmentContext cfg neo_n3 fc) "networkMagic" = VUndef) in Hd. unfold resolveDigestBinding, resolveFulfillmentSigningContext.
    change (trim (chain_name neo_n3) ||s "neo_n3") with "neo_n3". cbn [resolveEventFulfillmentContext fc_appId].
    rewrite (proj2 (String.eqb_neq _ _) Ha). cbv iota zeta. cbn [String.eqb andb].
    refine (digest_bytes_agree _ _ _ _ _ _ _ _ _ _ _ _ _ _ _ _ _ Hd); try done. symmetry.
    by apply suffix_agree.
  - change (("neox" =? "neox")%string) with true in Hd. cbv iota in Hd. destruct Hb as [Hrange Htrim].
    rewrite Hreq, Hctx in Hd.
    rewrite (eq_refl : v_coalesce (get (buildEnclaveFulfillmentContext cfg neox fc) "chain_id")
        (get (buildEnclaveFulfillmentContext cfg neox fc) "chainId") = VNum (cfg_neox_chainId cfg)),
      (eq_refl : get (buildEnclaveFulfillmentContext cfg neox fc) "oracle_contract" = VStr (cfg_neox_oracleContract cfg)),
      (eq_refl : v_or (get (buildEnclaveFulfillmentContext cfg neox fc) "oracleContract") (VStr "") = VStr ""), trim_or, Htrim in Hd.
    cbn [val_double] in Hd. rewrite of_Z_exact in Hd by lia. cbn [dbl_BigInt] in Hd.
    rewrite Z.mod_mul, Z.div_mul in Hd by done. cbv iota in Hd.
    assert (neox_digest cfg (el_X L) (SignedPayload (ev_requestId e) (ev_requestType e) fc f) = inr d) as ->.
    { unfold neox_digest. exact (neox_digest_agree _ _ _ _ _ _ _ _ _ _ Hd). }
    f_equal. exact (text_digits "neox" d Hbytes).
Qed.

(** C6.  The relayer accepts the enclave's digest.  For every request that names an
    application (on Neo N3) under a deployment whose numbers are exact doubles,
    a signed reply to the relayer's request reports the very digest that the
    relayer recomputes from the reply's own fields, so its cross-check never
    fails on an honest enclave. *)
Theorem enclave_digest_agrees : forall payload nonce req en s,
  hashes_ok L -> bindable -> enclave_payload cfg e fc payload nonce = inr req ->
  let '(o, _, _) := run en (handleOracleFulfill L req) s [] in
  forall reply, o = inr (inr reply) -> get reply "signature" <> VNull ->
    exists digest,
      recomputeFulfillmentDigestHex cfg (el_X L) (ev_chain e)
        (SignedPayload (ev_requestId e) (ev_requestType e) fc (enclave_fulfillment reply)) = inr digest /\
      normalizePublicKeyOf (v_or (get reply "fulfillment_digest_hex") (VStr "")) = normalizePublicKey digest /\
      normalizePublicKey digest <> "".
Proof.
  intros payload nonce req en s Hh Hb Hp. pose proof (fulfill_spec L req s Hh en s [] (conj eq_refl eq_refl)) as H.
  destruct (run en _ s []) as [[o s'] tr]. destruct H as (x & -> & H). intros reply [= ->] Hsig.
  destruct (H reply eq_refl Hsig) as (r & w & f & d & sg & call & Hr & _ & _ & Hd & _ & _ & Hf & Hrd & _).
  destruct (read_relayed _ _ _ _ Hp Hr) as (Hchain & Hid & Hctx). pose proof (digest_shape L r f d Hh Hd) as Hbytes.
  exists (hex_encode d). rewrite Hf, Hrd, (digest_relayed r f d) by done. split_and!; [done| |].
  - rewrite normal_text_of by done. symmetry. exact (text_digits "neo_n3" d Hbytes).
  - rewrite (text_digits "neo_n3" d Hbytes : normalizePublicKey (hex_encode d) = _). by apply hex_nonempty.
Qed.
End agree.

(** ** Concrete runs *)

(** A request of an application. *)
Definition app_event (appId : string) : event :=
  Event neo_n3 "12" "privacy_oracle" appId "" "" "" "" "" "" "0xab" (Some 0) (Some 17) 0 "".

Definition app_request (appId : string) : val :=
  let e := app_event appId in
  match enclave_payload sample_config e (resolveEventFulfillmentContext e (resolveKernelIntent (ev_requestType e))) (VObj []) "00ff" with
  | inr req => req
  | inl _ => VUndef
  end.

Definition signing_state : enclave_state := started [("MORPHEUS_ORACLE_VERIFIER_WIF", "good")].

Lemma sample_hashes_ok : hashes_ok sample_enclave.
Proof.
  intros bs. assert (Forall is_byte (constant_hash bs)) as H by (apply Forall_forall; intros b Hb;
    apply list_elem_of_In, repeat_spec in Hb; subst b; unfold is_byte; lia). by split; split.
Qed.

Lemma signed_is_computed_witness :
  let '(o, _, tr) := run enclave_env (handleOracleFulfill sample_enclave (app_request "app")) signing_state [] in
  exists reply, o = inr (inr reply) /\ exists r w f d sg call,
    read_request (app_request "app") = inr r /\ answered sample_enclave r w call /\
    encodeFulfillmentResult (x_sha256Hex enclave_externals) (fr_requestType r) w = inr f /\ enclave_fulfillment reply = f /\
    request_digest sample_enclave r f = inr d /\
    get reply "fulfillment_digest_hex" = VStr (digest_text (fr_chain r) d) /\
    signed_by sample_enclave (es_env signing_state) r d sg /\ get reply "signature" = VStr (eg_signature sg) /\
    (tr = [call] \/ exists document, attested sample_enclave d document /\ tr = [document; call]).
Proof.
  assert (signers_fresh sample_enclave signing_state) as Hf by (intros key a Hin; by apply not_elem_of_nil in Hin).
  pose proof (signed_is_computed sample_enclave (app_request "app") enclave_env signing_state sample_hashes_ok Hf) as H.
  assert (exists reply, (run enclave_env (handleOracleFulfill sample_enclave (app_request "app")) signing_state []).1.1
    = inr (inr reply) /\ get reply "signature" <> VNull) as (reply & Hr & Hs).
  { eexists. split; [vm_compute; reflexivity|]. discriminate. }
  destruct (run _ _ _ _) as [[o s] tr]. exists reply. split; [exact Hr|]. exact (H reply Hr Hs).
Defined.

Lemma enclave_digest_agrees_witness :
  let '(o, _, _) := run enclave_env (handleOracleFulfill sample_enclave (app_request "app")) signing_state [] in
  exists reply digest, o = inr (inr reply) /\
    normalizePublicKeyOf (v_or (get reply "fulfillment_digest_hex") (VStr "")) = normalizePublicKey digest.
Proof.
  assert (bindable sample_config (app_event "app")) as Hb by (split; [done|reflexivity]).
  pose proof (enclave_digest_agrees sample_enclave sample_config (app_event "app") (VObj []) "00ff" (app_request "app")
    enclave_env signing_state sample_hashes_ok Hb eq_refl) as H.
  assert (exists reply, (run enclave_env (handleOracleFulfill sample_enclave (app_request "app")) signing_state []).1.1
    = inr (inr reply) /\ get reply "signature" <> VNull) as (reply & Hr & Hs).
  { eexists. split; [vm_compute; reflexivity|]. discriminate. }
  destruct (run _ _ _ _) as [[o s] tr]. destruct (H reply Hr Hs) as (digest & _ & Hd & _). by exists reply, digest.
Defined.

(** A library whose hash tells its inputs apart. *)
Definition telling_enclave : enclave_lib :=
  EnclaveLib wallet_account (fun _ => None) (el_wallet_sign sample_enclave) pinned_roles (el_json_parse sample_enclave) sample_externals
    (el_evm_wallet sample_enclave) (el_evm_sign sample_enclave).

Definition relayer_check (appId : string) : option bool :=
  let e := app_event appId in
  let fc := resolveEventFulfillmentContext e (resolveKernelIntent (ev_requestType e)) in
  match run enclave_env (handleOracleFulfill telling_enclave (app_request appId)) signing_state [] with
  | (inr (inr reply), _, _) =>
      match check_enclave_reply sample_config sample_externals e fc reply "00ff" 1000 with
      | inl m => Some (includes m "enclave fulfillment digest mismatch")
      | inr _ => Some false
      end
  | _ => None
  end.

(** A request without an application: the relayer recomputes the digest of the
    legacy domain, the enclave signed the one of Neo N3, and the reply of an
    honest enclave is refused. *)
Example legacy_event_refused : (relayer_check "app", relayer_check "") = (Some false, Some true).
Proof. vm_compute. reflexivity. Qed.
