(* ===== verification/EnclaveFeedSpec.v ===== *)
(** * What the enclave signs for a price update

    The transaction that [/feed/sign] signs for Neo N3 carries the update that was
    planned from the prices that were fetched, and the reply shows its arrays. *)
From stdpp Require Import gmap strings.
From S2P Require Import Prelude Numbers Strings Values Text Encoding Externals Effects Doubles Signers FeedPlan EnclaveCore EnclaveFulfill EnclaveFeed EnclaveSamples EnclaveSpec.
From Stdlib Require Import QArith.
#[local] Open Scope list_scope.
#[local] Open Scope Z_scope.

(** ** Plans *)

(** The updates that are due: in the order of the request, each symbol with a
    fetched price that is to be pushed against the request's record of it. *)
Definition due_updates (limits : plan_limits) (state : list (string * feed_cur)) (prices : feed_prices) (now : dbl)
    (symbols : list string) : list (string * dbl * feed_plan) :=
  omap (fun s =>
    match price_of prices s with
    | Some price =>
        let plan := planFeedUpdate (record_for state s) price now limits in
        if plan_push plan then Some (s, price, plan) else None
    | None => None
    end) symbols.

Lemma planned_due limits state prices now symbols :
  pn_updates (plan_symbols limits state prices now symbols) = due_updates limits state prices now symbols.
Proof.
  unfold plan_symbols, due_updates. set (f := fun s => _).
  enough (forall syms acc, pn_updates (foldl (plan_symbol limits state prices now) acc syms) = pn_updates acc ++ omap f syms) as H by apply (H symbols).
  induction syms as [|s syms IH]; intros acc; cbn [foldl]; [by rewrite app_nil_r|]. rewrite IH. cbn [omap list_omap]. unfold f at 2, plan_symbol.
  destruct (price_of prices s) as [price|]; [|done]. cbv zeta. destruct (plan_push _); [|done].
  cbn [pn_updates]. by rewrite <-app_assoc.
Qed.

(** The arrays of a batch, position by position. *)
Lemma batch_arrays sha256 updates :
  batch_of sha256 updates = FeedBatch ((fun u => FEED_PAIR_PREFIX +:+ u.1.1) <$> updates) ((fun u => plan_round u.2) <$> updates)
    ((fun u => price_scaled u.1.2) <$> updates) ((fun u => plan_ts u.2) <$> updates)
    ((fun u => attestation_hash sha256 u.1.1 (price_scaled u.1.2) (plan_ts u.2)) <$> updates) ((fun _ => DFin 0) <$> updates).
Proof.
  induction updates as [|u updates IH] using rev_ind; [done|]. unfold batch_of in *. rewrite foldl_app, IH. cbn [foldl add_planned].
  unfold add_planned. cbn [fb_pairs fb_rounds fb_prices fb_timestamps fb_hashes fb_sources]. by rewrite !fmap_app.
Qed.

Section feed.
Context (L : enclave_lib) (F : feed_lib) (magic : dbl) (limits : plan_limits).
#[local] Set Default Proof Using "All".

(** The account that a role's report selects. *)
Definition live (env : gmap string string) (role : string) (a : neo_account) : Prop :=
  exists report, role_report_of L env role = inr report /\ report_account L report = inr (Some a).

Lemma live_unique env role a a' : live env role a -> live env role a' -> a = a'.
Proof. intros (r & Hr & Ha) (r' & Hr' & Ha'). rewrite Hr in Hr'. injection Hr' as <-. congruence. Qed.

(** Prices that the provider's answer in the trace gives. *)
Definition fetched (syms : list string) (prices : feed_prices) (tr : etrace) : Prop :=
  exists url status text parsed, OCall (FetchPrices url) (inr (status, text)) ∈ tr /\ el_json_parse L text = Some parsed /\
    read_prices (length syms =? 1)%nat parsed syms = inr prices.

Lemma fetched_more syms prices o tr : fetched syms prices tr -> fetched syms prices (o :: tr).
Proof. intros (u & st & t & p & Hin & H). exists u, st, t, p. split; [by right|done]. Qed.

#[local] Abbreviation ready env := (fun s (_ : etrace) => signers_fresh L s /\ es_env s = env).

Lemma resolve_live env role (Q : etrace -> Prop) :
  espec (fun s tr => ready env s tr /\ Q tr) (resolvePinnedSigner L role) (fun r s tr => (ready env s tr /\ Q tr) /\
    forall a, r = inr (Some a) -> live env role a).
Proof.
  assert (ekeeps (fun s tr => es_env s = env /\ Q tr) (resolvePinnedSigner L role)) as Hk.
  { unfold resolvePinnedSigner. repeat first [ekeeps_step | (apply espec_update; by intros s tr [? ?])]. }
  intros en s tr [[Hf He] Hq]. specialize (Hk en s tr (conj He Hq)). pose proof (resolve_signer_fresh L role en s tr Hf) as Hl.
  destruct (run en _ s tr) as [[o s'] tr']. destruct Hk as (r & -> & He' & Hq'), Hl as (r' & [= <-] & Hf' & Hl). exists r.
  split; [done|]. split; [done|]. intros a Ha. destruct (Hl a Ha) as (report & Hr). exists report. by rewrite <-He'.
Qed.

Lemma updater_live env (Q : etrace -> Prop) :
  espec (fun s tr => ready env s tr /\ Q tr) (resolveUpdaterIdentity L) (fun r s tr => (ready env s tr /\ Q tr) /\
    forall a, r = inr a -> live env "updater" a).
Proof.
  unfold resolveUpdaterIdentity. apply espec_andThen with (fun x s tr => (ready env s tr /\ Q tr) /\
    forall a, x = Some a -> live env "updater" a).
  - eapply espec_conseq; [apply (resolve_live env _ Q)|done|]. intros [e|x] s tr [H Ha]; [by split|]. split; [done|]. intros a ->. by apply Ha.
  - intros [a|]; apply espec_ret; intros s tr [H Ha]; (split; [done|]); [|done]. intros a' [= <-]. by apply Ha.
Qed.

(** The plan and the signing of a request at a reading of the clock. *)
Definition plan_at (t : Z) (body : val) (symbols : list string) : eprog planned :=
  prices <-! fetch_prices L symbols ;;
  ok (plan_symbols limits (requested_state body) prices (requested_now body t) symbols).

Definition sign_at (t : Z) (body : val) (symbols : list string) : eprog val :=
  let nonce := normalizeHex (v_or (get body "nonce") (VStr "")) in
  pn <-! plan_at t body symbols ;;
  let b := batch_of (x_sha256 (el_X L)) (pn_updates pn) in
  match pn_updates pn with
  | [] => ok (no_update_n3 nonce pn)
  | _ =>
      updater <-! resolveUpdaterIdentity L ;;
      params <-! resolve_tx_params body ;;
      txNonce <-! resolve_tx_nonce L body nonce ;;
      message <-! or_throw (buildUpdateFeedsTxMessage F magic b params txNonce (na_publicKey updater)) ;;
      signed <-! signUpdaterMessage L message ;;
      ok (signed_n3 nonce pn b message txNonce (dadd (tp_blockCount params) (of_Z FEED_VALID_UNTIL_OFFSET)) signed)
  end.

(** The clock is read before anything else. *)
Lemma sign_now en body syms s tr :
  run en (sign_n3_feed L F magic limits body syms) s tr = run en (sign_at (env_now en tr) body syms) s tr.
Proof. reflexivity. Qed.

Lemma plan_fetched t body env syms :
  espec (ready env) (plan_at t body syms) (fun r s tr => forall pn, r = inr pn -> ready env s tr /\
    exists prices, fetched syms prices tr /\ pn = plan_symbols limits (requested_state body) prices (requested_now body t) syms).
Proof.
  unfold plan_at. apply espec_andThen with (fun prices s tr => ready env s tr /\ fetched syms prices tr).
  2: { intros prices. apply espec_ret. intros s tr [H Hf] pn [= <-]. split; [done|]. eauto. }
  unfold fetch_prices. apply espec_andThen with (fun _ => ready env); [by apply espec_get_state|]. intros s.
  apply espec_andThen with (fun reply s tr => ready env s tr /\ exists url, OCall (FetchPrices url) (inr reply) ∈ tr).
  - apply espec_call; [|by intros]. intros reply s' tr H. split; [done|]. eexists. by left.
  - intros [status text]. destruct (el_json_parse L text) as [parsed|] eqn:Hp; [|by apply espec_ret; intros].
    apply espec_throw. intros s' tr [H [url Hin]]. rewrite length_fmap. destruct (read_prices _ _ _) as [e|prices] eqn:Hr; [by intros|].
    split; [done|]. by exists url, status, text, parsed.
Qed.

(** The arrays a reply shows. *)
Definition shows (reply : val) (b : feed_batch) : Prop :=
  get reply "pairs" = texts (fb_pairs b) /\ get reply "rounds" = numbers (fb_rounds b) /\
  get reply "prices_scaled" = numbers (fb_prices b) /\ get reply "timestamps" = numbers (fb_timestamps b) /\
  get reply "attestation_hashes" = texts (fb_hashes b) /\ get reply "source_set_ids" = numbers (fb_sources b).

(** A transaction that carries a batch, and the reply that signs it. *)
Definition signs_update (env : gmap string string) (reply : val) (b : feed_batch) : Prop :=
  exists a tx, live env "updater" a /\
    fl_createScript F FEED_N3_CONTRACT "updateFeeds" (update_args b) = inr (tx_script tx) /\
    tx_signer tx = fl_scriptHashOfKey F (na_publicKey a) /\
    get reply "tx_nonce" = VNum (tx_nonce tx) /\ get reply "valid_until_block" = dbl_val (tx_validUntilBlock tx) /\
    get reply "tx_message_hex" = VStr (fl_message F tx magic) /\ get reply "public_key" = VStr (na_publicKey a) /\
    get reply "signature" = VStr (el_wallet_sign L (normalizeHex (VStr (fl_message F tx magic))) (na_privateKey a)).

Lemma message_tx b params nonce key message :
  buildUpdateFeedsTxMessage F magic b params nonce key = inr message ->
  exists tx, fl_createScript F FEED_N3_CONTRACT "updateFeeds" (update_args b) = inr (tx_script tx) /\
    tx_signer tx = fl_scriptHashOfKey F key /\ tx_nonce tx = nonce /\
    tx_validUntilBlock tx = dadd (tp_blockCount params) (of_Z FEED_VALID_UNTIL_OFFSET) /\ message = fl_message F tx magic.
Proof.
  unfold buildUpdateFeedsTxMessage. intros H. repeat (case_match; try done). injection H as <-. by eexists (N3Tx _ _ _ _ _ _).
Qed.

Lemma sign_message_live env message a :
  live env "updater" a ->
  espec (ready env) (signUpdaterMessage L message) (fun r _ _ => forall sg, r = inr sg ->
    sg = EnclaveSignature (el_wallet_sign L (normalizeHex (VStr message)) (na_privateKey a)) (na_publicKey a)).
Proof.
  intros Ha. unfold signUpdaterMessage. apply espec_andThen with (fun a' _ _ => a' = a).
  - eapply espec_conseq; [apply (updater_live env (fun _ => True))|done|]. intros [e|a'] s tr [_ Hl]; [by intros|].
    apply (live_unique env "updater"); [by apply Hl|done].
  - intros a'. apply espec_ret. by intros s tr -> sg [= <-].
Qed.

Lemma sign_n3_spec t env body syms :
  espec (ready env) (sign_at t body syms) (fun r _ tr => forall reply, r = inr reply ->
    get reply "status" = VStr "ok" -> exists prices,
      let pn := plan_symbols limits (requested_state body) prices (requested_now body t) syms in
      let b := batch_of (x_sha256 (el_X L)) (pn_updates pn) in
      fetched syms prices tr /\ pn_updates pn <> [] /\ shows reply b /\ signs_update env reply b).
Proof.
  unfold sign_at. cbv zeta. eapply espec_andThen; [eapply espec_conseq; [apply (plan_fetched t body env syms)|done|]|].
  { intros [e|pn] s tr H; [by intros|]. exact (H pn eq_refl). }
  intros pn en s tr (Hready & prices & Hf & Hpn). revert en.
  enough (espec (fun s tr => ready env s tr /\ fetched syms prices tr)
    match pn_updates pn with [] => _ | _ => _ end _) as He by (intros en; apply He; done).
  set (b := batch_of (x_sha256 (el_X L)) (pn_updates pn)).
  destruct (pn_updates pn) as [|u us] eqn:Hu; [by apply espec_ret; intros ? ? ? reply [= <-]|].
  assert (pn_updates pn <> []) as Hne by by rewrite Hu.
  apply espec_andThen with (fun a s tr => (ready env s tr /\ fetched syms prices tr) /\ live env "updater" a).
  { eapply espec_conseq; [apply (updater_live env (fetched syms prices))|done|]. intros [e|a] s' tr' [H Ha]; [by intros|]. by split; [|apply Ha]. }
  intros a. set (J := fun s tr => (ready env s tr /\ fetched syms prices tr) /\ live env "updater" a).
  apply espec_andThen with (fun _ => J).
  { unfold resolve_tx_params. cbv zeta. case_match; by apply espec_ret. }
  intros params. apply espec_andThen with (fun _ => J).
  { unfold resolve_tx_nonce. cbv zeta. repeat case_match; try by apply espec_ret.
    apply espec_call; [|done]. intros x s' tr' [[H1 H2] H3]. split; [|done]. split; [done|]. by apply fetched_more. }
  intros txNonce. apply espec_andThen with (fun message s tr => J s tr /\
    buildUpdateFeedsTxMessage F magic b params txNonce (na_publicKey a) = inr message).
  { apply espec_throw. intros s' tr' H. destruct (buildUpdateFeedsTxMessage _ _ _ _ _ _); [by intros|by split]. }
  intros message. eapply espec_andThen with (fun sg _ tr => fetched syms prices tr /\ live env "updater" a /\
    buildUpdateFeedsTxMessage F magic b params txNonce (na_publicKey a) = inr message /\
    sg = EnclaveSignature (el_wallet_sign L (normalizeHex (VStr message)) (na_privateKey a)) (na_publicKey a)).
  - intros en' s' tr' [[[Hr' Hf'] Ha] Hm]. pose proof (sign_message_live env message a Ha en' s' tr' Hr') as H1.
    assert (ekeeps (fun _ => fetched syms prices) (signUpdaterMessage L message)) as Hk.
    { unfold signUpdaterMessage, resolveUpdaterIdentity, resolvePinnedSigner.
      repeat first [ekeeps_step | by apply espec_update]. }
    specialize (Hk en' s' tr' Hf'). destruct (run en' _ s' tr') as [[o s2] tr2]. destruct H1 as (r & -> & H1), Hk as (r' & [= <-] & Hk).
    exists r. split; [done|]. destruct r as [e|sg]; [by intros|]. split_and!; [done..|]. by apply H1.
  - intros sg. apply espec_ret. intros s' tr' (Hf' & Ha & Hm & ->) reply [= <-] _. exists prices. cbv zeta.
    rewrite <-Hpn, Hu. fold b. destruct (message_tx _ _ _ _ _ Hm) as (tx & Hs & Hsig & Hn & Hv & ->). split; [done|]. split; [done|].
    split; [unfold shows; split_and!; reflexivity|]. exists a, tx.
    rewrite <-Hn, <-Hv. by split_and!.
Qed.

(** C35.  The signed update is the planned one.  When [/feed/sign] answers a Neo N3
    request with a signature, the transaction it covers calls the feed contract
    with exactly the updates that are due: in the order of the request, one
    entry for each requested symbol whose fetched price [planFeedUpdate] decides
    to push against the on-chain record the request gives of it, at the time of
    the request or of the clock, with the scaled price and that decision's round
    and timestamp.  There is at least one; the reply shows those very arrays;
    and the signature is the updater's live key on that transaction's message. *)
Theorem feed_signature_binds : forall body en s,
  signers_fresh L s -> normalizeChain (get body "chain") <> "neox" ->
  let '(o, _, tr) := run en (handleFeedSign L F magic limits body) s [] in
  forall reply, o = inr (inr reply) -> get reply "status" = VStr "ok" ->
    exists prices,
      let updates := due_updates limits (requested_state body) prices (requested_now body (env_now en []))
                       (requested_symbols body) in
      fetched (requested_symbols body) prices tr /\ updates <> [] /\
      let b := FeedBatch ((fun u => FEED_PAIR_PREFIX +:+ u.1.1) <$> updates) ((fun u => plan_round u.2) <$> updates)
        ((fun u => price_scaled u.1.2) <$> updates) ((fun u => plan_ts u.2) <$> updates)
        ((fun u => attestation_hash (x_sha256 (el_X L)) u.1.1 (price_scaled u.1.2) (plan_ts u.2)) <$> updates)
        ((fun _ => DFin 0) <$> updates) in
      shows reply b /\ signs_update (es_env s) reply b.
Proof.
  intros body en s Hf Hchain. unfold handleFeedSign. apply String.eqb_neq in Hchain. rewrite Hchain.
  pose proof (sign_n3_spec (env_now en []) (es_env s) body (requested_symbols body) en s [] (conj Hf eq_refl)) as H.
  destruct (requested_symbols body) as [|x l] eqn:Hs; [done|]. rewrite <-Hs in H |- *. rewrite sign_now.
  destruct (run en _ s []) as [[o s'] tr]. destruct H as (r & -> & H). intros reply [= ->] Hok.
  destruct (H reply eq_refl Hok) as (prices & Hp & Hne & Hshow & Hsign). exists prices. cbv zeta.
  rewrite <-batch_arrays, <-planned_due. by split_and!.
Qed.
End feed.

(** One symbol, and the network's parameters. *)
Definition feed_request : val :=
  VObj [("symbols", VArr [VStr "NEO-USD"]); ("nonce", VStr "00ff"); ("now", VNum 5000);
        ("tx_params", VObj [("block_count", VNum 100); ("system_fee", VNum 1); ("network_fee", VNum 1)])].

Lemma feed_signature_binds_witness :
  let s := started [("MORPHEUS_UPDATER_NEO_N3_WIF", "good")] in
  let '(o, _, tr) := run enclave_env (handleFeedSign sample_enclave sample_feed_lib (DFin ONE) sample_limits feed_request) s [] in
  exists reply prices b, o = inr (inr reply) /\ fetched sample_enclave (requested_symbols feed_request) prices tr /\
    fb_pairs b <> [] /\ shows reply b /\ signs_update sample_enclave sample_feed_lib (DFin ONE) (es_env s) reply b.
Proof.
  cbv zeta. set (s := started _).
  assert (signers_fresh sample_enclave s) as Hf by (intros key a Hin; by apply not_elem_of_nil in Hin).
  pose proof (feed_signature_binds sample_enclave sample_feed_lib (DFin ONE) sample_limits feed_request enclave_env s Hf
    ltac:(discriminate)) as H.
  assert (exists reply, (run enclave_env (handleFeedSign sample_enclave sample_feed_lib (DFin ONE) sample_limits feed_request) s []).1.1
    = inr (inr reply) /\ get reply "status" = VStr "ok") as (reply & Hr & Hs).
  { eexists. split; [vm_compute; reflexivity|]. reflexivity. }
  destruct (run _ _ _ _) as [[o s'] tr]. destruct (H reply Hr Hs) as (prices & Hp & Hne & Hshow & Hsign).
  eexists reply, prices, _. split; [exact Hr|]. split; [exact Hp|]. split; [|by split]. cbn. by destruct (due_updates _ _ _ _ _).
Defined.
