(* ===== verification/AutomationStore.v ===== *)
(** * The automation tables ([persistence.js])

    The REST client of the job store and the functions of [persistence.js] that
    read and write automation jobs and runs.  A row is the JSON object the store
    sends. *)
From S2P Require Import Prelude Numbers Strings Values State Effects Persistence.
#[local] Open Scope list_scope.
#[local] Open Scope Z_scope.

Definition AUTOMATION_PROCESSING_CLAIM_MARKER : string := "__morpheus_automation_processing_claim__".

(** A request: [rq_payload] is [VUndef] when there is no body. *)
Record rest_request := RestRequest {
  rq_table : string;
  rq_method : string;
  rq_query : list (string * string);
  rq_payload : val;
  rq_prefer : list string;
}.

Record rest_reply := RestReply {
  rs_status : Z;
  rs_text : string;
}.

(** What the automation engine shares between its asynchronous functions. *)
Record auto_state := AutoState {
  au_backoff : backoff;
  au_lastEmptyAutomationFetchAt : Z;
}.

(** What it awaits. *)
Inductive acall : Type -> Type :=
| Rest (r : rest_request) : acall rest_reply
| FeedRecord (pair : string) : acall val
| QueueNeoN3 (requester requestType : val) (payloadText : string) (callbackContract callbackMethod : val)
    (requestId : string) : acall val
| RandomUUID : acall string.

Abbreviation aprog := (prog auto_state acall).

Definition lift_r {A} (r : string + A) : aprog A := match r with inl e => Throw e | inr x => Ret x end.

Section store.
Context (pe : penv) (json_parse : string -> option val) (date_parse : string -> option Z) (to_iso : Z -> string)
  (sha256Hex : string -> string).
#[local] Open Scope prog_scope.

Definition mark_unavailable (message : string) : aprog unit :=
  modify_at (fun now s =>
    AutoState (markSupabasePersistenceUnavailable pe message now (au_backoff s)).2 (au_lastEmptyAutomationFetchAt s)).

Definition set_queries (query : list (string * string)) (onConflict : string) : list (string * string) :=
  filter (fun kv => kv.2 <> "") query ++ (if (onConflict =? "")%string then [] else [("on_conflict", onConflict)]).

Definition prefer_headers (onConflict : string) (ignoreDuplicates returnRepresentation : bool) : list string :=
  (if (onConflict =? "")%string then []
   else ["resolution=" +:+ if ignoreDuplicates then "ignore-duplicates" else "merge-duplicates"])
  ++ (if returnRepresentation then ["return=representation"] else []).

(** [null] without a configuration. *)
Definition supabaseRequest (table method : string) (payload : val) (query : list (string * string)) (onConflict : string)
    (returnRepresentation : bool) : aprog (option rest_reply) :=
  if negb (pe_has_supabase pe) then Ret None
  else
    response <-- await (Rest (RestRequest table method (set_queries query onConflict) (sanitizeForPostgres payload)
                                (prefer_headers onConflict false returnRepresentation))) ;;
    if (200 <=? rs_status response) && (rs_status response <=? 299) then Ret (Some response)
    else
      let message := trim ("supabase " +:+ table +:+ " " +:+ method +:+ " failed: " +:+ num_to_string (rs_status response)
                           +:+ " " +:+ rs_text response) in
      mark_unavailable message ;;; Throw message.

Definition supabaseSelect (table : string) (query : list (string * string)) : aprog val :=
  response <-- supabaseRequest table "GET" VUndef query "" false ;;
  Ret (match response with
       | None => VArr []
       | Some r => if (rs_text r =? "")%string then VArr [] else default (VArr []) (json_parse (rs_text r))
       end).

(** [Array.isArray(rows) ? rows[0] || null : null] *)
Definition first_row (rows : val) : val := match rows with VArr (row :: _) => v_or row VNull | _ => VNull end.

(** [parseRepresentation] *)
Definition parseRepresentation (response : option rest_reply) : val :=
  match response with
  | None => VNull
  | Some r => if (rs_text r =? "")%string then VNull else default VNull (first_row <$> json_parse (rs_text r))
  end.

Definition network : string := resolveSupabaseNetwork pe.
Definition eq_filter (value : string) : string := "eq." +:+ value.

Definition upsertAutomationJob (record : list (string * val)) : aprog (option rest_reply) :=
  supabaseRequest "morpheus_automation_jobs" "POST"
    (VObj (spread [("network", v_or (assoc_get "network" record) (VStr network))] record)) [] "automation_id" false.

Definition stamped (now : Z) (fields : list (string * val)) : val :=
  VObj (spread fields [("updated_at", VStr (to_iso now))]).

Definition patchAutomationJob (automationId : val) (fields : list (string * val)) : aprog (option rest_reply) :=
  now <-- clock ;;
  supabaseRequest "morpheus_automation_jobs" "PATCH" (stamped now fields)
    [("automation_id", eq_filter (js_String automationId))] "" false.

(** The disjuncts of the claim's filter. *)
Definition claim_or_parts (dueAtIso staleBeforeIso : string) : list string :=
  (if (dueAtIso =? "")%string then ["status.eq.active"]
   else ["and(status.eq.active,next_run_at.is.null)"; "and(status.eq.active,next_run_at.lte." +:+ dueAtIso +:+ ")"])
  ++ (if (staleBeforeIso =? "")%string then []
      else ["and(status.eq.processing,updated_at.lt." +:+ staleBeforeIso +:+ ")";
            "and(status.eq.paused,last_error.eq." +:+ AUTOMATION_PROCESSING_CLAIM_MARKER +:+ ",updated_at.lt."
              +:+ staleBeforeIso +:+ ")"]).

Definition claim_query (automationId dueAtIso staleBeforeIso : string) : list (string * string) :=
  [("automation_id", eq_filter automationId); ("network", eq_filter network);
   ("or", "(" +:+ join "," (claim_or_parts dueAtIso staleBeforeIso) +:+ ")")].

(** [/morpheus_automation_jobs_status_check|violates check constraint/i] *)
Definition status_check_violated (message : string) : bool :=
  let m := toLowerCase message in
  includes m "morpheus_automation_jobs_status_check" || includes m "violates check constraint".

Definition claimAutomationJob (automationId : val) (fields : list (string * val)) (dueAtIso staleBeforeIso : string)
    : aprog val :=
  let normalizedAutomationId := trimString automationId in
  if (normalizedAutomationId =? "")%string then Ret VNull
  else
    let query := claim_query normalizedAutomationId (trim dueAtIso) (trim staleBeforeIso) in
    now <-- clock ;;
    outcome <-- attempt (supabaseRequest "morpheus_automation_jobs" "PATCH" (stamped now fields) query "" true) ;;
    match outcome with
    | inr response => Ret (parseRepresentation response)
    | inl message =>
        if negb (status_check_violated message) then Throw message
        else
          now <-- clock ;;
          response <-- supabaseRequest "morpheus_automation_jobs" "PATCH"
            (stamped now (spread fields [("status", VStr "paused");
                                         ("last_error", VStr AUTOMATION_PROCESSING_CLAIM_MARKER)])) query "" true ;;
          Ret (parseRepresentation response)
    end.

(** [None]: no due time, so no filter.  An unreadable due time throws. *)
Definition buildSchedulableAutomationJobFilter (dueAtIso : string) : string + option string :=
  let normalizedDueAtIso := trim dueAtIso in
  if (normalizedDueAtIso =? "")%string then inr None
  else
    match date_parse normalizedDueAtIso with
    | None => inl "Invalid time value"
    | Some due =>
        inr (Some ("(" +:+ join "," (claim_or_parts normalizedDueAtIso (to_iso (due - 120000))) +:+ ")"))
    end.

Definition fetchAutomationJobById (automationId : string) : aprog val :=
  rows <-- supabaseSelect "morpheus_automation_jobs"
    [("select", "*"); ("network", eq_filter network); ("automation_id", eq_filter automationId); ("limit", "1")] ;;
  Ret (first_row rows).

Definition fetchActiveAutomationJobs (limit : Z) (dueAtIso : string) : aprog val :=
  schedulableFilter <-- lift_r (buildSchedulableAutomationJobFilter dueAtIso) ;;
  supabaseSelect "morpheus_automation_jobs"
    ([("select", "*"); ("network", eq_filter network); ("order", "next_run_at.asc.nullslast,updated_at.asc");
      ("limit", num_to_string limit)]
     ++ [match schedulableFilter with Some f => ("or", f) | None => ("status", "eq.active") end]).

Definition fetchAutomationRunByQueueTxHash (txHash : string) : aprog val :=
  let normalizedTxHash := trim txHash in
  if (normalizedTxHash =? "")%string then Ret VNull
  else
    rows <-- supabaseSelect "morpheus_automation_runs"
      [("select", "*"); ("network", eq_filter network); ("queue_tx->>tx_hash", eq_filter normalizedTxHash);
       ("order", "created_at.desc"); ("limit", "1")] ;;
    Ret (first_row rows).

Definition insertAutomationRun (record : list (string * val)) : aprog (option rest_reply) :=
  supabaseRequest "morpheus_automation_runs" "POST"
    (VObj (spread [("network", v_or (assoc_get "network" record) (VStr network))] record)) [] "" false.

Definition patchAutomationRunByQueueTxHash (txHash : string) (fields : list (string * val)) : aprog (option rest_reply) :=
  let normalizedTxHash := trim txHash in
  if (normalizedTxHash =? "")%string then Ret None
  else
    supabaseRequest "morpheus_automation_runs" "PATCH" (VObj fields)
      [("network", eq_filter network); ("queue_tx->>tx_hash", eq_filter normalizedTxHash)] "" false.

(** ** Encrypted fields *)

Definition string_field (v : val) : option string :=
  let t := trimString v in if (t =? "")%string then None else Some t.

Definition nested_encrypted (path : string) (v : val) : list (string * string) :=
  omap (fun kv => (fun c => (path +:+ "." +:+ kv.1, c)) <$> string_field kv.2) (obj_fields v).

Definition is_plain (v : val) : bool := match v with VObj _ => true | _ => false end.

(** The fields found, in order, as their dotted paths and ciphertexts; [path]
    is the dotted path so far. *)
Fixpoint collectEncryptedFields (path : list string) (v : val) : list (string * string) :=
  match v with
  | VArr l =>
      (fix go (i : Z) (l : list val) := match l with
        | [] => []
        | x :: l => collectEncryptedFields (path ++ [num_to_string i]) x ++ go (i + 1) l
        end) 0 l
  | VObj kvs =>
      (fix go (kvs : list (string * val)) := match kvs with
        | [] => []
        | (key, current) :: kvs =>
            let nextPath := path ++ [key] in
            (match startsWith key "encrypted_", string_field current with
             | true, Some ciphertext => [(join "." nextPath, ciphertext)]
             | _, _ =>
                 if (key =? "encrypted_inputs")%string && is_plain current
                 then nested_encrypted (join "." nextPath) current
                 else collectEncryptedFields nextPath current
             end) ++ go kvs
        end) kvs
  | _ => []
  end.

Definition secret_row (job : list (string * val)) (uuid : string) (entry : string * string) : val :=
  let net := v_or (assoc_get "network" job) (VStr network) in
  VObj [("project_id", v_or (assoc_get "project_id" job) VNull); ("network", net);
        ("name", VStr (join ":" ["automation"; js_String (assoc_get "automation_id" job); entry.1; uuid]));
        ("target_chain", assoc_get "chain" job); ("encryption_algorithm", VStr "client-supplied-ciphertext");
        ("key_version", VNum 1); ("ciphertext", VStr entry.2);
        ("metadata", VObj [("automation_id", assoc_get "automation_id" job); ("network", net);
                           ("registration_request_id", assoc_get "registration_request_id" job);
                           ("field_path", VStr entry.1); ("ciphertext_sha256", VStr (sha256Hex entry.2))])].

Fixpoint secret_rows (job : list (string * val)) (entries : list (string * string)) : aprog (list val) :=
  match entries with
  | [] => Ret []
  | entry :: entries =>
      uuid <-- await RandomUUID ;;
      rows <-- secret_rows job entries ;;
      Ret (secret_row job uuid entry :: rows)
  end.

Definition persistAutomationEncryptedFields (job : list (string * val)) : aprog unit :=
  let payload := match assoc_get "execution_payload" job with VObj kvs => VObj kvs | _ => VObj [] end in
  match collectEncryptedFields [] payload with
  | [] => Ret tt
  | entries =>
      rows <-- secret_rows job entries ;;
      supabaseRequest "morpheus_encrypted_secrets" "POST" (VArr rows) [] "" false ;;; Ret tt
  end.
End store.
