(* ===== verification/Automation.v ===== *)
(** * The automation engine ([automation.js])

    Registration and cancellation of automation jobs, the guard of a queued
    execution, and the scheduler's tick.  A job is the JSON object of its row;
    the submission to the chain ([queueNeoN3AutomationRequest]) and the read of
    a price record are awaited. *)
From S2P Require Import Prelude Numbers Strings Values State Effects Persistence Doubles Upkeep Prepare AutomationStore Buffers.
#[local] Open Scope list_scope.
#[local] Open Scope Z_scope.

Record automation_config := AutomationConfig {
  ac_enabled : bool;
  ac_batchSize : Z;
  ac_maxQueuedPerTick : Z;
  ac_defaultPriceCooldownMs : Z;
  ac_claimStaleMs : Z;
  ac_idleBackoffMs : Z;
}.

Notation jfields := (list (string * val)).

Definition normalized_type (v : val) : string := normalizeRequestType (as_string v).

(** [isPlainObject(v) ? v : {}] *)
Definition plain_or_empty (v : val) : val := if is_plain v then v else VObj [].

Definition parsePositiveInteger (value : val) (fieldName : string) : string + dbl :=
  match val_double value with
  | DFin n => if (0 <? n) && (n mod ONE =? 0) then inr (DFin n) else inl (fieldName +:+ " must be a positive integer")
  | _ => inl (fieldName +:+ " must be a positive integer")
  end.

Definition parseBigIntLike (value : val) (fieldName : string) : string + Z :=
  match js_BigInt (js_String value) with
  | Some z => inr z
  | None => inl (fieldName +:+ " must be an integer string")
  end.

(** A [null], [undefined] or empty setting. *)
Definition absent (v : val) : bool :=
  match v with VUndef | VNull => true | VStr s => (s =? "")%string | _ => false end.

Definition bind_r {A B} (r : string + A) (k : A -> string + B) : string + B :=
  match r with inl e => inl e | inr x => k x end.
Notation "x <-r p ;; k" := (bind_r p (fun x => k)) (at level 100, p at next level, right associativity).

Section engine.
Context (json_parse : string -> option val) (date_parse : string -> option Z) (to_iso : Z -> string).

(** [date.toISOString()] of a number of milliseconds. *)
Definition toISOString (ms : dbl) : string + string :=
  match ms with
  | DFin n =>
      let t := Z.quot n ONE in
      if Z.abs t <=? 8640000000000000 then inr (to_iso t) else inl "Invalid time value"
  | _ => inl "Invalid time value"
  end.

Definition parseTimestamp (value : val) : option Z := if absent value then None else date_parse (js_String value).

Definition resolveExecutionRequestType (payload : val) : string + string :=
  let execution := plain_or_empty (get payload "execution") in
  let requestType :=
    normalized_type (v_or (get execution "request_type") (v_or (get payload "execution_request_type") (VStr ""))) in
  if (requestType =? "")%string then inl "execution.request_type is required"
  else if includes requestType "feed" then inl "automation execution request_type cannot be datafeed"
  else if startsWith requestType "automation_" then
    inl "automation execution request_type cannot be an automation control type"
  else inr requestType.

Definition resolveExecutionPayload (payload : val) : string + val :=
  let execution := plain_or_empty (get payload "execution") in
  match v_coalesce (get execution "payload") (get payload "execution_payload") with
  | VStr text => inr (default (VObj [("raw_payload", VStr text)]) (json_parse text))
  | VObj kvs => inr (VObj kvs)
  | _ => inl "execution.payload must be a JSON object or string"
  end.

Definition stringifyExecutionPayload (payload : val) : string :=
  match payload with VStr s => s | _ => default "undefined" (json_stringify payload) end.

Record trigger := Trigger {
  tg_triggerType : string;
  tg_triggerConfig : val;
  tg_nextRunAt : val;
}.

Definition comparators : list string := ["gte"; "lte"; "cross_above"; "cross_below"].

Definition buildInitialTrigger (now : Z) (t : val) : string + trigger :=
  let type := normalized_type (v_or (get t "type") (VStr "")) in
  if (type =? "")%string then inl "trigger.type is required"
  else if (type =? "one_shot")%string then
    match parseTimestamp (v_or (get t "execute_at") (get t "executeAt")) with
    | None => inl "trigger.execute_at is required for one_shot"
    | Some executeAt =>
        inr (Trigger "one_shot" (VObj [("execute_at", VStr (to_iso executeAt))]) (VStr (to_iso executeAt)))
    end
  else if (type =? "interval")%string then
    intervalMs <-r parsePositiveInteger (v_or (get t "interval_ms") (get t "intervalMs")) "trigger.interval_ms" ;;
    let startAt := default now (parseTimestamp (v_or (get t "start_at") (get t "startAt"))) in
    inr (Trigger "interval" (VObj [("interval_ms", dbl_val intervalMs); ("start_at", VStr (to_iso startAt))])
           (VStr (to_iso startAt)))
  else if (type =? "price_threshold")%string then
    let comparator := normalized_type (v_or (get t "comparator") (VStr "")) in
    if negb (bool_decide (comparator ∈ comparators)) then
      inl "trigger.comparator must be one of gte, lte, cross_above, cross_below"
    else
      let pair := trimString (v_or (get t "pair") (v_or (get t "feed_pair") (VStr ""))) in
      if (pair =? "")%string then inl "trigger.pair is required for price_threshold"
      else
        threshold <-r parseBigIntLike (get t "threshold") "trigger.threshold" ;;
        cooldownMs <-r (if is_undefined (get t "cooldown_ms") then inr VNull
                        else c <-r parsePositiveInteger (get t "cooldown_ms") "trigger.cooldown_ms" ;; inr (dbl_val c)) ;;
        let feedChain := normalized_type (v_or (get t "feed_chain") (v_or (get t "feedChain") (VStr ""))) in
        inr (Trigger "price_threshold"
               (VObj [("pair", VStr pair); ("comparator", VStr comparator); ("threshold", VStr (num_to_string threshold));
                      ("cooldown_ms", cooldownMs);
                      ("feed_chain", if (feedChain =? "")%string then VNull else VStr feedChain)]) VNull)
  else inl ("unsupported trigger.type: " +:+ js_String (get t "type")).

Definition buildAutomationJobFromPayload (net uuid : string) (now : Z) (e : event) (payload : val) : string + jfields :=
  if negb (is_plain payload) then inl "automation registration payload must be a JSON object"
  else if negb (is_plain (get payload "trigger")) then inl "trigger is required"
  else
    executionRequestType <-r resolveExecutionRequestType payload ;;
    executionPayload <-r resolveExecutionPayload payload ;;
    t <-r buildInitialTrigger now (get payload "trigger") ;;
    maxExecutions <-r (if absent (get payload "max_executions") then inr VNull
                       else n <-r parsePositiveInteger (get payload "max_executions") "max_executions" ;; inr (dbl_val n)) ;;
    projectSlug <-r (if truthy (get payload "project_slug") then inr (get payload "project_slug")
                     else getp executionPayload "project_slug") ;;
    inr [("automation_id", VStr (join ":" ["automation"; chain_name (ev_chain e); uuid]));
         ("registration_request_id", VStr (ev_requestId e));
         ("network", VStr net); ("project_slug", VStr (trimString (v_or projectSlug (VStr ""))));
         ("chain", VStr (chain_name (ev_chain e))); ("requester", VStr (trim (ev_requester e)));
         ("callback_contract", VStr (trim (ev_callbackContract e)));
         ("callback_method", VStr (trim (ev_callbackMethod e)));
         ("execution_request_type", VStr executionRequestType); ("execution_payload", executionPayload);
         ("trigger_type", VStr (tg_triggerType t)); ("trigger_config", tg_triggerConfig t); ("trigger_state", VObj []);
         ("status", VStr "active"); ("next_run_at", tg_nextRunAt t); ("last_run_at", VNull);
         ("execution_count", VNum 0); ("max_executions", maxExecutions); ("last_queued_request_id", VNull);
         ("last_error", VNull); ("created_at", VStr (to_iso now)); ("updated_at", VStr (to_iso now))].

Definition buildRegistrationResult (job : jfields) : val :=
  let f k := (k, assoc_get k job) in
  VObj [("mode", VStr "automation"); ("action", VStr "register"); f "automation_id"; f "chain"; f "requester";
        f "callback_contract"; f "execution_request_type"; f "trigger_type"; f "next_run_at"; f "status"].

(** ** Cancellation *)

Definition isReclaimableInflightStatus (job : val) : bool :=
  let status := trimString (v_or (get job "status") (VStr "")) in
  (status =? "processing")%string ||
  ((status =? "paused")%string
   && (trimString (v_or (get job "last_error") (VStr "")) =? AUTOMATION_PROCESSING_CLAIM_MARKER)%string).

Definition resolveInFlightExecutionForCancel (job : val) : option string :=
  if negb (truthy job) then None
  else if negb (isReclaimableInflightStatus job) then None
  else string_field (v_or (get job "last_queued_request_id") (VStr "")).

Definition buildCancellationResult (job : val) (automationId : string) : val :=
  let inFlightRequestId := resolveInFlightExecutionForCancel job in
  VObj ([("mode", VStr "automation"); ("action", VStr "cancel"); ("automation_id", VStr automationId);
         ("chain", v_or (get job "chain") VNull);
         ("status", VStr (match inFlightRequestId with Some _ => "cancelling" | None => "cancelled" end));
         ("future_executions_cancelled", VBool true)]
        ++ match inFlightRequestId with
           | Some id =>
               [("in_flight_execution", VObj [("request_id", VStr id); ("will_be_charged", VBool true)]);
                ("message", VStr "one already-queued execution will still run and be charged; all future executions are cancelled")]
           | None => []
           end).

Definition cancellationPatch (job : val) : jfields :=
  [("status", VStr "cancelled"); ("next_run_at", VNull)]
  ++ match resolveInFlightExecutionForCancel job with Some _ => [] | None => [("last_error", VNull)] end.

(** ** Evaluation of a job *)

Record evaluation := Evaluation {
  evl_due : bool;
  evl_patch : option jfields;
  evl_triggerReason : val;
  evl_observedValue : val;
}.

Definition not_due (patch : option jfields) : evaluation := Evaluation false patch VUndef VUndef.

Definition comparator_due (comparator : string) (threshold current : Z) (previous : option Z) : bool :=
  if (comparator =? "gte")%string then threshold <=? current
  else if (comparator =? "lte")%string then current <=? threshold
  else if (comparator =? "cross_above")%string then
    match previous with Some p => (p <? threshold) && (threshold <=? current) | None => false end
  else if (comparator =? "cross_below")%string then
    match previous with Some p => (threshold <? p) && (current <=? threshold) | None => false end
  else false.

Definition evaluatePriceThreshold (job record : val) (nowMs defaultCooldownMs : Z) : string + evaluation :=
  let triggerConfig := plain_or_empty (get job "trigger_config") in
  let triggerState := plain_or_empty (get job "trigger_state") in
  threshold <-r BigInt (v_or (get triggerConfig "threshold") (VStr "0")) ;;
  current <-r BigInt (v_or (get record "price") (VStr "0")) ;;
  previous <-r (if absent (get triggerState "last_observed_value") then inr None
                else p <-r BigInt (get triggerState "last_observed_value") ;; inr (Some p)) ;;
  let comparator := normalized_type (v_or (get triggerConfig "comparator") (VStr "")) in
  let cooldownMs := val_double (v_coalesce (get triggerConfig "cooldown_ms") (VNum defaultCooldownMs)) in
  let due := comparator_due comparator threshold current previous in
  nextRunAt <-r (if due && dlt (DFin 0) cooldownMs
                 then t <-r toISOString (dadd (of_Z nowMs) cooldownMs) ;; inr (VStr t)
                 else inr (get job "next_run_at")) ;;
  inr (Evaluation due
    (Some [("trigger_state", VObj (spread (obj_fields triggerState)
              [("last_observed_value", VStr (num_to_string current)); ("last_observed_at", VStr (to_iso nowMs));
               ("last_round_id", VStr (js_String (v_or (get record "roundId") (VStr "0"))))]));
           ("next_run_at", nextRunAt)])
    (VStr (comparator +:+ ":" +:+ js_String (get triggerConfig "pair"))) (VStr (num_to_string current))).

(** [Number(job.execution_count || 0) >= Number(job.max_executions)] for a set maximum. *)
Definition executions_exhausted (job : val) (count : dbl) : bool :=
  match get job "max_executions" with
  | VUndef | VNull => false
  | max => dle (val_double max) count
  end.

#[local] Open Scope prog_scope.

Definition evaluateAutomationJob (cfg : automation_config) (job : val) (nowMs : Z) : aprog evaluation :=
  if negb (bool_decide (get job "status" = VStr "active")) then Ret (not_due None)
  else if executions_exhausted job (val_double (v_or (get job "execution_count") (VNum 0))) then
    Ret (not_due (Some [("status", VStr "completed"); ("next_run_at", VNull)]))
  else
    let type := get job "trigger_type" in
    if bool_decide (type = VStr "one_shot") || bool_decide (type = VStr "interval") then
      match parseTimestamp (v_or (get job "next_run_at")
              (if is_plain (get job "trigger_config") then get (get job "trigger_config") "start_at" else VNull)) with
      | None => Ret (not_due (Some [("status", VStr "error"); ("last_error", VStr "invalid next_run_at")]))
      | Some nextRun => Ret (Evaluation (nextRun <=? nowMs) None VUndef VUndef)
      end
    else if bool_decide (type = VStr "price_threshold") then
      let pair := trimString (v_or (get (plain_or_empty (get job "trigger_config")) "pair") (VStr "")) in
      if (pair =? "")%string then
        Ret (not_due (Some [("status", VStr "error"); ("last_error", VStr "price_threshold pair missing")]))
      else if truthy (get job "next_run_at")
              && match parseTimestamp (get job "next_run_at") with Some t => nowMs <? t | None => false end
      then Ret (not_due None)
      else
        record <-- await (FeedRecord pair) ;;
        lift_r (evaluatePriceThreshold job record nowMs (ac_defaultPriceCooldownMs cfg))
    else
      Ret (not_due (Some [("status", VStr "error");
                          ("last_error", VStr ("unsupported trigger type: " +:+ js_String type))])).

Definition computeNextIntervalRun (job : val) (nowMs : Z) : string + val :=
  let intervalMs := val_double (v_or (get (plain_or_empty (get job "trigger_config")) "interval_ms") (VNum 0)) in
  if dfinite intervalMs && dlt (DFin 0) intervalMs
  then t <-r toISOString (dadd (of_Z nowMs) intervalMs) ;; inr (VStr t)
  else inr VNull.

Definition classifyAutomationExecutionFailure (error : string) (inFlightExecution : bool) : jfields :=
  let message := trim error in
  if includes (toLowerCase message) "request fee not paid" then
    [("status", VStr "error"); ("next_run_at", VNull); ("last_error", VStr message)]
  else if inFlightExecution then [("status", VStr "processing"); ("last_error", VStr message)]
  else [("status", VStr "active"); ("last_error", VStr message)].

Definition next_schedule (job : val) (ev : evaluation) (nowMs : Z) : string + (string * val) :=
  let type := get job "trigger_type" in
  if bool_decide (type = VStr "one_shot") then inr ("completed", VNull)
  else if bool_decide (type = VStr "interval") then n <-r computeNextIntervalRun job nowMs ;; inr ("active", n)
  else
    match assoc_get "next_run_at" (default [] (evl_patch ev)) with
    | VUndef => inr ("active", get job "next_run_at")
    | n => inr ("active", n)
    end.

Definition buildQueuedAutomationPatch (job : val) (ev : evaluation) (nowMs : Z) (dispatch : upkeep)
    (queuedRequestId : val) : string + jfields :=
  schedule <-r next_schedule job ev nowMs ;;
  let exhausted := executions_exhausted job (of_Z (up_next_execution_count dispatch)) in
  inr (spread (default [] (evl_patch ev))
    [("execution_count", VNum (up_next_execution_count dispatch)); ("last_run_at", VStr (to_iso nowMs));
     ("last_queued_request_id", v_or queuedRequestId (VStr (up_request_id dispatch)));
     ("next_run_at", if exhausted then VNull else schedule.2);
     ("status", VStr (if exhausted then "completed" else schedule.1)); ("last_error", VNull)]).

Definition upkeep_val (d : upkeep) : val :=
  VObj [("workflow_id", VStr (up_workflow_id d)); ("workflow_version", VNum (up_workflow_version d));
        ("automation_id", VStr (up_automation_id d)); ("execution_count", VNum (up_execution_count d));
        ("next_execution_count", VNum (up_next_execution_count d)); ("execution_id", VStr (up_execution_id d));
        ("request_id", VStr (up_request_id d)); ("idempotency_key", VStr (up_idempotency_key d));
        ("replay_window", VStr (up_replay_window d)); ("delivery_mode", VStr (up_delivery_mode d))].

Definition buildQueuedAutomationTxRecord (queuedTx : val) (d : upkeep) : val :=
  VObj (spread (own_fields queuedTx)
    [("workflow_id", VStr (up_workflow_id d)); ("workflow_version", VNum (up_workflow_version d));
     ("execution_id", VStr (up_execution_id d)); ("idempotency_key", VStr (up_idempotency_key d));
     ("replay_window", VStr (up_replay_window d)); ("delivery_mode", VStr (up_delivery_mode d))]).

(** The dispatch of the next execution, and whether the row was advanced for it
    already. *)
Definition resolveAutomationExecutionDispatch (job : jfields) : string + (upkeep * bool) :=
  let currentCount := parseNonNegativeInteger (v_or (assoc_get "execution_count" job) (assoc_get "executionCount" job)) in
  let pinnedRequestId := trimString (v_or (assoc_get "last_queued_request_id" job) (VStr "")) in
  advancedDispatch <-r buildUpkeepDispatch (VObj (spread job [("execution_count", VNum (currentCount - 1))])) ;;
  if isReclaimableInflightStatus (VObj job) && (0 <? currentCount) && negb (pinnedRequestId =? "")%string
     && (pinnedRequestId =? up_request_id advancedDispatch)%string
  then inr (advancedDispatch, true)
  else d <-r buildUpkeepDispatch (VObj job) ;; inr (d, false).

(** ** Guard and control requests *)

Context (pe : penv) (sha256Hex : string -> string).

Record guard_result := GuardResult {
  gr_blocked : bool;
  gr_route : string;
  gr_error : string;
  gr_automation_id : val;
  gr_run : val;
  gr_job : val;
}.

Definition let_through (automationId run job : val) : guard_result := GuardResult false "" "" automationId run job.

(** A refusal, recorded in the run; a failure to record it is ignored. *)
Definition block_run (txHash route error : string) (automationId run job : val) : aprog guard_result :=
  attempt (patchAutomationRunByQueueTxHash pe txHash [("status", VStr "failed"); ("error", VStr error)]) ;;;
  Ret (GuardResult true route error automationId run job).

Definition buildCancelledExecutionError (automationId : string) : string :=
  "automation cancelled before execution: " +:+ automationId.

Definition guardQueuedAutomationExecution (e : event) : aprog guard_result :=
  let txHash := trim (ev_txHash e) in
  if (txHash =? "")%string then Ret (let_through VUndef VNull VNull)
  else
    run <-- fetchAutomationRunByQueueTxHash pe json_parse txHash ;;
    if negb (truthy run) then Ret (let_through VUndef VNull VNull)
    else
      let automationId := trimString (v_or (get run "automation_id") (VStr "")) in
      if (automationId =? "")%string then
        block_run txHash "automation:invalid-queued-run" "queued automation run missing automation_id" VNull run VNull
      else
        job <-- fetchAutomationJobById pe json_parse automationId ;;
        if negb (truthy job) then
          block_run txHash "automation:missing-before-execution"
            ("automation job missing before execution: " +:+ automationId) (VStr automationId) run VNull
        else
          let inFlightRequestId := trimString (v_or (get job "last_queued_request_id") (VStr "")) in
          let runRequestId := trimString (v_or (get run "queued_request_id") (VStr "")) in
          let isInFlightExecution :=
            negb (inFlightRequestId =? "")%string && (runRequestId =? inFlightRequestId)%string in
          if (trimString (v_or (get job "status") (VStr "")) =? "cancelled")%string && negb isInFlightExecution then
            block_run txHash "automation:cancelled-before-execution" (buildCancelledExecutionError automationId)
              (VStr automationId) run job
          else Ret (let_through (VStr automationId) run job).

Record control_response := ControlResponse {
  cr_ok : bool;
  cr_status : Z;
  cr_body : val;
  cr_route : string;
}.

Definition refuse_cancel (status : Z) (error : string) : control_response :=
  ControlResponse false status (VObj [("error", VStr error)]) "automation:cancel".

(** [null] is [None]. *)
Definition handleAutomationControlRequest (e : event) (payload : val) : aprog (option control_response) :=
  let normalized := normalizeRequestType (ev_requestType e) in
  if (normalized =? "automation_register")%string then
    uuid <-- await RandomUUID ;;
    now <-- clock ;;
    job <-- lift_r (buildAutomationJobFromPayload (network pe) uuid now e payload) ;;
    upsertAutomationJob pe job ;;;
    persistAutomationEncryptedFields pe sha256Hex job ;;;
    Ret (Some (ControlResponse true 200 (buildRegistrationResult job) "automation:register"))
  else if (normalized =? "automation_cancel")%string then
    let automationId := trimString (v_or (get payload "automation_id") (v_or (get payload "id") (VStr ""))) in
    if (automationId =? "")%string then Ret (Some (refuse_cancel 400 "automation_id required"))
    else
      job <-- fetchAutomationJobById pe json_parse automationId ;;
      if negb (truthy job) then Ret (Some (refuse_cancel 404 ("automation not found: " +:+ automationId)))
      else if negb (trimString (get job "requester") =? trim (ev_requester e))%string then
        Ret (Some (refuse_cancel 403 "automation cancel requester mismatch"))
      else
        patchAutomationJob pe to_iso (VStr automationId) (cancellationPatch job) ;;;
        Ret (Some (ControlResponse true 200 (buildCancellationResult job automationId) "automation:cancel"))
  else Ret None.

(** ** The tick *)

(** The reply of the chain, with the dispatch in front. *)
Definition queueAutomationExecution (job : jfields) (dispatch : upkeep) : aprog val :=
  payload <-- lift_r (buildUpkeepExecutionPayload (v_or (assoc_get "execution_payload" job) (VObj []))
    (VObj (spread job [("execution_count", VNum (up_execution_count dispatch));
                       ("request_id", VStr (up_request_id dispatch))]))) ;;
  let payloadText := stringifyExecutionPayload payload in
  if negb (bool_decide (assoc_get "chain" job = VStr "neo_n3")) then
    Throw ("Invalid automation job chain: " +:+ js_String (assoc_get "chain" job))
  else
    reply <-- await (QueueNeoN3 (assoc_get "requester" job) (assoc_get "execution_request_type" job) payloadText
                       (assoc_get "callback_contract" job) (assoc_get "callback_method" job) (up_request_id dispatch)) ;;
    Ret (VObj (spread [("dispatch", upkeep_val dispatch)] (own_fields reply))).

Record tick_report := TickReport {
  tr_queued : Z;
  tr_skipped : Z;
  tr_failed : Z;
  tr_inspected : Z;
  tr_idle_skipped : bool;
}.

Definition empty_report : tick_report := TickReport 0 0 0 0 false.

(** What became of a job of the tick. *)
Inductive job_outcome := JobQueued | JobSkipped.

Definition claim_fields (dispatch : upkeep) (alreadyAdvanced : bool) : jfields :=
  [("status", VStr "processing"); ("last_error", VNull)]
  ++ (if alreadyAdvanced then []
      else [("execution_count", VNum (up_next_execution_count dispatch));
            ("last_queued_request_id", VStr (up_request_id dispatch))]).

Definition run_record (job : val) (queuedRequestId : val) (status : string) (reason observed queue_tx error : val)
    : jfields :=
  [("automation_id", get job "automation_id"); ("queued_request_id", queuedRequestId); ("chain", get job "chain");
   ("status", VStr status); ("trigger_reason", reason); ("observed_value", observed); ("queue_tx", queue_tx);
   ("error", error)].

(** From the claim on: broadcast, record the run, finalize the row. *)
Definition execute_claimed (executionJob : jfields) (ev : evaluation) (nowMs : Z) (dispatch : upkeep)
    : aprog job_outcome :=
  queuedTx <-- queueAutomationExecution executionJob dispatch ;;
  let queuedRequestId := v_or (get queuedTx "request_id") (VStr (up_request_id dispatch)) in
  let duplicate := truthy (get queuedTx "duplicate") in
  insertAutomationRun pe
    (run_record (VObj executionJob) queuedRequestId (if duplicate then "skipped" else "queued")
       (v_or (evl_triggerReason ev) (assoc_get "trigger_type" executionJob)) (v_or (evl_observedValue ev) VNull)
       (buildQueuedAutomationTxRecord queuedTx dispatch) VNull) ;;;
  patch <-- lift_r (buildQueuedAutomationPatch (VObj executionJob) ev nowMs dispatch queuedRequestId) ;;
  patchAutomationJob pe to_iso (assoc_get "automation_id" executionJob) patch ;;;
  Ret (if duplicate then JobSkipped else JobQueued).

(** The [try] block of one job: the outcome, and on an exception its message and
    whether the execution was pinned.  A nullish job throws at its first
    property; any other value that is not an object has no properties. *)
Definition process_job (cfg : automation_config) (dueAtIso staleBeforeIso : string) (nowMs : Z) (job : val)
    : aprog (string * bool + job_outcome) :=
  let schedulableJob :=
    if isReclaimableInflightStatus job then spread (obj_fields job) [("status", VStr "active")] else obj_fields job in
  claimed <-- attempt (
    lift_r (getp job "status") ;;;
    ev <-- evaluateAutomationJob cfg (VObj schedulableJob) nowMs ;;
    (match evl_patch ev with
     | Some patch => patchAutomationJob pe to_iso (assoc_get "automation_id" schedulableJob) patch ;;; Ret tt
     | None => Ret tt
     end) ;;;
    if negb (evl_due ev) then Ret None
    else
      '(claimDispatch, alreadyAdvanced) <-- lift_r (resolveAutomationExecutionDispatch
        (spread schedulableJob [("status", get job "status"); ("last_error", get job "last_error")])) ;;
      claimedJob <-- claimAutomationJob pe json_parse to_iso (assoc_get "automation_id" schedulableJob)
        (claim_fields claimDispatch alreadyAdvanced) dueAtIso staleBeforeIso ;;
      if negb (truthy claimedJob) then Ret None
      else
        Ret (Some (ev, claimDispatch,
          spread (spread schedulableJob (own_fields claimedJob))
            [("execution_count", VNum (up_next_execution_count claimDispatch));
             ("last_queued_request_id", VStr (up_request_id claimDispatch)); ("status", VStr "active")]))) ;;
  match claimed with
  | inl message => Ret (inl (message, false))
  | inr None => Ret (inr JobSkipped)
  | inr (Some (ev, claimDispatch, executionJob)) =>
      outcome <-- attempt (execute_claimed executionJob ev nowMs claimDispatch) ;;
      Ret (match outcome with inl message => inl (message, true) | inr o => inr o end)
  end.

(** The [catch] block: both writes are best effort, but the read of the id of a
    nullish job throws, and nothing catches that. *)
Definition record_failure (job : val) (message : string) (inFlightExecution : bool) : aprog unit :=
  automationId <-- lift_r (getp job "automation_id") ;;
  attempt (patchAutomationJob pe to_iso automationId
             (classifyAutomationExecutionFailure message inFlightExecution)) ;;;
  attempt (insertAutomationRun pe
             (run_record job VNull "failed" (get job "trigger_type") VNull VNull (VStr message))) ;;;
  Ret tt.

Fixpoint process_jobs (cfg : automation_config) (dueAtIso staleBeforeIso : string) (nowMs : Z) (jobs : list val)
    (r : tick_report) : aprog tick_report :=
  match jobs with
  | [] => Ret r
  | job :: jobs =>
      if ac_maxQueuedPerTick cfg <=? tr_queued r then Ret r
      else
        outcome <-- process_job cfg dueAtIso staleBeforeIso nowMs job ;;
        r <-- (match outcome with
               | inr JobQueued =>
                   Ret (TickReport (tr_queued r + 1) (tr_skipped r) (tr_failed r) (tr_inspected r) false)
               | inr JobSkipped =>
                   Ret (TickReport (tr_queued r) (tr_skipped r + 1) (tr_failed r) (tr_inspected r) false)
               | inl (message, inFlightExecution) =>
                   record_failure job message inFlightExecution ;;;
                   Ret (TickReport (tr_queued r) (tr_skipped r) (tr_failed r + 1) (tr_inspected r) false)
               end) ;;
        process_jobs cfg dueAtIso staleBeforeIso nowMs jobs r
  end.

Definition set_last_empty (t : Z) (s : auto_state) : auto_state := AutoState (au_backoff s) t.

(** [jobs.length], on whatever the store answered. *)
Definition rows_length (rows : val) : string + val :=
  match rows with
  | VArr l => inr (VNum (Z.of_nat (length l)))
  | VStr s => inr (VNum (Z.of_nat (String.length s)))
  | _ => getp rows "length"
  end.

(** [for (const job of jobs)]: an array and a string are iterable. *)
Definition iterate (rows : val) : string + list val :=
  match rows with
  | VArr l => inr l
  | VStr s => inr (VStr <$> chars s)
  | _ => inl "jobs is not iterable"
  end.

(** The [try] block of the fetch: the parsed reply, of whatever shape. *)
Definition fetch_due (cfg : automation_config) (dueAtIso : string) : aprog val :=
  jobs <-- fetchActiveAutomationJobs pe json_parse date_parse to_iso (ac_batchSize cfg) dueAtIso ;;
  length <-- lift_r (rows_length jobs) ;;
  modify_at (fun now => set_last_empty (if bool_decide (length = VNum 0) then now else 0)) ;;;
  Ret jobs.

(** The gates before the fetch: [Some] is the report of a tick that ends there. *)
Definition tick_gate (cfg : automation_config) (now : Z) (s : auto_state) : option tick_report :=
  if negb (ac_enabled cfg) then Some empty_report
  else if shouldSkipSupabasePersistence now (au_backoff s) then Some empty_report
  else
    let automationIdleBackoffMs := Z.max (ac_idleBackoffMs cfg) 0 in
    let lastEmpty := au_lastEmptyAutomationFetchAt s in
    if (0 <? automationIdleBackoffMs) && (0 <? lastEmpty) && (now - lastEmpty <? automationIdleBackoffMs)
    then Some (TickReport 0 0 0 0 true)
    else None.

Definition processAutomationJobs (cfg : automation_config) : aprog tick_report :=
  gate <-- local (fun now _ s => (tick_gate cfg now s, s)) ;;
  match gate with
  | Some report => Ret report
  | None =>
      now <-- clock ;;
      let dueAtIso := to_iso now in
      let claimStaleMs := Z.max (ac_claimStaleMs cfg ||n 120000) 1000 in
      let staleBeforeIso := to_iso (now - claimStaleMs) in
      fetched <-- attempt (fetch_due cfg dueAtIso) ;;
      match fetched with
      | inl message => mark_unavailable pe message ;;; Ret empty_report
      | inr rows =>
          nowMs <-- clock ;;
          jobs <-- lift_r (iterate rows) ;;
          process_jobs cfg dueAtIso staleBeforeIso nowMs jobs (TickReport 0 0 0 (Z.of_nat (length jobs)) false)
      end
  end.
End engine.
