(* ===== verification/AutomationSpec.v ===== *)
(** * What the automation engine guarantees

    A tick ends with a report unless the store's rows are malformed; nothing is
    broadcast that was not durably claimed and pinned; a claimed execution resumes
    under the same request id; no job runs more often than it may. *)
From S2P Require Import Prelude Numbers Strings Values State Effects Persistence Doubles Upkeep Prepare AutomationStore Automation.
From Stdlib Require Import QArith.
#[local] Open Scope list_scope.
#[local] Open Scope Z_scope.

Abbreviation aobs := (obs auto_state acall).

(** ** The tick always reports *)

Section tick.
Context (json_parse : string -> option val) (date_parse : string -> option Z) (to_iso : Z -> string)
  (pe : penv) (cfg : automation_config).

Definition accounted (n : Z) (r : tick_report) : Prop :=
  0 <= tr_queued r /\ tr_queued r <= Z.max 0 (ac_maxQueuedPerTick cfg) /\ 0 <= tr_skipped r /\ 0 <= tr_failed r /\
  tr_queued r + tr_skipped r + tr_failed r <= n.

(** A row the code can read the properties of. *)
Definition readable_row (job : val) : bool := match job with VUndef | VNull => false | _ => true end.

Lemma getp_readable job k : readable_row job = true -> getp job k = inr (get job k).
Proof. by destruct job. Qed.

Lemma record_failure_returns job m b :
  hoare (fun _ _ => True) (record_failure to_iso pe job m b) (fun o _ _ => o = inr tt \/ readable_row job = false).
Proof.
  unfold record_failure. destruct (readable_row job) eqn:Hj.
  2:{ intros en s tr _. destruct (run _ _ _ _) as [[o s'] tr']. by right. }
  rewrite getp_readable by done. cbn [lift_r bind].
  eapply hoare_conseq with (pre := fun _ _ => True) (post := fun o _ _ => exists u, o = inr u /\ True); [|done|].
  2:{ intros o s tr ([] & -> & _). by left. }
  eapply returns_bind with (mid := fun _ => True); [by apply returns_attempt|intros _ _].
  eapply returns_bind with (mid := fun _ => True); [by apply returns_attempt|intros _ _]. by apply returns_ret.
Qed.

Lemma process_job_returns due stale nowMs job :
  returns (process_job json_parse date_parse to_iso pe cfg due stale nowMs job) (fun _ => True).
Proof.
  unfold process_job. eapply returns_bind with (mid := fun _ => True); [by apply returns_attempt|].
  intros [m|[[[ev d] ejob]|]] _; [by apply returns_ret| |by apply returns_ret].
  eapply returns_bind with (mid := fun _ => True); [by apply returns_attempt|]. intros [m|o] _; by apply returns_ret.
Qed.

Lemma process_jobs_returns due stale nowMs jobs n r :
  accounted n r ->
  hoare (fun _ _ => True) (process_jobs json_parse date_parse to_iso pe cfg due stale nowMs jobs r) (fun o _ _ =>
    match o with
    | inr r' => accounted (n + Z.of_nat (length jobs)) r' /\ tr_inspected r' = tr_inspected r
    | inl _ => forallb readable_row jobs = false
    end).
Proof.
  revert n r. induction jobs as [|job jobs IH]; intros n r Hr; cbn [process_jobs].
  { apply hoare_ret. by rewrite Z.add_0_r. }
  destruct (Z.leb_spec (ac_maxQueuedPerTick cfg) (tr_queued r)) as [Hle|Hlt].
  { apply hoare_ret. split; [|done]. unfold accounted in *. simpl length. lia. }
  eapply hoare_bind with (mid := fun _ _ _ => True).
  { eapply hoare_conseq; [apply process_job_returns|done|]. by intros o s tr (a & -> & _). }
  intros outcome. eapply hoare_bind with (mid := fun r' _ _ => accounted (n + 1) r' /\ tr_inspected r' = tr_inspected r).
  - unfold accounted in *. destruct outcome as [[m b]|[]].
    + eapply hoare_bind with (mid := fun _ _ _ => True).
      * eapply hoare_conseq; [apply record_failure_returns|done|].
        intros [e|u] s tr [Ho|Ho]; try done. cbn [forallb]. by rewrite Ho.
      * intros _. apply hoare_ret. simpl. lia.
    + apply hoare_ret. simpl. lia.
    + apply hoare_ret. simpl. lia.
  - intros r' en s tr [Hr' Hi]. specialize (IH (n + 1) r' Hr' en s tr Logic.I). revert IH.
    destruct (run en _ s tr) as [[[e|r''] s'] tr']; cbn [forallb]; [intros ->; apply andb_false_r|].
    rewrite Hi. simpl length. by replace (n + Z.of_nat (S (length jobs))) with (n + 1 + Z.of_nat (length jobs)) by lia.
Qed.

(** A reply that the code takes for rows and is not a list of them: a JSON value
    that cannot be iterated, or an array with a [null]. *)
Definition malformed_rows (rows : val) : bool :=
  match iterate rows with
  | inr jobs => negb (forallb readable_row jobs)
  | inl _ => true
  end.

(** The parsed reply of the fetch of the due jobs in the trace. *)
Definition malformed_reply (tr : list aobs) : Prop :=
  exists r rep rows, OCall (Rest r) (inr rep) ∈ tr /\
    rq_table r = "morpheus_automation_jobs" /\ rq_method r = "GET" /\
    json_parse (rs_text rep) = Some rows /\ malformed_rows rows = true.

Lemma malformed_mono (P : Prop) t tr : (P -> malformed_reply tr) -> P -> malformed_reply (t ++ tr).
Proof.
  intros H HP. destruct (H HP) as (r & rep & rows & Hin & Hr). exists r, rep, rows.
  split; [|done]. apply elem_of_app. by right.
Qed.

(** The reply of a GET is in the trace. *)
Lemma select_in_trace q :
  hoare (fun _ _ => True) (supabaseSelect pe json_parse "morpheus_automation_jobs" q) (fun o _ tr =>
    forall rows, o = inr rows -> malformed_rows rows = true -> malformed_reply tr).
Proof.
  unfold supabaseSelect, supabaseRequest. destruct (negb (pe_has_supabase pe)).
  { apply hoare_ret. by intros s tr _ rows [= <-]. }
  set (req := RestRequest _ _ _ _ _).
  eapply hoare_bind with (mid := fun o _ tr => forall rep, o = Some rep -> OCall (Rest req) (inr rep) ∈ tr).
  - eapply hoare_bind with (mid := fun rep _ tr => OCall (Rest req) (inr rep) ∈ tr).
    + apply hoare_await. intros [m|rep] s tr _; [done|by left].
    + intros rep. case_match.
      * apply hoare_ret. by intros s tr Hin rep' [= <-].
      * eapply hoare_bind with (mid := fun _ _ _ => True); [by apply hoare_local|]. intros []. by apply hoare_throw.
  - intros [rep|]; apply hoare_ret; intros s tr Hin rows [= <-]; [|done].
    case_match; [done|]. destruct (json_parse (rs_text rep)) as [rows|] eqn:Hp; [|done]. intros Hm.
    exists req, rep, rows. split; [by apply Hin|done].
Qed.

Lemma fetch_due_rows due :
  hoare (fun _ _ => True) (fetch_due json_parse date_parse to_iso pe cfg due) (fun o _ tr =>
    forall rows, o = inr rows -> malformed_rows rows = true -> malformed_reply tr).
Proof.
  unfold fetch_due, fetchActiveAutomationJobs.
  eapply hoare_bind with (mid := fun rows _ tr => malformed_rows rows = true -> malformed_reply tr).
  - destruct (buildSchedulableAutomationJobFilter _ _ _) as [m|filter]; [by apply hoare_throw|]. cbn [lift_r bind].
    eapply hoare_conseq; [apply select_in_trace|done|]. intros [m|rows] s tr H; [done|by apply H].
  - intros rows. destruct (rows_length rows); [by apply hoare_throw|]. cbn [lift_r bind].
    eapply hoare_bind with (mid := fun _ _ tr => malformed_rows rows = true -> malformed_reply tr).
    + by apply hoare_local.
    + intros _. apply hoare_ret. intros s tr H rows' [= <-]. exact H.
Qed.

(** C26.  A tick of the scheduler ends with a report.  Whatever the job store and
    the chain answer, and whatever fails, the executions queued stay within the
    limit of a tick and no job is counted twice; an exception escapes only when
    the store answered the fetch with JSON that is not a list of rows: a value
    that cannot be iterated, or an array with a [null] in it. *)
Theorem tick_reports : forall en s,
  let '(o, _, tr) := run en (processAutomationJobs json_parse date_parse to_iso pe cfg) s [] in
  match o with
  | inr r => accounted (tr_inspected r) r
  | inl _ => malformed_reply tr
  end.
Proof.
  intros en s.
  assert (hoare (fun _ _ => True) (processAutomationJobs json_parse date_parse to_iso pe cfg)
    (fun o _ tr => match o with inr r => accounted (tr_inspected r) r | inl _ => malformed_reply tr end)) as H.
  { assert (accounted 0 empty_report) as H0 by (unfold accounted; simpl; lia).
    unfold processAutomationJobs.
    eapply hoare_bind with (mid := fun g _ _ => from_option (fun r => accounted (tr_inspected r) r) True g).
    { apply hoare_local. intros now _ s0 tr _. unfold tick_gate. by repeat case_match. }
    intros [r|]; [by apply hoare_ret|].
    eapply hoare_bind with (mid := fun _ _ _ => True); [by apply hoare_local|intros now].
    eapply hoare_bind; [apply hoare_attempt, fetch_due_rows|]. intros [m|rows].
    - eapply hoare_bind with (mid := fun _ _ _ => True); [by apply hoare_local|intros _]. by apply hoare_ret.
    - eapply hoare_bind with (mid := fun _ _ tr => malformed_rows rows = true -> malformed_reply tr).
      { apply hoare_local. intros now' _ s0 tr Hm. by apply Hm. }
      intros nowMs. unfold malformed_rows. destruct (iterate rows) as [e|jobs].
      { apply hoare_throw. intros s0 tr Hm. by apply Hm. }
      cbn [lift_r bind]. set (r0 := TickReport _ _ _ _ _).
      assert (accounted 0 r0) as Hr0 by (unfold accounted; simpl; lia).
      match goal with |- hoare _ ?p _ =>
        pose proof (stable_mono (fun tr => forallb readable_row jobs = false -> malformed_reply tr) p (malformed_mono _)) as Hst
      end.
      eapply hoare_conseq; [eapply hoare_and; [exact Hst|exact (process_jobs_returns _ _ _ jobs 0 r0 Hr0)]| |].
      + intros s0 tr Hm. split; [intros Hj; apply Hm; by rewrite Hj|done].
      + intros [e|r] s0 tr [Hm Ho]; [by apply Hm|]. destruct Ho as [Hacc ->]. exact Hacc. }
  specialize (H en s [] Logic.I). by destruct (run en (processAutomationJobs _ _ _ _ _) s []) as [[o s'] tr].
Qed.
End tick.

(** A store that answers each request with the text of one JSON value. *)
Definition answering (rows : val) : (string + tick_report) :=
  let reply X (_ : list aobs) (c : acall X) : string + X :=
    match c with Rest _ => inr (RestReply 200 "rows") | _ => inl "down" end in
  (run (Effects.Env (fun _ => 1700000000000) (fun _ => 0%Q) reply)
    (processAutomationJobs (fun _ => Some rows) (fun _ => Some 0) (fun _ => "iso") sample_penv
       (AutomationConfig true 50 10 60000 120000 30000)) (AutoState (Backoff 0 "") 0) []).1.1.

(** An object where the rows are expected, and a [null] among them, end the tick
    with an exception; a [null] reply is caught and a string is iterated. *)
Example malformed_reply_escapes :
  answering (VObj [("message", VStr "rate limited")]) = inl "jobs is not iterable" /\
  answering (VArr [VNull]) = inl "Cannot read properties of null (reading 'automation_id')" /\
  answering VNull = inr empty_report /\ answering (VStr "ab") = inr (TickReport 0 2 0 2 false).
Proof. split_and!; vm_compute; reflexivity. Qed.

(** ** Claims before broadcasts *)

Lemma trimString_or v : trimString (v_or v (VStr "")) = trimString v.
Proof.
  unfold v_or. destruct v as [| |[]|n| | |s| |]; try done; cbn [truthy].
  - by destruct (n =? 0).
  - by destruct (String.eqb_spec s "") as [->|].
Qed.

Lemma get_sanitized k kvs : get (sanitizeForPostgres (VObj kvs)) k = sanitizeForPostgres (assoc_get k kvs).
Proof.
  cbn. induction kvs as [|[k' v] kvs IH]; [done|]. cbn. by case_decide.
Qed.

Section claims.
Context (json_parse : string -> option val) (to_iso : Z -> string) (pe : penv).

(** A claim the store granted: the PATCH of the row of [id] and its reply. *)
Definition granted (o : aobs) (id : val) (payload : val) : Prop :=
  exists r rep, o = OCall (Rest r) (inr rep) /\
    rq_table r = "morpheus_automation_jobs" /\ rq_method r = "PATCH" /\
    ("automation_id", eq_filter (trimString id)) ∈ rq_query r /\
    rq_payload r = payload /\ 200 <= rs_status rep <= 299 /\
    truthy (parseRepresentation json_parse (Some rep)) = true.

(** The claim pins the request id, unless the row it was read from was pinned
    to it already by an execution in flight. *)
Definition pins (job payload : val) (id : string) : Prop :=
  get payload "last_queued_request_id" = sanitizeForPostgres (VStr id) \/
  (get payload "last_queued_request_id" = VUndef /\ isReclaimableInflightStatus job = true /\
   trimString (get job "last_queued_request_id") = id).

Definition broadcast_claimed (jobs : list val) (o : aobs) (rest : list aobs) : Prop :=
  match o with
  | OCall (QueueNeoN3 _ _ _ _ _ id) _ =>
      exists job claim payload, job ∈ jobs /\ head rest = Some claim /\
        granted claim (get job "automation_id") payload /\ pins job payload id
  | _ => True
  end.

#[local] Abbreviation J jobs := (fun (_ : auto_state) tr => trace_ok (broadcast_claimed jobs) tr).

Lemma stable_rest jobs r : stable (J jobs) (await (Rest r)).
Proof. by apply stable_await. Qed.
Lemma stable_uuid jobs : stable (J jobs) (await RandomUUID).
Proof. by apply stable_await. Qed.
Lemma stable_feed jobs pair : stable (J jobs) (await (FeedRecord pair)).
Proof. by apply stable_await. Qed.
Lemma stable_lift jobs {A} (r : string + A) : stable (J jobs) (lift_r r : aprog A).
Proof. destruct r; [apply stable_throw|apply stable_ret]. Qed.

#[local] Ltac auto_step := first [stable_step | apply stable_rest | apply stable_uuid | apply stable_feed | apply stable_lift].
#[local] Ltac auto_all := cbv zeta; repeat (auto_step || case_match).

Lemma stable_request jobs t m p q oc rr : stable (J jobs) (supabaseRequest pe t m p q oc rr).
Proof. unfold supabaseRequest, mark_unavailable. auto_all. Qed.

Lemma stable_patch jobs id fields : stable (J jobs) (patchAutomationJob pe to_iso id fields).
Proof. unfold patchAutomationJob. apply stable_bind; [apply stable_clock|intros now; apply stable_request]. Qed.

Lemma stable_insert_run jobs fields : stable (J jobs) (insertAutomationRun pe fields).
Proof. apply stable_request. Qed.

(** A request that is answered leaves its reply at the head of the trace. *)
Lemma request_head jobs t m p q oc rr :
  hoare (J jobs) (supabaseRequest pe t m p q oc rr) (fun o _ tr => trace_ok (broadcast_claimed jobs) tr /\
    forall rep, o = inr (Some rep) -> 200 <= rs_status rep <= 299 /\
      head tr = Some (OCall (Rest (RestRequest t m (set_queries q oc) (sanitizeForPostgres p) (prefer_headers oc false rr)))
                        (inr rep))).
Proof.
  unfold supabaseRequest. destruct (negb (pe_has_supabase pe)); [by apply hoare_ret|].
  set (req := RestRequest _ _ _ _ _).
  eapply hoare_bind with (mid := fun rep _ tr => trace_ok (broadcast_claimed jobs) tr /\ head tr = Some (OCall (Rest req) (inr rep))).
  - apply hoare_await. intros r s tr Htr. by destruct r.
  - intros rep. case_match eqn:Hok.
    + apply hoare_ret. intros s tr [Htr Hh]. split; [done|]. intros ? [= <-]. split; [lia|done].
    + eapply hoare_bind with (mid := fun _ => J jobs); [|intros []; by apply hoare_throw].
      apply hoare_local. by intros now _ s tr [Htr _].
Qed.

Lemma claim_head jobs id fields due stale :
  hoare (J jobs) (claimAutomationJob pe json_parse to_iso id fields due stale) (fun o _ tr =>
    trace_ok (broadcast_claimed jobs) tr /\
    forall row, o = inr row -> truthy row = true -> exists claim payload, head tr = Some claim /\ granted claim id payload /\
      forall k, k ∉ ["status"; "last_error"; "updated_at"] -> get payload k = sanitizeForPostgres (assoc_get k fields)).
Proof.
  unfold claimAutomationJob. case_match; [apply hoare_ret; intros s tr Htr; split; [done|]; by intros ? [= <-]|].
  set (query := claim_query _ _ _ _).
  assert (forall p q' now response s tr, trace_ok (broadcast_claimed jobs) tr /\
    (forall rep, response = Some rep -> 200 <= rs_status rep <= 299 /\
      head tr = Some (OCall (Rest (RestRequest "morpheus_automation_jobs" "PATCH" (set_queries query "")
         (sanitizeForPostgres (stamped to_iso now p)) q')) (inr rep))) ->
    (forall k, k ∉ ["status"; "last_error"; "updated_at"] -> assoc_get k p = assoc_get k fields) ->
    hoare (fun s' tr' => s' = s /\ tr' = tr) (Ret (parseRepresentation json_parse response)) (fun o _ tr =>
      trace_ok (broadcast_claimed jobs) tr /\
      forall row, o = inr row -> truthy row = true -> exists claim payload, head tr = Some claim /\ granted claim id payload /\
        forall k, k ∉ ["status"; "last_error"; "updated_at"] -> get payload k = sanitizeForPostgres (assoc_get k fields))) as Hgrant.
  { intros p q' now response s tr [Htr Hrep] Hp. apply hoare_ret. intros s' tr' [-> ->]. split; [done|].
    intros row [= <-] Hrow. destruct response as [rep|]; [|done]. destruct (Hrep rep eq_refl) as [Hs Hh].
    eexists _, (sanitizeForPostgres (stamped to_iso now p)). split; [exact Hh|]. split.
    - eexists _, rep. split; [done|]. split_and!; try (done || lia).
      unfold set_queries. apply elem_of_app. left. apply list_elem_of_filter. split; [done|]. by left.
    - intros k Hk. unfold stamped. rewrite get_sanitized. f_equal.
      rewrite get_spread by (repeat constructor; set_solver). cbn [fmap list_fmap].
      rewrite decide_False by set_solver. by apply Hp. }
  apply hoare_after; [apply stable_clock|by split|intros now].
  eapply hoare_bind with (mid := fun outcome _ tr => trace_ok (broadcast_claimed jobs) tr /\
    forall rep, outcome = inr (Some rep) -> 200 <= rs_status rep <= 299 /\
      head tr = Some (OCall (Rest (RestRequest "morpheus_automation_jobs" "PATCH" (set_queries query "")
        (sanitizeForPostgres (stamped to_iso now fields)) (prefer_headers "" false true))) (inr rep))).
  { apply hoare_attempt. eapply hoare_conseq; [apply (request_head jobs)|done|]. intros o s tr [Htr Hhd]. split; [done|].
    intros rep ->. exact (Hhd rep eq_refl). }
  intros [message|response].
  - case_match.
    { apply hoare_throw. by intros s tr [Htr _]. }
    apply hoare_pre with (pre := J jobs); [|by intros ?? [? _]].
    apply hoare_after; [apply stable_clock|by split|intros now']. set (p := spread fields _).
    eapply hoare_bind; [eapply hoare_conseq; [apply (request_head jobs)|done|]; intros o s tr [Htr Hr]; destruct o; [by split|]; 
      exact (conj Htr Hr)|].
    cbn beta. intros response en s tr [Htr Hrep].
    apply (Hgrant p (prefer_headers "" false true) now' response s tr); [| |by split].
    + split; [done|]. intros rep ->. exact (Hrep rep eq_refl).
    + intros k Hk. unfold p. rewrite get_spread by (repeat constructor; set_solver).
      cbn [fmap list_fmap]. by rewrite decide_False by set_solver.
  - intros en s tr [Htr Hrep].
    apply (Hgrant fields (prefer_headers "" false true) now response s tr); [|done|by split].
    split; [done|]. intros rep ->. exact (Hrep rep eq_refl).
Qed.
Context (date_parse : string -> option Z) (cfg : automation_config).
#[local] Set Default Proof Using "All".

Lemma stable_evaluate jobs job nowMs : stable (J jobs) (evaluateAutomationJob date_parse to_iso cfg job nowMs).
Proof. unfold evaluateAutomationJob. auto_all. Qed.

Lemma stable_execute_tail jobs job ev nowMs d queuedTx :
  stable (J jobs) (
    let queuedRequestId := v_or (get queuedTx "request_id") (VStr (up_request_id d)) in
    let duplicate := truthy (get queuedTx "duplicate") in
    (insertAutomationRun pe
      (run_record (VObj job) queuedRequestId (if duplicate then "skipped" else "queued")
         (v_or (evl_triggerReason ev) (assoc_get "trigger_type" job)) (v_or (evl_observedValue ev) VNull)
         (buildQueuedAutomationTxRecord queuedTx d) VNull) ;;;
    patch <-- lift_r (buildQueuedAutomationPatch to_iso (VObj job) ev nowMs d queuedRequestId) ;;
    patchAutomationJob pe to_iso (assoc_get "automation_id" job) patch ;;;
    Ret (if duplicate then JobSkipped else JobQueued))%prog).
Proof.
  cbv zeta. apply stable_bind; [apply stable_insert_run|intros _]. apply stable_bind; [apply stable_lift|intros patch].
  apply stable_bind; [apply stable_patch|intros _; apply stable_ret].
Qed.

(** A program that starts right after a claim of [job] that pins [id]. *)
Definition after_claim (jobs : list val) (job : val) (id : string) (_ : auto_state) (tr : list aobs) : Prop :=
  trace_ok (broadcast_claimed jobs) tr /\
  exists claim payload, head tr = Some claim /\ granted claim (get job "automation_id") payload /\ pins job payload id.

Lemma execute_claimed_ok jobs job ejob ev nowMs d :
  job ∈ jobs ->
  hoare (after_claim jobs job (up_request_id d)) (execute_claimed to_iso pe ejob ev nowMs d) (fun _ => J jobs).
Proof.
  intros Hjob. unfold execute_claimed. eapply hoare_bind; [|intros queuedTx; apply stable_execute_tail].
  unfold queueAutomationExecution.
  eapply hoare_bind with (mid := fun _ => after_claim jobs job (up_request_id d)).
  { destruct (buildUpkeepExecutionPayload _ _); [by apply hoare_throw; intros ?? []|by apply hoare_ret]. }
  intros payload. case_match; [by apply hoare_throw; intros ?? []|].
  eapply hoare_bind with (mid := fun _ => J jobs); [|intros reply; by apply hoare_ret].
  apply hoare_await. intros r s tr [Htr (claim & p & Hh & Hg & Hp)].
  assert (trace_ok (broadcast_claimed jobs) (OCall (QueueNeoN3 (assoc_get "requester" ejob)
    (assoc_get "execution_request_type" ejob) (stringifyExecutionPayload payload) (assoc_get "callback_contract" ejob)
    (assoc_get "callback_method" ejob) (up_request_id d)) r :: tr)) as Hok.
  { split; [|done]. by exists job, claim, p. }
  by destruct r.
Qed.

Lemma resolve_advanced job d adv :
  resolveAutomationExecutionDispatch job = inr (d, adv) ->
  adv = true -> isReclaimableInflightStatus (VObj job) = true /\
    trimString (assoc_get "last_queued_request_id" job) = up_request_id d.
Proof.
  unfold resolveAutomationExecutionDispatch. rewrite trimString_or. unfold bind_r.
  destruct (buildUpkeepDispatch _) as [|advd]; [done|]. case_match eqn:Hc.
  - intros [= -> _] _. rewrite !andb_true_iff in Hc. destruct Hc as [[[H1 _] _] H2%String.eqb_eq]. done.
  - destruct (buildUpkeepDispatch _); [done|]. by intros [= _ <-].
Qed.

Lemma claim_pins jobs job d adv due stale schedulable :
  (schedulable = obj_fields job \/ schedulable = spread (obj_fields job) [("status", VStr "active")]) ->
  resolveAutomationExecutionDispatch
    (spread schedulable [("status", get job "status"); ("last_error", get job "last_error")]) = inr (d, adv) ->
  hoare (J jobs) (claimAutomationJob pe json_parse to_iso (assoc_get "automation_id" schedulable) (claim_fields d adv) due stale)
    (fun o s tr => match o with
                   | inr row => trace_ok (broadcast_claimed jobs) tr /\
                                (truthy row = true -> after_claim jobs job (up_request_id d) s tr)
                   | inl _ => trace_ok (broadcast_claimed jobs) tr
                   end).
Proof.
  intros Hs Hd. eapply hoare_conseq; [apply (claim_head jobs)|done|].
  intros [m|row] s tr [Htr Hrow]; [done|]. split; [done|]. intros Ht. split; [done|].
  destruct (Hrow row eq_refl Ht) as (claim & payload & Hh & Hg & Hp). exists claim, payload. split; [done|].
  assert (forall k, k <> "status" -> assoc_get k schedulable = get job k) as Hsk.
  { intros k Hk. assert (assoc_get k (obj_fields job) = get job k) as <- by by destruct job.
    destruct Hs as [->| ->]; [done|]. cbn [spread foldl fst snd]. rewrite assoc_get_set. by rewrite decide_False. }
  rewrite Hsk in Hg by done. split; [done|]. unfold pins. rewrite Hp by set_solver.
  destruct adv; [right|by left]. split; [done|].
  destruct (resolve_advanced _ _ _ Hd eq_refl) as [H1 H2].
  rewrite get_spread in H2 by (repeat constructor; set_solver). cbn [fmap list_fmap fst] in H2.
  rewrite decide_False, Hsk in H2 by set_solver. split; [|done].
  revert H1. unfold isReclaimableInflightStatus. cbn [get].
  by rewrite !get_spread, !decide_True by (repeat constructor; set_solver).
Qed.

Lemma process_job_ok jobs job due stale nowMs :
  job ∈ jobs -> stable (J jobs) (process_job json_parse date_parse to_iso pe cfg due stale nowMs job).
Proof.
  intros Hjob. unfold process_job.
  set (schedulable := if isReclaimableInflightStatus job then _ else _).
  eapply hoare_bind with (mid := fun claimed s tr => trace_ok (broadcast_claimed jobs) tr /\
    match claimed with inr (Some (_, d, _)) => after_claim jobs job (up_request_id d) s tr | _ => True end).
  { apply hoare_attempt. apply hoare_after; [apply stable_lift|by split|intros _].
    apply hoare_after; [apply stable_evaluate|by split|intros ev].
    apply hoare_after; [destruct (evl_patch ev); [apply stable_bind; [apply stable_patch|intros _]|]; apply stable_ret
                       |by split|intros _].
    destruct (negb (evl_due ev)); [by apply hoare_ret|].
    destruct (resolveAutomationExecutionDispatch _) as [m|[d adv]] eqn:Hd; [by apply hoare_throw|].
    cbn [lift_r bind].
    eapply hoare_bind with (mid := fun row s tr => trace_ok (broadcast_claimed jobs) tr /\
      (truthy row = true -> after_claim jobs job (up_request_id d) s tr)).
    - eapply hoare_conseq; [apply (claim_pins jobs job d adv); [|exact Hd]|done|].
      + subst schedulable. destruct (isReclaimableInflightStatus job); [by right|by left].
      + intros [m|row] s tr Hr; [by split|exact Hr].
    - intros row. destruct (truthy row) eqn:Ht; apply hoare_ret; intros s tr [Htr H]; [split; [done|by apply H]|done]. }
  intros [m|[[[ev d] ejob]|]]; [by apply hoare_ret; intros ?? []| |by apply hoare_ret; intros ?? []].
  eapply hoare_bind with (mid := fun _ => J jobs); [|intros [m|o]; by apply hoare_ret].
  apply hoare_attempt. eapply hoare_conseq; [by apply (execute_claimed_ok jobs job)|by intros ?? []|done].
Qed.

(** A row that is a string, as the characters of a string reply, has no status
    and makes no call. *)
Lemma process_text_row due stale nowMs t :
  process_job json_parse date_parse to_iso pe cfg due stale nowMs (VStr t) = Ret (inr JobSkipped).
Proof. reflexivity. Qed.

Lemma process_jobs_ok all jobs due stale nowMs r :
  (forall job, job ∈ jobs -> job ∈ all \/ is_string job = true) ->
  stable (J all) (process_jobs json_parse date_parse to_iso pe cfg due stale nowMs jobs r).
Proof.
  revert r. induction jobs as [|job jobs IH]; intros r Hin; cbn [process_jobs]; [apply stable_ret|].
  case_match; [apply stable_ret|].
  apply stable_bind; [|intros outcome].
  { destruct (Hin job) as [Hjob|Hjob]; [by left|by apply process_job_ok|].
    destruct job; try done. rewrite process_text_row. apply stable_ret. }
  apply stable_bind; [|intros r'; apply IH; intros; apply Hin; by right].
  destruct outcome as [[m b]|[]]; [|apply stable_ret..].
  apply stable_bind; [|intros _; apply stable_ret]. unfold record_failure.
  apply stable_bind; [apply stable_lift|intros id].
  apply stable_bind; [apply stable_attempt, stable_patch|intros _].
  apply stable_bind; [apply stable_attempt, stable_insert_run|intros _; apply stable_ret].
Qed.

(** The rows of a reply of the store in the trace. *)
Definition fetched (jobs : list val) (tr : list aobs) : Prop :=
  jobs = [] \/ exists r rep, OCall (Rest r) (inr rep) ∈ tr /\ rq_method r = "GET" /\
                 json_parse (rs_text rep) = Some (VArr jobs).

Lemma stable_fetched jobs {A} (p : aprog A) : stable (fun _ tr => fetched jobs tr) p.
Proof.
  apply stable_mono. intros t tr [->|(r & rep & Hin & ?)]; [by left|right].
  exists r, rep. split; [|done]. apply elem_of_app. by right.
Qed.

#[local] Abbreviation J_all := (fun (s : auto_state) (tr : list aobs) => forall jobs, J jobs s tr).

(** The jobs of the loop: rows of a reply, or the characters of a string. *)
Definition iterated (rows : val) (jobs : list val) (tr : list aobs) : Prop :=
  exists all, fetched all tr /\ forall job, job ∈ jobs -> job ∈ all \/ is_string job = true.

Lemma fetch_due_head due :
  hoare J_all (fetch_due json_parse date_parse to_iso pe cfg due) (fun o s tr => J_all s tr /\
    forall rows jobs, o = inr rows -> iterate rows = inr jobs -> iterated rows jobs tr).
Proof.
  unfold fetch_due.
  eapply hoare_bind with (mid := fun rows s tr => J_all s tr /\
    forall jobs, iterate rows = inr jobs -> iterated rows jobs tr).
  2:{ intros rows. destruct (rows_length rows) as [m|len]; [by apply hoare_throw; intros s tr [? _]|]. cbn [lift_r bind].
      eapply hoare_bind with (mid := fun _ s tr => J_all s tr /\
        forall jobs, iterate rows = inr jobs -> iterated rows jobs tr).
      - by apply hoare_local.
      - intros _. apply hoare_ret. intros s tr [Htr Hf]. split; [done|]. by intros rows' jobs [= <-]; apply Hf. }
  unfold fetchActiveAutomationJobs.
  destruct (buildSchedulableAutomationJobFilter _ _ _) as [m|filter]; [by apply hoare_throw; split|].
  cbn [lift_r bind]. unfold supabaseSelect.
  eapply hoare_bind with (mid := fun response s tr => J_all s tr /\ forall rep, response = Some rep ->
    exists r, OCall (Rest r) (inr rep) ∈ tr /\ rq_method r = "GET").
  - eapply hoare_conseq; [apply (hoare_forall (T := list val)); intros jobs; apply (request_head jobs)|done|].
    intros o s tr H. assert (J_all s tr) as Htr by (intros jobs; apply H).
    destruct o as [m|response]; [done|]. split; [done|]. intros rep ->. destruct (H []) as [_ Hh].
    destruct (Hh rep eq_refl) as [_ Hhead]. destruct tr as [|o tr]; [done|]. injection Hhead as ->.
    eexists. split; [by left|done].
  - intros response. apply hoare_ret. intros s tr [Htr Hr]. split; [done|].
    assert (forall jobs, inr [] = inr jobs :> string + list val -> iterated (VArr []) jobs tr) as Hnil.
    { intros jobs [= <-]. exists []. split; [by left|]. by intros job ?%elem_of_nil. }
    destruct response as [rep|]; [|exact Hnil]. case_match; [exact Hnil|].
    destruct (json_parse (rs_text rep)) as [rows|] eqn:Hp; [|exact Hnil]. cbn [default].
    destruct (Hr rep eq_refl) as (r & Hin & Hm). intros jobs. destruct rows; try done; intros [= <-].
    + exists []. split; [by left|]. intros job (x & -> & _)%list_elem_of_fmap. by right.
    + exists l. split; [right; by exists r, rep|by left].
Qed.

(** C22.  Nothing is broadcast that was not claimed.  In every tick, whatever the
    store and the chain answer, an execution is submitted to the chain only
    right after the store granted the claim of a job that the tick had fetched,
    and the claim pins the request id the execution is submitted under, unless
    the row was pinned to that id already by an execution in flight: a crash at
    any point leaves the id in the row. *)
Theorem broadcast_follows_claim : forall en s,
  let tr := (run en (processAutomationJobs json_parse date_parse to_iso pe cfg) s []).2 in
  exists jobs, fetched jobs tr /\ trace_ok (broadcast_claimed jobs) tr.
Proof.
  intros en s.
  assert (hoare J_all (processAutomationJobs json_parse date_parse to_iso pe cfg)
    (fun _ _ tr => exists jobs, fetched jobs tr /\ trace_ok (broadcast_claimed jobs) tr)) as H.
  { assert (forall s0 tr0, J_all s0 tr0 -> exists jobs, fetched jobs tr0 /\ trace_ok (broadcast_claimed jobs) tr0) as Hnone.
    { intros s0 tr0 H. exists []. split; [by left|apply H]. }
    unfold processAutomationJobs. apply hoare_after; [by apply stable_local|intros _; apply Hnone|intros [r|]].
    { by apply hoare_ret. }
    apply hoare_after; [apply stable_clock|intros _; apply Hnone|intros now].
    eapply hoare_bind; [apply hoare_attempt, fetch_due_head|]. intros [m|rows].
    - eapply hoare_bind with (mid := fun _ => J_all); [|intros []; by apply hoare_ret].
      apply hoare_local. by intros _ _ s0 tr0 [H _].
    - eapply hoare_bind with (mid := fun _ s0 tr0 => J_all s0 tr0 /\ forall jobs, iterate rows = inr jobs -> iterated rows jobs tr0).
      { apply hoare_local. intros _ _ s0 tr0 [H Hf]. split; [apply H|]. intros jobs. by apply Hf. }
      intros nowMs. destruct (iterate rows) as [e|jobs]; [by apply hoare_throw; intros s0 tr0 [H _]; apply Hnone|].
      cbn [lift_r bind]. intros en0 s0 tr0 [H Hf]. destruct (Hf jobs eq_refl) as (all & Hall & Hin).
      eapply hoare_conseq; [apply stable_and; [by apply (process_jobs_ok all)|apply (stable_fetched all)]|done| |].
      { intros _ s1 tr1 [H1 Hf1]. by exists all. }
      split; [apply H|done]. }
  specialize (H en s [] (fun _ => Logic.I)). revert H. cbv zeta.
  by destruct (run en (processAutomationJobs _ _ _ _ _) s []) as [[o s'] tr].
Qed.
End claims.

(** ** Crashed executions *)

Lemma trimEnd_num s n : trimEnd (s +:+ String ":" (num_to_string n)) = s +:+ String ":" (num_to_string n).
Proof.
  rewrite trimEnd_app by done. f_equal.
  assert (str_forall (fun a => negb (js_space a)) (num_to_string n) = true) as H by (apply num_to_string_forall; [intros m; unfold pretty_N_char; by repeat case_match|done]).
  apply trimEnd_no_space. cbn. exact H.
Qed.

Lemma trim_num a s n :
  js_space a = false -> trim (String a s +:+ String ":" (num_to_string n)) = String a s +:+ String ":" (num_to_string n).
Proof.
  intros Ha. rewrite <-trimEnd_num at 2. unfold trim. f_equal.
  change (String a s +:+ ?x) with (String a (s +:+ x)). cbn [trimStart]. by rewrite Ha.
Qed.

(** What a dispatch reads of a row, apart from the count. *)
Definition upkeep_keys : list string :=
  ["automation_id"; "automationId"; "workflow_id"; "workflowId"; "workflow_version"; "workflowVersion"; "chain";
   "execution_id"; "executionId"; "request_id"; "requestId"; "idempotency_key"; "idempotencyKey"; "replay_window";
   "replayWindow"; "delivery_mode"; "deliveryMode"].

Lemma dispatch_agree job job' :
  (forall k, k ∈ upkeep_keys -> get job k = get job' k) -> execution_count_of job = execution_count_of job' ->
  buildUpkeepDispatch job = buildUpkeepDispatch job'.
Proof.
  unfold execution_count_of, buildUpkeepDispatch, field2. intros H ->.
  by rewrite !H by (unfold upkeep_keys; set_solver).
Qed.

Lemma spread_keeps k base ext : NoDup ext.*1 -> k ∉ ext.*1 -> assoc_get k (spread base ext) = assoc_get k base.
Proof. intros Hnd Hk. rewrite get_spread by done. by rewrite decide_False. Qed.

Lemma spread_sets k base ext : NoDup ext.*1 -> k ∈ ext.*1 -> assoc_get k (spread base ext) = assoc_get k ext.
Proof. intros Hnd Hk. rewrite get_spread by done. by rewrite decide_True. Qed.

Ltac closed_list := by apply (bool_decide_unpack _); vm_compute.

Lemma execution_count_nonneg job : 0 <= execution_count_of job.
Proof. unfold execution_count_of, parseNonNegativeInteger. repeat case_match; lia. Qed.

Lemma dispatch_counts job d :
  buildUpkeepDispatch job = inr d ->
  up_execution_count d = execution_count_of job /\ up_next_execution_count d = execution_count_of job + 1.
Proof. unfold buildUpkeepDispatch. case_match; [done|]. by intros [= <-]. Qed.

Lemma request_id_solid job d :
  buildUpkeepDispatch job = inr d -> field2 job "request_id" "requestId" = "" ->
  trim (up_request_id d) = up_request_id d /\ up_request_id d <> "".
Proof.
  unfold buildUpkeepDispatch. case_match; [done|]. intros [= <-] Hr. cbn [up_request_id].
  rewrite Hr, or_str_empty. fold (execution_count_of job).
  set (n := execution_count_of job + 1).
  set (c := trimString _ ||s _). set (a := field2 _ _ _).
  change (join ":" ["automation"; c; a; num_to_string n])
    with ("automation" +:+ ":" +:+ c +:+ ":" +:+ a +:+ ":" +:+ num_to_string n).
  rewrite join4. split; [|done]. by apply (trim_num "a").
Qed.

Lemma reclaimable_claimed row d adv : isReclaimableInflightStatus (VObj (spread row (claim_fields d adv))) = true.
Proof.
  unfold isReclaimableInflightStatus. cbn [get].
  rewrite (spread_sets "status") by (destruct adv; closed_list). by destruct adv.
Qed.

(** The keys of a claim's fields are not read by a dispatch, the count apart. *)
Lemma claimed_dispatch row d adv c :
  let row' := spread (spread row (claim_fields d adv)) [("execution_count", VNum c)] in
  forall k, k ∈ upkeep_keys -> get (VObj row') k = assoc_get k row.
Proof.
  intros row' k Hk. unfold row'. cbn [get].
  rewrite !spread_keeps; try done; try (destruct adv; closed_list).
  - intros Hin. destruct adv; revert k Hk Hin; 
      refine (_ : forall k, k ∈ upkeep_keys -> ~ _); apply Forall_forall; closed_list.
  - intros Hin. revert k Hk Hin. refine (_ : forall k, k ∈ upkeep_keys -> ~ _). apply Forall_forall. closed_list.
Qed.

Lemma recount row v :
  execution_count_of (VObj (spread row [("execution_count", v)]))
  = parseNonNegativeInteger (v_or v (assoc_get "executionCount" row)).
Proof.
  unfold execution_count_of. cbn [get]. rewrite spread_sets, spread_keeps by closed_list. done.
Qed.

Lemma resolve_fresh job d :
  resolveAutomationExecutionDispatch job = inr (d, false) -> buildUpkeepDispatch (VObj job) = inr d.
Proof.
  unfold resolveAutomationExecutionDispatch, bind_r.
  destruct (buildUpkeepDispatch (VObj (spread _ _))); [done|]. case_match; [done|].
  destruct (buildUpkeepDispatch (VObj job)) as [|d']; [done|]. by intros [= ->].
Qed.

(** Everything a dispatch reads of a row, the marks of an execution in flight apart. *)
Definition core_keys : list string :=
  upkeep_keys ++ ["execution_count"; "executionCount"; "last_queued_request_id"].

Lemma upkeep_core k : k ∈ upkeep_keys -> k ∈ core_keys.
Proof. intros Hk. apply elem_of_app. by left. Qed.

Lemma dispatch_under row row' c :
  (forall k, k ∈ core_keys -> assoc_get k row' = assoc_get k row) ->
  buildUpkeepDispatch (VObj (spread row' [("execution_count", c)])) = buildUpkeepDispatch (VObj (spread row [("execution_count", c)])).
Proof.
  intros H. apply dispatch_agree.
  - intros k Hk. cbn [get]. rewrite !(spread_keeps k); [by apply H, upkeep_core|closed_list| |closed_list|];
      revert k Hk; apply Forall_forall; closed_list.
  - rewrite !recount. by rewrite H by (unfold core_keys; set_solver).
Qed.

(** A row pinned to its execution stays so under writes that keep what a
    dispatch reads and leave the row in flight. *)
Lemma resume_kept row row' d :
  resolveAutomationExecutionDispatch row = inr (d, true) ->
  (forall k, k ∈ core_keys -> assoc_get k row' = assoc_get k row) -> isReclaimableInflightStatus (VObj row') = true ->
  resolveAutomationExecutionDispatch row' = inr (d, true).
Proof.
  intros Hd H Hr. revert Hd. unfold resolveAutomationExecutionDispatch.
  rewrite !H by (unfold core_keys; set_solver). rewrite (dispatch_under row row') by done. unfold bind_r.
  destruct (buildUpkeepDispatch _) as [|advd]; [done|]. rewrite Hr. cbn [andb].
  case_match eqn:Hc; [|by destruct (buildUpkeepDispatch (VObj row))].
  rewrite !andb_true_iff in Hc. destruct Hc as [[[_ ->] ->] ->]. by intros [= ->].
Qed.

Lemma resolve_agree row row' :
  (forall k, k ∈ core_keys ++ ["status"; "last_error"] -> assoc_get k row' = assoc_get k row) ->
  resolveAutomationExecutionDispatch row' = resolveAutomationExecutionDispatch row.
Proof.
  intros H. assert (forall k, k ∈ core_keys -> assoc_get k row' = assoc_get k row) as Hk.
  { intros k Hk. apply H, elem_of_app. by left. }
  unfold resolveAutomationExecutionDispatch, isReclaimableInflightStatus. cbn [get].
  rewrite (H "status"), (H "last_error") by (apply elem_of_app; right; set_solver).
  rewrite !Hk by (unfold core_keys; set_solver). rewrite (dispatch_under row row') by done.
  rewrite (dispatch_agree (VObj row') (VObj row)); [done| |].
  - intros k Hku. by apply Hk, upkeep_core.
  - unfold execution_count_of. cbn [get]. by rewrite !Hk by (unfold core_keys; set_solver).
Qed.

Lemma resume_fresh job d :
  resolveAutomationExecutionDispatch job = inr (d, false) ->
  field2 (VObj job) "request_id" "requestId" = "" -> assoc_get "executionCount" job = VUndef ->
  resolveAutomationExecutionDispatch (spread job (claim_fields d false)) = inr (d, true).
Proof.
  intros Hd%resolve_fresh Hr Hcamel. destruct (request_id_solid _ _ Hd Hr) as [Htrim Hne].
  destruct (dispatch_counts _ _ Hd) as [_ Hnext]. pose proof (execution_count_nonneg (VObj job)) as Hc0.
  set (c := execution_count_of (VObj job)) in *.
  unfold resolveAutomationExecutionDispatch. rewrite reclaimable_claimed, !trimString_or.
  rewrite (spread_sets "execution_count" job), (spread_sets "last_queued_request_id" job) by closed_list.
  change (assoc_get "execution_count" (claim_fields d false)) with (VNum (up_next_execution_count d)).
  change (assoc_get "last_queued_request_id" (claim_fields d false)) with (VStr (up_request_id d)).
  cbn [trimString]. rewrite Htrim, Hnext.
  assert (parseNonNegativeInteger (v_or (VNum (c + 1)) (assoc_get "executionCount" (spread job (claim_fields d false)))) = c + 1) as ->.
  { unfold v_or. cbn [truthy]. replace (c + 1 =? 0) with false by lia. cbn.
    unfold parseNonNegativeInteger. cbn. by replace (c + 1 <? 0) with false by lia. }
  replace (c + 1 - 1) with c by lia.
  assert (buildUpkeepDispatch (VObj (spread (spread job (claim_fields d false)) [("execution_count", VNum c)])) = inr d) as ->.
  { rewrite <-Hd. apply dispatch_agree.
    - intros k Hk. by rewrite claimed_dispatch.
    - rewrite recount, spread_keeps, Hcamel by closed_list. fold c. clearbody c. unfold v_or. cbn [truthy].
      destruct (Z.eqb_spec c 0) as [->|]; [done|]. cbn. unfold parseNonNegativeInteger. cbn.
      by replace (c <? 0) with false by lia. }
  cbn [bind_r andb]. replace (0 <? c + 1) with true by lia.
  destruct (String.eqb_spec (up_request_id d) ""); [done|]. by rewrite String.eqb_refl.
Qed.

Lemma field2_agree job job' a b :
  (forall k, k ∈ upkeep_keys -> get job k = get job' k) -> a ∈ upkeep_keys -> b ∈ upkeep_keys ->
  field2 job a b = field2 job' a b.
Proof. intros H Ha Hb. unfold field2. by rewrite !H. Qed.

Lemma dispatch_exists job job' d :
  (forall k, k ∈ upkeep_keys -> get job k = get job' k) -> buildUpkeepDispatch job = inr d ->
  exists d', buildUpkeepDispatch job' = inr d'.
Proof.
  intros H. unfold buildUpkeepDispatch.
  rewrite (field2_agree job job' "automation_id" "automationId" H) by (unfold upkeep_keys; set_solver).
  case_match; [done|]. intros _. by eexists.
Qed.

(** Dispatches of one job under different counts mint different request ids. *)
Lemma request_ids_differ job job' d d' :
  (forall k, k ∈ upkeep_keys -> get job k = get job' k) -> field2 job "request_id" "requestId" = "" ->
  buildUpkeepDispatch job = inr d -> buildUpkeepDispatch job' = inr d' ->
  execution_count_of job <> execution_count_of job' -> up_request_id d <> up_request_id d'.
Proof.
  intros H Hr Hd Hd' Hne. assert (field2 job' "request_id" "requestId" = "") as Hr'.
  { rewrite <-(field2_agree job job') by (done || (unfold upkeep_keys; set_solver)). exact Hr. }
  revert Hd Hd'. unfold buildUpkeepDispatch.
  rewrite <-(field2_agree job job' "automation_id" "automationId" H) by (unfold upkeep_keys; set_solver).
  rewrite <-(H "chain") by (unfold upkeep_keys; set_solver).
  case_match; [done|]. intros [= <-] [= <-]. cbn [up_request_id]. rewrite Hr, Hr', !or_str_empty.
  fold (execution_count_of job) (execution_count_of job').
  set (c := trimString _ ||s _). set (a := field2 _ _ _). clearbody c a.
  change (join ":" ["automation"; c; a; ?n]) with ("automation" +:+ ":" +:+ c +:+ ":" +:+ a +:+ ":" +:+ n).
  intros Heq. apply Hne.
  assert (execution_count_of job + 1 = execution_count_of job' + 1) as Hn; [|lia].
  apply (last_sep_inj ("automation" +:+ String ":" (c +:+ String ":" a)) ("automation" +:+ String ":" (c +:+ String ":" a))).
  rewrite <-!join4. exact Heq.
Qed.

(** The row that is evaluated, and the dispatch the tick resolves for a row. *)
Definition schedulable (row : jfields) : jfields :=
  if isReclaimableInflightStatus (VObj row) then spread row [("status", VStr "active")] else row.

Definition dispatch_of (row : jfields) : string + (upkeep * bool) :=
  resolveAutomationExecutionDispatch
    (spread (schedulable row) [("status", assoc_get "status" row); ("last_error", assoc_get "last_error" row)]).

Lemma dispatch_of_row row : dispatch_of row = resolveAutomationExecutionDispatch row.
Proof.
  apply resolve_agree. intros k _. rewrite get_spread by closed_list. case_decide as Hk.
  - cbn in Hk. rewrite !elem_of_cons, elem_of_nil in Hk. by destruct Hk as [->|[->|[]]].
  - unfold schedulable. case_match; [|done]. apply spread_keeps; [closed_list|]. set_solver.
Qed.

(** The two forms of a claim: with the status the store may refuse, and the
    paused row with the marker. *)
Definition claim_form (d : upkeep) (adv : bool) (p : jfields) : Prop :=
  p = claim_fields d adv \/
  p = spread (claim_fields d adv) [("status", VStr "paused"); ("last_error", VStr AUTOMATION_PROCESSING_CLAIM_MARKER)].

(** The rows between the claim of the execution [d] of [job] and what ends it:
    the claim landed; the relayer died and another tick claimed the row again,
    under whatever dispatch it resolved; a failure after the claim was recorded
    and is to be retried; other columns were written. *)
Inductive in_flight (job : jfields) (d : upkeep) : jfields -> Prop :=
| flight_claimed adv p :
    dispatch_of job = inr (d, adv) -> claim_form d adv p -> in_flight job d (spread job p)
| flight_reclaimed row d' adv p :
    in_flight job d row -> dispatch_of row = inr (d', adv) -> claim_form d' adv p -> in_flight job d (spread row p)
| flight_failed row m :
    in_flight job d row -> includes (toLowerCase (trim m)) "request fee not paid" = false ->
    in_flight job d (spread row (classifyAutomationExecutionFailure m true))
| flight_written row p :
    in_flight job d row -> NoDup p.*1 -> Forall (fun k => k ∉ core_keys ++ ["status"; "last_error"]) p.*1 ->
    in_flight job d (spread row p).

Lemma claim_form_keys d adv p : claim_form d adv p ->
  NoDup p.*1 /\ p.*1 = ["status"; "last_error"] ++ (if adv then [] else ["execution_count"; "last_queued_request_id"]) /\
  forall row, isReclaimableInflightStatus (VObj (spread row p)) = true.
Proof.
  intros [->| ->]; destruct adv; (split_and!; [closed_list|reflexivity|]); intros row;
    unfold isReclaimableInflightStatus; cbn [get]; by rewrite !spread_sets by closed_list.
Qed.

Lemma reclaim_resumes row d p :
  resolveAutomationExecutionDispatch row = inr (d, true) -> claim_form d true p ->
  resolveAutomationExecutionDispatch (spread row p) = inr (d, true).
Proof.
  intros Hd (Hnd & Hk & Hr)%claim_form_keys. apply (resume_kept row); [done| |apply Hr].
  intros k Hc. apply spread_keeps; [done|]. rewrite Hk. revert k Hc. apply Forall_forall. closed_list.
Qed.

Lemma claim_resumes job d p :
  resolveAutomationExecutionDispatch job = inr (d, false) -> claim_form d false p ->
  field2 (VObj job) "request_id" "requestId" = "" -> assoc_get "executionCount" job = VUndef ->
  resolveAutomationExecutionDispatch (spread job p) = inr (d, true).
Proof.
  intros Hd Hp Hr Hc. pose proof (resume_fresh job d Hd Hr Hc) as Hres. destruct Hp as [->| ->]; [done|].
  apply (resume_kept (spread job (claim_fields d false))); [done| |].
  - set (p := spread (claim_fields d false) _). intros k Hk. rewrite (get_spread k job p), (get_spread k job (claim_fields d false)) by closed_list.
    change p.*1 with (claim_fields d false).*1. case_decide as Hin; [|done].
    revert Hin Hk. cbn. rewrite !elem_of_cons, elem_of_nil. intros [->|[->|[->|[->|[]]]]] Hk; try done;
      exfalso; revert Hk; closed_list.
  - unfold isReclaimableInflightStatus. cbn [get]. by rewrite !spread_sets by closed_list.
Qed.

Lemma in_flight_resumes job d row :
  in_flight job d row -> field2 (VObj job) "request_id" "requestId" = "" -> assoc_get "executionCount" job = VUndef ->
  resolveAutomationExecutionDispatch row = inr (d, true) /\
  forall k, k ∈ upkeep_keys -> assoc_get k row = assoc_get k job.
Proof.
  intros Hf Hr Hc. assert (forall adv p (row : jfields) k, claim_form (d : upkeep) adv p -> k ∈ upkeep_keys ->
    assoc_get k (spread row p) = assoc_get k row) as Hform.
  { intros adv p r k (Hnd & Hk & _)%claim_form_keys Hu. apply spread_keeps; [done|]. rewrite Hk.
    destruct adv; revert k Hu; apply Forall_forall; closed_list. }
  induction Hf as [adv p Hd Hp|row d' adv p Hf [IH Hkeys] Hd Hp|row m Hf [IH Hkeys] Hm|row p Hf [IH Hkeys] Hnd Hp].
  - rewrite dispatch_of_row in Hd. split; [|by intros k; apply (Hform adv)].
    destruct adv; [by apply reclaim_resumes|by apply claim_resumes].
  - rewrite dispatch_of_row, IH in Hd. injection Hd as <- <-. split; [by apply reclaim_resumes|].
    intros k Hk. by rewrite (Hform true) by done; apply Hkeys.
  - assert (forall k, k ∈ core_keys -> assoc_get k (spread row (classifyAutomationExecutionFailure m true)) = assoc_get k row) as Hk.
    { intros k Hk. unfold classifyAutomationExecutionFailure. rewrite Hm. apply spread_keeps; [closed_list|].
      revert k Hk. apply Forall_forall. closed_list. }
    split; [|intros k Hu; rewrite Hk by (by apply upkeep_core); by apply Hkeys].
    apply (resume_kept row); [done..|]. unfold classifyAutomationExecutionFailure, isReclaimableInflightStatus.
    rewrite Hm. cbn [get]. by rewrite !spread_sets by closed_list.
  - assert (forall k, k ∈ core_keys ++ ["status"; "last_error"] -> assoc_get k (spread row p) = assoc_get k row) as Hk.
    { intros k Hk. apply spread_keeps; [done|]. intros Hin. rewrite Forall_forall in Hp. by apply (Hp k). }
    split; [by rewrite (resolve_agree row)|]. intros k Hu. rewrite Hk; [by apply Hkeys|].
    apply elem_of_app. left. by apply upkeep_core.
Qed.

Lemma next_schedule_status to_iso job ev nowMs sc :
  next_schedule to_iso job ev nowMs = inr sc -> sc.1 ∈ ["active"; "completed"].
Proof.
  unfold next_schedule, bind_r. repeat (case_match; try done); intros [= <-]; set_solver.
Qed.

(** A dispatch is that of the row, under some count. *)
Lemma resolve_built row d adv :
  resolveAutomationExecutionDispatch row = inr (d, adv) ->
  exists row0, buildUpkeepDispatch (VObj row0) = inr d /\ forall k, k ∈ upkeep_keys -> assoc_get k row0 = assoc_get k row.
Proof.
  unfold resolveAutomationExecutionDispatch, bind_r.
  destruct (buildUpkeepDispatch (VObj (spread _ _))) as [|d1] eqn:Hd1; [done|]. case_match.
  - intros [= -> <-]. eexists. split; [exact Hd1|]. intros k Hk.
    apply spread_keeps; [closed_list|]. revert k Hk. apply Forall_forall. closed_list.
  - destruct (buildUpkeepDispatch (VObj row)) as [|d2] eqn:Hd2; [done|]. intros [= -> <-]. by exists row.
Qed.

Lemma price_patch to_iso job record nowMs cooldown ev :
  evaluatePriceThreshold to_iso job record nowMs cooldown = inr ev ->
  exists st t, evl_patch ev = Some [("trigger_state", st); ("next_run_at", t)].
Proof.
  unfold evaluatePriceThreshold, bind_r. repeat (case_match; try done); intros [= <-]; by eexists _, _.
Qed.

(** What a due evaluation writes: nothing, or the observation of a price. *)
Lemma due_patch date_parse to_iso cfg job nowMs en s tr ev s' tr' :
  run en (evaluateAutomationJob date_parse to_iso cfg job nowMs) s tr = (inr ev, s', tr') -> evl_due ev = true ->
  evl_patch ev = None \/ exists st t, evl_patch ev = Some [("trigger_state", st); ("next_run_at", t)].
Proof.
  unfold evaluateAutomationJob. case_match; [by intros [= <- _ _]|]. case_match; [by intros [= <- _ _]|].
  cbv zeta. case_match.
  { case_match; intros [= <- _ _]; [by left|done]. }
  case_match; [|by intros [= <- _ _]]. case_match; [by intros [= <- _ _]|]. case_match; [by intros [= <- _ _]|].
  cbn [run await bind]. destruct (env_reply _ _ _ _) as [m|record]; [done|]. cbn [bind].
  destruct (evaluatePriceThreshold _ _ _ _ _) as [m|ev0] eqn:Hev; [done|]. intros [= <- _ _] _.
  right. by apply price_patch in Hev.
Qed.

(** The patch of a finalization: what the next dispatch reads of it. *)
Lemma finalization_patch to_iso job ev nowMs d qid p :
  evl_patch ev = None \/ (exists st t, evl_patch ev = Some [("trigger_state", st); ("next_run_at", t)]) ->
  buildQueuedAutomationPatch to_iso job ev nowMs d qid = inr p ->
  NoDup p.*1 /\ (forall k, k ∈ upkeep_keys -> k ∉ p.*1) /\ "executionCount" ∉ p.*1 /\
  "execution_count" ∈ p.*1 /\ "status" ∈ p.*1 /\
  assoc_get "execution_count" p = VNum (up_next_execution_count d) /\
  assoc_get "status" p ∈ [VStr "active"; VStr "completed"].
Proof.
  unfold buildQueuedAutomationPatch.
  destruct (next_schedule _ _ _ _) as [m|sc] eqn:Hsc; [done|]. cbn [bind_r]. apply next_schedule_status in Hsc.
  intros Hev. destruct (executions_exhausted _ _); (destruct Hev as [->|(st & t & ->)]); intros [= <-];
    (split_and!; [closed_list|apply Forall_forall; closed_list|closed_list|closed_list|closed_list|done|cbn; try set_solver]);
    apply elem_of_cons in Hsc as [->| ->%list_elem_of_singleton]; set_solver.
Qed.


Definition sample_row : jfields :=
  [("automation_id", VStr "automation:neo_n3:7f"); ("chain", VStr "neo_n3"); ("requester", VStr "0xaa");
   ("status", VStr "active"); ("trigger_type", VStr "price_threshold");
   ("trigger_config", VObj [("pair", VStr "NEO-USD"); ("comparator", VStr "gte"); ("threshold", VStr "10");
                            ("cooldown_ms", VNull)]);
   ("next_run_at", VNull); ("execution_count", VNum 3); ("max_executions", VNum 5);
   ("last_queued_request_id", VStr "automation:neo_n3:automation:neo_n3:7f:3"); ("last_error", VNull)].

Definition sample_dispatch : upkeep :=
  match dispatch_of sample_row with inr (d, _) => d | inl _ => Upkeep "" 0 "" 0 0 "" "" "" "" "" end.

(** Claimed, failed after the claim, evaluated again and reclaimed as a paused row. *)
Definition sample_reclaimed : jfields :=
  spread (spread (spread (spread sample_row (claim_fields sample_dispatch false))
    (classifyAutomationExecutionFailure "socket hang up" true)) [("trigger_state", VObj []); ("next_run_at", VNull)])
    (spread (claim_fields sample_dispatch true)
      [("status", VStr "paused"); ("last_error", VStr AUTOMATION_PROCESSING_CLAIM_MARKER)]).

Definition sample_price_env : Effects.env auto_state acall :=
  Effects.Env (fun _ => 0) (fun _ => 0%Q)
    (fun X _ c => match c in acall X return string + X with
                  | FeedRecord _ => inr (VObj [("price", VStr "12"); ("roundId", VStr "4")])
                  | _ => inl "down" end).

Definition sample_evaluation : evaluation :=
  match (run sample_price_env (evaluateAutomationJob (fun _ => None) num_to_string
           (AutomationConfig true 50 10 0 120000 30000) (VObj sample_row) 1000) (AutoState (Backoff 0 "") 0) []).1.1 with
  | inr ev => ev | inl _ => not_due None end.


(** ** The budget of executions *)

Section evaluation.
Context (date_parse : string -> option Z) (to_iso : Z -> string) (cfg : automation_config).

Lemma evaluate_post (job : val) nowMs :
  hoare (fun _ _ => True) (evaluateAutomationJob date_parse to_iso cfg job nowMs) (fun o _ _ =>
    forall ev, o = inr ev -> evl_due ev = true -> get job "status" = VStr "active" /\
      executions_exhausted job (val_double (v_or (get job "execution_count") (VNum 0))) = false).
Proof.
  unfold evaluateAutomationJob. case_bool_decide as Hst; cbn [negb]; [|by apply hoare_ret; intros ? ? _ ? [= <-]].
  destruct (executions_exhausted _ _) eqn:Hex; [by apply hoare_ret; intros ? ? _ ? [= <-]|].
  assert (forall p : aprog evaluation, hoare (fun _ _ => True) p (fun o _ _ =>
    forall ev, o = inr ev -> evl_due ev = true -> get job "status" = VStr "active" /\ false = false)) as H; [|apply H].
  intros p en s tr _. by destruct (run en p s tr) as [[o s'] tr'].
Qed.

(** No job runs more often than it may.  Whenever a row is evaluated as due,
    the execution that is then dispatched for it, fresh or resumed, has at most
    the number of the maximum. *)
Theorem execution_budget : forall (job : jfields) nowMs en s tr ev s' tr' st le d adv c m,
  assoc_get "execution_count" job = VNum c -> assoc_get "executionCount" job = VUndef ->
  assoc_get "max_executions" job = VNum m -> 0 <= c < 2 ^ 53 -> 0 <= m < 2 ^ 53 ->
  run en (evaluateAutomationJob date_parse to_iso cfg (VObj job) nowMs) s tr = (inr ev, s', tr') -> evl_due ev = true ->
  resolveAutomationExecutionDispatch (spread job [("status", st); ("last_error", le)]) = inr (d, adv) ->
  up_next_execution_count d <= m.
Proof.
  intros job nowMs en s tr ev s' tr' st le d adv c m Hc Hcamel Hm Hc0 Hm0 Hrun Hdue Hd.
  pose proof (evaluate_post (VObj job) nowMs en s tr Logic.I) as H. rewrite Hrun in H.
  destruct (H ev eq_refl Hdue) as [_ Hex]. revert Hex. unfold executions_exhausted. cbn [get]. rewrite Hm, Hc.
  assert (val_double (v_or (VNum c) (VNum 0)) = of_Z c) as ->.
  { unfold v_or. cbn [truthy]. destruct (Z.eqb_spec c 0) as [->|]; done. }
  cbn [val_double]. rewrite dle_Z by lia. intros Hlt.
  assert (up_next_execution_count d <= c + 1) as Hn; [|lia].
  assert (parseNonNegativeInteger (v_or (VNum c) VUndef) = c) as Hpc.
  { unfold v_or. cbn [truthy]. destruct (Z.eqb_spec c 0) as [->|]; [done|]. cbn. unfold parseNonNegativeInteger. cbn.
    by replace (c <? 0) with false by lia. }
  unfold resolveAutomationExecutionDispatch, bind_r in Hd.
  rewrite !(spread_keeps "execution_count"), !(spread_keeps "executionCount"), Hc, Hcamel, Hpc in Hd by closed_list.
  destruct (buildUpkeepDispatch (VObj (spread (spread _ _) _))) as [|d1] eqn:Hd1; [done|]. case_match.
  - injection Hd as -> _. apply dispatch_counts in Hd1 as [_ ->]. rewrite recount. unfold v_or. cbn [truthy].
    rewrite spread_keeps, Hcamel by closed_list. destruct (c - 1 =? 0); [cbn; lia|].
    cbn. unfold parseNonNegativeInteger. cbn. case_match; lia.
  - case_match eqn:Hd2; [done|]. injection Hd as -> _.
    apply dispatch_counts in Hd2 as [_ ->]. unfold execution_count_of. cbn [get].
    rewrite !(spread_keeps "execution_count"), !(spread_keeps "executionCount"), Hc, Hcamel, Hpc by closed_list. lia.
Qed.

(** The last execution of a job is lost in a crash: the row that was advanced to
    its maximum is not due any more, and is completed without being broadcast. *)
Lemma last_execution_lost job nowMs m en s tr :
  assoc_get "status" job = VStr "active" -> assoc_get "execution_count" job = VNum m ->
  assoc_get "max_executions" job = VNum m -> 0 < m < 2 ^ 53 ->
  (run en (evaluateAutomationJob date_parse to_iso cfg (VObj job) nowMs) s tr).1.1
  = inr (not_due (Some [("status", VStr "completed"); ("next_run_at", VNull)])).
Proof.
  intros Hst Hc Hm Hm0. unfold evaluateAutomationJob. cbn [get]. rewrite Hst, Hc.
  rewrite bool_decide_true by done. cbn [negb]. unfold executions_exhausted. cbn [get]. rewrite Hm.
  unfold v_or. cbn [truthy]. replace (m =? 0) with false by lia. cbn [negb val_double].
  by rewrite dle_Z, Z.leb_refl by lia.
Qed.
End evaluation.

Definition interval_row : jfields :=
  spread sample_row [("trigger_type", VStr "interval"); ("next_run_at", VStr "2026-01-01T00:00:00.000Z")].

Lemma execution_budget_witness :
  exists d, resolveAutomationExecutionDispatch (spread interval_row [("status", VStr "active"); ("last_error", VNull)])
            = inr (d, false) /\ up_next_execution_count d <= 5.
Proof.
  eexists. split; [vm_compute; reflexivity|].
  apply (execution_budget (fun _ => Some 900) (fun _ => "") (AutomationConfig true 50 10 60000 120000 30000) interval_row
    1000 (Env (fun _ => 1000) (fun _ => 0%Q) (fun _ _ _ => inl "down")) (AutoState (Backoff 0 "") 0) []
    (Evaluation true None VUndef VUndef) (AutoState (Backoff 0 "") 0) [] (VStr "active") VNull _ false 3 5
    eq_refl eq_refl eq_refl ltac:(lia) ltac:(lia) ltac:(vm_compute; reflexivity) eq_refl).
  vm_compute. reflexivity.
Defined.
