(* ===== verification/AutomationRows.v ===== *)
(** * The life of an automation row

    The histories of a registered row: each operation computes a patch from a
    snapshot of the row and the store merges it into the row as it is by then.
    No state becomes unreadable to the engine, a one-shot job put back after its
    end apart. *)
From S2P Require Import Prelude Numbers Strings Values State Effects Persistence Doubles Upkeep Prepare AutomationStore Automation AutomationSpec.
From Stdlib Require Import QArith.
#[local] Open Scope list_scope.
#[local] Open Scope Z_scope.

Section rows.
Context (date_parse : string -> option Z) (to_iso : Z -> string)
  (cfg : automation_config).
#[local] Set Default Proof Using "All".

(** The times a [Date] holds. *)
Definition valid_time (t : Z) : Prop := Z.abs t <= 8640000000000000.

Definition dated (v : val) : Prop := exists s t, v = VStr s /\ s <> "" /\ date_parse s = Some t.

(** The job of an execution: the snapshot that was evaluated, overlaid with the
    row the claim answered. *)
Definition execution_row (seen claimed : jfields) (d : upkeep) : jfields :=
  spread (spread (schedulable seen) claimed)
    [("execution_count", VNum (up_next_execution_count d));
     ("last_queued_request_id", VStr (up_request_id d)); ("status", VStr "active")].

(** The states of the row of [job], the last first.  Each operation computes its
    patch from a state it saw before and the store merges the patch into the
    row as it is by then: other relayers, control requests and failures come in
    between.  A claim's patch is conditional in the store, which only makes
    fewer histories. *)
Inductive row_history (job : jfields) : list jfields -> Prop :=
| hist_registered : row_history job [job]
| hist_evaluated row h seen en s tr nowMs ev s' tr' p :
    row_history job (row :: h) -> seen ∈ row :: h ->
    run en (evaluateAutomationJob date_parse to_iso cfg (VObj (schedulable seen)) nowMs) s tr = (inr ev, s', tr') ->
    evl_patch ev = Some p ->
    row_history job (spread row p :: row :: h)
| hist_claimed row h d adv p :
    row_history job (row :: h) -> claim_form d adv p -> row_history job (spread row p :: row :: h)
| hist_finalized row h seen claimed d en s tr nowMs ev s' tr' qid p :
    row_history job (row :: h) -> seen ∈ row :: h -> claimed ∈ row :: h ->
    run en (evaluateAutomationJob date_parse to_iso cfg (VObj (schedulable seen)) nowMs) s tr = (inr ev, s', tr') ->
    evl_due ev = true ->
    buildQueuedAutomationPatch to_iso (VObj (execution_row seen claimed d)) ev nowMs d qid = inr p ->
    row_history job (spread row p :: row :: h)
| hist_failed row h m b :
    row_history job (row :: h) -> row_history job (spread row (classifyAutomationExecutionFailure m b) :: row :: h)
| hist_cancelled row h seen :
    row_history job (row :: h) -> seen ∈ row :: h ->
    row_history job (spread row (cancellationPatch (VObj seen)) :: row :: h)
| hist_stamped row h v :
    row_history job (row :: h) -> row_history job (spread row [("updated_at", v)] :: row :: h).

Definition trigger_type (row : jfields) : val := assoc_get "trigger_type" row.
Definition next_run (row : jfields) : val := assoc_get "next_run_at" row.

(** The job was completed, cancelled or given up at some point. *)
Definition ended (h : list jfields) : Prop :=
  exists row, row ∈ h /\ assoc_get "status" row ∈ [VStr "completed"; VStr "cancelled"; VStr "error"].

Definition trigger_ok (row : jfields) : Prop :=
  trigger_type row = VStr "one_shot" \/
  (trigger_type row = VStr "interval" /\
   exists c, assoc_get "trigger_config" row = VObj c /\ dated (assoc_get "start_at" c)) \/
  (trigger_type row = VStr "price_threshold" /\
   exists c p, assoc_get "trigger_config" row = VObj c /\ assoc_get "pair" c = VStr p /\ trim p <> "").

Definition statuses : list val :=
  [VStr "active"; VStr "processing"; VStr "paused"; VStr "completed"; VStr "cancelled"; VStr "error"].

(** A row of the job: its own trigger, which the engine knows, a status the table
    has, and a date wherever one is set. *)
Definition well_formed (job row : jfields) : Prop :=
  NoDup row.*1 /\ trigger_type row = trigger_type job /\
  assoc_get "trigger_config" row = assoc_get "trigger_config" job /\ trigger_ok row /\
  assoc_get "status" row ∈ statuses /\
  (trigger_type row <> VStr "price_threshold" -> truthy (next_run row) = true -> dated (next_run row)).

(** Whether a date is there for a one-shot job. *)
Definition scheduled (h : list jfields) (row : jfields) : Prop :=
  trigger_type row = VStr "one_shot" -> dated (next_run row) \/ ended h.

(** A patch keeps the trigger, may set the date and the status, and takes the
    date of a one-shot job away only with an end. *)
Definition patch_ok (job p : jfields) : Prop :=
  NoDup p.*1 /\ "trigger_type" ∉ p.*1 /\ "trigger_config" ∉ p.*1 /\
  ("status" ∈ p.*1 -> assoc_get "status" p ∈ statuses) /\
  ("next_run_at" ∈ p.*1 -> trigger_type job <> VStr "price_threshold" ->
   truthy (assoc_get "next_run_at" p) = true -> dated (assoc_get "next_run_at" p)) /\
  (trigger_type job = VStr "one_shot" -> "next_run_at" ∈ p.*1 -> "status" ∈ p.*1 /\
   assoc_get "status" p ∈ [VStr "completed"; VStr "cancelled"; VStr "error"]).

Lemma keys_assoc_set k v (l : jfields) : k ∈ l.*1 -> (assoc_set k v l).*1 = l.*1.
Proof.
  induction l as [|[k' v'] l IH]; [by intros ?%elem_of_nil|]. cbn. case_decide as Hk; [by subst|].
  intros [->|H]%elem_of_cons; [done|]. cbn. by rewrite IH.
Qed.

Lemma keys_assoc_new k v (l : jfields) : k ∉ l.*1 -> (assoc_set k v l).*1 = l.*1 ++ [k].
Proof.
  induction l as [|[k' v'] l IH]; [done|]. cbn. intros H. apply not_elem_of_cons in H as [H1 H2].
  rewrite decide_False by done. cbn. by rewrite IH.
Qed.

Lemma spread_nodup (base ext : jfields) : NoDup base.*1 -> NoDup (spread base ext).*1.
Proof.
  unfold spread. revert base. induction ext as [|[k v] ext IH]; intros base H; [done|]. cbn. apply IH.
  destruct (decide (k ∈ base.*1)) as [Hk|Hk]; [by rewrite keys_assoc_set|]. rewrite keys_assoc_new by done.
  apply NoDup_app. split_and!; [done| |apply NoDup_singleton]. by intros x Hx ->%list_elem_of_singleton.
Qed.

Lemma well_formed_patch job row p : well_formed job row -> patch_ok job p -> well_formed job (spread row p).
Proof.
  intros (Hnd & Ht & Hc & Htrig & Hst & Hnext) (Hp & Hpt & Hpc & Hps & Hpn & _).
  assert (trigger_type (spread row p) = trigger_type row) as Htt by by apply spread_keeps.
  split_and!; [by apply spread_nodup|by rewrite Htt|by rewrite spread_keeps| | |].
  - unfold trigger_ok in *. rewrite Htt. by rewrite (spread_keeps "trigger_config") by done.
  - rewrite get_spread by done. destruct (decide _); auto.
  - rewrite Htt. unfold next_run. rewrite get_spread by done. destruct (decide _) as [Hin|Hout]; [|auto].
    rewrite Ht. auto.
Qed.

Lemma scheduled_patch job row h p :
  well_formed job row -> patch_ok job p -> scheduled (row :: h) row -> scheduled (spread row p :: row :: h) (spread row p).
Proof.
  intros (_ & Ht & _) (Hp & Hpt & _ & _ & _ & Hend) Hs.
  unfold scheduled. unfold trigger_type at 1. rewrite spread_keeps by done. fold (trigger_type row). intros H1.
  rewrite <-Ht in Hend. unfold next_run. rewrite get_spread by done. case_decide as Hin.
  - right. exists (spread row p). split; [by left|]. destruct (Hend H1 Hin) as [Hin' Hst]. by rewrite spread_sets.
  - destruct (Hs H1) as [Hd|(r & Hr & Hst)]; [by left|]. right. exists r. split; [by right|done].
Qed.

Lemma dated_parse v : dated v -> exists t, parseTimestamp date_parse v = Some t.
Proof.
  intros (s & t & -> & Hs & Ht). exists t. unfold parseTimestamp. cbn. by destruct (String.eqb_spec s "").
Qed.

Lemma schedulable_keeps row k : k <> "status" -> assoc_get k (schedulable row) = assoc_get k row.
Proof. intros Hk. unfold schedulable. case_match; [|done]. apply spread_keeps; [closed_list|set_solver]. Qed.

(** What the evaluation of a row writes. *)
Definition patched_by_evaluation (h : list jfields) (row : jfields) (ev : evaluation) : Prop :=
  evl_patch ev = None \/
  (evl_due ev = false /\ evl_patch ev = Some [("status", VStr "completed"); ("next_run_at", VNull)]) \/
  (trigger_type row = VStr "price_threshold" /\
   exists st t, evl_patch ev = Some [("trigger_state", st); ("next_run_at", t)]) \/
  (trigger_type row = VStr "one_shot" /\ ended h /\ evl_due ev = false /\
   evl_patch ev = Some [("status", VStr "error"); ("last_error", VStr "invalid next_run_at")]).

Lemma evaluation_patch job h row nowMs en s tr ev s' tr' :
  well_formed job row -> scheduled h row ->
  run en (evaluateAutomationJob date_parse to_iso cfg (VObj (schedulable row)) nowMs) s tr = (inr ev, s', tr') ->
  patched_by_evaluation h row ev.
Proof.
  intros (_ & _ & _ & Htrig & _ & Hnext) Hone Hrun.
  assert (trigger_type row = VStr "one_shot" \/ trigger_type row = VStr "interval" ->
    (exists t, parseTimestamp date_parse (v_or (next_run row) (if is_plain (assoc_get "trigger_config" row)
                then get (assoc_get "trigger_config" row) "start_at" else VNull)) = Some t) \/
    (trigger_type row = VStr "one_shot" /\ ended h)) as Hread.
  { intros Hty. unfold v_or. destruct (truthy (next_run row)) eqn:Ht.
    - left. apply dated_parse, Hnext; [|done]. by destruct Hty as [-> | ->].
    - destruct Htrig as [H1|[(H1 & c & -> & Hd)|(H1 & _)]].
      + destruct (Hone H1) as [(t & z & Hn & Hne & _)|Hend]; [|by right].
        rewrite Hn in Ht. cbn in Ht. by destruct (String.eqb_spec t "").
      + left. by apply dated_parse.
      + destruct Hty as [H2|H2]; congruence. }
  revert Hrun. unfold evaluateAutomationJob. cbn [get]. case_bool_decide as Hst; cbn [negb]; [|intros [= <- _ _]; by left].
  destruct (executions_exhausted _ _); [intros [= <- _ _]; by right; left|].
  rewrite !schedulable_keeps by done. fold (trigger_type row) (next_run row).
  destruct (_ || _) eqn:Hty.
  { destruct Hread as [[t ->]|[H1 H2]].
    - apply orb_true_iff in Hty as [?%bool_decide_eq_true|?%bool_decide_eq_true]; auto.
    - intros [= <- _ _]. by left.
    - case_match; intros [= <- _ _]; [by left|]. by right; right; right. }
  destruct Htrig as [H1|[(H1 & _)|(H1 & c & p & Hc & Hp & Hsolid)]]; [by rewrite H1 in Hty..|].
  rewrite H1, Hc. cbn [plain_or_empty is_plain get]. rewrite bool_decide_true, Hp, trimString_or by done. cbn [trimString].
  destruct (String.eqb_spec (trim p) ""); [done|]. destruct (truthy _ && _); [intros [= <- _ _]; by left|].
  cbn [run await bind]. destruct (env_reply _ _ _ _) as [m|record]; [done|]. cbn [bind].
  destruct (evaluatePriceThreshold _ _ _ _ _) as [m|ev0] eqn:Hev; [done|]. intros [= <- _ _].
  right; right; left. split; [done|]. by apply price_patch in Hev.
Qed.

(** What is documented of [Date]: a valid time is printed as it is read, and what
    is read is valid. *)
Definition dates_ok : Prop :=
  (forall t, valid_time t -> date_parse (to_iso t) = Some t /\ to_iso t <> "") /\
  (forall s t, date_parse s = Some t -> valid_time t).

Lemma dated_iso t : dates_ok -> valid_time t -> dated (VStr (to_iso t)).
Proof. intros [H _] Ht. destruct (H t Ht). by exists (to_iso t), t. Qed.

Lemma dated_toISOString ms t : dates_ok -> toISOString to_iso ms = inr t -> dated (VStr t).
Proof.
  intros HD. unfold toISOString. destruct ms as [| |n]; [done..|]. destruct (Z.leb_spec (Z.abs (Z.quot n ONE)) 8640000000000000); [|done].
  intros [= <-]. by apply dated_iso.
Qed.

Lemma dated_schedule job ev nowMs sc :
  dates_ok -> next_schedule to_iso job ev nowMs = inr sc ->
  (sc.1 = "completed" /\ sc.2 = VNull) \/
  (get job "trigger_type" <> VStr "one_shot" /\
   (get job "trigger_type" = VStr "interval" -> truthy sc.2 = true -> dated sc.2)).
Proof.
  intros HD. unfold next_schedule. case_bool_decide as H1; [intros [= <-]; by left|]. intros H. right. split; [done|].
  intros Hi. rewrite Hi in H. cbn in H. revert H. unfold computeNextIntervalRun, bind_r.
  destruct (_ && _); [|by intros [= <-]].
  destruct (toISOString _ _) as [m|t] eqn:Ht; [done|]. intros [= <-] _. by apply dated_toISOString in Ht.
Qed.

Lemma execution_type job seen claimed d :
  well_formed job seen -> well_formed job claimed -> get (VObj (execution_row seen claimed d)) "trigger_type" = trigger_type job.
Proof.
  intros (_ & Hs & _) (Hnd & Hc & _). cbn [get]. unfold execution_row. rewrite spread_keeps by closed_list.
  rewrite get_spread by done. case_decide; [exact Hc|]. by rewrite schedulable_keeps.
Qed.

Lemma known_status v : v ∈ ["active"; "completed"] -> VStr v ∈ statuses.
Proof. unfold statuses. set_solver. Qed.

(** The patch of a finalized execution. *)
Lemma finalized_patch job ejob h seen ev nowMs d qid p :
  dates_ok -> trigger_type seen = trigger_type job -> get ejob "trigger_type" = trigger_type job ->
  patched_by_evaluation h seen ev -> evl_due ev = true ->
  trigger_ok seen ->
  buildQueuedAutomationPatch to_iso ejob ev nowMs d qid = inr p -> patch_ok job p.
Proof.
  intros HD Hty Hety Hev Hdue Htrig. unfold buildQueuedAutomationPatch.
  destruct (next_schedule _ _ _ _) as [|sc] eqn:Hsc; [done|]. cbn [bind_r].
  pose proof (next_schedule_status _ _ _ _ _ Hsc) as Hst. apply (dated_schedule _ _ _ _ HD) in Hsc. rewrite Hety in Hsc.
  assert (trigger_type job <> VStr "price_threshold" -> trigger_type job <> VStr "one_shot" -> trigger_type job = VStr "interval") as Hi.
  { rewrite <-Hty. by destruct Htrig as [?|[[? _]|[? _]]]. }
  apply known_status in Hst.
  assert (Hp : evl_patch ev = None \/ exists st t, evl_patch ev = Some [("trigger_state", st); ("next_run_at", t)]).
  { destruct Hev as [?|[[? _]|[[_ ?]|(_ & _ & ? & _)]]]; [by left|congruence|by right|congruence]. }
  destruct (executions_exhausted _ _); (destruct Hp as [->|(st & t & ->)]); intros [= <-];
    (split_and!; [closed_list|closed_list|closed_list|intros _|intros _ Hnp Htr|intros Hone _; split; [closed_list|]]).
  all: cbn in *; try (done || unfold statuses; set_solver).
  all: destruct Hsc as [[Hs1 Hs2]|[Hs1 Hs2]]; try (rewrite Hs2 in Htr; done); try (rewrite Hs1; set_solver); auto; congruence.
Qed.

Lemma failure_patch_ok job m b : patch_ok job (classifyAutomationExecutionFailure m b).
Proof.
  unfold classifyAutomationExecutionFailure. destruct (includes _ _); [|destruct b];
    (split_and!; [closed_list..| | |]); cbn; intros; try done; unfold statuses; set_solver.
Qed.

Lemma cancel_patch_ok job seen : patch_ok job (cancellationPatch (VObj seen)).
Proof.
  unfold cancellationPatch. destruct (resolveInFlightExecutionForCancel _);
    (split_and!; [closed_list..| | |]); cbn; intros; try done; unfold statuses; set_solver.
Qed.

Lemma claim_patch_ok job d adv p : claim_form d adv p -> patch_ok job p.
Proof.
  intros [->| ->]; destruct adv; (split_and!; [closed_list..| | |]); cbn; intros; try done; unfold statuses; set_solver.
Qed.

Lemma evaluation_patch_ok job h seen ev p :
  trigger_type seen = trigger_type job -> patched_by_evaluation h seen ev -> evl_patch ev = Some p -> patch_ok job p.
Proof.
  intros Ht Hev Hp. destruct Hev as [H|[[_ H]|[(Hty & st & t & H)|(_ & _ & _ & H)]]]; rewrite H in Hp; [done|..];
    injection Hp as <-; (split_and!; [closed_list..| | |]); cbn; intros; try done; try (unfold statuses; set_solver); congruence.
Qed.

(** The rows of a history, each with its dates. *)
Definition good_history (job : jfields) (h : list jfields) : Prop :=
  Forall (fun row => well_formed job row /\ scheduled h row) h.

Lemma scheduled_more h h' row : (forall r, r ∈ h -> r ∈ h') -> scheduled h row -> scheduled h' row.
Proof. intros Hin Hs H1. destruct (Hs H1) as [?|(r & Hr & Hst)]; [by left|right]. exists r. auto. Qed.

Lemma history_good job h :
  dates_ok -> well_formed job job -> scheduled [job] job -> row_history job h -> good_history job h.
Proof.
  intros HD Hj Hs Hh.
  assert (forall row h p, good_history job (row :: h) -> patch_ok job p -> good_history job (spread row p :: row :: h)) as Hmore.
  { intros row h' p Hg Hp. pose proof (Forall_inv Hg) as [Hw Hsc]. constructor.
    - split; [by apply well_formed_patch|by apply (scheduled_patch job)].
    - eapply Forall_impl; [exact Hg|]. intros r [? Hr]. split; [done|]. eapply scheduled_more; [|exact Hr]. by right. }
  assert (forall h seen, good_history job h -> seen ∈ h -> well_formed job seen /\ scheduled h seen) as Hseen.
  { intros h' seen Hg Hin. unfold good_history in Hg. rewrite Forall_forall in Hg. by apply Hg. }
  induction Hh as [|row h seen en s tr nowMs ev s' tr' p Hh IH Hin Hrun Hp|row h d adv p Hh IH Hp
    |row h seen claimed d en s tr nowMs ev s' tr' qid p Hh IH Hin Hcl Hrun Hdue Hp|row h m b Hh IH|row h seen Hh IH Hin|row h v Hh IH].
  - apply Forall_singleton. by split.
  - destruct (Hseen _ _ IH Hin) as [Hw Hsc]. apply Hmore; [done|].
    eapply evaluation_patch_ok; [apply Hw| |exact Hp]. by eapply evaluation_patch.
  - apply Hmore; [done|]. by eapply claim_patch_ok.
  - destruct (Hseen _ _ IH Hin) as [Hw Hsc], (Hseen _ _ IH Hcl) as [Hwc _]. apply Hmore; [done|].
    pose proof (evaluation_patch _ _ _ _ _ _ _ _ _ _ Hw Hsc Hrun) as Hev.
    pose proof (execution_type _ _ _ d Hw Hwc) as Ht.
    refine (finalized_patch _ _ _ seen _ _ _ _ _ HD _ Ht Hev Hdue _ Hp); apply Hw.
  - apply Hmore; [done|apply failure_patch_ok].
  - apply Hmore; [done|apply cancel_patch_ok].
  - apply Hmore; [done|]. split_and!; [closed_list..| | |]; cbn; intros; set_solver.
Qed.

(** A registered job. *)
Context (json_parse : string -> option val).

Lemma initial_trigger now tv t :
  dates_ok -> valid_time now -> buildInitialTrigger date_parse to_iso now tv = inr t ->
  (tg_triggerType t = "one_shot" /\ dated (tg_nextRunAt t)) \/
  (tg_triggerType t = "interval" /\ dated (tg_nextRunAt t) /\
   exists c, tg_triggerConfig t = VObj c /\ dated (assoc_get "start_at" c)) \/
  (tg_triggerType t = "price_threshold" /\ tg_nextRunAt t = VNull /\
   exists c p, tg_triggerConfig t = VObj c /\ assoc_get "pair" c = VStr p /\ trim p <> "").
Proof.
  intros HD Hnow. assert (forall v z, parseTimestamp date_parse v = Some z -> dated (VStr (to_iso z))) as Hpt.
  { intros v z. unfold parseTimestamp. destruct (absent v); [done|]. intros Hz. apply dated_iso; [done|]. by eapply HD. }
  unfold buildInitialTrigger. destruct (_ =? "")%string; [done|]. destruct (_ =? "one_shot")%string.
  { destruct (parseTimestamp _ _) as [z|] eqn:Hz; [|done]. intros [= <-]. left. split; [done|]. by apply (Hpt _ _ Hz). }
  destruct (_ =? "interval")%string.
  { destruct (parsePositiveInteger _ _) as [|ms]; [done|]. intros [= <-]. right; left.
    assert (dated (VStr (to_iso (default now (parseTimestamp date_parse (v_or (get tv "start_at") (get tv "startAt")))))))
      as Hs by (destruct (parseTimestamp _ _) eqn:Hz; [by apply (Hpt _ _ Hz)|by apply dated_iso]).
    split; [done|]. split; [done|]. by eexists. }
  destruct (_ =? "price_threshold")%string; [|done]. case_bool_decide; [|done]. cbn [negb].
  destruct (String.eqb_spec (trimString (v_or (get tv "pair") (v_or (get tv "feed_pair") (VStr "")))) "") as [|Hp]; [done|].
  unfold bind_r. repeat case_match; try done; intros [= <-]; right; right;
    (split; [done|split; [done|]]; eexists _, _; split; [done|split; [done|]]);
    revert Hp; generalize (v_or (get tv "pair") (v_or (get tv "feed_pair") (VStr "")));
    intros []; (done || apply trim_solid).
Qed.

Lemma registered_well_formed net uuid now e payload job :
  dates_ok -> valid_time now ->
  buildAutomationJobFromPayload json_parse date_parse to_iso net uuid now e payload = inr job ->
  well_formed job job /\ scheduled [job] job.
Proof.
  intros HD Hnow. unfold buildAutomationJobFromPayload. repeat (case_match; [done|]).
  destruct (resolveExecutionRequestType payload) as [|rt]; [done|]. cbn [bind_r].
  destruct (resolveExecutionPayload _ payload) as [|xp]; [done|]. cbn [bind_r].
  destruct (buildInitialTrigger _ _ _ _) as [|t] eqn:Ht; [done|]. cbn [bind_r].
  destruct (if absent _ then _ else _) as [|maxe]; [done|]. cbn [bind_r].
  destruct (if truthy _ then _ else _) as [|slug]; [done|]. cbn [bind_r]. intros [= <-].
  destruct (initial_trigger _ _ _ HD Hnow Ht) as [(H1 & H2)|[(H1 & H2 & c & H3 & H4)|(H1 & H2 & c & p & H3 & H4 & H5)]];
    (split; [split_and!; [closed_list|done|done| |unfold statuses; cbn; set_solver|]|]);
    unfold scheduled, trigger_ok, trigger_type, next_run; simpl; rewrite H1, ?H2.
  - by left.
  - done.
  - by left.
  - right; left; eauto.
  - done.
  - done.
  - right; right; eauto 6.
  - done.
  - done.
Qed.

End rows.

(** Times as signed numbers of milliseconds. *)
Definition sample_iso (t : Z) : string := String (if t <? 0 then "-" else "+") (num_to_string (Z.abs t)).

Definition sample_date (s : string) : option Z :=
  match s with
  | String a r =>
      z ← read_digits 10 0 r;
      (if decide (Z.abs z <= 8640000000000000) then Some (if Ascii.eqb a "-" then - z else z) else None)
  | "" => None
  end.

Lemma sample_dates_ok : dates_ok sample_date sample_iso.
Proof.
  split.
  - intros t Ht. split; [|done]. unfold sample_date, sample_iso. rewrite read_num by lia. cbn [mbind option_bind].
    unfold valid_time in Ht. rewrite decide_True by lia. destruct (Z.ltb_spec t 0); cbn; f_equal; lia.
  - intros [|a r] t; [done|]. cbn. destruct (read_digits 10 0 r) as [z|]; [|done]. cbn. case_decide; [|done].
    intros [= <-]. unfold valid_time. case_match; lia.
Qed.

Definition sample_registration : val :=
  VObj [("execution", VObj [("request_type", VStr "oracle.fetch"); ("payload", VObj [("url", VStr "https://a.b")])]);
        ("trigger", VObj [("type", VStr "one_shot"); ("execute_at", VStr "+1700000000000")]); ("max_executions", VNum 2)].

Definition sample_registrar : event :=
  Event neo_n3 "41" "automation_register" "app" "" "" "0xaa" "0xbb" "onResult" "" "0xcc" (Some 0) (Some 7) 0 "".

Definition sample_job : jfields :=
  match buildAutomationJobFromPayload (fun _ => None) sample_date sample_iso "testnet" "7f" 1000 sample_registrar
          sample_registration with inr job => job | inl _ => [] end.

Definition sample_automation_config : automation_config := AutomationConfig true 50 10 60000 120000 30000.

(** Claimed, cancelled by the owner, put back by the failure of the execution,
    and stamped. *)
Definition sample_dispatched : upkeep :=
  match dispatch_of sample_job with inr (d, _) => d | inl _ => Upkeep "" 0 "" 0 0 "" "" "" "" "" end.

Definition sample_claimed : jfields := spread sample_job (claim_fields sample_dispatched false).
Definition sample_cancelled : jfields := spread sample_claimed (cancellationPatch (VObj sample_job)).
Definition sample_revived : jfields :=
  spread sample_cancelled (classifyAutomationExecutionFailure "socket hang up" false).


(** The failure of an execution is written without a condition: it puts a row
    that was cancelled meanwhile back on the schedule, without its date, and a
    one-shot job is then marked as broken. *)
Lemma failure_revives_cancelled :
  assoc_get "status" sample_cancelled = VStr "cancelled" /\ assoc_get "status" sample_revived = VStr "active" /\
  (run (Effects.Env (fun _ => 0) (fun _ => 0%Q) (fun _ _ _ => inl "down"))
     (evaluateAutomationJob sample_date sample_iso sample_automation_config (VObj (schedulable sample_revived)) 0)
     (AutoState (Backoff 0 "") 0) []).1.1
  = inr (not_due (Some [("status", VStr "error"); ("last_error", VStr "invalid next_run_at")])).
Proof. split_and!; vm_compute; reflexivity. Qed.

(** ** What a later write undoes *)

(** A price job that is due, with a cooldown, is put off by the patch written
    before its claim: the claim's filter, that of rows without a date or due,
    no longer matches the row. *)
Example price_due_deferred :
  let job := VObj [("status", VStr "active"); ("trigger_type", VStr "price_threshold");
                   ("trigger_config", VObj [("pair", VStr "NEO-USD"); ("comparator", VStr "gte"); ("threshold", VStr "10");
                                            ("cooldown_ms", VNull)])] in
  match evaluatePriceThreshold sample_iso job (VObj [("price", VStr "12")]) 1700000000000 60000 with
  | inr ev => (evl_due ev, assoc_get "next_run_at" (default [] (evl_patch ev)))
  | inl _ => (false, VUndef)
  end = (true, VStr "+1700000060000").
Proof. vm_compute. reflexivity. Qed.

(** The finalization of an execution puts back on the schedule a job that was
    cancelled while the execution was in flight. *)
Lemma cancel_overwritten to_iso row d nowMs qid p :
  NoDup row.*1 -> trigger_type row = VStr "interval" -> assoc_get "max_executions" row = VNull ->
  buildQueuedAutomationPatch to_iso (VObj (execution_row row row d)) (Evaluation true None VUndef VUndef) nowMs d qid = inr p ->
  assoc_get "status" (spread (spread row (cancellationPatch (VObj row))) p) = VStr "active".
Proof.
  intros Hnd Ht Hm. unfold buildQueuedAutomationPatch, next_schedule, executions_exhausted.
  assert (forall k, k ∉ ["execution_count"; "last_queued_request_id"; "status"] ->
    get (VObj (execution_row row row d)) k = assoc_get k row) as Hk.
  { intros k Hk. cbn [get]. unfold execution_row. rewrite spread_keeps by (closed_list || set_solver).
    rewrite get_spread by done. case_decide; [done|]. unfold schedulable. case_match; [|done].
    apply spread_keeps; [closed_list|set_solver]. }
  rewrite !Hk by set_solver. fold (trigger_type row). rewrite Ht, Hm, bool_decide_false, bool_decide_true by done.
  destruct (computeNextIntervalRun _ _ _) as [|t]; [done|]. intros [= <-].
  by rewrite spread_sets by closed_list.
Qed.
