(* ===== verification/AutomationControl.v ===== *)
(** * Control requests and queued executions

    Who may cancel an automation, and which queued executions are let through. *)
From S2P Require Import Prelude Numbers Strings Values State Effects Persistence Doubles Upkeep Prepare AutomationStore Automation AutomationSpec.
From Stdlib Require Import QArith.
#[local] Open Scope list_scope.
#[local] Open Scope Z_scope.

Section control.
Context (json_parse : string -> option val) (date_parse : string -> option Z) (to_iso : Z -> string) (pe : penv)
  (sha256Hex : string -> string).
#[local] Set Default Proof Using "All".

(** The store answered a read of [table] under the filter [kv] with [row] first. *)
Definition read_row (o : aobs) (table : string) (kv : string * string) (row : val) : Prop :=
  exists r rep rows, o = OCall (Rest r) (inr rep) /\ rq_table r = table /\ rq_method r = "GET" /\ kv ∈ rq_query r /\
    json_parse (rs_text rep) = Some rows /\ first_row rows = row.

(** The automation a cancellation names. *)
Definition named_automation (payload : val) : string :=
  trimString (v_or (get payload "automation_id") (v_or (get payload "id") (VStr ""))).

(** Only a cancellation patches, and only the row of the automation its payload
    names, as cancelled, right after a read of that row that shows the requester
    of [e] as its owner. *)
Definition authorized (e : event) (payload : val) (o : aobs) (rest : list aobs) : Prop :=
  match o with
  | OCall (Rest r) _ =>
      rq_method r = "PATCH" ->
      let id := named_automation payload in
      normalizeRequestType (ev_requestType e) = "automation_cancel" /\ id <> "" /\
      rq_table r = "morpheus_automation_jobs" /\ rq_query r = [("automation_id", eq_filter id)] /\
      get (rq_payload r) "status" = VStr "cancelled" /\ get (rq_payload r) "next_run_at" = VNull /\
      exists job last, head rest = Some last /\
        read_row last "morpheus_automation_jobs" ("automation_id", eq_filter id) job /\
        truthy job = true /\ trimString (get job "requester") = trim (ev_requester e)
  | _ => True
  end.

Lemma eq_filter_ne id : eq_filter id <> "".
Proof. done. Qed.

(** The first row of a select, when there is one, is that of the last reply. *)
Lemma select_head table query kv :
  kv ∈ query -> kv.2 <> "" ->
  hoare (fun _ _ => True) (supabaseSelect pe json_parse table query) (fun o _ tr =>
    forall rows, o = inr rows -> truthy (first_row rows) = true ->
    exists last, head tr = Some last /\ read_row last table kv (first_row rows)).
Proof.
  intros Hkv Hne. unfold supabaseSelect, supabaseRequest.
  destruct (negb (pe_has_supabase pe)); [apply hoare_ret; by intros s tr _ rows [= <-]|].
  set (req := RestRequest _ _ _ _ _).
  eapply hoare_bind with (mid := fun response _ tr => forall rep, response = Some rep ->
    head tr = Some (OCall (Rest req) (inr rep))).
  - eapply hoare_bind with (mid := fun rep _ tr => head tr = Some (OCall (Rest req) (inr rep))).
    + apply hoare_await. intros [m|rep] s tr _; [done|done].
    + intros rep. case_match; [apply hoare_ret; intros s tr Hh rep' [= <-]; exact Hh|].
      eapply hoare_bind with (mid := fun _ _ _ => True); [by apply hoare_local|]. intros _. by apply hoare_throw.
  - intros [rep|]; apply hoare_ret; intros s tr Hh rows [= <-]; [|done].
    case_match; [done|]. destruct (json_parse (rs_text rep)) as [rows|] eqn:Hp; [|done]. intros _.
    eexists. split; [by apply Hh|]. exists req, rep, rows. split_and!; try done.
    cbn. unfold set_queries. apply elem_of_app. left. apply list_elem_of_filter. by split.
Qed.

#[local] Abbreviation J e payload := (fun (_ : auto_state) tr => trace_ok (authorized e payload) tr).

Lemma stable_request_other e payload t m p q oc rr : m <> "PATCH" -> stable (J e payload) (supabaseRequest pe t m p q oc rr).
Proof.
  intros Hm. unfold supabaseRequest, mark_unavailable. case_match; [apply stable_ret|].
  apply stable_bind; [|intros rep; repeat (stable_step || case_match)].
  apply stable_await. intros r s tr Htr. split; [done|exact Htr].
Qed.

Lemma stable_select e payload t q : stable (J e payload) (supabaseSelect pe json_parse t q).
Proof. apply stable_bind; [by apply stable_request_other|intros ?; apply stable_ret]. Qed.

Lemma fetch_job_head e payload id :
  hoare (J e payload) (fetchAutomationJobById pe json_parse id) (fun o _ tr => trace_ok (authorized e payload) tr /\
    forall job, o = inr job -> truthy job = true ->
    exists last, head tr = Some last /\ read_row last "morpheus_automation_jobs" ("automation_id", eq_filter id) job).
Proof.
  unfold fetchAutomationJobById.
  eapply hoare_bind with (mid := fun rows _ tr => trace_ok (authorized e payload) tr /\ (truthy (first_row rows) = true ->
    exists last, head tr = Some last /\
      read_row last "morpheus_automation_jobs" ("automation_id", eq_filter id) (first_row rows))).
  - eapply hoare_conseq; [apply hoare_and; [apply (stable_select e payload)|apply (select_head _ _ ("automation_id", eq_filter id))]|..].
    + set_solver.
    + apply eq_filter_ne.
    + by intros s tr Htr.
    + intros [m|rows] s tr [Htr Hh]; [by split|]. split; [done|]. intros Ht. by apply Hh.
  - intros rows. apply hoare_ret. intros s tr [Htr Hh]. split; [done|]. intros job [= <-] Ht. by apply Hh.
Qed.

Lemma cancel_authorized e payload id job :
  normalizeRequestType (ev_requestType e) = "automation_cancel" -> named_automation payload = id -> id <> "" ->
  truthy job = true -> trimString (get job "requester") = trim (ev_requester e) ->
  hoare (fun _ tr => trace_ok (authorized e payload) tr /\ exists last, head tr = Some last /\
           read_row last "morpheus_automation_jobs" ("automation_id", eq_filter id) job)
    (patchAutomationJob pe to_iso (VStr id) (cancellationPatch job)) (fun _ => J e payload).
Proof.
  intros Hty Hid Hne Ht Hreq. unfold patchAutomationJob. set (pre := fun _ tr => _).
  eapply hoare_bind with (mid := fun _ => pre); [by apply hoare_local|].
  intros now. unfold supabaseRequest. case_match; [by apply hoare_ret; intros ?? []|].
  eapply hoare_bind with (mid := fun _ => J e payload); [|intros rep; unfold mark_unavailable; repeat (stable_step || case_match)].
  apply hoare_await. intros r s tr [Htr (last & Hh & Hrow)].
  set (req := RestRequest _ _ _ _ _). assert (trace_ok (authorized e payload) (OCall (Rest req) r :: tr)) as Hok; [|by destruct r].
  split; [|exact Htr]. intros _. cbv zeta. rewrite Hid. subst req. cbn [rq_table rq_payload rq_query].
  assert (forall k, k ∈ ["status"; "next_run_at"] -> get (sanitizeForPostgres (stamped to_iso now (cancellationPatch job))) k
    = sanitizeForPostgres (assoc_get k (cancellationPatch job))) as Hget.
  { intros k Hk. unfold stamped. rewrite get_sanitized. f_equal. apply spread_keeps; [closed_list|set_solver]. }
  rewrite !Hget by set_solver. split_and!; [done..|]. by exists job, last.
Qed.

(** C25.  Only the requester cancels.  Whatever the store answers, a control
    request patches a row only when it is a cancellation, the row is that of the
    automation its payload names ([automation_id], else [id], trimmed), and the
    store has just shown, under the same id, that the requester of the event is
    the one who registered it; the patch cancels the job and takes it off the
    schedule. *)
Theorem cancel_needs_requester : forall e payload en s,
  trace_ok (authorized e payload) (run en (handleAutomationControlRequest json_parse date_parse to_iso pe sha256Hex e payload) s []).2.
Proof.
  intros e payload en s.
  assert (stable (J e payload) (handleAutomationControlRequest json_parse date_parse to_iso pe sha256Hex e payload)) as H.
  { unfold handleAutomationControlRequest. case_match.
    - apply stable_bind; [by apply stable_await|intros uuid]. apply stable_bind; [apply stable_clock|intros now].
      apply stable_bind; [destruct (buildAutomationJobFromPayload _ _ _ _ _ _ _ _); [apply stable_throw|apply stable_ret]|].
      intros job. apply stable_bind; [by apply stable_request_other|intros _].
      apply stable_bind; [|intros _; apply stable_ret]. unfold persistAutomationEncryptedFields.
      set (entries := collectEncryptedFields _ _). destruct entries as [|entry entries]; [apply stable_ret|].
      apply stable_bind; [|intros rows; apply stable_bind; [by apply stable_request_other|intros _; apply stable_ret]].
      generalize (entry :: entries). intros l. induction l as [|x l IH]; cbn [secret_rows]; [apply stable_ret|].
      apply stable_bind; [by apply stable_await|intros ?]. apply stable_bind; [exact IH|intros ?; apply stable_ret].
    - destruct (String.eqb_spec (normalizeRequestType (ev_requestType e)) "automation_cancel") as [Hty|]; [|apply stable_ret].
      fold (named_automation payload). set (id := named_automation payload).
      destruct (String.eqb_spec id "") as [|Hne]; [apply stable_ret|].
      eapply hoare_bind with (mid := fun job _ tr => trace_ok (authorized e payload) tr /\ (truthy job = true ->
        exists last, head tr = Some last /\ read_row last "morpheus_automation_jobs" ("automation_id", eq_filter id) job)).
      { eapply hoare_conseq; [apply (fetch_job_head e payload id)|done|]. intros [m|job] s0 tr [Htr Hh]; [done|].
        split; [done|]. intros Ht. by apply Hh. }
      intros job. destruct (truthy job) eqn:Ht; [|by apply hoare_ret; intros ?? []].
      destruct (String.eqb_spec (trimString (get job "requester")) (trim (ev_requester e))) as [Hreq|];
        [|by apply hoare_ret; intros ?? []].
      eapply hoare_bind with (mid := fun _ => J e payload); [|intros _; apply stable_ret].
      eapply hoare_conseq; [apply (cancel_authorized e payload id job Hty eq_refl Hne Ht Hreq)|intros s0 tr [Htr Hh]; split; [done|by apply Hh]|by intros []]. }
  exact (stable_run _ en _ s [] H Logic.I).
Qed.

(** What [guardQueuedAutomationExecution] decides of a run and its job. *)
Definition in_flight (run job : val) : Prop :=
  trimString (get job "last_queued_request_id") <> "" /\
  trimString (get run "queued_request_id") = trimString (get job "last_queued_request_id").

Definition may_run (run job : val) : Prop :=
  trimString (get run "automation_id") <> "" /\ truthy job = true /\
  (trimString (get job "status") = "cancelled" -> in_flight run job).

Definition seen (table : string) (kv : string * string) (row : val) (tr : list aobs) : Prop :=
  truthy row = true -> exists o, o ∈ tr /\ read_row o table kv row.

Lemma seen_stable {A} table kv row (p : aprog A) : stable (fun _ tr => seen table kv row tr) p.
Proof. apply stable_mono. intros t tr H Ht. destruct (H Ht) as (o & Ho & Hr). exists o. split; [set_solver|done]. Qed.

Lemma select_seen table query kv :
  kv ∈ query -> kv.2 <> "" ->
  hoare (fun _ _ => True) (supabaseSelect pe json_parse table query) (fun o _ tr =>
    forall rows, o = inr rows -> seen table kv (first_row rows) tr).
Proof.
  intros Hkv Hne. eapply hoare_conseq; [by apply (select_head table query kv)|done|].
  intros o s tr H rows Ho Ht. destruct (H rows Ho Ht) as (last & Hh & Hr). exists last. split; [|done].
  destruct tr as [|x tr]; [done|]. injection Hh as ->. by left.
Qed.

Definition exact_verdict (e : event) (g : guard_result) (tr : list aobs) : Prop :=
  truthy (gr_run g) = true ->
  (exists o, o ∈ tr /\ read_row o "morpheus_automation_runs" ("queue_tx->>tx_hash", eq_filter (trim (ev_txHash e))) (gr_run g)) /\
  (truthy (gr_job g) = true -> exists o, o ∈ tr /\ read_row o "morpheus_automation_jobs"
     ("automation_id", eq_filter (trimString (get (gr_run g) "automation_id"))) (gr_job g)) /\
  (gr_blocked g = false <-> may_run (gr_run g) (gr_job g)).

#[local] Abbreviation seen_run e run := (seen "morpheus_automation_runs" ("queue_tx->>tx_hash", eq_filter (trim (ev_txHash e))) run).
#[local] Abbreviation seen_job run job :=
  (seen "morpheus_automation_jobs" ("automation_id", eq_filter (trimString (get run "automation_id"))) job).

(** A refusal. *)
Lemma block_run_exact e txHash route error id run job :
  ~ may_run run job ->
  hoare (fun _ tr => seen_run e run tr /\ seen_job run job tr) (block_run pe txHash route error id run job)
    (fun o _ tr => forall g, o = inr g -> exact_verdict e g tr).
Proof.
  intros Hno. unfold block_run.
  apply hoare_after; [apply stable_and; apply seen_stable|by intros m s tr _ g|]. intros _. apply hoare_ret.
  intros s tr [Hr Hj] g [= <-] Ht. cbn. by split_and!; [apply Hr|apply Hj|].
Qed.

Lemma guard_hoare e :
  hoare (fun _ _ => True) (guardQueuedAutomationExecution json_parse pe e)
    (fun o _ tr => forall g, o = inr g -> exact_verdict e g tr).
Proof.
  unfold guardQueuedAutomationExecution. set (txHash := trim (ev_txHash e)).
  destruct (String.eqb_spec txHash "") as [|Htx]; [apply hoare_ret; by intros s tr _ g [= <-]|].
  eapply hoare_bind with (mid := fun run _ tr => seen_run e run tr).
  { unfold fetchAutomationRunByQueueTxHash. destruct (String.eqb_spec (trim txHash) "") as [Hb|_].
    { apply hoare_ret. by intros s tr _. }
    eapply hoare_bind with (mid := fun rows _ tr => seen_run e (first_row rows) tr).
    - eapply hoare_conseq; [apply (select_seen _ _ ("queue_tx->>tx_hash", eq_filter txHash))|done|].
      + unfold txHash. rewrite trim_idem. set_solver.
      + apply eq_filter_ne.
      + intros [m|rows] s tr H; [done|by apply H].
    - intros rows. by apply hoare_ret. }
  intros run. destruct (truthy run) eqn:Hrun; cbn [negb]; [|apply hoare_ret; intros s tr _ g [= <-]; by cbn].
  rewrite trimString_or. set (id := trimString (get run "automation_id")).
  destruct (String.eqb_spec id "") as [Hid|Hid].
  { eapply hoare_pre; [apply block_run_exact; by intros [? _]|]. intros s tr Hs. by split. }
  eapply hoare_bind with (mid := fun job _ tr => seen_run e run tr /\ seen_job run job tr).
  { unfold fetchAutomationJobById.
    eapply hoare_bind with (mid := fun rows _ tr => seen_run e run tr /\ seen_job run (first_row rows) tr).
    - eapply hoare_conseq; [apply hoare_and; [apply seen_stable|apply (select_seen _ _ ("automation_id", eq_filter id))]|..].
      + set_solver.
      + apply eq_filter_ne.
      + by intros s tr H.
      + intros [m|rows] s tr [Hr H]; [by intros g|]. split; [exact Hr|by apply H].
    - intros rows. by apply hoare_ret. }
  intros job. destruct (truthy job) eqn:Hjob; cbn [negb].
  2:{ eapply hoare_pre; [apply (block_run_exact e); by intros (_ & ? & _)|]. by intros s tr [Hr _]. }
  rewrite !trimString_or.
  set (flying := negb _ && _). assert (flying = true <-> in_flight run job) as Hfly.
  { unfold flying, in_flight. rewrite andb_true_iff, negb_true_iff, String.eqb_neq, String.eqb_eq. done. }
  destruct (String.eqb_spec (trimString (get job "status")) "cancelled") as [Hst|Hst]; [destruct flying eqn:Hf|]; cbn [andb negb].
  2:{ apply block_run_exact. intros (_ & _ & H). by apply Hfly in H. }
  all: apply hoare_ret; intros s tr [Hr Hj] g [= <-] _; cbn; split_and!; [by apply Hr|exact Hj|].
  all: split; [intros _; split_and!; [done..|]|done].
  - intros _. by apply Hfly.
  - done.
Qed.

(** A queued execution is let through exactly when it may run.  When the
    guard answers for an event whose transaction is recorded as the run of an
    automation, it lets the event through exactly when the job still exists and
    is not cancelled, or is cancelled with this very execution in flight. *)
Theorem guard_exact : forall e en s,
  let '(o, _, tr) := run en (guardQueuedAutomationExecution json_parse pe e) s [] in
  match o with
  | inr g =>
      truthy (gr_run g) = true ->
      (exists o, o ∈ tr /\ read_row o "morpheus_automation_runs" ("queue_tx->>tx_hash", eq_filter (trim (ev_txHash e))) (gr_run g)) /\
      (truthy (gr_job g) = true -> exists o, o ∈ tr /\ read_row o "morpheus_automation_jobs"
         ("automation_id", eq_filter (trimString (get (gr_run g) "automation_id"))) (gr_job g)) /\
      (gr_blocked g = false <-> may_run (gr_run g) (gr_job g))
  | inl _ => True
  end.
Proof.
  intros e en s.
  pose proof (guard_hoare e en s [] Logic.I) as H. revert H.
  destruct (run en (guardQueuedAutomationExecution json_parse pe e) s []) as [[[m|g] s'] tr]; [done|].
  intros H. exact (H g eq_refl).
Qed.
End control.
