(* ===== verification/PrepareSpec.v ===== *)
(** * Specification of preparation

    The enclave's result is used only after its cross-checks, malformed
    identifiers never reach a worker, and what the trust label means. *)
From S2P Require Import Prelude Numbers Strings Values Encoding Envelope Digest Cbor Attestation Externals State StateFacts StateSpec Config Effects Persistence World Samples Errors Signing Upkeep Prepare.
From Stdlib Require Import QArith.
#[local] Open Scope list_scope.
#[local] Open Scope Z_scope.

(** ** The enclave lane *)

Lemma run_await {Y} en (c : rel_call Y) (w : world) tr :
  run en (await c) w tr = (env_reply en _ tr c, w, OCall c (env_reply en _ tr c) :: tr).
Proof. unfold await. cbn [run]. by destruct (env_reply en Y tr c). Qed.

Lemma run_lift {A} en (r : string + A) (w : world) tr : run en (lift r) w tr = (r, w, tr).
Proof. by destruct r. Qed.

Section enclave.
Context (cfg : config) (X : externals).

Lemma check_enclave_sound e fc body nonce now r :
  check_enclave_reply cfg X e fc body nonce now = inr r ->
  er_fulfillment r = enclave_fulfillment body /\
  er_signature r = as_string (get body "signature") /\
  exists digest,
    recomputeFulfillmentDigestHex cfg X (ev_chain e)
      (SignedPayload (ev_requestId e) (ev_requestType e) fc (er_fulfillment r)) = inr digest /\
    normalizePublicKeyOf (v_or (get body "fulfillment_digest_hex") (VStr "")) = normalizePublicKey digest /\
    normalizePublicKey digest <> "" /\
    (enclaveSignatureVerificationEnabled cfg = true ->
       verifyEnclaveSignatureAgainstPinnedVerifier (x_neon_verify X) (nitro_pinned_verifier (cfg_nitro cfg))
         (chain_name (ev_chain e)) body (normalizePublicKey digest) = None) /\
    exists att,
      verifyEnclaveAttestation (x_sha256 X) (x_buffer_from X) (x_cert_of_der X) (x_cert_of_pem X)
        (x_issued_by X) (x_es384_verify X) (nitro_attestation (cfg_nitro cfg)) body
        (normalizePublicKey digest) nonce now = inr att /\
      er_trust_tier r = if ar_attested att
        then TRUST_TIER_ENCLAVE_ATTESTED else TRUST_TIER_HOST_UNATTESTED.
Proof.
  intros H. unfold check_enclave_reply in H.
  destruct (recomputeFulfillmentDigestHex _ _ _ _) as [?|digest] eqn:Hd; [done|].
  destruct (_ || _) eqn:Ho; [done|]. apply orb_false_iff in Ho as [H1 H2].
  apply negb_false_iff, String.eqb_eq in H2. apply String.eqb_neq in H1.
  destruct (if enclaveSignatureVerificationEnabled cfg then _ else _) eqn:Hv; [done|].
  destruct (verifyEnclaveAttestation _ _ _ _ _ _ _ _ _ _ _) as [?|att] eqn:Ha; [done|].
  apply (inj inr) in H as <-. cbn [er_fulfillment er_signature er_trust_tier].
  split_and!; [done..|]. exists digest. split_and!; [done..|by rewrite <-H2| |by eauto].
  intros He. by rewrite He in Hv.
Qed.

(** C4.  An enclave result is never used unchecked.  Whatever the enclave
    endpoint answers, the compute-and-sign call yields a result only when, over
    the exact reply to a request that carried a fresh 16-byte nonce: the reply
    was successful and signed; the digest the relayer recomputes from the
    returned fulfillment equals the enclave's; with signature verification on,
    the signature verifies against the pinned key over that digest; and the
    result is labelled enclave-attested exactly when the attestation document
    verifies for that digest and that nonce. *)
Theorem enclave_result_cross_checked : forall e fc payload en w tr r w' tr',
  run en (callEnclaveFulfill cfg X e fc payload) w tr = (inr r, w', tr') ->
  exists random request reply digest att now,
    let body := if is_object (wr_body reply) then wr_body reply else VObj [] in
    w' = w /\
    tr' = OCall (CallNitro "/oracle/fulfill" request (nitro_enclaveFulfillUrl (cfg_nitro cfg)) true)
            (inr reply) :: OCall (RandomBytes 16) (inr random) :: tr /\
    enclave_payload cfg e fc payload (hex_encode random) = inr request /\
    wr_ok reply = true /\
    er_fulfillment r = enclave_fulfillment body /\
    er_signature r = as_string (get body "signature") /\ er_signature r <> "" /\
    recomputeFulfillmentDigestHex cfg X (ev_chain e)
      (SignedPayload (ev_requestId e) (ev_requestType e) fc (er_fulfillment r)) = inr digest /\
    normalizePublicKeyOf (v_or (get body "fulfillment_digest_hex") (VStr "")) = normalizePublicKey digest /\
    (enclaveSignatureVerificationEnabled cfg = true ->
       verifyEnclaveSignatureAgainstPinnedVerifier (x_neon_verify X) (nitro_pinned_verifier (cfg_nitro cfg))
         (chain_name (ev_chain e)) body (normalizePublicKey digest) = None) /\
    verifyEnclaveAttestation (x_sha256 X) (x_buffer_from X) (x_cert_of_der X) (x_cert_of_pem X)
      (x_issued_by X) (x_es384_verify X) (nitro_attestation (cfg_nitro cfg)) body
      (normalizePublicKey digest) (hex_encode random) now = inr att /\
    (er_trust_tier r = TRUST_TIER_ENCLAVE_ATTESTED <-> ar_attested att = true).
Proof.
  intros e fc payload en w tr r w' tr' H. unfold callEnclaveFulfill in H.
  rewrite run_bind, run_await in H. destruct (env_reply en _ tr _) as [m|random]; [done|].
  cbv zeta in H. rewrite run_bind, run_lift in H.
  destruct (enclave_payload _ _ _ _ _) as [m|request] eqn:Hp; [done|]. rewrite run_bind, run_await in H.
  set (t1 := OCall (RandomBytes 16) (inr random) :: tr) in *.
  destruct (env_reply en _ t1 _) as [m|reply]; [done|]. destruct (_ && _); [done|].
  destruct (wr_ok reply) eqn:Hok; [|done]. cbn [negb] in H.
  set (body := if is_object (wr_body reply) then wr_body reply else VObj []) in *.
  destruct (_ =? "")%string eqn:Hs; [done|]. apply String.eqb_neq in Hs.
  unfold clock in H. cbn [bind run] in H. rewrite run_lift in H.
  injection H as H <- <-. apply check_enclave_sound in H as (Hf & Hsig & digest & ? & ? & ? & ? & att & Ha & Ht).
  eexists random, request, reply, digest, att, _. cbv zeta. fold body.
  split_and!; try done; [by rewrite Hsig|]. rewrite Ht. by destruct (ar_attested att).
Qed.
End enclave.

Definition sample_fc : fulfillment_context := FulfillmentContext "app" "oracle.fetch" "privacy_oracle".

Definition sample_enclave_body : val :=
  let f := Fulfillment true "42" "" "" in
  VObj [("success", VBool true); ("result", VStr "42"); ("signature", VStr "c3d4");
        ("fulfillment_digest_hex", VStr (from_option id ""
          (match recomputeFulfillmentDigestHex sample_config sample_externals neo_n3
             (SignedPayload "12" "privacy_oracle" sample_fc f) with inr d => Some d | inl _ => None end)))].

Definition sample_enclave_env (body : val) : env world rel_call :=
  sample_env 5000 (Replies (inl "offline") (inr (WorkerResponse true 200 body)) (inr (VStr "0xfeed")) 120 []).

Example enclave_result_cross_checked_witness :
  match run (sample_enclave_env sample_enclave_body)
    (callEnclaveFulfill sample_config sample_externals (sample_event "12" "0xab") sample_fc (VObj []))
    sample_world [] with
  | (inr r, _, _) => er_signature r <> "" /\ er_trust_tier r = TRUST_TIER_HOST_UNATTESTED
  | _ => False
  end.
Proof.
  destruct (run _ _ _ _) as [[[m|r] w'] tr'] eqn:H; [vm_compute in H; discriminate H|].
  split; [|vm_compute in H; injection H as <- _ _; reflexivity].
  destruct (enclave_result_cross_checked sample_config sample_externals _ _ _ _ _ _ _ _ _ H)
    as (? & ? & ? & ? & ? & ? & Hr). apply Hr.
Defined.

(** ** The ingestion gate *)

Lemma find_whitespace_spec e :
  (exists field, findWhitespaceIdentifier e = Some field) <->
  Exists (fun s => has_space s = true) [ev_appId e; ev_moduleId e; ev_operation e; ev_requestType e].
Proof.
  unfold findWhitespaceIdentifier. cbn [find snd].
  repeat rewrite Exists_cons. rewrite Exists_nil.
  destruct (has_space (ev_appId e)), (has_space (ev_moduleId e)), (has_space (ev_operation e)),
    (has_space (ev_requestType e)); naive_solver.
Qed.

(** Malformed identifiers are stopped at the gate: when the application,
    module, operation or request type of an event contains white space,
    preparation throws an [invalid identifier] error that names one of those
    fields, before any call is made or the state is touched; an event without
    such a field passes the gate. *)
Theorem whitespace_gate : forall cfg X e en w tr,
  let dirty := Exists (fun s => has_space s = true)
    [ev_appId e; ev_moduleId e; ev_operation e; ev_requestType e] in
  (dirty -> exists field, field ∈ ["appId"; "moduleId"; "operation"; "requestType"] /\
     run en (prepareOracleFulfillment cfg X e) w tr =
       (inl ("invalid identifier: request " +:+ ev_requestId e +:+ " field " +:+ field
             +:+ " contains whitespace"), w, tr)) /\
  (~ dirty -> assertEventIdentifiersClean e = inr tt).
Proof.
  intros cfg X e en w tr dirty. unfold dirty. rewrite <-find_whitespace_spec.
  unfold prepareOracleFulfillment. rewrite run_bind, run_lift. unfold assertEventIdentifiersClean. split.
  - intros [[field v] Hf]. rewrite Hf. exists field. split; [|done].
    apply find_some in Hf as [Hin _]. simpl in Hin.
    repeat (destruct Hin as [[= <- _]|Hin]; [set_solver|]). done.
  - intros H. destruct (findWhitespaceIdentifier e) as [[field v]|] eqn:E; [|done].
    destruct H. by eexists.
Qed.

Example whitespace_gate_witness :
  exists m, run (sample_env 5000 (ok_replies []))
    (prepareOracleFulfillment sample_config sample_externals
      (Event neo_n3 "12" "privacy oracle" "" "" "" "" "" "" "" "0xab" (Some 0) (Some 17) 0 ""))
    sample_world [] = (inl m, sample_world, []).
Proof.
  destruct (whitespace_gate sample_config sample_externals
    (Event neo_n3 "12" "privacy oracle" "" "" "" "" "" "" "" "0xab" (Some 0) (Some 17) 0 "")
    (sample_env 5000 (ok_replies [])) sample_world []) as [(field & _ & H) _]; [|by eexists].
  do 3 apply Exists_cons_tl. by apply Exists_cons_hd.
Defined.

(** The error of the gate is meant to be permanent, but a request whose id is a
    retryable HTTP status reads as transient. *)
Lemma whitespace_gate_misclassified :
  let e id := Event neo_n3 id "privacy oracle" "" "" "" "" "" "" "" "0xab" (Some 0) (Some 17) 0 "" in
  let message id := match assertEventIdentifiersClean (e id) with inl m => m | inr _ => "" end in
  classifyError (message "12") = Permanent /\ classifyError (message "503") = Transient.
Proof. vm_compute. split; reflexivity. Qed.

(** ** The trust label *)

(** With the enclave flag off nothing is attested, yet a rejection that the
    relayer host signs itself carries the enclave-attested label. *)
Lemma host_rejection_labelled_attested :
  let e := Event neo_n3 "12" "datafeed" "" "" "" "" "" "" "" "0xab" (Some 0) (Some 17) 0 "" in
  nitro_enclaveFulfill (cfg_nitro sample_config) = false /\
  defaultHostWorkerTrustTier sample_config = TRUST_TIER_HOST_UNATTESTED /\
  match run (sample_env 5000 (ok_replies [])) (prepareOracleFulfillment sample_config sample_externals e)
    sample_world [] with
  | (inr p, _, _) => p_trust_tier p = TRUST_TIER_ENCLAVE_ATTESTED /\ p_worker_status p = Some 0
  | _ => False
  end.
Proof. vm_compute. repeat split. Qed.
