(* ===== verification/Process.v ===== *)
(** * Processing one request event ([fulfillment.js])

    [processEvent]: claim the request, obtain its signed result, save it,
    deliver it on chain, and on any error decide between retry, failure
    callback, dead letter and settlement.

    Errors are their messages; log lines, durations and the fire-and-forget
    dead-letter alert are left out. *)
From S2P Require Import Prelude Numbers Strings Values Encoding Envelope Digest Cbor Attestation Externals State StateFacts Config Effects Persistence World Cursor Queue Errors Signing Upkeep Prepare.
From Stdlib Require Import QArith.
#[local] Open Scope list_scope.
#[local] Open Scope Z_scope.

(** ** Data *)

(** The result of a delivered callback. *)
Record delivered := Delivered {
  dv_success : bool;
  dv_error : string;
  dv_route : string;
  dv_module_id : string;
  dv_operation : string;
  dv_worker_status : option Z;
  dv_worker_response : val;
  dv_fulfill_tx : val;
}.

(** What [processEvent] returns. *)
Record outcome := Outcome {
  oc_status : string;
  oc_attempts : Z;
  oc_error : string;
  oc_result : option delivered;
}.

(** What the [try] block is about to do. *)
Inductive lane :=
| FinalizeOnly
| Redeliver (p : prepared)
| Fresh (p : prepared).

Definition lane_prepared (l : lane) : option prepared :=
  match l with FinalizeOnly => None | Redeliver p | Fresh p => Some p end.

Definition status_val (o : option Z) : val := match o with Some n => VNum n | None => VNull end.

Definition prepared_val (p : prepared) : val :=
  VObj [("success", VBool (p_success p)); ("result", VStr (p_result p));
        ("result_bytes_base64", VStr (p_result_bytes_base64 p)); ("error", VStr (p_error p));
        ("route", VStr (p_route p)); ("module_id", VStr (p_module_id p));
        ("operation", VStr (p_operation p)); ("worker_status", status_val (p_worker_status p));
        ("worker_response", p_worker_response p);
        ("verification_signature", VStr (p_verification_signature p));
        ("trust_tier", VStr (p_trust_tier p))].

Definition buildCallbackPendingWorkerResponse (p : prepared) (i : kernel_intent) : val :=
  let retryMeta :=
    [("prepared_fulfillment", prepared_val (buildPreparedFulfillmentRetryMeta p));
     ("module_id", VStr (p_module_id p ||s moduleId i));
     ("operation", VStr (p_operation p ||s operation i))] in
  let wr := p_worker_response p in
  if is_object wr then
    VObj (spread (own_fields wr)
      [("retry_meta",
        VObj (spread (if is_object (get wr "retry_meta") then own_fields (get wr "retry_meta") else [])
                retryMeta))])
  else VObj [("retry_meta", VObj retryMeta)].

(** The fields of a failure callback kept for a retry of it. *)
Definition failure_retry_meta (i : kernel_intent) (terminalError : string) : val :=
  VObj [("retry_meta",
    VObj [("finalize_only", VBool true); ("terminal_error", VStr terminalError);
          ("module_id", VStr (moduleId i)); ("operation", VStr (operation i))])].

Definition prepared_fulfillment_of (p : prepared) : fulfillment :=
  Fulfillment (p_success p) (p_result p) (p_result_bytes_base64 p) (p_error p).

Section process.
Context (pe : penv) (cfg : config) (X : externals).
#[local] Open Scope prog_scope.

Definition intent_of (e : event) : kernel_intent := resolveKernelIntent (ev_requestType e).

Definition retry_delay (attempts : Z) (rng : Q) : Z :=
  computeRetryDelayMs (retryBaseDelayMs (cfg_retry cfg)) (retryMaxDelayMs (cfg_retry cfg)) attempts rng.

(** ** Delivery *)

Definition fulfillNeoRequest (e : event) (f : fulfillment) (signature : string) : rprog val :=
  r <-- attempt (await (SubmitFulfillment e f signature)) ;;
  match r, ev_chain e with
  | inr tx, _ => Ret tx
  | inl message, neox => Throw message
  | inl message, neo_n3 =>
      if includes (toLowerCase message) "request not found" then
        Throw (message +:+ " [chain=" +:+ chain_name (ev_chain e) +:+ " request_id="
               +:+ ev_requestId e +:+ "]")
      else Throw message
  end.

Definition deliverPreparedFulfillment (e : event) (p : prepared) : rprog delivered :=
  tx <-- fulfillNeoRequest e (prepared_fulfillment_of p) (p_verification_signature p) ;;
  Ret (Delivered (p_success p) (p_error p) (p_route p) (p_module_id p) (p_operation p)
         (p_worker_status p) (p_worker_response p) tx).

Definition finalizeFailedRequest (e : event) (errorMessage : string) : rprog delivered :=
  let safeError := trimOnchainErrorMessage errorMessage in
  let f := Fulfillment false "" "" safeError in
  let fc := resolveEventFulfillmentContext e (intent_of e) in
  signature <-- signEncodedFulfillment cfg X e fc f ;;
  tx <-- fulfillNeoRequest e f signature ;;
  Ret (Delivered false safeError "failure-finalize" "" "" None VNull tx).

Definition checkpointPreparedFulfillment (e : event) (p : prepared) (attempts : Z) : rprog unit :=
  let details (_ : Z) :=
    JobDetails (buildEventKey e) "callback_pending" attempts (p_route p) "" None (p_worker_status p)
      (buildCallbackPendingWorkerResponse p (intent_of e)) VUndef None in
  available <-- (if dq_enabled (cfg_durable cfg)
                 then ensureDurableQueueAvailable pe cfg
                        (chain_name (ev_chain e) +:+ ":callback-pending-checkpoint")
                 else Ret false) ;;
  if (available : bool) then
    saved <-- attempt (upsertJobOrThrow pe e details) ;;
    match saved with
    | inr _ => Ret tt
    | inl error =>
        transient <-- isTransientDurableQueueError pe error ;;
        if (transient : bool) then Ret tt else Throw error
    end
  else maybeUpsertJob pe e details.

(** ** Recording an outcome *)

Definition recordDeliveryExhaustion (e : event) (attempts : Z) (route errorMessage terminalError : string)
    : rprog outcome :=
  let i := intent_of e in
  let lastError := trimOnchainErrorMessage errorMessage in
  update_at (fun now s =>
    clearRetryItem (ev_chain e) (buildEventKey e)
      (recordProcessedEvent now (ev_chain e) e "exhausted"
        (Meta attempts route (moduleId i) (operation i) lastError terminalError VUndef None)
        (cfg_limits cfg)
        (incrementLabeledFailure (ev_chain e) (moduleId i) (operation i) 1
          (incrementMetric "retries_exhausted_total" 1 s)))) ;;;
  persistState ;;;
  maybeUpsertJob pe e (fun now =>
    JobDetails (buildEventKey e) "exhausted" attempts route lastError None None VUndef VUndef (Some now)) ;;;
  Ret (Outcome "exhausted" attempts lastError None).

Record callback_retry := CallbackRetry {
  cr_firstFailedAt : option Z;
  cr_finalize_only : bool;
  cr_terminal_error : string;
  cr_prepared : option prepared;
  cr_upsertStatus : string;
  cr_upsertRoute : string;
  cr_upsertWorkerStatus : option Z;
  cr_upsertWorkerResponse : val;
  cr_retryStatus : string;
}.

Definition callback_retry_options (nextAttempts : Z) (errorMessage : string) (r : callback_retry)
    (now : Z) (rng : Q) : retry_options :=
  RetryOptions nextAttempts (now + retry_delay nextAttempts rng) (cr_firstFailedAt r)
    (trimOnchainErrorMessage errorMessage) "" (cr_finalize_only r) (cr_terminal_error r)
    (cr_prepared r) false (cfg_limits cfg).

Definition scheduleCallbackRetry (e : event) (nextAttempts : Z) (errorMessage : string)
    (r : callback_retry) : rprog outcome :=
  item <-- op (fun now rng s =>
    let '(item, s') := enqueueRetryItem now (ev_chain e) e
                         (callback_retry_options nextAttempts errorMessage r now rng) s in
    (item, incrementMetric "retries_scheduled_total" 1 s')) ;;
  persistState ;;;
  maybeUpsertJob pe e (fun _ =>
    JobDetails (buildEventKey e) (cr_upsertStatus r) (ri_attempts item) (cr_upsertRoute r)
      (ri_last_error item) (Some (ri_next_retry_at item)) (cr_upsertWorkerStatus r)
      (cr_upsertWorkerResponse r) VUndef None) ;;;
  Ret (Outcome (cr_retryStatus r) (ri_attempts item) (ri_last_error item) None).

Definition recordTerminalOutcome (e : event) (attempts : Z) (localStatus durableStatus route lastError : string)
    (metric : option string) (retryStatus : string) : rprog outcome :=
  let i := intent_of e in
  update_at (fun now s =>
    clearRetryItem (ev_chain e) (buildEventKey e)
      (recordProcessedEvent now (ev_chain e) e localStatus
        (Meta attempts route (moduleId i) (operation i) lastError "" VUndef None) (cfg_limits cfg)
        (match metric with Some m => incrementMetric m 1 s | None => s end))) ;;;
  persistState ;;;
  maybeUpsertJob pe e (fun now =>
    JobDetails (buildEventKey e) durableStatus attempts "" lastError None None VUndef VUndef (Some now)) ;;;
  Ret (Outcome retryStatus attempts (if (retryStatus =? "settled")%string then "" else lastError) None).

(** [nextAttempts > resolveCallbackRetryCeiling(config)] *)
Definition over_ceiling (nextAttempts : Z) : bool :=
  num_lt (resolveCallbackRetryCeiling cfg) (Fin nextAttempts).

Definition delivery_dead (errorMessage : string) (nextAttempts : Z) : bool :=
  bool_decide (classifyError errorMessage = Permanent) || over_ceiling nextAttempts.

Definition resolveDeliveryRetryOrExhaust (e : event) (nextAttempts : Z) (errorMessage : string)
    (exhaustRoute exhaustTerminalError : string) (retryOptions : callback_retry) : rprog outcome :=
  if delivery_dead errorMessage nextAttempts
  then recordDeliveryExhaustion e nextAttempts exhaustRoute errorMessage exhaustTerminalError
  else scheduleCallbackRetry e nextAttempts errorMessage retryOptions.

Definition recordFinalizedFailure (e : event) (attempts : Z) (result : delivered) : rprog outcome :=
  let i := intent_of e in
  update_at (fun now s =>
    clearRetryItem (ev_chain e) (buildEventKey e)
      (recordProcessedEvent now (ev_chain e) e "failed"
        (Meta attempts (dv_route result) (dv_module_id result ||s moduleId i)
           (dv_operation result ||s operation i) (dv_error result) "" (dv_fulfill_tx result) None)
        (cfg_limits cfg)
        (incrementLabeledFailure (ev_chain e) (moduleId i) (operation i) 1
          (incrementMetric "fulfill_failure_total" 1
            (incrementMetric "events_failed_total" 1
              (incrementMetric "events_processed_total" 1 s)))))) ;;;
  persistState ;;;
  maybeUpsertJob pe e (fun now =>
    JobDetails (buildEventKey e) "failed" attempts "" (dv_error result) None None VUndef
      (dv_fulfill_tx result) (Some now)) ;;;
  Ret (Outcome "" attempts "" (Some result)).

(** ** The pieces of [processEvent] *)

Definition item_prepared (retryItem : option retry_item) : option prepared :=
  buildPreparedFulfillmentRetryMeta <$> (retryItem ≫= ri_prepared_fulfillment).

Definition item_terminal_error (retryItem : option retry_item) : string :=
  trimOnchainErrorMessage
    (from_option ri_terminal_error "" retryItem
     ||s (from_option ri_last_error "" retryItem ||s "request execution failed")).

Definition item_attempts (retryItem : option retry_item) : Z := from_option ri_attempts 0 retryItem.
Definition item_finalize_only (retryItem : option retry_item) : bool :=
  from_option ri_finalize_only false retryItem.

Definition reason_text (r : claim_reason) : string :=
  match r with BackoffSkip => "backoff_skip" | Unavailable => "unavailable" | Conflict => "conflict" end.

(** Not granted for want of the store: keep the work. *)
Definition retain_unclaimed (e : event) (retryItem : option retry_item) (reason : claim_reason)
    : rprog outcome :=
  let attempts := item_attempts retryItem in
  match retryItem with
  | Some _ => Ret (Outcome (reason_text reason) attempts "" None)
  | None =>
      op (fun now rng s =>
        enqueueRetryItem now (ev_chain e) e
          (RetryOptions attempts (now + retry_delay (attempts + 1) rng) None
             ("durable_claim_" +:+ reason_text reason) "" false "" None false (cfg_limits cfg)) s) ;;;
      persistState ;;;
      Ret (Outcome (reason_text reason) attempts "" None)
  end.

(** Claimed by another relayer: drop the local item. *)
Definition yield_to_other (e : event) (retryItem : option retry_item) : rprog outcome :=
  update (fun s => clearRetryItem (ev_chain e) (buildEventKey e)
                     (incrementMetric "claim_conflicts_total" 1 s)) ;;;
  persistState ;;;
  Ret (Outcome "claimed_elsewhere" (item_attempts retryItem) "" None).

(** The first part of the [try]: a fresh request is prepared. *)
Definition obtain_lane (e : event) (retryItem : option retry_item) : rprog lane :=
  if item_finalize_only retryItem then Ret FinalizeOnly
  else
    match item_prepared retryItem with
    | Some p => Ret (Redeliver p)
    | None =>
        incr "worker_calls_total" 1 ;;;
        p <-- prepareOracleFulfillment cfg X e ;;
        Ret (Fresh p)
    end.

Definition count_delivery (r : delivered) : rprog delivered :=
  incr (if dv_success r then "fulfill_success_total" else "fulfill_failure_total") 1 ;;;
  Ret r.

(** The prepared result enters the retry queue and the state file before
    anything is submitted. *)
Definition save_prepared (e : event) (retryItem : option retry_item) (p : prepared) : rprog unit :=
  let attempts := item_attempts retryItem in
  (if p_success p then Ret tt else incr "worker_failures_total" 1) ;;;
  op (fun now rng s =>
    enqueueRetryItem now (ev_chain e) e
      (RetryOptions attempts (now + retry_delay (attempts + 1) rng) (ri_first_failed_at <$> retryItem)
         "callback_pending" "" false "" (Some (buildPreparedFulfillmentRetryMeta p))
         (from_option ri_durable_claimed false retryItem) (cfg_limits cfg)) s) ;;;
  persistState ;;;
  checkpointPreparedFulfillment e p attempts.

Definition run_lane (e : event) (retryItem : option retry_item) (l : lane) : rprog delivered :=
  match l with
  | FinalizeOnly =>
      r <-- finalizeFailedRequest e (item_terminal_error retryItem) ;;
      incr "fulfill_failure_total" 1 ;;;
      Ret r
  | Redeliver p => r <-- deliverPreparedFulfillment e p ;; count_delivery r
  | Fresh p =>
      save_prepared e retryItem p ;;;
      r <-- deliverPreparedFulfillment e p ;; count_delivery r
  end.

Definition final_status (r : delivered) : string := if dv_success r then "fulfilled" else "failed".

Definition record_delivered (e : event) (attempts startedAt : Z) (r : delivered) : rprog outcome :=
  let i := intent_of e in
  let module_id := dv_module_id r ||s moduleId i in
  let operation := dv_operation r ||s operation i in
  update_at (fun now s =>
    clearRetryItem (ev_chain e) (buildEventKey e)
      (recordProcessedEvent now (ev_chain e) e (final_status r)
        (Meta attempts (dv_route r) module_id operation (dv_error r) "" (dv_fulfill_tx r)
           (dv_worker_status r)) (cfg_limits cfg)
        (set_stamp "last_fulfill_latency_ms" (Some (now - startedAt))
          (incrementMetric "events_processed_total" 1 s)))) ;;;
  persistState ;;;
  maybeUpsertJob pe e (fun now =>
    JobDetails (buildEventKey e) (final_status r) attempts (dv_route r) "" None (dv_worker_status r)
      (if is_object (dv_worker_response r)
       then VObj (spread (own_fields (dv_worker_response r))
              [("kernel_intent",
                VObj [("module_id", VStr module_id); ("operation", VStr operation);
                      ("legacy_request_type", VStr (legacyRequestType i))])])
       else dv_worker_response r)
      (dv_fulfill_tx r) (Some now)) ;;;
  Ret (Outcome "" attempts "" (Some r)).

Definition failure_retry (i : kernel_intent) (firstFailedAt : option Z) (terminalError : string) : callback_retry :=
  CallbackRetry firstFailedAt true terminalError None "failure_callback_retry_scheduled" "" None
    (failure_retry_meta i terminalError) "scheduled".

Definition delivery_retry (e : event) (firstFailedAt : option Z) (p : prepared) : callback_retry :=
  CallbackRetry firstFailedAt false "" (Some (buildPreparedFulfillmentRetryMeta p))
    "callback_retry_scheduled" (p_route p) (p_worker_status p)
    (buildCallbackPendingWorkerResponse p (intent_of e)) "callback_retry_scheduled".

(** The request itself failed: finalize it on chain with an error callback. *)
Definition finalize_exhausted (e : event) (attempts : Z) (message : string) : rprog outcome :=
  incr "retries_exhausted_total" 1 ;;;
  finalized <-- attempt (finalizeFailedRequest e message) ;;
  match finalized with
  | inr result => recordFinalizedFailure e attempts result
  | inl finalizeError =>
      let terminal := trimOnchainErrorMessage message in
      resolveDeliveryRetryOrExhaust e (attempts + 1) finalizeError "failure-finalize" terminal
        (failure_retry (intent_of e) None terminal)
  end.

(** Nothing prepared: the retry budget of the request decides. *)
Definition retry_primary (e : event) (attempts : Z) (message : string) : rprog outcome :=
  retry <-- (if bool_decide (classifyError message = Permanent)
             then Ret (Exhausted (buildEventKey e) (attempts + 1) message)
             else op (fun now rng s =>
               scheduleRetry now rng (ev_chain e) e message (cfg_retry cfg) (cfg_limits cfg) s)) ;;
  match retry with
  | Exhausted _ attempts _ => finalize_exhausted e attempts message
  | Scheduled _ item =>
      incr "retries_scheduled_total" 1 ;;;
      persistState ;;;
      maybeUpsertJob pe e (fun _ =>
        JobDetails (buildEventKey e) "retry_scheduled" (ri_attempts item) "" message
          (Some (ri_next_retry_at item)) None VUndef VUndef None) ;;;
      Ret (Outcome "scheduled" (ri_attempts item) message None)
  end.

(** The [catch] block; [p] is the prepared fulfillment, if there is one by then. *)
Definition on_error (e : event) (retryItem : option retry_item) (p : option prepared) (message : string)
    : rprog outcome :=
  let attempts := item_attempts retryItem in
  let finalizeOnly := item_finalize_only retryItem in
  let terminalError := item_terminal_error retryItem in
  let firstFailedAt := ri_first_failed_at <$> retryItem in
  if isAlreadyFulfilledError message then
    recordTerminalOutcome e attempts "settled" "settled"
      (if finalizeOnly then "failure-finalize:already-fulfilled" else "already-fulfilled")
      (trimOnchainErrorMessage message) None "settled"
  else if isTerminalConfigurationError message then
    recordTerminalOutcome e attempts "exhausted" "failed_config"
      (if finalizeOnly then "failure-finalize:config-error" else "config-error")
      (trimOnchainErrorMessage message) (Some "retries_exhausted_total") "terminal"
  else
    match p with
    | Some p =>
        resolveDeliveryRetryOrExhaust e (attempts + 1) message (p_route p ||s "callback-delivery") ""
          (delivery_retry e firstFailedAt p)
    | None =>
        if finalizeOnly then
          resolveDeliveryRetryOrExhaust e (attempts + 1) message "failure-finalize" terminalError
            (failure_retry (intent_of e) firstFailedAt terminalError)
        else retry_primary e attempts message
    end.

(** The [try ... catch] of [processEvent]. *)
Definition try_process (e : event) (retryItem : option retry_item) (startedAt : Z) : rprog outcome :=
  obtained <-- attempt (obtain_lane e retryItem) ;;
  match obtained with
  | inl message => on_error e retryItem (item_prepared retryItem) message
  | inr l =>
      completed <-- attempt
        (r <-- run_lane e retryItem l ;;
         record_delivered e (item_attempts retryItem) startedAt r) ;;
      match completed with
      | inr o => Ret o
      | inl message =>
          on_error e retryItem
            (match l with FinalizeOnly => item_prepared retryItem | _ => lane_prepared l end) message
      end
  end.

Definition processEvent (e : event) (retryItem : option retry_item) : rprog outcome :=
  startedAt <-- clock ;;
  claim <-- claimDurableJobForProcessing pe cfg e retryItem ;;
  match claim with
  | ClaimDenied Conflict => yield_to_other e retryItem
  | ClaimDenied reason => retain_unclaimed e retryItem reason
  | ClaimGranted =>
      maybeUpsertJob pe e (fun _ =>
        JobDetails (buildEventKey e) (match retryItem with Some _ => "retrying" | None => "processing" end)
          (item_attempts retryItem) "" "" None None VUndef VUndef None) ;;;
      try_process e retryItem startedAt
  end.
End process.
