(* ===== verification/ProcessSpec.v ===== *)
(** * Specification of request processing

    Safety under interleaving, at most one submission per run, a prepared
    result that is never recomputed, and the fate of every request. *)
From S2P Require Import Prelude Numbers Strings Values Encoding Envelope Digest Cbor Attestation Externals State StateFacts StateSpec Config Effects Persistence World Cursor Samples Queue QueueSpec Errors Signing Upkeep Prepare Process.
From Stdlib Require Import QArith.
#[local] Open Scope list_scope.
#[local] Open Scope Z_scope.

(** ** Every segment keeps the state well formed *)

Section safety.
Context {I : relayer_state -> Prop} `{HI : !StateInvariant I}.
Context (pe : penv) (cfg : config) (X : externals).
#[local] Set Default Proof Using "All".
Context (Hcache : 0 <= processedCacheSize (cfg_limits cfg)).

Lemma safe_lift {A} (r : string + A) : safe (world_inv I) (lift r).
Proof. by destruct r. Qed.
#[local] Hint Resolve safe_lift : relayer_state.

Lemma safe_sign e fc f : safe (world_inv I) (signEncodedFulfillment cfg X e fc f).
Proof.
  unfold signEncodedFulfillment, signFulfillmentPayload, signNeoXFulfillment. safe_tac.
Qed.
#[local] Hint Resolve safe_sign : relayer_state.

Lemma safe_encode_and_sign e fc r route tier : safe (world_inv I) (encode_and_sign cfg X e fc r route tier).
Proof. unfold encode_and_sign, sign_encoded. safe_tac. Qed.
#[local] Hint Resolve safe_encode_and_sign : relayer_state.

Lemma safe_enclave e fc payload : safe (world_inv I) (callEnclaveFulfill cfg X e fc payload).
Proof. unfold callEnclaveFulfill. safe_tac. Qed.
#[local] Hint Resolve safe_enclave : relayer_state.

Lemma safe_prepare e : safe (world_inv I) (prepareOracleFulfillment cfg X e).
Proof.
  unfold prepareOracleFulfillment, prepare_automation_control, automation_block, prepare_operator_only,
    prepare_enclave, prepare_vrf, prepare_decrypt, prepare_worker, sign_encoded.
  safe_tac.
Qed.
#[local] Hint Resolve safe_prepare : relayer_state.

Lemma safe_fulfill e f sig : safe (world_inv I) (fulfillNeoRequest e f sig).
Proof. unfold fulfillNeoRequest. safe_tac. Qed.
#[local] Hint Resolve safe_fulfill : relayer_state.

Lemma safe_deliver e p : safe (world_inv I) (deliverPreparedFulfillment e p).
Proof. unfold deliverPreparedFulfillment. safe_tac. Qed.

Lemma safe_finalize e m : safe (world_inv I) (finalizeFailedRequest cfg X e m).
Proof. unfold finalizeFailedRequest. safe_tac. Qed.
#[local] Hint Resolve safe_deliver safe_finalize : relayer_state.

Lemma safe_checkpoint e p n : safe (world_inv I) (checkpointPreparedFulfillment pe cfg e p n).
Proof. unfold checkpointPreparedFulfillment. safe_tac. Qed.
#[local] Hint Resolve safe_checkpoint : relayer_state.

Lemma safe_record (f : relayer_state -> relayer_state) (g : Z -> relayer_state -> relayer_state) e st
    (m : meta) :
  (forall s, I s -> I (f s)) ->
  safe (world_inv I) (update_at (fun now s =>
    clearRetryItem (ev_chain e) (buildEventKey e)
      (recordProcessedEvent now (ev_chain e) e st m (cfg_limits cfg) (f s)))).
Proof. intros Hf. apply safe_update_at. intros. apply inv_clear, inv_record; auto. Qed.

Lemma safe_op_enqueue {Y} e (o : Z -> Q -> retry_options) (g : retry_item * relayer_state -> Y * relayer_state) :
  (forall r, I r.2 -> I (g r).2) ->
  safe (world_inv I) (op (fun now rng s => g (enqueueRetryItem now (ev_chain e) e (o now rng) s))).
Proof. intros Hg. apply safe_op. intros. by apply Hg, inv_enqueue. Qed.

Lemma safe_exhaustion e a r m t : safe (world_inv I) (recordDeliveryExhaustion pe cfg e a r m t).
Proof.
  unfold recordDeliveryExhaustion. cbv zeta. apply safe_bind; [|safe_tac].
  apply safe_update_at. intros. apply inv_clear, inv_record; [done|]. by repeat apply inv_metrics.
Qed.

Lemma safe_callback_retry e n m r : safe (world_inv I) (scheduleCallbackRetry pe cfg e n m r).
Proof.
  unfold scheduleCallbackRetry. apply safe_bind; [|safe_tac]. apply safe_op. intros now rng s Hs.
  pose proof (inv_enqueue now (ev_chain e) e (callback_retry_options cfg n m r now rng) s Hs) as H.
  destruct (enqueueRetryItem _ _ _ _ _) as [it s']. by apply inv_metrics.
Qed.
#[local] Hint Resolve safe_exhaustion safe_callback_retry : relayer_state.

Lemma safe_terminal e a l d r m me rs : safe (world_inv I) (recordTerminalOutcome pe cfg e a l d r m me rs).
Proof.
  unfold recordTerminalOutcome. cbv zeta. apply safe_bind; [|safe_tac].
  apply safe_update_at. intros. apply inv_clear, inv_record; [done|]. destruct me; [|done].
  by apply inv_metrics.
Qed.

Lemma safe_finalized e a r : safe (world_inv I) (recordFinalizedFailure pe cfg e a r).
Proof.
  unfold recordFinalizedFailure. cbv zeta. apply safe_bind; [|safe_tac].
  apply safe_update_at. intros. apply inv_clear, inv_record; [done|]. by repeat apply inv_metrics.
Qed.

Lemma safe_delivered e a t r : safe (world_inv I) (record_delivered pe cfg e a t r).
Proof.
  unfold record_delivered. cbv zeta. apply safe_bind; [|safe_tac].
  apply safe_update_at. intros. apply inv_clear, inv_record; [done|]. by repeat apply inv_metrics.
Qed.
#[local] Hint Resolve safe_terminal safe_finalized safe_delivered : relayer_state.

Lemma safe_resolve e n m r t o : safe (world_inv I) (resolveDeliveryRetryOrExhaust pe cfg e n m r t o).
Proof. unfold resolveDeliveryRetryOrExhaust. safe_tac. Qed.
#[local] Hint Resolve safe_resolve : relayer_state.

Lemma safe_retry_primary e a m : safe (world_inv I) (retry_primary pe cfg X e a m).
Proof.
  unfold retry_primary, finalize_exhausted. apply safe_bind.
  - case_match; [done|]. apply safe_op. intros. by apply inv_schedule.
  - intros r. safe_tac.
Qed.
#[local] Hint Resolve safe_retry_primary : relayer_state.

Lemma safe_on_error e it p m : safe (world_inv I) (on_error pe cfg X e it p m).
Proof.
  unfold on_error. cbv zeta. repeat case_match;
    first [apply safe_terminal | apply safe_resolve | apply safe_retry_primary].
Qed.
#[local] Hint Resolve safe_on_error : relayer_state.

Lemma safe_save_prepared e it p : safe (world_inv I) (save_prepared pe cfg e it p).
Proof.
  unfold save_prepared. cbv zeta. apply safe_bind; [safe_tac|]. intros _. apply safe_bind; [|safe_tac].
  apply safe_op. intros. by apply inv_enqueue.
Qed.
#[local] Hint Resolve safe_save_prepared : relayer_state.

Lemma safe_processEvent e it : safe (world_inv I) (processEvent pe cfg X e it).
Proof.
  unfold processEvent, retain_unclaimed, yield_to_other, try_process, obtain_lane, run_lane, count_delivery.
  safe_tac.
  all: first [apply safe_update | apply safe_op]; intros;
    first [by apply inv_clear, inv_metrics | by apply inv_enqueue].
Qed.
End safety.

(** C10.  No interleaving of request processing corrupts the relayer state:
    whatever events a pool of [processEvent]s works on, in whatever order its
    members take their turns and whatever the store, the worker, the enclave
    and the chains answer, the state stays well formed: the processed order
    enumerates the processed keys once each, and an event has at most one item
    in the retry queue, stored under its own key. *)
Theorem processEvent_pool_safe : forall pe cfg X (work : list (event * option retry_item)) w ps w',
  0 <= processedCacheSize (cfg_limits cfg) ->
  state_wf (w_state w) ->
  rtc par_step ((fun '(e, it) => processEvent pe cfg X e it) <$> work, w) (ps, w') ->
  state_wf (w_state w').
Proof.
  intros pe cfg X work w ps w' Hc Hw Hsteps.
  apply (par_steps_safe world_wf _ _ Hsteps); [|done].
  apply Forall_fmap, Forall_true. intros [e it]. by apply safe_processEvent.
Qed.

Definition sample_pool : list (rprog outcome) :=
  [processEvent sample_penv sample_config sample_externals (sample_event "12" "0xab") None;
   processEvent sample_penv sample_config sample_externals (sample_event "13" "0xcd") None].

Example processEvent_pool_safe_witness :
  exists ps w', par_step (sample_pool, sample_world) (ps, w') /\ state_wf (w_state w').
Proof.
  assert (exists c', par_step (sample_pool, sample_world) c') as [[ps w'] Hstep].
  { eexists. exact (par_local 1 Z (fun now _ s => (now, s)) _ 5 0%Q sample_pool sample_world eq_refl). }
  exists ps, w'. split; [done|].
  apply (processEvent_pool_safe sample_penv sample_config sample_externals
    [(sample_event "12" "0xab", None); (sample_event "13" "0xcd", None)] sample_world ps w');
    [done|apply empty_wf|by apply rtc_once].
Defined.

(** ** Counting the calls of a run *)

Definition is_submit (Y : Type) (c : rel_call Y) : bool :=
  match c with SubmitFulfillment _ _ _ => true | _ => false end.

(** The calls that compute or sign a result. *)
Definition is_compute (Y : Type) (c : rel_call Y) : bool :=
  match c with
  | CallNitro _ _ _ _ | EvmSign _ | RandomBytes _ | AutomationControl _ _ | AutomationGuard _ => true
  | _ => false
  end.

(** [free P p]: [p] makes no call in [P]. *)
Abbreviation free P p := (calls_at_most P 0 p).

Lemma free_bind {A B} P (p : rprog A) (k : A -> rprog B) :
  free P p -> (forall a, free P (k a)) -> free P (bind p k).
Proof. apply (calls_bind P 0 0). Qed.

Lemma calls_then {A B} P n (p : rprog A) (k : A -> rprog B) :
  free P p -> (forall a, calls_at_most P n (k a)) -> calls_at_most P n (bind p k).
Proof. apply (calls_bind P 0 n). Qed.

Lemma calls_first {A B} P n (p : rprog A) (k : A -> rprog B) :
  calls_at_most P n p -> (forall a, free P (k a)) -> calls_at_most P n (bind p k).
Proof. intros Hp Hk. rewrite <-(Nat.add_0_r n). by apply calls_bind. Qed.

Lemma free_calls {A} P n (p : rprog A) : free P p -> calls_at_most P n p.
Proof. intros H. eapply calls_weaken; [exact H|lia]. Qed.

Lemma free_attempt {A} P (p : rprog A) : free P p -> free P (attempt p).
Proof. apply calls_attempt. Qed.

Lemma free_await {Y} P (c : rel_call Y) : P Y c = false -> free P (await c : rprog Y).
Proof. intros H. simpl. rewrite H. by intros [|]. Qed.

Lemma free_local {Y} P (f : Z -> Q -> world -> Y * world) : free P (local f : rprog Y).
Proof. done. Qed.

Lemma free_lift {A} P (r : string + A) : free P (lift r : rprog A).
Proof. by destruct r. Qed.

Create HintDb calls.
#[export] Hint Resolve free_lift free_local : calls.

Ltac free_tac :=
  repeat first
    [ done
    | progress intros
    | simple apply free_bind | progress cbv zeta
    | simple apply free_attempt
    | simple apply free_await; [solve [auto]]
    | match goal with
      | |- calls_at_most _ _ (Ret _) => exact I
      | |- calls_at_most _ _ (Throw _) => exact I
      | |- calls_at_most _ _ (if ?b then _ else _) => destruct b eqn:?
      | |- calls_at_most _ _ (match ?x with _ => _ end) => destruct x eqn:?
      end
    | solve [auto with calls] ].

Section store_calls.
Context (P : forall Y, rel_call Y -> bool) (Hstore : forall r, P _ (Supabase r) = false).
Context (pe : penv) (cfg : config).

Lemma free_supabase t r : free P (supabaseRequest pe t r).
Proof using Hstore. unfold supabaseRequest, markUnavailable. free_tac. Qed.
#[local] Hint Resolve free_supabase : calls.

Lemma free_maybeUpsert e d : free P (maybeUpsertJob pe e d).
Proof using Hstore. unfold maybeUpsertJob, upsertRelayerJob. free_tac. Qed.
#[local] Hint Resolve free_maybeUpsert : calls.

Lemma free_transient m : free P (isTransientDurableQueueError pe m).
Proof using. unfold isTransientDurableQueueError, markUnavailable. free_tac. Qed.

Lemma free_ensure c : free P (ensureDurableQueueAvailable pe cfg c).
Proof using. unfold ensureDurableQueueAvailable. free_tac. Qed.
#[local] Hint Resolve free_transient free_ensure : calls.

Lemma free_claim e it : free P (claimDurableJobForProcessing pe cfg e it).
Proof using Hstore.
  unfold claimDurableJobForProcessing, skipPersistence, claimRelayerJob. free_tac.
Qed.

Lemma free_checkpoint e p n : free P (checkpointPreparedFulfillment pe cfg e p n).
Proof using Hstore.
  unfold checkpointPreparedFulfillment, upsertJobOrThrow, upsertRelayerJob, skipPersistence. free_tac.
Qed.
#[local] Hint Resolve free_claim free_checkpoint : calls.

Lemma free_resolve e n m r t o : free P (resolveDeliveryRetryOrExhaust pe cfg e n m r t o).
Proof using Hstore.
  unfold resolveDeliveryRetryOrExhaust, recordDeliveryExhaustion, scheduleCallbackRetry. free_tac.
Qed.

Lemma free_terminal e a l d r m me rs : free P (recordTerminalOutcome pe cfg e a l d r m me rs).
Proof using Hstore. unfold recordTerminalOutcome. free_tac. Qed.

Lemma free_finalized e a r : free P (recordFinalizedFailure pe cfg e a r).
Proof using Hstore. unfold recordFinalizedFailure. free_tac. Qed.

Lemma free_delivered e a t r : free P (record_delivered pe cfg e a t r).
Proof using Hstore. unfold record_delivered. free_tac. Qed.

Lemma free_save_prepared e it p : free P (save_prepared pe cfg e it p).
Proof using Hstore. unfold save_prepared. free_tac. Qed.
#[local] Hint Resolve free_resolve free_terminal free_finalized free_delivered free_save_prepared : calls.

(** Handling an error when a prepared result is at hand, or in the finalize-only
    lane, calls the store only. *)
Lemma free_on_error X e it p m :
  item_finalize_only it = true \/ is_Some p -> free P (on_error pe cfg X e it p m).
Proof using Hstore.
  intros H. unfold on_error. cbv zeta. destruct (isAlreadyFulfilledError m); [auto with calls|].
  destruct (isTerminalConfigurationError m); [auto with calls|].
  destruct p as [p|]; [auto with calls|]. destruct H as [->|[? ?]]; [auto with calls|done].
Qed.
End store_calls.

#[export] Hint Resolve free_maybeUpsert free_claim free_checkpoint free_resolve free_terminal
  free_finalized free_delivered free_save_prepared : calls.

Lemma submit_store r : is_submit _ (Supabase r) = false.
Proof. done. Qed.
Lemma compute_store r : is_compute _ (Supabase r) = false.
Proof. done. Qed.
#[export] Hint Resolve submit_store compute_store : calls.

(** ** At most one submission *)

Section submissions.
Context (pe : penv) (cfg : config) (X : externals).
#[local] Abbreviation no_submit p := (free is_submit p).

Lemma no_submit_sign e fc f : no_submit (signEncodedFulfillment cfg X e fc f).
Proof. unfold signEncodedFulfillment, signFulfillmentPayload, signNeoXFulfillment. free_tac. Qed.
#[local] Hint Resolve no_submit_sign : calls.

Lemma no_submit_encode e fc r route tier : no_submit (encode_and_sign cfg X e fc r route tier).
Proof. unfold encode_and_sign, sign_encoded. free_tac. Qed.

Lemma no_submit_enclave e fc payload : no_submit (callEnclaveFulfill cfg X e fc payload).
Proof. unfold callEnclaveFulfill. free_tac. Qed.
#[local] Hint Resolve no_submit_encode no_submit_enclave : calls.

Lemma no_submit_prepare e : no_submit (prepareOracleFulfillment cfg X e).
Proof.
  unfold prepareOracleFulfillment, prepare_automation_control, automation_block, prepare_operator_only,
    prepare_enclave, prepare_vrf, prepare_decrypt, prepare_worker, sign_encoded.
  free_tac.
Qed.
#[local] Hint Resolve no_submit_prepare : calls.

Lemma one_submit e f sig : calls_at_most is_submit 1 (fulfillNeoRequest e f sig).
Proof.
  unfold fulfillNeoRequest. apply calls_first; [|free_tac]. apply calls_attempt. simpl. by intros [|].
Qed.

Lemma one_deliver e p : calls_at_most is_submit 1 (deliverPreparedFulfillment e p).
Proof. unfold deliverPreparedFulfillment. apply calls_first; [apply one_submit|free_tac]. Qed.

Lemma one_finalize e m : calls_at_most is_submit 1 (finalizeFailedRequest cfg X e m).
Proof.
  unfold finalizeFailedRequest. cbv zeta. apply calls_then; [auto with calls|].
  intros sig. apply calls_first; [apply one_submit|free_tac].
Qed.

Lemma one_retry_primary e a m : calls_at_most is_submit 1 (retry_primary pe cfg X e a m).
Proof.
  unfold retry_primary, finalize_exhausted. apply calls_then; [by case_match|]. intros [k n msg|k it].
  - apply calls_then; [done|]. intros _. apply calls_first; [apply calls_attempt, one_finalize|].
    intros [|]; cbv zeta; auto with calls.
  - apply free_calls. free_tac.
Qed.

Lemma one_on_error e it p m : calls_at_most is_submit 1 (on_error pe cfg X e it p m).
Proof.
  destruct (item_finalize_only it) eqn:Hf; [|destruct p as [p|]];
    [apply free_calls, free_on_error; eauto using submit_store..|].
  unfold on_error. cbv zeta. rewrite Hf.
  repeat (case_match; [apply free_calls; auto with calls|]). apply one_retry_primary.
Qed.

Lemma one_run_lane e it l : calls_at_most is_submit 1 (run_lane pe cfg X e it l).
Proof.
  unfold run_lane, count_delivery. destruct l as [|p|p].
  - apply calls_first; [apply one_finalize|free_tac].
  - apply calls_first; [apply one_deliver|free_tac].
  - apply calls_then; [auto with calls|]. intros _. apply calls_first; [apply one_deliver|free_tac].
Qed.

(** The continuation of a [try] only sees the values the block can return. *)
Lemma calls_attempt_map {A B C} P n (p : rprog A) (f : A -> B) (h : string + B -> rprog C) :
  free P p -> (forall m, calls_at_most P n (h (inl m))) -> (forall a, calls_at_most P n (h (inr (f a)))) ->
  calls_at_most P n (bind (attempt (bind p (fun a => Ret (f a)))) h).
Proof.
  intros Hp Hl Hr. induction p as [a|m|Y g k IH|Y c k IH|p IH]; simpl in *; auto.
  destruct (P Y c); [done|auto].
Qed.

Lemma one_try_lane e it t l :
  item_finalize_only it = true \/ is_Some (lane_prepared l) ->
  calls_at_most is_submit 1
    (bind (attempt (bind (run_lane pe cfg X e it l) (record_delivered pe cfg e (item_attempts it) t)))
       (fun completed => match completed with
        | inr o => Ret o
        | inl message => on_error pe cfg X e it
            (match l with FinalizeOnly => item_prepared it | _ => lane_prepared l end) message
        end)).
Proof.
  intros H. apply calls_first.
  - apply calls_attempt, calls_first; [apply one_run_lane|auto with calls].
  - intros [m|o]; [|done]. apply free_on_error; [apply submit_store|]. destruct H; [by left|].
    destruct l; [|by right..]. by destruct H.
Qed.

Lemma one_try e it t : calls_at_most is_submit 1 (try_process pe cfg X e it t).
Proof.
  unfold try_process, obtain_lane. destruct (item_finalize_only it) eqn:Hf.
  { cbn [attempt bind]. apply one_try_lane. by left. }
  destruct (item_prepared it) as [p|] eqn:Hp.
  { cbn [attempt bind]. apply (one_try_lane e it t (Redeliver p)). right. by eexists. }
  change (calls_at_most is_submit 1 (bind (attempt (bind (incr "worker_calls_total" 1 ;;;
    prepareOracleFulfillment cfg X e)%prog (fun p => Ret (Fresh p)))) (fun obtained =>
      match obtained with
      | inl message => on_error pe cfg X e it None message
      | inr l => bind (attempt (bind (run_lane pe cfg X e it l)
            (record_delivered pe cfg e (item_attempts it) t)))
          (fun completed => match completed with
           | inr o => Ret o
           | inl message => on_error pe cfg X e it
               (match l with FinalizeOnly => None | _ => lane_prepared l end) message
           end)
      end))).
  apply calls_attempt_map.
  - apply free_bind; [done|]. intros _. apply no_submit_prepare.
  - intros m. apply one_on_error.
  - intros p. apply (one_try_lane e it t (Fresh p)). right. by eexists.
Qed.
End submissions.

(** C3.  Delivery is at most once per run: processing one event submits at most
    one fulfillment transaction, whatever the store, the worker, the enclave
    and the chain answer and whatever lane the event takes (fresh, redelivery,
    failure callback, or a fresh failure finalized on the spot). *)
Theorem processEvent_submits_at_most_once : forall pe cfg X e it en w tr,
  (count_obs is_submit (run en (processEvent pe cfg X e it) w tr).2 <= 1 + count_obs is_submit tr)%nat.
Proof.
  intros. apply calls_run. unfold processEvent. apply calls_then; [done|]. intros t.
  apply calls_then; [auto with calls|]. intros [|[| |]].
  - apply calls_then; [auto with calls|]. intros _. apply one_try.
  - apply free_calls. unfold retain_unclaimed. free_tac.
  - apply free_calls. unfold retain_unclaimed. free_tac.
  - apply free_calls. unfold yield_to_other. free_tac.
Qed.

Lemma free_run {A} P en (p : rprog A) w tr :
  free P p -> count_obs P (run en p w tr).2 = count_obs P tr.
Proof.
  intros H. apply Nat.le_antisymm; [by apply (calls_run P 0)|].
  clear H. revert w tr. induction p as [a|m|Y f k IH|Y c k IH|p IH]; intros w tr; simpl; try done.
  - destruct (f _ _ w). apply IH.
  - etransitivity; [|apply IH]. simpl. lia.
  - etransitivity; [|apply IH]. simpl. lia.
Qed.

Lemma bind_attempt_ret {A B} (a : A) (k : string + A -> rprog B) :
  bind (attempt (Ret a)) k = k (inr a).
Proof. done. Qed.

(** Any call except the store's and the submission of the given result. *)
Definition deviates (e : event) (f : fulfillment) (sig : string) (Y : Type) (c : rel_call Y) : bool :=
  match c with
  | Supabase _ => false
  | SubmitFulfillment e' f' sig' => negb (bool_decide (e' = e /\ f' = f /\ sig' = sig))
  | _ => true
  end.

(** A prepared result is never recomputed: once an item carries a prepared
    fulfillment, processing it calls no worker, no enclave, no signer and no
    random source, and the only transaction it may submit carries the saved
    result under the saved signature. *)
Theorem redelivery_never_recomputes : forall pe cfg X e it p en w tr,
  ri_prepared_fulfillment it = Some p -> ri_finalize_only it = false ->
  count_obs (deviates e (prepared_fulfillment_of p) (p_verification_signature p))
      (run en (processEvent pe cfg X e (Some it)) w tr).2
    = count_obs (deviates e (prepared_fulfillment_of p) (p_verification_signature p)) tr.
Proof.
  intros pe cfg X e it p en w tr Hp Hf. apply free_run.
  set (P := deviates _ _ _). assert (forall r, P _ (Supabase r) = false) as HP by done.
  unfold processEvent. apply free_bind; [done|]. intros t. apply free_bind; [auto with calls|].
  intros [|r]; [|destruct r; unfold retain_unclaimed, yield_to_other; free_tac].
  apply free_bind; [auto with calls|]. intros _.
  unfold try_process, obtain_lane, item_finalize_only, item_prepared. cbn [from_option]. rewrite Hf.
  change (Some it ≫= ri_prepared_fulfillment) with (ri_prepared_fulfillment it). rewrite Hp.
  cbn [fmap option_fmap option_map]. rewrite bind_attempt_ret.
  apply free_bind; [apply free_attempt, free_bind; [|auto with calls]|].
  - unfold run_lane, deliverPreparedFulfillment, fulfillNeoRequest, count_delivery.
    assert (free P (await (SubmitFulfillment e (prepared_fulfillment_of (buildPreparedFulfillmentRetryMeta p))
      (p_verification_signature p)) : rprog val)) as Hs.
    { apply free_await. unfold P, deviates. by rewrite bool_decide_true. }
    free_tac.
  - intros [m|o]; [|done]. apply free_on_error; [done|]. right. by eexists.
Qed.

Definition sample_prepared : prepared :=
  Prepared true "42" "" "" "/oracle/smart-fetch" "oracle.fetch" "privacy_oracle" (Some 200) VNull
    "a1b2" "host-unattested".

Definition sample_item (attempts : Z) : retry_item :=
  RetryItem (buildEventKey (sample_event "12" "0xab")) (sample_event "12" "0xab") attempts 1000 900 900
    "callback_pending" "" false "" (Some sample_prepared) true.

Example redelivery_never_recomputes_witness :
  count_obs (deviates (sample_event "12" "0xab") (prepared_fulfillment_of sample_prepared) "a1b2")
    (run (sample_env 5000 (ok_replies []))
       (processEvent sample_penv sample_config sample_externals (sample_event "12" "0xab")
          (Some (sample_item 1))) sample_world []).2 = 0%nat.
Proof.
  rewrite (redelivery_never_recomputes sample_penv sample_config sample_externals
    (sample_event "12" "0xab") (sample_item 1) sample_prepared); reflexivity.
Defined.
