(* ===== verification/Fate.v ===== *)
(** * The fate of a request

    Where a request is after [processEvent] returns: recorded, dead-lettered,
    queued, or left to the relayer that claimed it. *)
From S2P Require Import Prelude Numbers Strings Values Encoding Envelope Digest Cbor Attestation Externals State StateFacts StateSpec Config Effects Persistence World Cursor Samples Queue QueueSpec Errors Signing Upkeep Prepare Process ProcessSpec.
From Stdlib Require Import QArith.
#[local] Open Scope list_scope.
#[local] Open Scope Z_scope.

(** ** The state operations *)

Definition queue_within (lims : limits) (s : relayer_state) (c : chain) : Prop :=
  retryQueueLimit lims <= 0 \/ Z.of_nat (length (retry_queue (chain_at s c))) <= retryQueueLimit lims.

Definition queued (s : relayer_state) (c : chain) (k : string) : Prop :=
  k ∈ keys (retry_queue (chain_at s c)).

Definition dead_lettered (s : relayer_state) (c : chain) (k : string) : Prop :=
  k ∈ (dl_key <$> dead_letters (chain_at s c)).

Lemma prune_keeps_last lim cs d l :
  0 < lim -> dead_letters cs = d ++ [l] -> l ∈ dead_letters (pruneDeadLetters lim cs).
Proof.
  intros Hl Hd. rewrite (proj1 (pruneDeadLetters_spec lim cs Hl)), Hd, length_app. simpl.
  rewrite drop_app_le by lia. apply elem_of_app. right. by apply list_elem_of_singleton.
Qed.

Lemma prune_queue lim cs : retry_queue (pruneDeadLetters lim cs) = retry_queue cs.
Proof. unfold pruneDeadLetters. by case_match. Qed.

Lemma dead_limit_pos lims : 0 <= deadLetterLimit lims -> 0 < deadLetterLimit lims ||n 200.
Proof. intros. unfold or_num. case_decide; lia. Qed.

(** The queue holds at most one item too many, so a single item is shed. *)
Lemma enforce_kept now lims c s k :
  retryQueueLimit lims <= 0
    \/ Z.of_nat (length (retry_queue (chain_at s c))) <= retryQueueLimit lims + 1 ->
  0 <= deadLetterLimit lims -> queued s c k ->
  let s' := (enforceRetryQueueLimit now lims c s).2 in
  (queued s' c k \/ dead_lettered s' c k) /\ queue_within lims s' c.
Proof.
  intros Hlen Hd Hk s'. destruct (decide (retryQueueLimit lims <= 0)) as [Hle|Hle].
  { unfold s'. rewrite enforce_noop by done. split; [by left|by left]. }
  destruct Hlen as [|Hlen]; [lia|]. subst s'. unfold enforceRetryQueueLimit.
  rewrite Z.max_l by lia. rewrite (proj2 (Z.leb_gt _ _)) by lia.
  case_match eqn:E; [split; [by left|right; cbn [snd]; lia]|]. cbn [snd].
  assert (Z.to_nat (Z.of_nat (length (retry_queue (chain_at s c))) - retryQueueLimit lims) = 1%nat) as ->
    by lia.
  unfold queued, dead_lettered, queue_within in *. rewrite chain_at_incr, chain_at_set_eq, prune_queue.
  destruct (retry_queue (chain_at s c)) as [|x q] eqn:Eq; [by apply elem_of_nil in Hk|].
  simpl take. simpl drop. rewrite length_cons in Hlen. split; [|right; simpl; rewrite drop_0; lia].
  apply elem_of_cons in Hk as [->|Hk]; [right|by left].
  apply list_elem_of_fmap. exists (shed_letter now c x). split; [done|].
  by eapply prune_keeps_last; [apply dead_limit_pos|].
Qed.

Lemma put_item_length it q : (length (put_item it q) <= Datatypes.S (length q))%nat.
Proof.
  unfold put_item. case_match; [case_match; rewrite length_insert; lia|]. rewrite length_app. simpl. lia.
Qed.

Lemma put_item_key it q : ri_key it ∈ keys (put_item it q).
Proof. unfold keys. apply list_elem_of_fmap. exists it. split; [done|apply put_item_in]. Qed.

Lemma put_kept now lims c s it :
  queue_within lims s c -> 0 <= deadLetterLimit lims ->
  let s' := (enforceRetryQueueLimit now lims c
    (set_chain c (set_retry_queue (put_item it (retry_queue (chain_at s c))) (chain_at s c)) s)).2 in
  (queued s' c (ri_key it) \/ dead_lettered s' c (ri_key it)) /\ queue_within lims s' c.
Proof.
  intros Hw Hd. apply enforce_kept; [|done|].
  - destruct Hw; [by left|right]. rewrite chain_at_set_eq. simpl.
    pose proof (put_item_length it (retry_queue (chain_at s c))). lia.
  - unfold queued. rewrite chain_at_set_eq. apply put_item_key.
Qed.

Lemma enqueue_kept now c e o s :
  queue_within (o_limits o) s c -> 0 <= deadLetterLimit (o_limits o) ->
  let s' := (enqueueRetryItem now c e o s).2 in
  (queued s' c (buildEventKey e) \/ dead_lettered s' c (buildEventKey e))
  /\ queue_within (o_limits o) s' c.
Proof. intros Hw Hd. apply (put_kept now (o_limits o) c s (RetryItem _ _ _ _ _ _ _ _ _ _ _ _) Hw Hd). Qed.

Lemma schedule_kept now rng c e msg rc lims s :
  queue_within lims s c -> 0 <= deadLetterLimit lims ->
  match scheduleRetry now rng c e msg rc lims s with
  | (Scheduled _ _, s') => queued s' c (buildEventKey e) \/ dead_lettered s' c (buildEventKey e)
  | (Exhausted _ _ _, _) => True
  end.
Proof.
  intros Hw Hd. unfold scheduleRetry. destruct (_ <? _); [done|].
  exact (proj1 (put_kept now lims c s (RetryItem _ _ _ _ _ _ _ _ _ _ _ _) Hw Hd)).
Qed.

Lemma enqueue_processed now c e o s c' :
  processed_records (chain_at (enqueueRetryItem now c e o s).2 c') = processed_records (chain_at s c').
Proof.
  cbn [enqueueRetryItem snd]. rewrite (proj1 (enforce_processed _ _ _ _ _)).
  destruct (decide (c = c')) as [->|]; [by rewrite chain_at_set_eq|by rewrite chain_at_set_ne].
Qed.

(** Recorded under its key, and no longer queued. *)
Definition recorded (s : relayer_state) (c : chain) (k : string) (st : string) (tx : val) : Prop :=
  (exists r, processed_records (chain_at s c) !! k = Some r /\ pr_status r = st
             /\ m_fulfill_tx (pr_meta r) = tx)
  /\ ~ queued s c k.

Definition clear_after_record (now : Z) (e : event) (st : string) (m : meta) (lims : limits)
    (s : relayer_state) : relayer_state :=
  clearRetryItem (ev_chain e) (buildEventKey e) (recordProcessedEvent now (ev_chain e) e st m lims s).

Lemma record_recorded now e st m lims s :
  state_wf s -> 0 <= processedCacheSize lims ->
  processed_records (chain_at s (ev_chain e)) !! buildEventKey e = None ->
  recorded (clear_after_record now e st m lims s) (ev_chain e) (buildEventKey e) st (m_fulfill_tx m).
Proof.
  intros Hw Hc Hn. unfold recorded, queued, clear_after_record, clearRetryItem. rewrite chain_at_set_eq.
  split; [|apply clear_item_keys]. simpl. eexists. split; [by apply record_present|]. by split.
Qed.

Lemma record_dead now e m lims s :
  0 <= deadLetterLimit lims ->
  dead_lettered (clear_after_record now e "exhausted" m lims s) (ev_chain e) (buildEventKey e).
Proof.
  intros Hd. unfold dead_lettered, clear_after_record, clearRetryItem. rewrite chain_at_set_eq. simpl.
  unfold recordProcessedEvent. rewrite chain_at_set_eq. unfold pruneProcessedRecords.
  destruct (prune_processed _ _ _) as [o r]. simpl.
  apply list_elem_of_fmap. exists (exhausted_letter now (ev_chain e) e m). split; [done|].
  by eapply prune_keeps_last; [apply dead_limit_pos|].
Qed.

(** ** What a program leaves behind *)

(** However the environment behaves, [p] run from [w] ends in [Q]. *)
Definition ends {A} (p : rprog A) (w : world) (Q : string + A -> world -> Prop) : Prop :=
  forall en tr, let '(r, w', _) := run en p w tr in Q r w'.

Lemma ends_bind {A B} (p : rprog A) (k : A -> rprog B) w Q :
  ends p w (fun r w' => match r with inr a => ends (k a) w' Q | inl m => Q (inl m) w' end) ->
  ends (bind p k) w Q.
Proof.
  intros H en tr. rewrite run_bind. specialize (H en tr). destruct (run en p w tr) as [[[m|a] w'] tr'].
  - done.
  - apply (H en tr').
Qed.

Lemma ends_attempt {A} (p : rprog A) w Q :
  ends p w (fun r => Q (inr r)) -> ends (attempt p) w Q.
Proof. intros H en tr. rewrite run_attempt. specialize (H en tr). by destruct (run en p w tr) as [[??]?]. Qed.

Lemma ends_mono {A} (p : rprog A) w (Q Q' : string + A -> world -> Prop) :
  ends p w Q -> (forall r w', Q r w' -> Q' r w') -> ends p w Q'.
Proof. intros H HQ en tr. specialize (H en tr). destruct (run en p w tr) as [[??]?]. auto. Qed.

Lemma ends_ret {A} (a : A) w Q : Q (inr a) w -> ends (Ret a) w Q.
Proof. by intros H en tr. Qed.

Lemma ends_op {Y} (f : Z -> Q -> relayer_state -> Y * relayer_state) w Q :
  (forall now rng, Q (inr (f now rng (w_state w)).1) (World (f now rng (w_state w)).2 (w_backoff w))) ->
  ends (op f) w Q.
Proof.
  intros H en tr. unfold op. cbn [run local]. specialize (H (env_now en tr) (env_rng en tr)).
  by destruct (f _ _ (w_state w)).
Qed.

Lemma ends_update_at f w Q :
  (forall now, Q (inr tt) (World (f now (w_state w)) (w_backoff w))) -> ends (update_at f) w Q.
Proof. intros H en tr. apply H. Qed.

Lemma ends_incr n d w Q :
  Q (inr tt) (on_state (incrementMetric n d) w) -> ends (incr n d) w Q.
Proof. intros H en tr. apply H. Qed.

Lemma ends_and {A} (p : rprog A) w Q Q' :
  ends p w Q -> ends p w Q' -> ends p w (fun r w' => Q r w' /\ Q' r w').
Proof.
  intros H H' en tr. specialize (H en tr). specialize (H' en tr). by destruct (run en p w tr) as [[??]?].
Qed.

Lemma quiet_ends {A} (p : rprog A) w : quiet p -> ends p w (fun r _ => exists a, r = inr a).
Proof. intros H en tr. destruct (H en w tr) as (a & b & tr' & ->). eauto. Qed.

Definition same_chains (s s' : relayer_state) : Prop := forall c, chain_at s' c = chain_at s c.

(** [keeps p]: [p] may throw, and leaves every chain's state alone. *)
Definition keeps {A} (p : rprog A) : Prop :=
  forall w, ends p w (fun _ w' => same_chains (w_state w) (w_state w')).

Lemma keeps_stateless {A} (p : rprog A) : stateless p -> keeps p.
Proof. intros H w en tr. by destruct (H en w tr) as (o & b & tr' & ->). Qed.

Lemma keeps_bind {A B} (p : rprog A) (k : A -> rprog B) :
  keeps p -> (forall a, keeps (k a)) -> keeps (bind p k).
Proof.
  intros Hp Hk w. apply ends_bind. eapply ends_mono; [apply Hp|]. intros [m|a] w' Hw; [done|].
  eapply ends_mono; [apply Hk|]. intros r w'' Hw'' c. by rewrite Hw''.
Qed.

Lemma keeps_attempt {A} (p : rprog A) : keeps p -> keeps (attempt p).
Proof. intros H w. apply ends_attempt, H. Qed.

Lemma keeps_ret {A} (a : A) : keeps (Ret a).
Proof. by intros w en tr. Qed.

Lemma keeps_throw {A} m : keeps (Throw m : rprog A).
Proof. by intros w en tr. Qed.

Lemma keeps_incr n d : keeps (incr n d).
Proof. intros w en tr c. apply chain_at_incr. Qed.

Lemma keeps_await {Y} (c : rel_call Y) : keeps (await c).
Proof. apply keeps_stateless, stateless_await. Qed.

Lemma keeps_lift {A} (r : string + A) : keeps (lift r).
Proof. destruct r; [apply keeps_throw|apply keeps_ret]. Qed.

Lemma keeps_clock : keeps clock.
Proof. by intros w en tr. Qed.

Lemma keeps_skip : keeps skipPersistence.
Proof. by intros w en tr. Qed.

Lemma keeps_mark pe m : keeps (markUnavailable pe m).
Proof. apply keeps_stateless, quiet_stateless, quiet_mark. Qed.

Lemma keeps_supabase pe t r : keeps (supabaseRequest pe t r).
Proof. apply keeps_stateless, stateless_supabase. Qed.

Lemma keeps_maybeUpsert pe e d : keeps (maybeUpsertJob pe e d).
Proof. apply keeps_stateless, quiet_stateless, quiet_maybeUpsert. Qed.

Create HintDb keeps.
#[export] Hint Resolve keeps_ret keeps_throw keeps_incr keeps_await keeps_lift keeps_clock keeps_skip
  keeps_mark keeps_supabase keeps_maybeUpsert : keeps.

Ltac keeps_tac :=
  repeat first
    [ done
    | progress intros
    | simple apply keeps_bind | progress cbv zeta
    | simple apply keeps_attempt
    | solve [auto with keeps]
    | match goal with
      | |- keeps (if ?b then _ else _) => destruct b eqn:?
      | |- keeps (match ?x with _ => _ end) => destruct x eqn:?
      end ].

Section keeps.
Context (pe : penv) (cfg : config) (X : externals).

Lemma keeps_claim e it : keeps (claimDurableJobForProcessing pe cfg e it).
Proof.
  unfold claimDurableJobForProcessing, ensureDurableQueueAvailable, claimRelayerJob,
    isTransientDurableQueueError. keeps_tac.
Qed.

Lemma keeps_checkpoint e p n : keeps (checkpointPreparedFulfillment pe cfg e p n).
Proof.
  unfold checkpointPreparedFulfillment, upsertJobOrThrow, upsertRelayerJob, ensureDurableQueueAvailable,
    isTransientDurableQueueError. keeps_tac.
Qed.

Lemma keeps_sign e fc f : keeps (signEncodedFulfillment cfg X e fc f).
Proof. unfold signEncodedFulfillment, signFulfillmentPayload, signNeoXFulfillment. keeps_tac. Qed.
#[local] Hint Resolve keeps_sign : keeps.

Lemma keeps_encode e fc r route tier : keeps (encode_and_sign cfg X e fc r route tier).
Proof. unfold encode_and_sign, sign_encoded. keeps_tac. Qed.

Lemma keeps_enclave e fc payload : keeps (callEnclaveFulfill cfg X e fc payload).
Proof. unfold callEnclaveFulfill. keeps_tac. Qed.
#[local] Hint Resolve keeps_encode keeps_enclave : keeps.

Lemma keeps_prepare e : keeps (prepareOracleFulfillment cfg X e).
Proof.
  unfold prepareOracleFulfillment, prepare_automation_control, automation_block, prepare_operator_only,
    prepare_enclave, prepare_vrf, prepare_decrypt, prepare_worker, sign_encoded. keeps_tac.
Qed.
#[local] Hint Resolve keeps_prepare : keeps.

Lemma keeps_fulfill e f sig : keeps (fulfillNeoRequest e f sig).
Proof. unfold fulfillNeoRequest. keeps_tac. Qed.
#[local] Hint Resolve keeps_fulfill : keeps.

Lemma keeps_deliver e p : keeps (deliverPreparedFulfillment e p).
Proof. unfold deliverPreparedFulfillment. keeps_tac. Qed.

Lemma keeps_obtain e it : keeps (obtain_lane cfg X e it).
Proof. unfold obtain_lane. keeps_tac. Qed.

Lemma keeps_finalize e m : keeps (finalizeFailedRequest cfg X e m).
Proof. unfold finalizeFailedRequest. keeps_tac. Qed.

(** A failure callback is never reported as a success. *)
Lemma finalize_failed e m w :
  ends (finalizeFailedRequest cfg X e m) w (fun r w' =>
    same_chains (w_state w) (w_state w') /\ forall d, r = inr d -> dv_success d = false).
Proof.
  intros en tr. pose proof (keeps_finalize e m w en tr) as Hk.
  destruct (run en _ w tr) as [[r w'] tr'] eqn:Hr. split; [done|]. intros d ->.
  revert Hr. unfold finalizeFailedRequest. cbv zeta. rewrite !run_bind.
  destruct (run en (signEncodedFulfillment _ _ _ _ _) w tr) as [[[?|sig] w1] t1]; [done|].
  rewrite run_bind. destruct (run en (fulfillNeoRequest _ _ _) w1 t1) as [[[?|tx] w2] t2]; [done|].
  cbn [run]. by intros [= <- _ _].
Qed.
End keeps.
#[export] Hint Resolve keeps_claim keeps_checkpoint keeps_obtain keeps_deliver keeps_finalize : keeps.

(** ** The fate of an event *)

Section fate.
Context (pe : penv) (cfg : config) (X : externals) (e : event).
#[local] Abbreviation lims := (cfg_limits cfg).
#[local] Abbreviation c := (ev_chain e).
#[local] Abbreviation k := (buildEventKey e).

(** Where the event is after an outcome. *)
Definition fate (o : outcome) (s : relayer_state) : Prop :=
  match oc_result o with
  | Some r => recorded s c k (final_status r) (dv_fulfill_tx r)
  | None =>
      if (oc_status o =? "settled")%string then recorded s c k "settled" VUndef
      else if str_mem (oc_status o) ["exhausted"; "terminal"] then
        recorded s c k "exhausted" VUndef /\ dead_lettered s c k
      else if (oc_status o =? "claimed_elsewhere")%string then ~ queued s c k
      else queued s c k \/ dead_lettered s c k
  end.

(** A well-formed state whose queue is within its limit, and where the event is
    not recorded yet. *)
Definition unsettled (s : relayer_state) : Prop :=
  state_wf s /\ queue_within lims s c /\ processed_records (chain_at s c) !! k = None.

Lemma unsettled_same s s' : same_chains s s' -> unsettled s -> unsettled s'.
Proof.
  intros Hs (Hw & Hq & Hp). unfold unsettled, queue_within, state_wf in *.
  rewrite (Hs c). split_and!; [|done..]. intros c'. rewrite Hs. apply Hw.
Qed.

Lemma same_metrics m s : same_chains s (set_metrics m s).
Proof. intros c'. apply chain_at_metrics. Qed.

Context (Hcache : 0 <= processedCacheSize lims) (Hdead : 0 <= deadLetterLimit lims).

(** The shape of every final step: one synchronous change, then the state file
    and the mirror. *)
Lemma ends_final {Y} (p : rprog Y) (d : Y -> Z -> job_details) (o : Y -> outcome) w
    (Q : outcome -> relayer_state -> Prop) :
  ends p w (fun r w' => match r with inr y => Q (o y) (w_state w') | inl _ => False end) ->
  ends (bind p (fun y => bind persistState (fun _ => bind (maybeUpsertJob pe e (d y)) (fun _ => Ret (o y)))))
    w (fun r w' => exists o', r = inr o' /\ Q o' (w_state w')).
Proof.
  intros H. apply ends_bind. eapply ends_mono; [exact H|]. intros [m|y] w' Hy; [done|].
  intros en tr. cbn [persistState save bind run]. rewrite run_bind.
  destruct (quiet_maybeUpsert pe e (d y) en w' (OSave w' :: tr)) as (u & b & tr' & ->). cbn [run]. eauto.
Qed.

Lemma exhaustion_fate a route m t w :
  unsettled (w_state w) ->
  ends (recordDeliveryExhaustion pe cfg e a route m t) w
    (fun r w' => exists o, r = inr o /\ (oc_status o = "exhausted" /\ oc_result o = None) /\ fate o (w_state w')).
Proof using Hcache Hdead.
  intros Hu. unfold recordDeliveryExhaustion. cbv zeta.
  apply (ends_final _ _ _ _ (fun o s => (oc_status o = "exhausted" /\ oc_result o = None) /\ fate o s)), ends_update_at. intros now. split; [done|].
  set (s1 := incrementLabeledFailure _ _ _ _ _).
  assert (unsettled s1) as (Hw & _ & Hp).
  { by eapply unsettled_same; [apply same_metrics|eapply unsettled_same; [apply same_metrics|]]. }
  split; [by apply record_recorded|by apply record_dead].
Qed.

Lemma exhaustion_recorded a route m t w :
  unsettled (w_state w) ->
  ends (recordDeliveryExhaustion pe cfg e a route m t) w
    (fun _ w' => recorded (w_state w') c k "exhausted" VUndef /\ dead_lettered (w_state w') c k).
Proof using Hcache Hdead.
  intros Hu. eapply ends_mono; [by apply exhaustion_fate|].
  intros r w' ([st a' er res] & -> & [Hst Hr] & Ho). cbn in Hst, Hr. by subst.
Qed.

Lemma terminal_fate a l d route m me rs w :
  unsettled (w_state w) -> (l = "settled" /\ rs = "settled" \/ l = "exhausted" /\ rs = "terminal") ->
  ends (recordTerminalOutcome pe cfg e a l d route m me rs) w
    (fun r w' => exists o, r = inr o /\ fate o (w_state w')).
Proof using Hcache Hdead.
  intros Hu Hl. unfold recordTerminalOutcome. cbv zeta. apply ends_final, ends_update_at. intros now.
  set (s1 := match me with Some _ => _ | None => _ end).
  assert (unsettled s1) as (Hw & _ & Hp).
  { unfold s1. destruct me; [|done]. by eapply unsettled_same; [apply same_metrics|]. }
  destruct Hl as [[-> ->]|[-> ->]]; [by apply record_recorded|].
  split; [by apply record_recorded|by apply record_dead].
Qed.

Lemma finalized_fate a r w :
  unsettled (w_state w) -> dv_success r = false ->
  ends (recordFinalizedFailure pe cfg e a r) w (fun r' w' => exists o, r' = inr o /\ fate o (w_state w')).
Proof using Hcache.
  intros Hu Hr. unfold recordFinalizedFailure. cbv zeta. apply ends_final, ends_update_at. intros now.
  set (s1 := incrementLabeledFailure _ _ _ _ _).
  assert (unsettled s1) as (Hw & _ & Hp).
  { unfold s1. repeat (eapply unsettled_same; [apply same_metrics|]). done. }
  unfold fate. cbn [oc_result w_state]. unfold final_status. rewrite Hr.
  by apply (record_recorded now e "failed").
Qed.

Lemma delivered_fate a t r w :
  unsettled (w_state w) ->
  ends (record_delivered pe cfg e a t r) w (fun r' w' => exists o, r' = inr o /\ fate o (w_state w')).
Proof using Hcache.
  intros Hu. unfold record_delivered. cbv zeta. apply ends_final, ends_update_at. intros now.
  set (s1 := set_stamp _ _ _).
  assert (unsettled s1) as (Hw & _ & Hp).
  { unfold s1. repeat (eapply unsettled_same; [apply same_metrics|]). done. }
  by apply (record_recorded now e (final_status r)).
Qed.

Definition retry_status (st : string) : Prop :=
  forall a er s, queued s c k \/ dead_lettered s c k -> fate (Outcome st a er None) s.

Lemma callback_retry_fate n m r w :
  unsettled (w_state w) -> retry_status (cr_retryStatus r) ->
  ends (scheduleCallbackRetry pe cfg e n m r) w (fun r' w' => exists o, r' = inr o /\ fate o (w_state w')).
Proof using Hdead.
  intros (Hw & Hq & Hp) Hst. unfold scheduleCallbackRetry. apply ends_final, ends_op. intros now rng.
  pose proof (enqueue_kept now c e (callback_retry_options cfg n m r now rng) (w_state w) Hq Hdead) as [H _].
  destruct (enqueueRetryItem _ _ _ _ _) as [it s']. cbn [fst snd w_state] in *.
  apply Hst. unfold queued, dead_lettered. by rewrite !chain_at_incr.
Qed.

Lemma resolve_fate n m route t r w :
  unsettled (w_state w) -> retry_status (cr_retryStatus r) ->
  ends (resolveDeliveryRetryOrExhaust pe cfg e n m route t r) w
    (fun r' w' => exists o, r' = inr o /\ fate o (w_state w')).
Proof using Hcache Hdead.
  intros Hu Hst. unfold resolveDeliveryRetryOrExhaust. case_match; [|by apply callback_retry_fate].
  eapply ends_mono; [by apply exhaustion_fate|]. intros r' w' (o & -> & _ & Ho). eauto.
Qed.

Lemma finalize_exhausted_fate a m w :
  unsettled (w_state w) ->
  ends (finalize_exhausted pe cfg X e a m) w (fun r' w' => exists o, r' = inr o /\ fate o (w_state w')).
Proof using Hcache Hdead.
  intros Hu. unfold finalize_exhausted. apply ends_bind, ends_incr.
  assert (unsettled (w_state (on_state (incrementMetric "retries_exhausted_total" 1) w))) as Hu1
    by (by eapply unsettled_same; [apply same_metrics|]).
  apply ends_bind, ends_attempt. eapply ends_mono; [apply finalize_failed|].
  intros r w' [Hs Hf]. pose proof (unsettled_same _ _ Hs Hu1) as Hu2.
  destruct r as [m'|d]; [apply resolve_fate; [done|by intros ????]|by apply finalized_fate; [|apply Hf]].
Qed.

Lemma schedule_exhausted now rng m rc s k' a er s' :
  unsettled s -> scheduleRetry now rng c e m rc lims s = (Exhausted k' a er, s') -> unsettled s'.
Proof using.
  intros (Hw & Hq & Hp) H. pose proof (schedule_wf now rng c e m rc lims s Hw) as Hwf. revert H Hwf.
  unfold scheduleRetry. destruct (_ <? _); [|done]. intros [= _ _ _ <-] Hwf. split; [done|].
  unfold queue_within. rewrite chain_at_set_eq. split; [|done]. destruct Hq as [|Hq]; [by left|right].
  cbn [set_retry_queue retry_queue]. unfold clear_item.
  pose proof (length_filter (fun it => ri_key it <> k) (retry_queue (chain_at s c))). lia.
Qed.

Lemma retry_primary_fate a m w :
  unsettled (w_state w) ->
  ends (retry_primary pe cfg X e a m) w (fun r' w' => exists o, r' = inr o /\ fate o (w_state w')).
Proof using Hcache Hdead.
  intros Hu. unfold retry_primary. apply ends_bind. destruct (bool_decide _).
  { by apply ends_ret, finalize_exhausted_fate. }
  apply ends_op. intros now rng.
  destruct (scheduleRetry now rng c e m (cfg_retry cfg) lims (w_state w)) as [[k' a' er|k' it] s'] eqn:Hr;
    cbn [fst snd].
  - apply finalize_exhausted_fate. by eapply schedule_exhausted.
  - destruct Hu as (Hw & Hq & Hp).
    pose proof (schedule_kept now rng c e m (cfg_retry cfg) lims (w_state w) Hq Hdead) as H. rewrite Hr in H.
    apply ends_final, ends_incr. unfold fate, queued, dead_lettered in *. cbn. by rewrite !chain_at_incr.
Qed.

Lemma on_error_fate it p m w :
  unsettled (w_state w) ->
  ends (on_error pe cfg X e it p m) w (fun r' w' => exists o, r' = inr o /\ fate o (w_state w')).
Proof using Hcache Hdead.
  intros Hu. unfold on_error. cbv zeta. destruct (isAlreadyFulfilledError m).
  { apply terminal_fate; [done|by left]. }
  destruct (isTerminalConfigurationError m).
  { apply terminal_fate; [done|by right]. }
  destruct p as [p|]; [apply resolve_fate; [done|by intros ????]|].
  destruct (item_finalize_only it); [apply resolve_fate; [done|by intros ????]|by apply retry_primary_fate].
Qed.

Lemma keeps_unsettled {A} (p : rprog A) w :
  keeps p -> unsettled (w_state w) -> ends p w (fun _ w' => unsettled (w_state w')).
Proof using. intros Hk Hu. eapply ends_mono; [apply Hk|]. intros r w' Hs. by apply (unsettled_same (w_state w)). Qed.

Lemma save_prepared_unsettled it p w :
  unsettled (w_state w) -> ends (save_prepared pe cfg e it p) w (fun _ w' => unsettled (w_state w')).
Proof using Hdead.
  intros Hu. unfold save_prepared. cbv zeta. apply ends_bind.
  eapply ends_mono; [apply keeps_unsettled; [destruct (p_success p); auto with keeps|exact Hu]|].
  intros [?|u] w1 H1; [done|]. apply ends_bind, ends_op. intros now rng.
  set (o := RetryOptions _ _ _ _ _ _ _ _ _ _).
  destruct H1 as (Hw & Hq & Hp).
  pose proof (enqueue_kept now c e o (w_state w1) Hq Hdead) as [_ Hq'].
  assert (unsettled (enqueueRetryItem now c e o (w_state w1)).2) as Hu1.
  { split_and!; [by apply enqueue_wf|done|by rewrite enqueue_processed]. }
  intros en tr. cbn [bind persistState save run]. by apply keeps_unsettled; [apply keeps_checkpoint|].
Qed.

Lemma run_lane_unsettled it l w :
  unsettled (w_state w) -> ends (run_lane pe cfg X e it l) w (fun _ w' => unsettled (w_state w')).
Proof using Hdead.
  intros Hu. destruct l as [|p|p]; unfold run_lane, count_delivery.
  - apply keeps_unsettled; [|done]. keeps_tac.
  - apply keeps_unsettled; [|done]. keeps_tac.
  - apply ends_bind. eapply ends_mono; [by apply save_prepared_unsettled|].
    intros [m|u] w' Hw'; [done|]. apply keeps_unsettled; [|done]. keeps_tac.
Qed.

Lemma try_fate it t w :
  unsettled (w_state w) ->
  ends (try_process pe cfg X e it t) w (fun r' w' => exists o, r' = inr o /\ fate o (w_state w')).
Proof using Hcache Hdead.
  intros Hu. unfold try_process. apply ends_bind, ends_attempt.
  eapply ends_mono; [apply keeps_unsettled; [apply keeps_obtain|exact Hu]|].
  intros [m|l] w1 H1; [by apply on_error_fate|]. apply ends_bind, ends_attempt, ends_bind.
  eapply ends_mono; [by apply run_lane_unsettled|].
  intros [m|r] w2 H2; [by apply on_error_fate|].
  eapply ends_mono; [by apply delivered_fate|]. intros r' w3 (o & -> & Ho). by apply ends_ret; eauto.
Qed.

Lemma retain_fate it r w :
  unsettled (w_state w) -> r <> Conflict -> (is_Some it -> queued (w_state w) c k) ->
  ends (retain_unclaimed cfg e it r) w (fun r' w' => exists o, r' = inr o /\ fate o (w_state w')).
Proof using Hdead.
  intros (Hw & Hq & Hp) Hr Hit. unfold retain_unclaimed. destruct it as [it|].
  - apply ends_ret. eexists. split; [done|]. destruct r; try done; left; apply Hit; by eexists.
  - apply ends_bind, ends_op. intros now rng. intros en tr. cbn [bind persistState save run].
    eexists. split; [done|].
    destruct (enqueue_kept now c e (RetryOptions (item_attempts None)
      (now + retry_delay cfg (item_attempts None + 1) rng) None
      ("durable_claim_" +:+ reason_text r) "" false "" None false lims) (w_state w) Hq Hdead) as [H _].
    destruct r; done.
Qed.
End fate.

(** C1.  No request is lost.  Take any event that is not recorded yet, fresh or
    from the retry queue, and let the store, the worker, the enclave and the
    chain answer anything.  [processEvent] throws only before it changes any
    chain's state (the claim failed); otherwise its outcome tells where the
    request is: recorded with the transaction that settled it, recorded as
    settled, recorded and dead-lettered, left to the relayer that claimed it,
    or still in the retry queue (or among the dead letters, when the queue's
    ceiling shed it). *)
Theorem processEvent_loses_no_request : forall pe cfg X e it en w tr,
  0 <= processedCacheSize (cfg_limits cfg) -> 0 <= deadLetterLimit (cfg_limits cfg) ->
  unsettled cfg e (w_state w) ->
  (is_Some it -> queued (w_state w) (ev_chain e) (buildEventKey e)) ->
  let '(r, w', _) := run en (processEvent pe cfg X e it) w tr in
  match r with
  | inl _ => same_chains (w_state w) (w_state w')
  | inr o => fate e o (w_state w')
  end.
Proof.
  intros pe cfg X e it en w tr Hc Hd Hu Hit. revert en tr.
  change (ends (processEvent pe cfg X e it) w (fun r w' =>
    match r with inl _ => same_chains (w_state w) (w_state w') | inr o => fate e o (w_state w') end)).
  unfold processEvent. apply ends_bind. intros en0 tr0. cbn [clock local run].
  generalize (env_now en0 tr0). clear en0 tr0. intros startedAt.
  apply ends_bind. eapply ends_mono; [apply keeps_claim|]. intros [m|claim] w1 Hs; [done|].
  pose proof (unsettled_same cfg e _ _ Hs Hu) as Hu1.
  assert (is_Some it -> queued (w_state w1) (ev_chain e) (buildEventKey e)) as Hit1.
  { unfold queued. by rewrite (Hs (ev_chain e)). }
  assert (forall (p : rprog outcome), ends p w1 (fun r' w' => exists o, r' = inr o /\ fate e o (w_state w')) ->
    ends p w1 (fun r w' => match r with inl _ => same_chains (w_state w) (w_state w')
                           | inr o => fate e o (w_state w') end)) as Hlift.
  { intros p Hp. eapply ends_mono; [exact Hp|]. by intros r w' (o & -> & Ho). }
  apply Hlift. clear Hlift.
  destruct claim as [|r].
  - apply ends_bind. eapply ends_mono.
    { apply ends_and; [apply (keeps_unsettled cfg e); [apply keeps_maybeUpsert|exact Hu1]|].
      apply quiet_ends, quiet_maybeUpsert. }
    intros r w2 [H2 [u ->]]. by apply try_fate.
  - destruct r; [apply retain_fate; try done; by eauto..|].
    unfold yield_to_other. apply ends_bind. intros en0 tr0. eexists. split; [reflexivity|].
    change (~ queued (clearRetryItem (ev_chain e) (buildEventKey e)
      (incrementMetric "claim_conflicts_total" 1 (w_state w1))) (ev_chain e) (buildEventKey e)).
    unfold queued, clearRetryItem. rewrite chain_at_set_eq. apply clear_item_keys.
Qed.

Example processEvent_loses_no_request_witness :
  let '(r, w', _) := run (sample_env 5000 (ok_replies []))
    (processEvent sample_penv sample_config sample_externals (sample_event "12" "0xab") None)
    sample_world [] in
  match r with
  | inl _ => same_chains (w_state sample_world) (w_state w')
  | inr o => fate (sample_event "12" "0xab") o (w_state w')
  end.
Proof.
  apply (processEvent_loses_no_request sample_penv sample_config sample_externals
    (sample_event "12" "0xab") None (sample_env 5000 (ok_replies [])) sample_world []).
  - done.
  - done.
  - split_and!; [apply empty_wf|by left|reflexivity].
  - by intros [? ?].
Defined.
