(* ===== verification/DeliverySpec.v ===== *)
(** * Specification of callback delivery

    A prepared result is in the state file before it is submitted, and a
    callback that keeps failing is dead-lettered after exactly the configured
    number of attempts. *)
From S2P Require Import Prelude Numbers Strings Values Encoding Envelope Digest Cbor Attestation Externals State StateFacts StateSpec Config Effects Persistence World Cursor Samples Queue QueueSpec Errors Signing Upkeep Prepare PrepareSpec Process ProcessSpec Fate.
From Stdlib Require Import QArith.
#[local] Open Scope list_scope.
#[local] Open Scope Z_scope.

(** ** The callback ceiling *)

(** The retry item of an event. *)
Definition find_item (e : event) (s : relayer_state) : option retry_item :=
  snd <$> list_find (fun it => ri_key it = buildEventKey e) (retry_queue (chain_at s (ev_chain e))).

(** Process the queued item of an event [n] times. *)
Fixpoint redeliver (en : env world rel_call) (pe : penv) (cfg : config) (X : externals) (e : event)
    (n : nat) (w : world) (tr : list (obs world rel_call)) : world :=
  match n, find_item e (w_state w) with
  | O, _ | _, None => w
  | S n, Some it =>
      let '(_, w', tr') := run en (processEvent pe cfg X e (Some it)) w tr in
      redeliver en pe cfg X e n w' tr'
  end.

(** The error a failed submission is reported with. *)
Definition delivery_error (e : event) (m : string) : string :=
  match ev_chain e with
  | neox => m
  | neo_n3 =>
      if includes (toLowerCase m) "request not found"
      then m +:+ " [chain=" +:+ chain_name (ev_chain e) +:+ " request_id=" +:+ ev_requestId e +:+ "]"
      else m
  end.

Lemma find_item_put e it s :
  ri_key it = buildEventKey e ->
  find_item e (set_chain (ev_chain e)
    (set_retry_queue (put_item it (retry_queue (chain_at s (ev_chain e)))) (chain_at s (ev_chain e))) s)
  = Some it.
Proof. intros Hk. unfold find_item. rewrite <-Hk, chain_at_set_eq. apply find_put. Qed.

Lemma find_item_queued e s it : find_item e s = Some it -> queued s (ev_chain e) (buildEventKey e).
Proof.
  unfold find_item, queued, keys. destruct (list_find _ _) as [[i x]|] eqn:E; [|done]. intros [= <-].
  apply list_find_Some in E as (Hl & Hk & _). apply list_elem_of_fmap. exists x. split; [done|].
  by eapply list_elem_of_lookup_2.
Qed.

Lemma not_queued_find e s : ~ queued s (ev_chain e) (buildEventKey e) -> find_item e s = None.
Proof. intros H. destruct (find_item e s) eqn:E; [|done]. by apply find_item_queued in E. Qed.

Lemma retry_meta_idem p :
  buildPreparedFulfillmentRetryMeta (buildPreparedFulfillmentRetryMeta p) = buildPreparedFulfillmentRetryMeta p.
Proof.
  destruct p as [? ? ? ? ? ? ? ? wr ? tier]. unfold buildPreparedFulfillmentRetryMeta. simpl. f_equal.
  - destruct (is_object wr) eqn:E; [by rewrite E|done].
  - destruct tier; [done|done].
Qed.

Section ceiling.
Context (pe : penv) (cfg : config) (X : externals) (e : event) (en : env world rel_call) (m : string).
#[local] Abbreviation lims := (cfg_limits cfg).
Context (Hoff : dq_enabled (cfg_durable cfg) = false).
Context (Hlim : retryQueueLimit lims <= 0) (Hcache : 0 <= processedCacheSize lims)
        (Hdead : 0 <= deadLetterLimit lims).
Context (Hfail : forall tr f sig, env_reply en _ tr (SubmitFulfillment e f sig) = inl m).
Context (Hopen : isAlreadyFulfilledError (delivery_error e m) = false)
        (Hconf : isTerminalConfigurationError (delivery_error e m) = false)
        (Hclass : classifyError (delivery_error e m) <> Permanent).

Lemma failed_submission f sig w tr :
  exists tr', run en (fulfillNeoRequest e f sig) w tr = (inl (delivery_error e m), w, tr').
Proof using Hfail.
  unfold fulfillNeoRequest. rewrite run_bind, run_attempt, run_await, Hfail.
  unfold delivery_error. eexists. destruct (ev_chain e); [|done].
  by destruct (includes (toLowerCase m) _).
Qed.

(** A round ends in the error handler, with the prepared result at hand. *)
Lemma failing_round it p w tr :
  ri_prepared_fulfillment it = Some p -> ri_finalize_only it = false ->
  exists b tr', run en (processEvent pe cfg X e (Some it)) w tr =
    run en (resolveDeliveryRetryOrExhaust pe cfg e (ri_attempts it + 1) (delivery_error e m)
      (p_route p ||s "callback-delivery") ""
      (delivery_retry e (Some (ri_first_failed_at it)) (buildPreparedFulfillmentRetryMeta p)))
      (World (w_state w) b) tr'.
Proof using Hoff Hfail Hopen Hconf.
  intros Hp Hf. unfold processEvent. rewrite run_bind. cbn [clock local run].
  generalize (env_now en tr). intros t. rewrite run_bind. unfold claimDurableJobForProcessing.
  rewrite Hoff. cbn [negb run]. rewrite run_bind.
  set (d := fun _ : Z => _).
  destruct (quiet_maybeUpsert pe e d en w tr) as (u & b & tr1 & ->).
  unfold try_process, obtain_lane, item_finalize_only, item_prepared. cbn [from_option]. rewrite Hf.
  change (Some it ≫= ri_prepared_fulfillment) with (ri_prepared_fulfillment it). rewrite Hp.
  cbn [fmap option_fmap option_map]. rewrite bind_attempt_ret, run_bind, run_attempt, run_bind.
  unfold run_lane, deliverPreparedFulfillment. rewrite !run_bind.
  destruct (failed_submission (prepared_fulfillment_of (buildPreparedFulfillmentRetryMeta p))
    (p_verification_signature (buildPreparedFulfillmentRetryMeta p)) (World (w_state w) b) tr1) as [tr2 ->].
  exists b, tr2. unfold on_error. rewrite Hopen, Hconf. done.
Qed.

(** Within the ceiling, the item is back in the queue with one attempt more. *)
Lemma retried_round it p w tr :
  unsettled cfg e (w_state w) -> ri_prepared_fulfillment it = Some p -> ri_finalize_only it = false ->
  over_ceiling cfg (ri_attempts it + 1) = false ->
  let '(_, w', _) := run en (processEvent pe cfg X e (Some it)) w tr in
  unsettled cfg e (w_state w') /\
  exists it', find_item e (w_state w') = Some it' /\ ri_attempts it' = ri_attempts it + 1 /\
    ri_prepared_fulfillment it' = Some (buildPreparedFulfillmentRetryMeta p) /\
    ri_finalize_only it' = false.
Proof using Hoff Hlim Hfail Hopen Hconf Hclass.
  intros (Hw & Hq & Hpr) Hp Hf Hover. destruct (failing_round it p w tr Hp Hf) as (b & tr' & ->).
  unfold resolveDeliveryRetryOrExhaust, delivery_dead. rewrite bool_decide_false, Hover by done.
  cbn [orb]. unfold scheduleCallbackRetry. rewrite run_bind. cbn [op local run w_state].
  generalize (env_now en tr') (env_rng en tr'). intros now rng.
  set (o := callback_retry_options _ _ _ _ _ _).
  pose proof (enqueue_wf now (ev_chain e) e o (w_state w) Hw) as Hw'.
  pose proof (enqueue_processed now (ev_chain e) e o (w_state w) (ev_chain e)) as Hpr'.
  assert (find_item e (enqueueRetryItem now (ev_chain e) e o (w_state w)).2
    = Some (enqueueRetryItem now (ev_chain e) e o (w_state w)).1) as Hfind.
  { unfold enqueueRetryItem. cbn [fst snd]. rewrite enforce_noop by done. by apply find_item_put. }
  assert (exists itn s', enqueueRetryItem now (ev_chain e) e o (w_state w) = (itn, s')
    /\ ri_attempts itn = ri_attempts it + 1
    /\ ri_prepared_fulfillment itn = Some (buildPreparedFulfillmentRetryMeta p)
    /\ ri_finalize_only itn = false) as (itn & s' & Henq & Ha & Hpi & Hfi).
  { destruct (enqueueRetryItem _ _ _ _ _) as [itn s'] eqn:E. exists itn, s'.
    unfold enqueueRetryItem in E. injection E as <- _. split_and!; [done..| |done].
    cbn. by rewrite retry_meta_idem. }
  rewrite Henq in *. cbn [fst snd] in *. cbn [persistState save bind run]. rewrite run_bind.
  match goal with |- context [run en (maybeUpsertJob pe e ?d) ?w1 ?t1] =>
    destruct (quiet_maybeUpsert pe e d en w1 t1) as (u & b2 & tr2 & ->) end.
  cbn [run w_state]. split.
  - eapply unsettled_same; [apply same_metrics|]. split_and!; [done|by left|by rewrite Hpr'].
  - exists itn. split_and!; [|done..]. unfold find_item in *. by rewrite chain_at_incr.
Qed.

(** Beyond it, the event is dead-lettered and no longer queued. *)
Lemma exhausted_round it p w tr :
  unsettled cfg e (w_state w) -> ri_prepared_fulfillment it = Some p -> ri_finalize_only it = false ->
  over_ceiling cfg (ri_attempts it + 1) = true ->
  let '(_, w', _) := run en (processEvent pe cfg X e (Some it)) w tr in
  dead_lettered (w_state w') (ev_chain e) (buildEventKey e) /\
  ~ queued (w_state w') (ev_chain e) (buildEventKey e).
Proof using Hoff Hcache Hdead Hfail Hopen Hconf.
  intros Hu Hp Hf Hover. destruct (failing_round it p w tr Hp Hf) as (b & tr' & ->).
  unfold resolveDeliveryRetryOrExhaust, delivery_dead. rewrite Hover, orb_true_r.
  pose proof (exhaustion_recorded pe cfg e Hcache Hdead (ri_attempts it + 1)
    (p_route p ||s "callback-delivery") (delivery_error e m) "" (World (w_state w) b) Hu en tr') as H.
  destruct (run en _ _ tr') as [[r w'] tr'']. destruct H as [[_ Hq] Hd]. by split.
Qed.

Context (C : Z) (HC : resolveCallbackRetryCeiling cfg = Fin C).

Lemma over_ceiling_spec n : over_ceiling cfg n = (C <? n).
Proof using HC. unfold over_ceiling. by rewrite HC. Qed.

Definition same_payload (p p' : prepared) : Prop :=
  prepared_fulfillment_of p' = prepared_fulfillment_of p
  /\ p_verification_signature p' = p_verification_signature p.

Lemma redeliver_none n w tr : find_item e (w_state w) = None -> redeliver en pe cfg X e n w tr = w.
Proof using. destruct n; [done|]. cbn [redeliver]. by intros ->. Qed.

Lemma redeliver_spec n : forall w tr it p,
  unsettled cfg e (w_state w) -> find_item e (w_state w) = Some it ->
  ri_prepared_fulfillment it = Some p -> ri_finalize_only it = false -> ri_attempts it <= C ->
  let s' := w_state (redeliver en pe cfg X e n w tr) in
  if ri_attempts it + Z.of_nat n <=? C then
    exists it' p', find_item e s' = Some it' /\ ri_attempts it' = ri_attempts it + Z.of_nat n /\
      ri_prepared_fulfillment it' = Some p' /\ same_payload p p'
  else dead_lettered s' (ev_chain e) (buildEventKey e) /\ find_item e s' = None.
Proof using All.
  induction n as [|n IH]; intros w tr it p Hu Hfind Hp Hf Ha.
  { cbn [redeliver]. rewrite (proj2 (Z.leb_le _ _)) by lia. exists it, p. by rewrite Z.add_0_r. }
  cbn [redeliver]. rewrite Hfind. destruct (Z.ltb C (ri_attempts it + 1)) eqn:Hover.
  - pose proof (exhausted_round it p w tr Hu Hp Hf ltac:(by rewrite over_ceiling_spec)) as H.
    destruct (run _ _ _ _) as [[r w'] tr']. destruct H as [Hd Hq]. apply not_queued_find in Hq.
    rewrite redeliver_none by done. rewrite (proj2 (Z.leb_gt _ _)) by lia. done.
  - pose proof (retried_round it p w tr Hu Hp Hf ltac:(by rewrite over_ceiling_spec)) as H.
    destruct (run _ _ _ _) as [[r w'] tr']. destruct H as (Hu' & it' & Hfind' & Ha' & Hp' & Hf').
    specialize (IH w' tr' it' _ Hu' Hfind' Hp' Hf' ltac:(lia)). cbv zeta in IH.
    replace (ri_attempts it' + Z.of_nat n) with (ri_attempts it + Z.of_nat (Datatypes.S n)) in IH by lia.
    exact IH.
Qed.
End ceiling.

(** C11.  The callback ceiling is exact.  A prepared callback whose submission
    keeps failing with an error that is neither settled, nor a configuration
    error, nor permanent, is redelivered with the same payload and signature,
    one attempt more each time, as long as the ceiling allows; on the attempt
    after that it becomes a dead letter and is never retried again. *)
Theorem callback_ceiling_exact : forall pe cfg X e en m C n w tr it p,
  dq_enabled (cfg_durable cfg) = false -> retryQueueLimit (cfg_limits cfg) <= 0 ->
  0 <= processedCacheSize (cfg_limits cfg) -> 0 <= deadLetterLimit (cfg_limits cfg) ->
  (forall tr f sig, env_reply en _ tr (SubmitFulfillment e f sig) = inl m) ->
  isAlreadyFulfilledError (delivery_error e m) = false ->
  isTerminalConfigurationError (delivery_error e m) = false ->
  classifyError (delivery_error e m) <> Permanent ->
  resolveCallbackRetryCeiling cfg = Fin C ->
  unsettled cfg e (w_state w) -> find_item e (w_state w) = Some it ->
  ri_prepared_fulfillment it = Some p -> ri_finalize_only it = false -> ri_attempts it <= C ->
  let s' := w_state (redeliver en pe cfg X e n w tr) in
  if ri_attempts it + Z.of_nat n <=? C then
    exists it' p', find_item e s' = Some it' /\ ri_attempts it' = ri_attempts it + Z.of_nat n /\
      ri_prepared_fulfillment it' = Some p' /\ same_payload p p'
  else dead_lettered s' (ev_chain e) (buildEventKey e) /\ find_item e s' = None.
Proof. intros. by apply (redeliver_spec pe cfg X e en m). Qed.

(** [{ ...config, durableQueue: { enabled: false } }] *)
Definition without_durable (cfg : config) : config :=
  Config (cfg_network cfg) (cfg_mode cfg) (cfg_instanceId cfg) (cfg_activeChains cfg)
    (cfg_concurrency cfg) (cfg_maxBlocksPerTick cfg) (cfg_retry cfg) (cfg_limits cfg)
    (cfg_maxCallbackRetries cfg)
    (DurableConfig false false false (dq_syncLimit (cfg_durable cfg)) (dq_staleProcessingMs (cfg_durable cfg)))
    (cfg_backpressure cfg) (cfg_startRequestIds cfg)
    (cfg_startBlocks cfg) (cfg_confirmations cfg) (cfg_discoveryIdleBackoffMs cfg)
    (cfg_nitro cfg) (cfg_oracleContract cfg) (cfg_networkMagic cfg) (cfg_neox_chainId cfg)
    (cfg_neox_oracleContract cfg) (cfg_neox_messageContract cfg).

Definition sample_failing : env world rel_call :=
  sample_env 5000 (Replies (inl "offline") (inl "offline") (inl "socket hang up") 120 []).

Definition sample_pending : world :=
  World (set_chain neo_n3 (set_retry_queue [sample_item 0] defaultChainState) createEmptyRelayerState)
    initial_backoff.

Example callback_ceiling_exact_witness :
  let e := sample_event "12" "0xab" in
  dead_lettered (w_state (redeliver sample_failing sample_penv (without_durable sample_config)
    sample_externals e 3 sample_pending [])) neo_n3 (buildEventKey e).
Proof.
  apply (callback_ceiling_exact sample_penv (without_durable sample_config) sample_externals
    (sample_event "12" "0xab") sample_failing "socket hang up" 2 3 sample_pending []
    (sample_item 0) sample_prepared); try done.
  split_and!; [|by left|done]. intros [|]; [|apply (empty_wf neox)].
  apply (chain_wf_queue [sample_item 0]); [apply (empty_wf neo_n3)|by apply NoDup_singleton|].
  by apply Forall_singleton.
Defined.

(** ** Saved before it is submitted *)

(** A call that submits a successful result; failure callbacks carry none. *)
Definition is_success (Y : Type) (c : rel_call Y) : bool :=
  match c with SubmitFulfillment _ f _ => ff_success f | _ => false end.

(** Some state handed to the state-file writer holds the result, with its
    signature, in the retry queue of the event's chain. *)
Definition saved_in (e : event) (f : fulfillment) (sig : string) (tr : list (obs world rel_call)) : Prop :=
  exists w, OSave w ∈ tr /\
    exists it p, it ∈ retry_queue (chain_at (w_state w) (ev_chain e)) /\ ri_key it = buildEventKey e /\
      ri_prepared_fulfillment it = Some p /\ prepared_fulfillment_of p = f /\
      p_verification_signature p = sig.

Definition submission_saved (o : obs world rel_call) (tr : list (obs world rel_call)) : Prop :=
  match o with
  | @OCall _ _ Y c _ => match c with
      | SubmitFulfillment e f sig => ff_success f = true -> saved_in e f sig tr
      | _ => True
      end
  | OSave _ => True
  end.

(** Every successful submission of a trace (newest first) was saved before. *)
Fixpoint saved_first (tr : list (obs world rel_call)) : Prop :=
  match tr with
  | [] => True
  | o :: tr => submission_saved o tr /\ saved_first tr
  end.

Lemma calls_mono {A} (P P' : forall Y, rel_call Y -> bool) (p : rprog A) :
  (forall Y c, P' Y c = true -> P Y c = true) -> free P p -> free P' p.
Proof.
  intros HP. induction p as [a|m|Y f k IH|Y c k IH|p IH]; intros Hp; simpl in *; auto.
  destruct (P' Y c) eqn:E; [rewrite (HP _ _ E) in Hp; done|]. destruct (P Y c); [done|auto].
Qed.

Lemma success_submit Y c : is_success Y c = true -> is_submit Y c = true.
Proof. by destruct c. Qed.

Lemma free_saved {A} en (p : rprog A) w tr :
  free is_success p -> saved_first tr -> saved_first (run en p w tr).2.
Proof.
  revert w tr. induction p as [a|m|Y f k IH|Y c k IH|p IH]; intros w tr Hp Htr; simpl in *; auto.
  - destruct (f _ _ w) as [x w']. by apply IH.
  - destruct (is_success Y c) eqn:E; [done|]. apply IH; [done|]. split; [|done].
    destruct c; try done. simpl in *. congruence.
  - apply IH; [done|]. by split.
Qed.

Section saved.
Context (pe : penv) (cfg : config) (X : externals) (e : event).
#[local] Abbreviation quiet_success p := (free is_success p).

Lemma success_failed_callback m : quiet_success (finalizeFailedRequest cfg X e m).
Proof.
  unfold finalizeFailedRequest. cbv zeta. apply free_bind.
  - eapply calls_mono; [apply success_submit|apply no_submit_sign].
  - intros sig. unfold fulfillNeoRequest. free_tac.
Qed.
#[local] Hint Resolve success_failed_callback : calls.

Lemma success_store r : is_success _ (Supabase r) = false.
Proof. done. Qed.
#[local] Hint Resolve success_store : calls.

Lemma success_on_error it p m : quiet_success (on_error pe cfg X e it p m).
Proof.
  unfold on_error. cbv zeta. repeat (case_match; [solve [auto with calls]|]).
  unfold retry_primary, finalize_exhausted. free_tac.
Qed.

Lemma success_prepare : quiet_success (prepareOracleFulfillment cfg X e).
Proof. eapply calls_mono; [apply success_submit|apply no_submit_prepare]. Qed.

(** An item that has just been enqueued is not the one that is shed. *)
Lemma enqueue_stays now o s :
  queue_within (o_limits o) s (ev_chain e) ->
  (enqueueRetryItem now (ev_chain e) e o s).1
    ∈ retry_queue (chain_at (enqueueRetryItem now (ev_chain e) e o s).2 (ev_chain e)).
Proof.
  intros Hq. unfold enqueueRetryItem. cbn [fst snd]. set (it := RetryItem _ _ _ _ _ _ _ _ _ _ _ _).
  destruct (decide (retryQueueLimit (o_limits o) <= 0)) as [Hle|Hle].
  { rewrite enforce_noop by done. rewrite chain_at_set_eq. apply put_item_in. }
  destruct Hq as [|Hq]; [lia|]. unfold enforceRetryQueueLimit. rewrite Z.max_l by lia.
  rewrite (proj2 (Z.leb_gt _ _)) by lia. rewrite chain_at_set_eq. cbn [set_retry_queue retry_queue].
  case_match eqn:E; cbn [snd]; [rewrite chain_at_set_eq; apply put_item_in|].
  rewrite chain_at_incr, chain_at_set_eq, prune_queue. cbn [set_dead_letters set_retry_queue retry_queue].
  revert E. unfold put_item. destruct (list_find _ _) as [[i x]|]; [rewrite length_insert; lia|].
  rewrite length_app. intros E. rewrite drop_app_le by (simpl in *; lia).
  apply elem_of_app. right. by apply list_elem_of_singleton.
Qed.

Lemma save_prepared_saves en it p w tr :
  queue_within (cfg_limits cfg) (w_state w) (ev_chain e) -> saved_first tr ->
  let tr' := (run en (save_prepared pe cfg e it p) w tr).2 in
  saved_first tr' /\ saved_in e (prepared_fulfillment_of p) (p_verification_signature p) tr'.
Proof.
  intros Hq Htr tr'. split; [apply free_saved; [apply free_save_prepared, success_store|done]|].
  unfold tr', save_prepared. cbv zeta. clear tr'. rewrite run_bind.
  assert (exists w1, run en (if p_success p then Ret tt else incr "worker_failures_total" 1) w tr
    = (inr tt, w1, tr) /\ queue_within (cfg_limits cfg) (w_state w1) (ev_chain e)) as (w1 & -> & Hq1).
  { destruct (p_success p); eexists; (split; [reflexivity|exact Hq]). }
  rewrite run_bind. cbn [op local run]. set (o := RetryOptions _ _ _ _ _ _ _ _ _ _).
  pose proof (enqueue_stays (env_now en tr) o (w_state w1) Hq1) as Hin.
  destruct (enqueueRetryItem _ _ _ o (w_state w1)) as [itn s'] eqn:Henq. cbn [fst snd] in Hin.
  cbn [bind persistState save run].
  set (w2 := World s' (w_backoff w1)).
  destruct (run_extends en (checkpointPreparedFulfillment pe cfg e p (item_attempts it)) w2 (OSave w2 :: tr))
    as [t ->].
  exists w2. split; [apply elem_of_app; right; by apply elem_of_cons; left|].
  exists itn, (buildPreparedFulfillmentRetryMeta p). split; [done|].
  unfold enqueueRetryItem in Henq. injection Henq as <- _. by split_and!.
Qed.

Lemma run_lane_saved en it l w tr :
  (match l with Redeliver _ => False | _ => True end) ->
  queue_within (cfg_limits cfg) (w_state w) (ev_chain e) -> saved_first tr ->
  saved_first (run en (run_lane pe cfg X e it l) w tr).2.
Proof.
  intros Hl Hq Htr. destruct l as [|p|p]; [|done|]; unfold run_lane.
  { apply free_saved; [|done]. free_tac. }
  rewrite run_bind. pose proof (save_prepared_saves en it p w tr Hq Htr) as [Hs Hsv].
  destruct (run en (save_prepared _ _ _ _ _) w tr) as [[[m|u] w1] tr1]; [done|]. cbn [snd] in *.
  unfold deliverPreparedFulfillment, fulfillNeoRequest. rewrite !run_bind, run_attempt, run_await.
  set (r := env_reply en _ tr1 _).
  assert (saved_first (OCall (SubmitFulfillment e (prepared_fulfillment_of p) (p_verification_signature p)) r
    :: tr1)) as H2 by (split; [intros _; exact Hsv|exact Hs]).
  destruct r as [m|tx]; [|done]. destruct (ev_chain e); [|done]. by destruct (includes _ _).
Qed.

Lemma free_step {A B} en (p : rprog A) (k : A -> rprog B) w tr :
  quiet_success p -> keeps p ->
  queue_within (cfg_limits cfg) (w_state w) (ev_chain e) -> saved_first tr ->
  (forall a w' tr', queue_within (cfg_limits cfg) (w_state w') (ev_chain e) -> saved_first tr' ->
     run en p w tr = (inr a, w', tr') -> saved_first (run en (k a) w' tr').2) ->
  saved_first (run en (bind p k) w tr).2.
Proof.
  intros Hp Hk Hq Htr H. rewrite run_bind. pose proof (free_saved en p w tr Hp Htr) as Hs.
  pose proof (Hk w en tr) as Hc. destruct (run en p w tr) as [[[m|a] w'] tr']; [done|].
  apply H; try done. unfold queue_within. by rewrite (Hc (ev_chain e)).
Qed.
End saved.

(** C2.  Crash safety: a computed result is durable before it is submitted.  Take
    any event without a prepared result, and a retry queue within its ceiling.
    Whatever the environment answers, each successful result that processing
    the event submits was, before the submission, in the retry queue of a state
    handed to the state-file writer, together with its signature. *)
Theorem result_saved_before_submission : forall pe cfg X e it en w,
  item_prepared it = None ->
  queue_within (cfg_limits cfg) (w_state w) (ev_chain e) ->
  saved_first (run en (processEvent pe cfg X e it) w []).2.
Proof.
  intros pe cfg X e it en w Hit Hq. assert (saved_first []) as Htr by done.
  revert Htr. generalize (@nil (obs world rel_call)) as tr. intros tr Htr. unfold processEvent.
  apply (free_step cfg e); [done|apply keeps_clock|done|done|]. intros t w1 tr1 Hq1 Htr1 _.
  apply (free_step cfg e); [apply free_claim; done|apply keeps_claim|done|done|].
  intros claim w2 tr2 Hq2 Htr2 _.
  destruct claim as [|[| |]];
    [|apply free_saved; [unfold retain_unclaimed, yield_to_other; free_tac|done]..].
  apply (free_step cfg e); [by apply free_maybeUpsert|apply keeps_maybeUpsert|done|done|].
  intros u w3 tr3 Hq3 Htr3 _. unfold try_process.
  apply (free_step cfg e); [|apply keeps_attempt, keeps_obtain|done|done|].
  { apply free_attempt. unfold obtain_lane. rewrite Hit.
    destruct (item_finalize_only it); [done|]. apply free_bind; [done|]. intros _.
    apply free_bind; [apply success_prepare|done]. }
  intros obtained w4 tr4 Hq4 Htr4 Hrun.
  destruct obtained as [m|l]; [apply free_saved; [apply success_on_error|done]|].
  rewrite run_bind, run_attempt, run_bind.
  assert (match l with Redeliver _ => False | _ => True end) as Hl.
  { revert Hrun. rewrite run_attempt. unfold obtain_lane. rewrite Hit.
    destruct (item_finalize_only it); [cbn [run]; by intros [= <- _ _]|].
    rewrite run_bind. cbn [incr update modify run]. rewrite run_bind.
    destruct (run en (prepareOracleFulfillment _ _ _) _ _) as [[[?|p] ?] ?]; [done|].
    cbn [run]. by intros [= <- _ _]. }
  pose proof (run_lane_saved pe cfg X e en it l w4 tr4 Hl Hq4 Htr4) as Hs.
  destruct (run en (run_lane pe cfg X e it l) w4 tr4) as [[[m|r] w5] tr5]; cbn [snd] in Hs.
  { apply free_saved; [apply success_on_error|done]. }
  pose proof (free_saved en (record_delivered pe cfg e (item_attempts it) t r) w5 tr5) as H6.
  destruct (run en (record_delivered _ _ _ _ _ _) w5 tr5) as [[[m|o] w6] tr6]; cbn [snd] in H6.
  - apply free_saved; [apply success_on_error|]. apply H6; [by apply free_delivered|done].
  - apply H6; [by apply free_delivered|done].
Qed.

Example result_saved_before_submission_witness :
  saved_first (run (sample_env 5000 (ok_replies []))
    (processEvent sample_penv sample_config sample_externals (sample_event "12" "0xab") None)
    sample_world []).2.
Proof.
  apply (result_saved_before_submission sample_penv sample_config sample_externals
    (sample_event "12" "0xab") None (sample_env 5000 (ok_replies [])) sample_world); [done|by left].
Defined.
