(* ===== verification/Processor.v ===== *)
(** * The processing of a chain ([request-processor.js])

    One tick of a chain: manual actions, durable backlog, discovery behind the
    chain's cursor, the due retries, and the reconciliation of missed requests.

    [mapWithConcurrency] appears here as the schedule of a single worker, which
    takes the items in order and stops at the first that throws; [Concurrency]
    proves the pool for every width and interleaving, and [ProcessSpec] the
    safety of the interleaved processing. *)
From S2P Require Import Prelude Numbers Strings Values Encoding Envelope Digest Cbor Attestation Externals State StateFacts Config Effects Persistence World Cursor Queue Errors Signing Upkeep Prepare Process.
From Stdlib Require Import QArith.
#[local] Open Scope list_scope.
#[local] Open Scope Z_scope.

(** What a chain adapter provides. *)
Record chain_options := ChainOptions {
  opt_hasConfig : bool;
  opt_reconciles : bool;
}.

(** A committed scan window. *)
Record window := Window {
  win_from : jsnum;
  win_to : jsnum;
  win_latest : Z;
}.

Record reconciliation := Reconciliation {
  rec_scanned : option window;
  rec_events : list outcome;
}.

Record chain_result := ChainResult {
  ch_scanned : option window;
  ch_retries : list outcome;
  ch_events : list outcome;
  ch_reconciliation : option reconciliation;
}.

(** [filterNewEvents] *)
Fixpoint filter_new (s : relayer_state) (c : chain) (seenKeys : gset string) (events : list event)
    : list event * Z :=
  match events with
  | [] => ([], 0)
  | e :: events =>
      let eventKey := buildEventKey e in
      if bool_decide (eventKey ∈ seenKeys) || hasProcessedEvent s c eventKey
         || isEventQueuedForRetry s c eventKey
      then let '(unique, duplicates) := filter_new s c seenKeys events in (unique, duplicates + 1)
      else let '(unique, duplicates) := filter_new s c ({[eventKey]} ∪ seenKeys) events in
           (e :: unique, duplicates)
  end.

Definition filterNewEvents (s : relayer_state) (c : chain) (events : list event) : list event * Z :=
  filter_new s c ∅ events.

(** [slice(0, Math.max(Number(maxRetryEventsPerTick || due.length), 1))] *)
Definition retry_batch (cfg : config) (due : list retry_item) : list retry_item :=
  take (Z.to_nat (Z.max (bp_maxRetryEventsPerTick (cfg_backpressure cfg) ||n Z.of_nat (length due)) 1)) due.

#[local] Open Scope prog_scope.

Fixpoint map_in_order {A B} (worker : A -> rprog B) (items : list A) : rprog (list B) :=
  match items with
  | [] => Ret []
  | x :: items =>
      y <-- worker x ;;
      ys <-- map_in_order worker items ;;
      Ret (y :: ys)
  end.

Section processor.
Context (pe : penv) (cfg : config) (X : externals).

Definition process_fresh (events : list event) : rprog (list outcome) :=
  map_in_order (fun e => processEvent pe cfg X e None) events.

Definition runDueRetries (c : chain) : rprog (list outcome) :=
  dueRetries <-- op (fun now _ s => (getDueRetryItems s c now, s)) ;;
  let batch := retry_batch cfg dueRetries in
  (if (length batch <? length dueRetries)%nat
   then incr "backpressure_retry_skipped_total" (Z.of_nat (length dueRetries) - Z.of_nat (length batch))
   else Ret tt) ;;;
  map_in_order (fun item => processEvent pe cfg X (ri_event item) (Some item)) batch.

(** The scanned events that are new, counted and saved in the durable queue. *)
Definition admit_events (c : chain) (scannedEvents : list event) : rprog (list event) :=
  events <-- op (fun _ _ s =>
    let s1 := incrementMetric "events_scanned_total" (Z.of_nat (length scannedEvents)) s in
    let '(events, duplicates) := filterNewEvents s1 c scannedEvents in
    (events, incrementMetric "duplicates_skipped_total" duplicates s1)) ;;
  persistFreshEventsToDurableQueue pe cfg c events ;;;
  Ret events.

Definition commit_request_cursor (c : chain) (toRequestId : jsnum) : rprog unit :=
  update (fun s => set_chain c (set_last_request_id (Some toRequestId) (chain_at s c)) s) ;;;
  persistState.

(** ** Reconciliation *)

(** Neither observed this tick nor tracked anywhere. *)
Definition pending_only (s : relayer_state) (c : chain) (excluded : gset string) (events : list event)
    : list event :=
  filter (fun e => ev_requestId e ∉ excluded /\ ev_requestId e ∉ collectActiveRequestIds s c) events.

Definition reconcilePendingRequests (c : chain) (options : chain_options)
    (excludedRequestIds : gset string) : rprog reconciliation :=
  if negb (opt_reconciles options) then Ret (Reconciliation None [])
  else
    latestRequestId <-- await (LatestRequestId c) ;;
    fromRequestId <-- op (fun _ _ s => resolveRequestCursor cfg c latestRequestId s) ;;
    if num_lt (Fin latestRequestId) fromRequestId then Ret (Reconciliation None [])
    else
      let toRequestId := request_window_end latestRequestId fromRequestId (cfg_maxBlocksPerTick cfg) in
      scannedEvents <-- await (ScanRequestIds c fromRequestId toRequestId) ;;
      pendingOnly <-- query (fun s => pending_only s c excludedRequestIds scannedEvents) ;;
      events <-- admit_events c pendingOnly ;;
      eventResults <-- process_fresh events ;;
      commit_request_cursor c toRequestId ;;;
      Ret (Reconciliation (Some (Window fromRequestId toRequestId latestRequestId)) eventResults).

(** ** The start of a tick *)

Definition begin_tick (c : chain) : rprog unit :=
  syncManualActions pe c ;;;
  quarantineDurableBacklogBelowRequestFloor pe cfg c ;;;
  hydrateDurableQueue pe cfg c ;;;
  pruned <-- op (fun _ _ s => pruneRetryQueueBelowRequestFloor c (getRequestCursorFloor cfg c) s) ;;
  if 0 <? pruned then persistState else Ret tt.

(** ** The block-cursor lane *)

(** Whether discovery is skipped: the chain is idle, nothing is due, and the
    idle backoff window is open. *)
Definition idle_skip (c : chain) (now : Z) (s : relayer_state) : bool :=
  let backoff := Z.max (cfg_discoveryIdleBackoffMs cfg) 0 in
  let lastScanMs := last_discovery_at (chain_at s c) in
  (0 <? backoff) && bool_decide (getDueRetryItems s c now = [])
  && (0 <? lastScanMs) && (now - lastScanMs <? backoff).

Definition begin_discovery (c : chain) : rprog bool :=
  op (fun now _ s =>
    if idle_skip c now s then (true, incrementMetric "discovery_idle_skips_total" 1 s)
    else (false, set_chain c (set_last_discovery_at now (chain_at s c)) s)).

Record discovery := Discovery {
  dis_window : option window;
  dis_results : list outcome;
  dis_observed : gset string;
}.
Definition no_discovery : discovery := Discovery None [] ∅.

(** Scan one window, process what it holds, commit the cursor. *)
Definition scan_window (c : chain) (latestBlock confirmedTip fromBlock : Z) : rprog discovery :=
  let toBlock := window_end confirmedTip fromBlock (cfg_maxBlocksPerTick cfg) in
  scannedEvents <-- await (ScanBlocks c fromBlock toBlock) ;;
  events <-- admit_events c scannedEvents ;;
  deferred <-- deferEventsForBackpressure pe cfg c events ;;
  let processable := deferred.1 in
  eventResults <-- process_fresh processable ;;
  update (fun s => set_chain c (set_last_block (Some (Fin toBlock)) (chain_at s c)) s) ;;;
  persistState ;;;
  Ret (Discovery (Some (Window (Fin fromBlock) (Fin toBlock) latestBlock)) eventResults
         (list_to_set (ev_requestId <$> processable))).

Definition discover (c : chain) : rprog discovery :=
  skipDiscoveryForIdle <-- begin_discovery c ;;
  if (skipDiscoveryForIdle : bool) then Ret no_discovery
  else
    latestBlock <-- await (LatestBlock c) ;;
    let confirmedTip := latestBlock - Z.max (cfg_confirmations cfg c) 0 in
    if confirmedTip <? 0 then Ret no_discovery
    else
      fromBlock <-- op (fun _ _ s => resolveChainFromBlock cfg c confirmedTip s) ;;
      match fromBlock with
      | Fin fromBlock =>
          if fromBlock <=? confirmedTip then scan_window c latestBlock confirmedTip fromBlock
          else Ret no_discovery
      | _ => Ret no_discovery
      end.

Definition processChain (c : chain) (options : chain_options) : rprog chain_result :=
  if negb (opt_hasConfig options) then Ret (ChainResult None [] [] (Some (Reconciliation None [])))
  else
    begin_tick c ;;;
    discovered <-- attempt (discover c) ;;
    d <-- match discovered with
          | inr d => Ret d
          | inl _ => incr "discovery_failures_total" 1 ;;; Ret no_discovery
          end ;;
    retryResults <-- runDueRetries c ;;
    reconciled <-- attempt (reconcilePendingRequests c options (dis_observed d)) ;;
    requestReconciliation <-- match reconciled with
          | inr r => Ret (Some r)
          | inl _ => incr "reconciliation_failures_total" 1 ;;; Ret None
          end ;;
    Ret (ChainResult (dis_window d) retryResults (dis_results d) requestReconciliation).

(** ** The request-cursor lane *)

(** The [try] block: an early return with the retries, or a scanned window. *)
Definition discover_requests (c : chain) : rprog (list outcome + window * list outcome) :=
  latestRequestId <-- await (LatestRequestId c) ;;
  fromRequestId <-- op (fun _ _ s => resolveRequestCursor cfg c latestRequestId s) ;;
  if num_lt (Fin latestRequestId) fromRequestId then
    retryResults <-- runDueRetries c ;;
    Ret (inl retryResults)
  else
    let toRequestId := request_window_end latestRequestId fromRequestId (cfg_maxBlocksPerTick cfg) in
    scannedEvents <-- await (ScanRequestIds c fromRequestId toRequestId) ;;
    events <-- admit_events c scannedEvents ;;
    deferred <-- deferEventsForBackpressure pe cfg c events ;;
    eventResults <-- process_fresh deferred.1 ;;
    commit_request_cursor c toRequestId ;;;
    Ret (inr (Window fromRequestId toRequestId latestRequestId, eventResults)).

Definition processChainByRequestCursor (c : chain) (options : chain_options) : rprog chain_result :=
  if negb (opt_hasConfig options) then Ret (ChainResult None [] [] None)
  else
    begin_tick c ;;;
    discovered <-- attempt (discover_requests c) ;;
    match discovered with
    | inr (inl retryResults) => Ret (ChainResult None retryResults [] None)
    | inr (inr (w, eventResults)) =>
        retryResults <-- runDueRetries c ;;
        Ret (ChainResult (Some w) retryResults eventResults None)
    | inl _ =>
        incr "discovery_failures_total" 1 ;;;
        retryResults <-- runDueRetries c ;;
        Ret (ChainResult None retryResults [] None)
    end.
End processor.
