(* ===== verification/ProcessorSpec.v ===== *)
(** * Specification of chain processing

    De-duplication of scanned events, contiguity of the scan windows, and the
    safety of a tick. *)
From S2P Require Import Prelude Numbers Strings Values Encoding Envelope Digest Cbor Attestation Externals State StateFacts StateSpec Config Effects Persistence World Cursor Samples Queue QueueSpec Errors Signing Upkeep Prepare PrepareSpec Process ProcessSpec Processor.
From Stdlib Require Import QArith Sorted.
#[local] Open Scope list_scope.
#[local] Open Scope Z_scope.

(** ** De-duplication *)

Definition known (s : relayer_state) (c : chain) (k : string) : bool :=
  hasProcessedEvent s c k || isEventQueuedForRetry s c k.

Lemma filter_new_spec s c events : forall seen,
  let '(unique, duplicates) := filter_new s c seen events in
  sublist unique events /\
  NoDup (buildEventKey <$> unique) /\
  Forall (fun e => buildEventKey e ∉ seen /\ known s c (buildEventKey e) = false) unique /\
  duplicates = Z.of_nat (length events) - Z.of_nat (length unique) /\
  Forall (fun e => buildEventKey e ∈ seen \/ known s c (buildEventKey e) = true
                   \/ buildEventKey e ∈ (buildEventKey <$> unique)) events.
Proof.
  induction events as [|e events IH]; intros seen; cbn [filter_new].
  { split_and!; [done|constructor|done|done|done]. }
  cbv zeta. rewrite <-orb_assoc. fold (known s c (buildEventKey e)).
  destruct (bool_decide (buildEventKey e ∈ seen) || known s c (buildEventKey e)) eqn:E.
  - specialize (IH seen). destruct (filter_new s c seen events) as [unique dups].
    destruct IH as (Hs & Hn & Hf & Hd & Hc).
    split_and!; [by apply sublist_cons|done|done|rewrite length_cons; lia|].
    apply Forall_cons_2; [|done].
    apply orb_true_iff in E as [E%bool_decide_eq_true|E]; auto.
  - apply orb_false_iff in E as [E1%bool_decide_eq_false E2].
    specialize (IH ({[buildEventKey e]} ∪ seen)). destruct (filter_new _ _ _ events) as [unique dups].
    destruct IH as (Hs & Hn & Hf & Hd & Hc). cbn [fmap list_fmap].
    split_and!.
    + by apply sublist_skip.
    + apply NoDup_cons. split; [|done]. intros (e' & Heq & Hin)%list_elem_of_fmap.
      rewrite Forall_forall in Hf. apply (Hf e') in Hin as [Hin _]. set_solver.
    + apply Forall_cons_2; [done|]. eapply Forall_impl; [exact Hf|]. intros e' [? ?]. set_solver.
    + rewrite !length_cons. lia.
    + apply Forall_cons_2; [right; right; by apply elem_of_cons; left|].
      eapply Forall_impl; [exact Hc|]. intros e' [H|[H|H]]; [|auto|].
      * apply elem_of_union in H as [->%elem_of_singleton|H]; [|auto].
        right. right. by apply elem_of_cons; left.
      * right. right. by apply elem_of_cons; right.
Qed.

(** De-duplication is exact: [filterNewEvents] keeps a subsequence of the
    scanned events with pairwise distinct keys, none of them recorded or queued
    already; every event it drops has a key that is known or kept; and the
    duplicates it counts are exactly the events it dropped. *)
Theorem filterNewEvents_exact : forall s c events,
  let '(unique, duplicates) := filterNewEvents s c events in
  sublist unique events /\
  NoDup (buildEventKey <$> unique) /\
  (forall e, e ∈ unique -> known s c (buildEventKey e) = false) /\
  (forall e, e ∈ events -> known s c (buildEventKey e) = true
                           \/ buildEventKey e ∈ (buildEventKey <$> unique)) /\
  Z.of_nat (length unique) + duplicates = Z.of_nat (length events).
Proof.
  intros s c events. unfold filterNewEvents. pose proof (filter_new_spec s c events ∅) as H.
  destruct (filter_new s c ∅ events) as [unique dups]. destruct H as (Hs & Hn & Hf & Hd & Hc).
  rewrite Forall_forall in Hf, Hc. split_and!; [done|done| | |lia].
  - intros e He. by apply (Hf e He).
  - intros e He. destruct (Hc e He) as [H|H]; [set_solver|done].
Qed.

(** ** The pieces of a tick *)

Section tick.
Context {I : relayer_state -> Prop} `{HI : !StateInvariant I}.
Context (pe : penv) (cfg : config) (X : externals) (c : chain).
Context (Hcache : 0 <= processedCacheSize (cfg_limits cfg)).

Lemma safe_map {A B} (f : A -> rprog B) l :
  (forall x, safe (world_inv I) (f x)) -> safe (world_inv I) (map_in_order f l).
Proof using. intros Hf. induction l as [|x l IH]; [done|]. cbn [map_in_order]. safe_tac. Qed.

Lemma safe_fresh events : safe (world_inv I) (process_fresh pe cfg X events).
Proof using HI Hcache. apply safe_map. intros e. by apply safe_processEvent. Qed.

Lemma safe_runDue : safe (world_inv I) (runDueRetries pe cfg X c).
Proof using HI Hcache.
  unfold runDueRetries. apply safe_bind; [by apply safe_op|]. intros due. apply safe_bind.
  { case_match; [apply safe_incr|done]. }
  intros _. apply safe_map. intros e. by apply safe_processEvent.
Qed.

Lemma safe_admit events : safe (world_inv I) (admit_events pe cfg c events).
Proof using HI.
  unfold admit_events. apply safe_bind; [|safe_tac]. apply safe_op. intros now rng s Hs.
  destruct (filterNewEvents _ _ _). by apply inv_metrics, inv_metrics.
Qed.

Context (Hprune : forall m s, I s -> I (pruneRetryQueueBelowRequestFloor c m s).2).

Lemma safe_begin_tick : safe (world_inv I) (begin_tick pe cfg c).
Proof using HI Hprune.
  unfold begin_tick. repeat (apply safe_bind; [solve [auto with relayer_state]|intros _]).
  apply safe_bind; [apply safe_op; intros; by apply Hprune|]. intros p. by case_match.
Qed.

Context (Hresolve : forall l s, I s -> I (resolveRequestCursor cfg c l s).2).
Context (Hcommit : forall n s, I s -> I (set_chain c (set_last_request_id n (chain_at s c)) s)).

Lemma safe_reconcile o ex : safe (world_inv I) (reconcilePendingRequests pe cfg X c o ex).
Proof using HI Hcache Hresolve Hcommit.
  unfold reconcilePendingRequests, commit_request_cursor. case_match; [done|].
  apply safe_bind; [apply safe_await|]. intros latest.
  apply safe_bind; [apply safe_op; intros; by apply Hresolve|]. intros from. case_match; [done|].
  apply safe_bind; [apply safe_await|]. intros scanned.
  apply safe_bind; [apply safe_query|]. intros pending.
  apply safe_bind; [apply safe_admit|]. intros events.
  apply safe_bind; [apply safe_fresh|]. intros results.
  apply safe_bind; [|done]. apply safe_bind; [|done]. apply safe_update. intros. by apply Hcommit.
Qed.

Context (Hstamp : forall t s, I s -> I (set_chain c (set_last_discovery_at t (chain_at s c)) s)).

Lemma safe_begin_discovery : safe (world_inv I) (begin_discovery cfg c).
Proof using HI Hstamp.
  unfold begin_discovery. apply safe_op. intros now rng s Hs.
  case_match; cbn [snd]; [by apply inv_metrics|by apply Hstamp].
Qed.

Context (HresolveB : forall t s, I s -> I (resolveChainFromBlock cfg c t s).2).
Context (HcommitB : forall n s, I s -> I (set_chain c (set_last_block n (chain_at s c)) s)).

Lemma safe_discover : safe (world_inv I) (discover pe cfg X c).
Proof using HI Hcache Hstamp HresolveB HcommitB.
  unfold discover, scan_window. apply safe_bind; [apply safe_begin_discovery|]. intros [|]; [done|].
  apply safe_bind; [apply safe_await|]. intros latest. case_match; [done|].
  apply safe_bind; [apply safe_op; intros; by apply HresolveB|].
  intros [from| | |]; try done. case_match; [|done].
  apply safe_bind; [apply safe_await|]. intros scanned.
  apply safe_bind; [apply safe_admit|]. intros events.
  apply safe_bind; [apply safe_deferEvents|]. intros deferred.
  apply safe_bind; [apply safe_fresh|]. intros results.
  apply safe_bind; [|done]. apply safe_update. intros. by apply HcommitB.
Qed.

Lemma safe_processChain o : safe (world_inv I) (processChain pe cfg X c o).
Proof using All.
  unfold processChain. case_match; [done|]. apply safe_bind; [apply safe_begin_tick|]. intros _.
  apply safe_bind; [apply safe_attempt, safe_discover|]. intros d.
  apply safe_bind; [destruct d; [apply safe_bind; [apply safe_incr|done]|done]|]. intros d'.
  apply safe_bind; [apply safe_runDue|]. intros r.
  apply safe_bind; [apply safe_attempt, safe_reconcile|]. intros rec.
  apply safe_bind; [destruct rec; [apply safe_bind; [apply safe_incr|done]|done]|]. done.
Qed.

Lemma safe_byRequestCursor o : safe (world_inv I) (processChainByRequestCursor pe cfg X c o).
Proof using HI Hcache Hprune Hresolve Hcommit.
  unfold processChainByRequestCursor. case_match; [done|].
  apply safe_bind; [apply safe_begin_tick|]. intros _. apply safe_bind.
  - apply safe_attempt. unfold discover_requests, commit_request_cursor.
    apply safe_bind; [apply safe_await|]. intros latest.
    apply safe_bind; [apply safe_op; intros; by apply Hresolve|]. intros from.
    case_match; [apply safe_bind; [apply safe_runDue|done]|].
    apply safe_bind; [apply safe_await|]. intros scanned.
    apply safe_bind; [apply safe_admit|]. intros events.
    apply safe_bind; [apply safe_deferEvents|]. intros deferred.
    apply safe_bind; [apply safe_fresh|]. intros results.
    apply safe_bind; [|done]. apply safe_bind; [|done]. apply safe_update. intros. by apply Hcommit.
  - intros [m|[r|[w rs]]]; [|done|].
    + apply safe_bind; [apply safe_incr|]. intros _. by apply safe_bind; [apply safe_runDue|].
    + by apply safe_bind; [apply safe_runDue|].
Qed.
End tick.

(** A tick keeps the relayer state well formed, under any interleaving of
    ticks of both chains and both lanes and whatever the environment answers:
    discovery, de-duplication, deferral, processing, reconciliation and the
    cursor commits never put an event twice into the retry queue or let the
    processed order and the processed records disagree. *)
Theorem ticks_safe : forall pe cfg X (lanes : list (bool * chain * chain_options)) w ps w',
  0 <= processedCacheSize (cfg_limits cfg) ->
  state_wf (w_state w) ->
  rtc par_step ((fun '(by_block, c, o) =>
      if (by_block : bool) then processChain pe cfg X c o
      else processChainByRequestCursor pe cfg X c o) <$> lanes, w) (ps, w') ->
  state_wf (w_state w').
Proof.
  intros pe cfg X lanes w ps w' Hc Hw Hsteps.
  apply (par_steps_safe world_wf _ _ Hsteps); [|done].
  assert (forall c cs s, state_wf s -> (chain_wf (chain_at s c) -> chain_wf cs) ->
    state_wf (set_chain c cs s)) as Hset by (intros; apply state_wf_set; auto).
  apply Forall_fmap, Forall_true. intros [[[|] c] o];
    [apply safe_processChain|apply safe_byRequestCursor]; auto with relayer_state;
    intros ? s Hs; apply Hset; try done; intros []; by split.
Qed.

Definition sample_options : chain_options := ChainOptions true true.

Definition sample_ticks : list (rprog chain_result) :=
  [processChain sample_penv sample_config sample_externals neo_n3 sample_options;
   processChainByRequestCursor sample_penv sample_config sample_externals neox sample_options].

Example ticks_safe_witness :
  exists ps w', par_step (sample_ticks, sample_world) (ps, w') /\ state_wf (w_state w').
Proof.
  assert (exists c', par_step (sample_ticks, sample_world) c') as [[ps w'] Hstep].
  { eexists. exact (par_local 0 bool
      (fun now _ w => (shouldSkipSupabasePersistence now (w_backoff w), w)) _ 5 0%Q sample_ticks
      sample_world eq_refl). }
  exists ps, w'. split; [done|].
  apply (ticks_safe sample_penv sample_config sample_externals
    [(true, neo_n3, sample_options); (false, neox, sample_options)] sample_world ps w');
    [done|apply empty_wf|by apply rtc_once].
Defined.

(** ** No block is skipped *)

#[local] Instance block_invariant c v : StateInvariant (fun s => last_block (chain_at s c) = v).
Proof. exact (cursors_invariant c (fun x => x.1.1 = v)). Qed.

(** Block [h] lies in a window that was scanned successfully. *)
Definition scanned (c : chain) (h : Z) (tr : list (obs world rel_call)) : Prop :=
  exists from to events, OCall (ScanBlocks c from to) (inr events) ∈ tr /\ from <= h <= to.

Lemma scanned_app c h t tr : scanned c h tr -> scanned c h (t ++ tr).
Proof. intros (f & to & ev & Hin & Hh). exists f, to, ev. split; [|done]. apply elem_of_app. by right. Qed.

Section blocks.
Context (pe : penv) (cfg : config) (X : externals) (c : chain) (o : chain_options).
Context (Hcache : 0 <= processedCacheSize (cfg_limits cfg)).

Definition at_block (b : Z) (w : world) : Prop := last_block (chain_at (w_state w) c) = Some (Fin b).

(** The confirmed tip an environment reports, whenever it reports one. *)
Definition tip_is (en : env world rel_call) (T : Z) : Prop :=
  forall tr n, env_reply en _ tr (LatestBlock c) = inr n -> n - Z.max (cfg_confirmations cfg c) 0 = T.

Lemma keeps_block {A} (p : rprog A) b en w tr :
  safe (world_inv (fun s => last_block (chain_at s c) = Some (Fin b))) p -> at_block b w ->
  at_block b (run en p w tr).1.2.
Proof. intros Hp Hw. by apply (safe_run (world_inv (fun s => last_block (chain_at s c) = Some (Fin b)))). Qed.

Lemma block_set (f : chain_state -> chain_state) b s :
  (forall cs, last_block (f cs) = last_block cs) ->
  last_block (chain_at s c) = Some (Fin b) ->
  last_block (chain_at (set_chain c (f (chain_at s c)) s) c) = Some (Fin b).
Proof. intros Hf H. by rewrite chain_at_set_eq, Hf. Qed.

Lemma block_prune m b s :
  last_block (chain_at s c) = Some (Fin b) ->
  last_block (chain_at (pruneRetryQueueBelowRequestFloor c m s).2 c) = Some (Fin b).
Proof. intros H. unfold pruneRetryQueueBelowRequestFloor. case_match; [|done]. by apply (block_set (set_retry_queue _)). Qed.

Lemma block_request l b s :
  last_block (chain_at s c) = Some (Fin b) ->
  last_block (chain_at (resolveRequestCursor cfg c l s).2 c) = Some (Fin b).
Proof.
  intros H. unfold resolveRequestCursor.
  repeat case_match; cbn [snd]; try done; by apply (block_set (set_last_request_id _)).
Qed.

(** After the scan, the cursor stays or moves to the end of the window. *)
Lemma scan_commit b to latest en w tr scannedEvents :
  at_block b w ->
  exists b', at_block b' (run en
    (events <-- admit_events pe cfg c scannedEvents ;;
     deferred <-- deferEventsForBackpressure pe cfg c events ;;
     eventResults <-- process_fresh pe cfg X deferred.1 ;;
     update (fun s => set_chain c (set_last_block (Some (Fin to)) (chain_at s c)) s) ;;;
     persistState ;;;
     Ret (Discovery (Some (Window (Fin (b + 1)) (Fin to) latest)) eventResults
            (list_to_set (ev_requestId <$> deferred.1))))%prog w tr).1.2 /\ (b' = b \/ b' = to).
Proof using Hcache.
  intros Hw. rewrite run_bind.
  pose proof (keeps_block (admit_events pe cfg c scannedEvents) b en w tr (safe_admit pe cfg c _) Hw) as H1.
  destruct (run en (admit_events _ _ _ _) w tr) as [[[m|events] w1] tr1]; [by exists b; auto|].
  rewrite run_bind.
  pose proof (keeps_block (deferEventsForBackpressure pe cfg c events) b en w1 tr1
    (safe_deferEvents pe cfg c _) H1) as H2.
  destruct (run en (deferEventsForBackpressure _ _ _ _) w1 tr1) as [[[m|deferred] w2] tr2]; [by exists b; auto|].
  rewrite run_bind.
  pose proof (keeps_block (process_fresh pe cfg X deferred.1) b en w2 tr2
    (safe_fresh pe cfg X Hcache _) H2) as H3.
  destruct (run en (process_fresh _ _ _ _) w2 tr2) as [[[m|rs] w3] tr3]; [by exists b; auto|].
  exists to. split; [|by right]. unfold at_block. cbn [bind update modify run persistState save fst snd w_state].
  cbn. by rewrite chain_at_set_eq.
Qed.

(** What discovery does to the cursor: nothing, or one committed window. *)
Lemma discover_block b T en w tr :
  0 < cfg_maxBlocksPerTick cfg -> -1 <= b -> tip_is en T -> b <= T -> at_block b w ->
  let '(r, w', tr') := run en (discover pe cfg X c) w tr in
  exists b', at_block b' w' /\ b <= b' <= T /\ b' <= b + cfg_maxBlocksPerTick cfg /\
    forall h, b < h <= b' -> scanned c h tr'.
Proof using Hcache.
  intros Hmax Hb Htip HbT Hw. unfold discover. rewrite run_bind.
  pose proof (keeps_block (begin_discovery cfg c) b en w tr) as H1.
  destruct (run en (begin_discovery cfg c) w tr) as [[r1 w1] tr1] eqn:Hr1. cbn [fst snd] in H1.
  assert (at_block b w1) as Hw1.
  { apply H1; [|done]. apply safe_begin_discovery. intros t s. by apply (block_set (set_last_discovery_at t)). }
  clear H1 Hr1.
  assert (forall tr', exists b', at_block b' w1 /\ b <= b' <= T /\ b' <= b + cfg_maxBlocksPerTick cfg /\
    forall h, b < h <= b' -> scanned c h tr') as Hstay.
  { intros tr'. exists b. split_and!; [done|lia..|]. lia. }
  destruct r1 as [m|[|]]; [apply Hstay..|]. rewrite run_bind, run_await.
  destruct (env_reply en _ tr1 (LatestBlock c)) as [m|n] eqn:Hn; [apply Hstay|].
  pose proof (Htip _ _ Hn) as Ht. cbv zeta.
  destruct (_ <? 0); [apply Hstay|]. rewrite run_bind. cbn [op local run].
  rewrite (resolveChain_checkpoint cfg c _ (w_state w1) b Hw1) by lia.
  replace (World (w_state w1) (w_backoff w1)) with w1 by (by destruct w1).
  set (tip := n - Z.max (cfg_confirmations cfg c) 0) in *.
  set (tr2 := OCall (LatestBlock c) (inr n) :: tr1).
  destruct (b + 1 <=? tip) eqn:Hle; [|apply Hstay]. apply Z.leb_le in Hle.
  unfold scan_window. cbv zeta. rewrite run_bind, run_await.
  set (to := window_end tip (b + 1) (cfg_maxBlocksPerTick cfg)).
  destruct (env_reply en _ tr2 _) as [m|scannedEvents] eqn:Hs; [apply Hstay|].
  set (tr3 := OCall (ScanBlocks c (b + 1) to) (inr scannedEvents) :: tr2).
  set (rest := bind (admit_events pe cfg c scannedEvents) _).
  assert (b + 1 <= to <= b + cfg_maxBlocksPerTick cfg /\ to <= T) as Hto by (unfold to, window_end; lia).
  pose proof (scan_commit b to n en w1 tr3 scannedEvents Hw1) as (b' & Hw' & Hb').
  fold rest in Hw', Hb'. destruct (run_extends en rest w1 tr3) as [t Htr].
  destruct (run en rest w1 tr3) as [[r w'] tr']. cbn [fst snd] in *. subst tr'.
  exists b'. split; [done|]. split; [lia|]. split; [lia|]. intros h Hh. apply scanned_app.
  exists (b + 1), to, scannedEvents. split; [by apply elem_of_cons; left|lia].
Qed.

(** One tick, whether it succeeds or throws. *)
Lemma tick_block b T en w tr :
  0 < cfg_maxBlocksPerTick cfg -> -1 <= b -> tip_is en T -> b <= T -> at_block b w ->
  let '(_, w', tr') := run en (processChain pe cfg X c o) w tr in
  exists b', at_block b' w' /\ b <= b' <= T /\ b' <= b + cfg_maxBlocksPerTick cfg /\
    forall h, b < h <= b' -> scanned c h tr'.
Proof using Hcache.
  intros Hmax Hb Htip HbT Hw.
  assert (forall w' tr', at_block b w' -> exists b', at_block b' w' /\ b <= b' <= T /\
    b' <= b + cfg_maxBlocksPerTick cfg /\ forall h, b < h <= b' -> scanned c h tr') as Hstay.
  { intros w' tr' H. exists b. split_and!; [done|lia..|]. lia. }
  unfold processChain. destruct (negb _); [by apply Hstay|]. rewrite run_bind.
  pose proof (keeps_block (begin_tick pe cfg c) b en w tr) as H1.
  destruct (run en (begin_tick pe cfg c) w tr) as [[[m|u] w1] tr1]; cbn [fst snd] in H1;
    specialize (H1 (safe_begin_tick pe cfg c (fun m s => block_prune m b s)) Hw); [by apply Hstay|].
  rewrite run_bind, run_attempt.
  pose proof (discover_block b T en w1 tr1 Hmax Hb Htip HbT H1) as H2.
  destruct (run en (discover pe cfg X c) w1 tr1) as [[d w2] tr2].
  destruct H2 as (b' & Hw2 & Hb' & Hb2 & Hscan).
  set (rest := bind (match d with inr d => _ | inl _ => _ end) _).
  assert (safe (world_inv (fun s => last_block (chain_at s c) = Some (Fin b'))) rest) as Hsafe.
  { apply safe_bind; [destruct d; [apply safe_bind; [apply safe_incr|done]|done]|]. intros d'.
    apply safe_bind; [by apply safe_runDue|]. intros rs. apply safe_bind.
    - apply safe_attempt, safe_reconcile; [done|intros l s; apply block_request|].
      intros n s. by apply (block_set (set_last_request_id n)).
    - intros rec. apply safe_bind; [destruct rec; [apply safe_bind; [apply safe_incr|done]|done]|]. done. }
  pose proof (keeps_block rest b' en w2 tr2 Hsafe Hw2) as H3.
  destruct (run_extends en rest w2 tr2) as [t Ht].
  destruct (run en rest w2 tr2) as [[r w'] tr']. cbn [fst snd] in *. subst tr'.
  exists b'. split_and!; [done|lia..|]. intros h Hh. by apply scanned_app, Hscan.
Qed.

(** A sequence of ticks, each with its environment. *)
Fixpoint ticks (ens : list (env world rel_call)) (w : world) (tr : list (obs world rel_call))
    : world * list (obs world rel_call) :=
  match ens with
  | [] => (w, tr)
  | en :: ens => let '(_, w', tr') := run en (processChain pe cfg X c o) w tr in ticks ens w' tr'
  end.

Lemma ticks_extend ens w tr : exists t, (ticks ens w tr).2 = t ++ tr.
Proof using.
  revert w tr. induction ens as [|en ens IH]; intros w tr; [by exists []|]. cbn [ticks].
  destruct (run_extends en (processChain pe cfg X c o) w tr) as [t Ht].
  destruct (run en _ w tr) as [[r w'] tr']. cbn [snd] in Ht. subst tr'.
  destruct (IH w' (t ++ tr)) as [t' ->]. exists (t' ++ t). by rewrite app_assoc.
Qed.

Lemma ticks_block ens tips : forall b w tr,
  0 < cfg_maxBlocksPerTick cfg -> -1 <= b -> Forall2 tip_is ens tips ->
  StronglySorted Z.le (b :: tips) -> at_block b w ->
  let '(w', tr') := ticks ens w tr in
  exists b', at_block b' w' /\ b <= b' /\ forall h, b < h <= b' -> scanned c h tr'.
Proof using Hcache.
  revert tips. induction ens as [|en ens IH]; intros tips b w tr Hmax Hb Htips Hsort Hw.
  { exists b. split_and!; [done|lia|]. lia. }
  inversion Htips as [|en' T ens' tips' HT Hrest]; subst.
  apply StronglySorted_inv in Hsort as [Hsort Hall]. inversion Hall as [|? ? HbT Hall']; subst.
  apply StronglySorted_inv in Hsort as [Hsort HTall].
  pose proof (tick_block b T en w tr Hmax Hb HT HbT Hw) as Htick.
  cbn [ticks]. destruct (run en _ w tr) as [[r w1] tr1].
  destruct Htick as (b1 & Hw1 & Hb1 & _ & Hscan).
  assert (StronglySorted Z.le (b1 :: tips')) as Hs1.
  { constructor; [done|]. eapply Forall_impl; [exact HTall|]. simpl. lia. }
  pose proof (IH tips' b1 w1 tr1 Hmax ltac:(lia) Hrest Hs1 Hw1) as H2.
  destruct (ticks_extend ens w1 tr1) as [t Ht].
  destruct (ticks ens w1 tr1) as [w2 tr2]. cbn [snd] in Ht. subst tr2.
  destruct H2 as (b2 & Hw2 & Hb2 & Hscan2). exists b2. split_and!; [done|lia|].
  intros h Hh. destruct (Z_le_gt_dec h b1); [apply scanned_app, Hscan; lia|apply Hscan2; lia].
Qed.
End blocks.

(** C9.  No block is skipped.  Start from a checkpoint at block [b] and run any
    number of ticks of the block lane; the environments may make any call of
    any tick fail or answer anything, as long as the confirmed tip they report
    never moves backwards.  Then the checkpoint only moves forward, and every
    block it has passed lies in a window whose scan was answered: a failed
    discovery, a failed claim or a thrown error never advances the cursor past
    blocks that were not read. *)
Theorem no_block_skipped : forall pe cfg X c o ens tips b w tr,
  0 <= processedCacheSize (cfg_limits cfg) -> 0 < cfg_maxBlocksPerTick cfg -> -1 <= b ->
  Forall2 (tip_is cfg c) ens tips -> StronglySorted Z.le (b :: tips) ->
  at_block c b w ->
  let '(w', tr') := ticks pe cfg X c o ens w tr in
  exists b', at_block c b' w' /\ b <= b' /\ forall h, b < h <= b' -> scanned c h tr'.
Proof. intros. by eapply ticks_block. Qed.

Definition sample_at (b : Z) : world :=
  World (set_chain neo_n3 (set_last_block (Some (Fin b)) defaultChainState) createEmptyRelayerState)
    initial_backoff.

Example no_block_skipped_witness :
  let '(w', tr') := ticks sample_penv sample_config sample_externals neo_n3 sample_options
    [sample_env 5000 (ok_replies []); sample_env 6000 (ok_replies [])] (sample_at 60) [] in
  exists b', at_block neo_n3 b' w' /\ 60 <= b' /\ forall h, 60 < h <= b' -> scanned neo_n3 h tr'.
Proof.
  apply (no_block_skipped sample_penv sample_config sample_externals neo_n3 sample_options
    [sample_env 5000 (ok_replies []); sample_env 6000 (ok_replies [])] [119; 119] 60 (sample_at 60) []);
    [done|done|done| | |done].
  - apply Forall2_cons; split; [by intros tr n [= <-]|].
    apply Forall2_cons; split; [by intros tr n [= <-]|]. by apply Forall2_nil.
  - repeat (constructor; [|repeat (constructor; [done|]); by constructor]). by constructor.
Defined.
