(* ===== verification/N3Client.v ===== *)
(** * The Neo N3 client of the relayer: reading ([neo-n3.js])

    The items of the chain's machine and the events built from them; the calls to
    the node with failover over the configured URLs, the cursors and the scans.
    HTTP requests, the relay of the worker and the invocation of neon-js are
    awaited calls. *)
From stdpp Require Import strings.
From S2P Require Import Prelude Numbers Strings Values Text Effects Encoding Envelope Doubles Upkeep WorkerCore Allowlist Signers Buffers FeedRegistry Concurrency.
From Stdlib Require Import QArith.
#[local] Open Scope list_scope.
#[local] Open Scope Z_scope.

(** ** Texts *)

Definition asEventString (v : val) : string := match v with VStr s => s | _ => "" end.

(** The [strip0x] of this file, which folds case. *)
Definition strip0x_lower (v : val) : string := toLowerCase (strip0x (trimString v)).

(** The byte order mark, which [TextDecoder] drops. *)
Definition strip_bom (bs : bytes) : bytes :=
  match bs with
  | 239 :: 187 :: 191 :: bs => bs
  | bs => bs
  end.

(** The code points of well-formed UTF-8: [need] continuation bytes of the point
    [acc] are missing, the next of them between [lo] and [hi]. *)
Fixpoint utf8_points (need : nat) (lo hi acc : Z) (bs : bytes) : option (list Z) :=
  match bs with
  | [] => match need with O => Some [] | S _ => None end
  | b :: bs =>
      match need with
      | O =>
          if b <? 128 then cons b <$> utf8_points 0 128 191 0 bs
          else if (194 <=? b) && (b <=? 223) then utf8_points 1 128 191 (b - 192) bs
          else if (224 <=? b) && (b <=? 239) then
            utf8_points 2 (if b =? 224 then 160 else 128) (if b =? 237 then 159 else 191) (b - 224) bs
          else if (240 <=? b) && (b <=? 244) then
            utf8_points 3 (if b =? 240 then 144 else 128) (if b =? 244 then 143 else 191) (b - 240) bs
          else None
      | S need =>
          if (lo <=? b) && (b <=? hi) then
            let acc := acc * 64 + (b - 128) in
            match need with
            | O => cons acc <$> utf8_points 0 128 191 0 bs
            | S _ => utf8_points need 128 191 acc bs
            end
          else None
      end
  end.

(** The code points of the text, [None] when the bytes are not UTF-8. *)
Definition tryDecodeUtf8 (bs : bytes) : option (list Z) := utf8_points 0 128 191 0 (strip_bom bs).

Definition printable_point (c : Z) : bool := (c =? 9) || (c =? 10) || (c =? 13) || ((32 <=? c) && (c <=? 126)).

Definition isPrintableText (text : option (list Z)) : bool :=
  match text with Some points => forallb printable_point points | None => false end.

(** A string of code points below 256. *)
Fixpoint text_of (points : list Z) : string :=
  match points with [] => "" | c :: points => String (chr c) (text_of points) end.

Definition decode_bytes (bs : bytes) (is_hash : bool) : string :=
  let text := tryDecodeUtf8 bs in
  if isPrintableText text then text_of (default [] text)
  else if is_hash then "0x" +:+ hex_encode (rev bs)
  else utf8_decode bs.

Definition decodeByteStringFromHex (raw : string) : string :=
  decode_bytes (hex_decode raw) (String.length raw =? 40)%nat.

Definition decodeByteStringFromBase64 (raw : string) : string :=
  let bs := base64_decode raw in decode_bytes bs (length bs =? 20)%nat.

(** ** Stack items *)

(** The declared type of an item, and its value when it is not a list. *)
Definition item_type (item : val) : string := toLowerCase (trimString (get item "type")).

Definition decode_scalar (encoding : string) (item : val) : val :=
  let value := get item "value" in
  let type := item_type item in
  if (type =? "integer")%string then VStr (js_String (v_coalesce value (VStr "0")))
  else if (type =? "boolean")%string then VBool (truthy value)
  else if bool_decide (type ∈ ["string"; "hash160"; "hash256"]) then VStr (js_String (v_coalesce value (VStr "")))
  else if bool_decide (type ∈ ["bytestring"; "bytearray"]) then
    let raw := trimString value in
    if (raw =? "")%string then VStr ""
    else
      let looksHex := str_forall is_hex raw && Nat.even (String.length raw) in
      VStr (if (encoding =? "hex")%string || (negb (encoding =? "base64")%string && looksHex) then
              if looksHex then decodeByteStringFromHex raw else raw
            else decodeByteStringFromBase64 raw)
  else v_coalesce value VNull.

(** The elements of an array are those of its field [value]. *)
Fixpoint decodeNeoItem (encoding : string) (item : val) : val :=
  match item with
  | VObj kvs =>
      let elements := (fix find (kvs : list (string * val)) : list val :=
        match kvs with
        | [] => []
        | (k, v) :: kvs =>
            if decide ("value" = k) then match v with VArr l => map (decodeNeoItem encoding) l | _ => [] end
            else find kvs
        end) kvs in
      if bool_decide (item_type (VObj kvs) ∈ ["array"; "struct"]) then VArr elements
      else decode_scalar encoding (VObj kvs)
  | VArr _ => VNull
  | _ => VNull
  end.

(** ** Events *)

Definition LEGACY_CALLBACK_METHOD : string := "onOracleResult".

(** Element [i] of a destructured array. *)
Definition slot (i : nat) (l : list val) : val := nth i l VUndef.

(** [String(v || d)], [Number(v || 0)] and [Number(v ?? 0)] *)
Definition string_or (v d : val) : val := VStr (js_String (v_or v d)).
Definition text_or_empty (v : val) : val := string_or v (VStr "").
Definition number_val (n : jsnum) : val :=
  match n with Fin z => VNum z | NaN => VNaN | PInf => VFloat "Infinity" | NInf => VFloat "-Infinity" end.
Definition number_or_0 (v : val) : val := number_val (numeric (v_or v (VNum 0))).
Definition number_unless_nullish (v : val) : val := number_val (numeric (v_coalesce v (VNum 0))).

(** A request with a fulfillment time, a result or an error is over. *)
Definition settled (fulfilledAtMs resultText errorText : val) : bool :=
  let at_ := trimString fulfilledAtMs in
  (negb (at_ =? "")%string && negb (at_ =? "0")%string)
  || negb (trimString resultText =? "")%string || negb (trimString errorText =? "")%string.

Definition buildNeoN3EventFromRequestRecord (decoded : val) (requestId : Z) : option val :=
  match decoded with
  | VArr l =>
      if (14 <=? length l)%nat then
        let operation := slot 3 l in
        if (asEventString operation =? "")%string || settled (slot 10 l) (slot 12 l) (slot 13 l) then None
        else Some (VObj [
          ("chain", VStr "neo_n3"); ("requestId", string_or (slot 0 l) (VNum requestId));
          ("requestType", text_or_empty operation); ("appId", text_or_empty (slot 1 l));
          ("moduleId", text_or_empty (slot 2 l)); ("operation", text_or_empty operation);
          ("requester", text_or_empty (slot 5 l)); ("callbackContract", text_or_empty (slot 7 l));
          ("callbackMethod", VStr LEGACY_CALLBACK_METHOD); ("payloadText", text_or_empty (slot 4 l));
          ("createdAtMs", number_or_0 (slot 9 l)); ("fulfilledAtMs", number_or_0 (slot 10 l));
          ("blockNumber", number_or_0 (slot 9 l)); ("txHash", VStr ""); ("logIndex", VNum 0)])
      else if (12 <=? length l)%nat then
        let requestType := slot 1 l in
        if (asEventString requestType =? "")%string || settled (slot 8 l) (slot 10 l) (slot 11 l) then None
        else Some (VObj [
          ("chain", VStr "neo_n3"); ("requestId", string_or (slot 0 l) (VNum requestId));
          ("requestType", text_or_empty requestType); ("requester", text_or_empty (slot 5 l));
          ("callbackContract", text_or_empty (slot 3 l)); ("callbackMethod", text_or_empty (slot 4 l));
          ("payloadText", text_or_empty (slot 2 l)); ("createdAtMs", number_or_0 (slot 7 l));
          ("fulfilledAtMs", number_or_0 (slot 8 l)); ("blockNumber", number_or_0 (slot 7 l));
          ("txHash", VStr ""); ("logIndex", VNum 0)])
      else None
  | _ => None
  end.

Definition NEO_N3_REQUEST_EVENT_NAMES : list string := ["MiniAppRequestQueued"; "OracleRequested"].

Record event_meta := EventMeta {
  em_blockNumber : val;
  em_txHash : val;
  em_logIndex : val;
}.

(** Both callers give a log index. *)
Definition meta_fields (m : event_meta) : list (string * val) :=
  [("blockNumber", number_unless_nullish (em_blockNumber m)); ("txHash", text_or_empty (em_txHash m));
   ("logIndex", number_val (numeric (em_logIndex m)))].

Definition buildNeoN3EventFromNotificationState (eventName : string) (state : list val) (m : event_meta) : option val :=
  if (eventName =? "MiniAppRequestQueued")%string then
    let operation := slot 3 state in
    if (asEventString operation =? "")%string then None
    else Some (VObj ([
      ("chain", VStr "neo_n3"); ("requestId", string_or (slot 0 state) (VStr "0"));
      ("requestType", text_or_empty operation); ("appId", text_or_empty (slot 1 state));
      ("moduleId", text_or_empty (slot 2 state)); ("operation", text_or_empty operation);
      ("requester", text_or_empty (slot 4 state)); ("callbackContract", VStr "");
      ("callbackMethod", VStr LEGACY_CALLBACK_METHOD); ("payloadText", text_or_empty (slot 6 state))]
      ++ meta_fields m))
  else if (eventName =? "OracleRequested")%string then
    let requestType := slot 1 state in
    if (asEventString requestType =? "")%string then None
    else Some (VObj ([
      ("chain", VStr "neo_n3"); ("requestId", string_or (slot 0 state) (VStr "0"));
      ("requestType", text_or_empty requestType); ("requester", text_or_empty (slot 2 state));
      ("callbackContract", text_or_empty (slot 3 state)); ("callbackMethod", text_or_empty (slot 4 state));
      ("payloadText", text_or_empty (slot 5 state))] ++ meta_fields m))
  else None.

(** ** The notifications of a block *)

(** [v[0]] of an optional array *)
Definition at0 (v : val) : val :=
  match v with VArr (x :: _) => x | VObj kvs => assoc_get "0" kvs | _ => VUndef end.

Definition list_of (v : val) : list val := match v with VArr l => l | _ => [] end.

(** Transactions without a hash are skipped; a null one throws. *)
Definition tx_hashes (block : val) : string + list val :=
  hashes <-e map_err (fun t => txid <-e getp t "txid" ;; inr (v_or txid (get t "hash"))) (list_of (get block "tx")) ;;
  inr (filter (fun h => truthy h = true) hashes).

Definition notification_event (targetContract : string) (height : Z) (txHash : val) (logIndex : nat) (notification : val)
    : string + option val :=
  contract <-e getp notification "contract" ;;
  let eventName := trimString (get notification "eventname") in
  if negb (strip0x_lower contract =? targetContract)%string then inr None
  else if negb (bool_decide (eventName ∈ NEO_N3_REQUEST_EVENT_NAMES)) then inr None
  else
    let state := list_of (get (get notification "state") "value") in
    inr (buildNeoN3EventFromNotificationState eventName (decodeNeoItem "base64" <$> state)
           (EventMeta (VNum height) txHash (VNum (Z.of_nat logIndex)))).

(** The index of a notification counts from the start of its execution. *)
Fixpoint notification_events (targetContract : string) (height : Z) (txHash : val) (logIndex : nat) (l : list val)
    : string + list val :=
  match l with
  | [] => inr []
  | n :: l =>
      e <-e notification_event targetContract height txHash logIndex n ;;
      es <-e notification_events targetContract height txHash (S logIndex) l ;;
      inr (match e with Some x => x :: es | None => es end)
  end.

Definition log_events (targetContract : string) (height : Z) (txHash appLog : val) : string + list val :=
  ess <-e map_err (fun execution =>
            notification_events targetContract height txHash 0 (list_of (get execution "notifications")))
          (list_of (get appLog "executions")) ;;
  inr (concat ess).

Definition block_events (targetContract : string) (height : Z) (logs : list (val * val)) : string + list val :=
  ess <-e map_err (fun log => log_events targetContract height log.1 log.2) logs ;;
  inr (concat ess).

(** ** State and awaited calls *)

(** The part of the configuration that changes: [config.neo_n3.rpcUrl] and
    [config.neo_n3.rpcUrls]. *)
Record rpc_state := RpcState {
  rs_rpcUrl : string;
  rs_rpcUrls : list string;
}.

(** [http_json] is the parsed body, [None] when it is not JSON. *)
Record http_response := HttpResponse {
  http_ok : bool;
  http_status : Z;
  http_statusText : string;
  http_text : string;
  http_json : option val;
}.

Inductive n3call : Type -> Type :=
| RpcPost (url method : string) (params : list val) : n3call http_response
| IndexerGet (base path : string) (query : list (string * string)) : n3call http_response
| NitroPost (url : string) (payload : val) (token : val) (timeoutMs : jsnum) : n3call http_response
| Sleep (ms : Z) : n3call unit
| NewUUID : n3call string
| DerivedKey : n3call string
| ContractInvoke (rpcAddress : string) (networkMagic : val) (account : neo_account) (contract method : string)
    (params : list contract_param) : n3call val
| RelayInvocation (payload : val) : n3call (Z * val).

Abbreviation cprog := (prog rpc_state n3call).

Definition throw_err {A} (r : string + A) : cprog A := match r with inl e => Throw e | inr x => Ret x end.

#[local] Open Scope prog_scope.

(** The schedule of [mapWithConcurrency] with one worker; [Concurrency] proves
    the pool. *)
Fixpoint map_in_order {A B} (worker : A -> cprog B) (items : list A) : cprog (list B) :=
  match items with
  | [] => Ret []
  | x :: items => y <-- worker x ;; ys <-- map_in_order worker items ;; Ret (y :: ys)
  end.

(** ** The node *)

(** [[...new Set(values.map(trimString).filter(Boolean))]] *)
Definition uniqueUrls (urls : list string) : list string :=
  uniqueOrdered (filter (fun url => url <> "") (trim <$> urls)).

Definition getNeoN3RpcUrls (s : rpc_state) : list string := uniqueUrls (rs_rpcUrl s :: rs_rpcUrls s).

Definition promoteNeoN3RpcUrl (rpcUrl : string) (s : rpc_state) : rpc_state :=
  let nextUrl := trim rpcUrl in
  if (nextUrl =? "")%string then s else RpcState nextUrl (uniqueUrls (nextUrl :: rs_rpcUrls s)).

Definition createNeoRpcError (rpcUrl method : string) (status : Z) (detail : val) : string :=
  let suffix := trimString detail in
  "Neo RPC " +:+ method +:+ " failed via " +:+ rpcUrl +:+ " (" +:+ num_to_string status +:+ ")"
  +:+ (if (suffix =? "")%string then "" else ": " +:+ suffix).

(** The checks of a response: the body, or the error thrown. *)
Definition rpc_body (rpcUrl method : string) (r : http_response) : string + val :=
  match http_json r with
  | None => inl (createNeoRpcError rpcUrl method (http_status r) (VStr "non-JSON response"))
  | Some body =>
      let error := get body "error" in
      if negb (http_ok r) then
        inl (createNeoRpcError rpcUrl method (http_status r)
               (v_or (get error "message") (v_or (get body "message") (VStr (http_statusText r)))))
      else if truthy error then
        inl (createNeoRpcError rpcUrl method 200 (v_or (get error "message") (VStr (method +:+ " failed"))))
      else inr body
  end.

Definition post_rpc (rpcUrl method : string) (params : list val) : cprog val :=
  response <-- await (RpcPost rpcUrl method params) ;;
  body <-- throw_err (rpc_body rpcUrl method response) ;;
  modify (promoteNeoN3RpcUrl rpcUrl) ;;;
  throw_err (getp body "result").

Fixpoint try_urls (rpcUrls : list string) (method : string) (params : list val) (lastError : string) : cprog val :=
  match rpcUrls with
  | [] => Throw lastError
  | rpcUrl :: rpcUrls =>
      outcome <-- attempt (post_rpc rpcUrl method params) ;;
      match outcome with
      | inr result => Ret result
      | inl error => try_urls rpcUrls method params error
      end
  end.

Definition neoRpcCall (method : string) (params : list val) : cprog val :=
  rpcUrls <-- reads getNeoN3RpcUrls ;;
  match rpcUrls with
  | [] => Throw ("Neo RPC " +:+ method +:+ " failed: no RPC endpoint configured")
  | _ => try_urls rpcUrls method params ("Neo RPC " +:+ method +:+ " failed")
  end.

(** [String(v || '').toUpperCase()] *)
Definition upper_text (v : val) : string := toUpperCase (js_String (v_or v (VStr ""))).

(** The message of [new Error(value)] for a message or a fallback. *)
Definition error_or (v : val) (fallback : string) : string := js_String (v_or v (VStr fallback)).

(** A read-only invocation, unless it faulted: its first stack item, decoded. *)
Definition first_stack_item (result : val) (fault : string) : string + val :=
  if (upper_text (get result "state") =? "FAULT")%string then inl (error_or (get result "exception") fault)
  else inr (decodeNeoItem "base64" (at0 (get result "stack"))).

Definition invoke_read (contract : val) (method : string) (args : list val) (fault : string) : cprog val :=
  result <-- neoRpcCall "invokefunction" [contract; VStr method; VArr args] ;;
  throw_err (first_stack_item result fault).

Definition typed (type : string) (value : val) : val := VObj [("type", VStr type); ("value", value)].

Definition string_param (s : string) : val := typed "String" (VStr s).

Section client.
Context (config : val) (process_env : string -> string).

Definition neo_n3 (field : string) : val := get (get config "neo_n3") field.
Definition nitro (field : string) : val := get (get config "nitro") field.

(** [normalizeBoolean] and [shouldUseDerivedKeys] of [nitro-signer.js];
    [process_env] is the [env] of [shared/node-runtime.js]. *)
Definition normalizeBoolean (value : val) (fallback : bool) : bool :=
  if bool_decide (value = VUndef \/ value = VNull \/ value = VStr "") then fallback
  else bool_decide (toLowerCase (trim (js_String value)) ∈ ["1"; "true"; "yes"]).

Definition shouldUseDerivedKeys : bool :=
  normalizeBoolean (v_coalesce (get config "useDerivedKeys") (VStr (process_env "NITRO_USE_DERIVED_KEYS"))) false.

Definition hasNeoN3RelayerConfig (s : rpc_state) : bool :=
  negb (bool_decide (getNeoN3RpcUrls s = [])) && truthy (neo_n3 "oracleContract")
  && (truthy (neo_n3 "updaterWif") || truthy (neo_n3 "updaterPrivateKey") || shouldUseDerivedKeys).

Definition getNeoN3LatestBlock : cprog jsnum :=
  blockCount <-- neoRpcCall "getblockcount" [] ;; Ret (num_add (numeric blockCount) (-1)).

Definition getNeoN3LatestRequestId : cprog jsnum :=
  total <-- invoke_read (neo_n3 "oracleContract") "getTotalRequests" [] "Neo N3 getTotalRequests faulted" ;;
  Ret (numeric (v_or total (VStr "0"))).

(** ** The indexer *)

Definition indexer_network : string :=
  if (trimString (get config "network") =? "mainnet")%string then "mainnet" else "testnet".

Fixpoint drop_last_slash (s : string) : string :=
  match s with
  | "" => ""
  | String a "" => if Ascii.eqb a "/" then "" else s
  | String a s => String a (drop_last_slash s)
  end.

Definition indexer_base : string :=
  drop_last_slash (trimString (v_or (neo_n3 "indexerUrl") (VStr "https://api.n3index.dev/rest/v1"))).

Definition indexer_error (label : string) (r : http_response) : string :=
  trim (label +:+ num_to_string (http_status r) +:+ " " +:+ http_text r).

(** The rows of a reply; a body that is not JSON has none. *)
Definition indexer_rows (path label : string) (query : list (string * string)) : cprog val :=
  response <-- await (IndexerGet indexer_base path (("network", "eq." +:+ indexer_network) :: query)) ;;
  if negb (http_ok response) then Throw (indexer_error label response)
  else Ret (default (VArr []) (http_json response)).

Definition getNeoN3IndexedBlock : cprog jsnum :=
  rows <-- indexer_rows "/indexer_state" "n3index indexer_state failed: "
             [("select", "last_indexed_block"); ("limit", "1")] ;;
  let latest := if is_array rows then numeric (v_or (get (at0 rows) "last_indexed_block") (VNum 0)) else Fin 0 in
  if negb (isFinite latest) || num_le latest (Fin 0) then Throw "n3index last_indexed_block unavailable"
  else Ret latest.

Definition row_number (row : val) (field : string) : jsnum := numeric (v_or (get row field) (VNum 0)).

Definition in_window (fromBlock toBlock : Z) (row : val) : bool :=
  num_le (Fin fromBlock) (row_number row "block_index") && num_le (row_number row "block_index") (Fin toBlock).

(** Whether [left] sorts after [right]. *)
Definition row_after (left right : val) : bool :=
  let l := row_number left "block_index" in
  let r := row_number right "block_index" in
  if bool_decide (l = r) then num_lt (row_number right "notification_index") (row_number left "notification_index")
  else num_lt r l.

(** A stable sort. *)
Fixpoint insert_row (row : val) (rows : list val) : list val :=
  match rows with
  | [] => [row]
  | x :: rows => if row_after x row then row :: x :: rows else x :: insert_row row rows
  end.
Definition sort_rows (rows : list val) : list val := foldl (fun acc row => insert_row row acc) [] rows.

Definition row_state (row : val) : list val :=
  match get (get row "state_json") "value" with
  | VArr l => l
  | _ => list_of (get (get (get row "raw_json") "state") "value")
  end.

Definition row_event (row : val) : option val :=
  buildNeoN3EventFromNotificationState (trimString (get row "event_name")) (decodeNeoItem "base64" <$> row_state row)
    (EventMeta (number_val (row_number row "block_index")) (text_or_empty (get row "txid"))
       (number_val (row_number row "notification_index"))).

Definition has_request_type (event : val) : bool := negb (asEventString (get event "requestType") =? "")%string.

Definition index_events (fromBlock toBlock : Z) (rows : list val) : list val :=
  filter (fun event => has_request_type event = true)
    (omap row_event (sort_rows (filter (fun row => in_window fromBlock toBlock row = true) rows))).

(** [Math.max(config.maxBlocksPerTick * 4, 500)] *)
Definition index_limit : jsnum :=
  num_max (match numeric (get config "maxBlocksPerTick") with Fin n => Fin (n * 4) | x => x end) (Fin 500).

Definition scanNeoN3OracleRequestsViaN3Index (fromBlock toBlock : Z) : cprog (list val) :=
  if toBlock <? fromBlock then Ret []
  else
    rows <-- indexer_rows "/contract_notifications" "n3index oracle request scan failed: "
               [("contract_hash", "eq." +:+ js_String (neo_n3 "oracleContract"));
                ("event_name", "in.(" +:+ join "," NEO_N3_REQUEST_EVENT_NAMES +:+ ")");
                ("order", "block_index.desc"); ("limit", js_String (number_val index_limit))] ;;
    match rows with
    | VArr rows => Ret (index_events fromBlock toBlock rows)
    | _ => Ret []
    end.

(** ** Scans *)

Definition scanNeoN3OracleRequestBlock (targetContract : string) (height : Z) : cprog (list val) :=
  block <-- neoRpcCall "getblock" [VNum height; VNum 1] ;;
  txHashes <-- throw_err (tx_hashes block) ;;
  appLogs <-- map_in_order (fun txHash => neoRpcCall "getapplicationlog" [txHash]) txHashes ;;
  throw_err (block_events targetContract height (zip txHashes appLogs)).

(** The integers from [from] to [to]. *)
Definition range (from to : Z) : list Z := seqZ from (to - from + 1).

Definition scanNeoN3OracleRequests (fromBlock toBlock : Z) : cprog (list val) :=
  if toBlock <? fromBlock then Ret []
  else
    perBlockEvents <-- map_in_order (scanNeoN3OracleRequestBlock (strip0x_lower (neo_n3 "oracleContract")))
                         (range fromBlock toBlock) ;;
    Ret (concat perBlockEvents).

Definition request_event (requestId : Z) : cprog (option val) :=
  record <-- invoke_read (neo_n3 "oracleContract") "getRequest" [typed "Integer" (VStr (num_to_string requestId))]
               ("Neo N3 getRequest faulted for request " +:+ num_to_string requestId) ;;
  Ret (buildNeoN3EventFromRequestRecord record requestId).

Definition scanNeoN3OracleRequestsById (fromRequestId toRequestId : Z) : cprog (list val) :=
  if toRequestId <? fromRequestId then Ret []
  else
    events <-- map_in_order request_event (range fromRequestId toRequestId) ;;
    Ret (omap id events).

Definition fetchNeoN3FeedRecord (pair : string) : cprog val :=
  decoded <-- invoke_read (neo_n3 "datafeedContract") "getLatest" [string_param pair]
                ("Neo N3 getLatest faulted for " +:+ pair) ;;
  match decoded with
  | VArr l =>
      if (length l <? 6)%nat then Throw ("Neo N3 feed response malformed for " +:+ pair)
      else Ret (VObj [("pair", string_or (slot 0 l) (VStr pair)); ("roundId", string_or (slot 1 l) (VStr "0"));
                      ("price", string_or (slot 2 l) (VStr "0")); ("timestamp", string_or (slot 3 l) (VStr "0"));
                      ("attestationHash", text_or_empty (slot 4 l)); ("sourceSetId", string_or (slot 5 l) (VStr "0"))])
  | _ => Throw ("Neo N3 feed response malformed for " +:+ pair)
  end.
End client.
