(* ===== verification/N3Fulfill.v ===== *)
(** * The Neo N3 client of the relayer: sending ([neo-n3.js], [nitro.js])

    The fee top-up and the building of transactions; then the fulfillment of a
    request and the queueing of an automation request, by the updater's own key
    and when that fails by the key the enclave derives, and the wait for the
    machine's verdict.  The pure functions of neon-js are parameters ([n3_lib]). *)
From stdpp Require Import strings.
From S2P Require Import Prelude Numbers Strings Values Text Effects Encoding Envelope Doubles Upkeep WorkerCore Allowlist Signers Buffers FeedRegistry N3Client.
From Stdlib Require Import QArith.
#[local] Open Scope list_scope.
#[local] Open Scope Z_scope.
#[local] Open Scope prog_scope.

Record witness := Witness {
  wt_invocationScript : string;
  wt_verificationScript : string;
}.

(** Scripts and accounts are hexadecimal; the single signer has the scope
    [CalledByEntry]. *)
Record n3_tx := N3Tx {
  tx_nonce : Z;
  tx_script : string;
  tx_validUntilBlock : jsnum;
  tx_signer : string;
  tx_systemFee : Z;
  tx_networkFee : Z;
  tx_witnesses : list witness;
}.

Definition set_system_fee (fee : Z) (t : n3_tx) : n3_tx :=
  N3Tx (tx_nonce t) (tx_script t) (tx_validUntilBlock t) (tx_signer t) fee (tx_networkFee t) (tx_witnesses t).
Definition set_network_fee (fee : Z) (t : n3_tx) : n3_tx :=
  N3Tx (tx_nonce t) (tx_script t) (tx_validUntilBlock t) (tx_signer t) (tx_systemFee t) fee (tx_witnesses t).
Definition set_witnesses (ws : list witness) (t : n3_tx) : n3_tx :=
  N3Tx (tx_nonce t) (tx_script t) (tx_validUntilBlock t) (tx_signer t) (tx_systemFee t) (tx_networkFee t) ws.

(** neon-js; [inl] is an exception.  Serialized transactions, scripts and
    messages are hexadecimal. *)
Record n3_lib := N3Lib {
  nl_account : string -> string + neo_account;
  nl_address_hash : string -> option string;
  nl_public_hash : string -> string + string;
  nl_verification_script : string -> string + string;
  nl_witness_hash : witness -> string;
  nl_script : string -> string -> list contract_param -> string + string;
  nl_sign : n3_tx -> neo_account -> val -> string + n3_tx;
  nl_message : n3_tx -> val -> string + string;
  nl_serialize : n3_tx -> string + string;
  nl_hash : n3_tx -> string + string;
}.

Definition GAS_CONTRACT_HASH : string := "0xd2a4cff31913016155e38e474a2c06d08be276cf".
Definition DEFAULT_FEE_TOP_UP_MIN_BALANCE : Z := 50000000.
Definition DEFAULT_FEE_TOP_UP_AMOUNT : Z := 100000000.
Definition DEFAULT_FEE_TOP_UP_MAX_AMOUNT : Z := 500000000.
Definition NEO_N3_TX_VALID_BLOCKS : Z := 120.
Definition NEO_N3_FEE_PADDING : Z := 100000.
Definition NEO_N3_SYSTEM_FEE_HEADROOM_DIVISOR : Z := 5.
Definition DEFAULT_FULFILL_CONFIRM_TIMEOUT_MS : Z := 45000.

Definition hex_to_base64 (hex : string) : string := base64_encode (hex_decode hex).

Definition encodeUtf8ByteArrayParamValue (value : val) : string :=
  let raw := trimString value in if (raw =? "")%string then "" else base64_encode (utf8 raw).

Definition base64ToHex (value : string) : string :=
  let raw := trim value in if (raw =? "")%string then "" else hex_encode (base64_decode raw).

Definition normalizePublicKey (value : val) : string + string :=
  let publicKey := strip0x_lower value in
  if hex_of_length 66 publicKey || hex_of_length 130 publicKey then inr publicKey
  else inl "runtime derived updater returned an invalid public key".

Definition normalizeSignature (value : val) : string + string :=
  let signature := strip0x_lower value in
  if hex_of_length 128 signature then inr signature
  else inl "runtime derived updater returned an invalid signature".

Definition parseNonNegativeBigInt (value : val) (fallback : Z) : Z :=
  default fallback (read_digits1 10 (trimString value)).

(** The first execution of a log, and its state. *)
Definition vm_state_of (appLog : val) : val * string :=
  let execution := at0 (get appLog "executions") in
  (execution, toUpperCase (trimString (v_or (get execution "vmstate") (VStr "")))).

Record fee_settings := FeeSettings {
  fs_minBalance : Z;
  fs_topUpAmount : Z;
  fs_maxTopUpAmount : Z;
  fs_funderWif : string;
  fs_funderPrivateKey : string;
}.

Inductive top_up :=
| TopUpSkipped (reason : string)
| TopUpSent (txHash : string) (amount previousBalance requiredBalance : Z).

(** How a transaction gets its witnesses. *)
Record signer_adapter := SignerAdapter {
  sa_scriptHash : string;
  sa_sign : n3_tx -> cprog n3_tx;
  sa_verifyWitness : n3_tx -> string + unit;
}.

Record tx_options := TxOptions {
  to_systemFeeHeadroom : bool;
  to_ensureFeeBalance : Z -> cprog unit;
  to_buildTestInvokeFaultError : val -> string;
}.

Record runtime_updater := RuntimeUpdater {
  ru_publicKey : string;
  ru_scriptHash : string;
}.

Section submit.
Context (config : val) (process_env : string -> string) (L : n3_lib).
#[local] Abbreviation neo := (neo_n3 config).

Definition normalizeHash160 (value : val) : string :=
  let raw := trimString value in
  if hex_of_length 40 (strip0x raw) then "0x" +:+ toLowerCase (strip0x raw)
  else match nl_address_hash L raw with Some hash => toLowerCase ("0x" +:+ hash) | None => "" end.

(** ** [nitro.js] *)

Definition resolveCandidateApiUrls (apiUrl : val) : list string :=
  filter (fun url => url <> "") ((fun entry => drop_last_slash (trim entry)) <$> Text.split ","%char (js_String (v_or apiUrl (VStr "")))).

Definition decorateWorkerPayload (payload : list (string * val)) : list (string * val) :=
  let has k := truthy (assoc_get k payload) in
  let named := has "network" || has "morpheus_network" || has "runtime_network" || has "environment" in
  let payload := if negb named && truthy (get config "network")
                 then spread payload [("network", get config "network")] else payload in
  if truthy (v_coalesce (nitro config "useDerivedKeys") (get config "useDerivedKeys"))
     && is_undefined (assoc_get "use_derived_keys" payload) && is_undefined (assoc_get "useDerivedKeys" payload)
  then spread payload [("use_derived_keys", VBool true)] else payload.

(** [options] names an endpoint only. *)
Definition nitro_timeout : jsnum :=
  let wanted := numeric (v_or (nitro config "timeoutMs") (VNum 10000)) in
  num_min (num_max wanted (Fin 1000)) (num_max (num_min (Fin 10000) (Fin 30000)) (Fin 10000)).

Definition nitro_body (r : http_response) : val :=
  if (http_text r =? "")%string then VObj []
  else match http_json r with Some body => body | None => VObj [("raw", VStr (http_text r))] end.

Fixpoint try_nitro (apiUrls : list string) (path : string) (payload : val) (lastError : string) : cprog worker_response :=
  match apiUrls with
  | [] => Throw lastError
  | apiBaseUrl :: apiUrls =>
      outcome <-- attempt (await (NitroPost (apiBaseUrl +:+ path) payload (nitro config "token") nitro_timeout)) ;;
      match outcome with
      | inr r => Ret (WorkerResponse (http_ok r) (http_status r) (nitro_body r))
      | inl error => try_nitro apiUrls path payload error
      end
  end.

Definition callNitro (path : string) (payload : list (string * val)) (baseUrl : val) : cprog worker_response :=
  match resolveCandidateApiUrls (v_or baseUrl (nitro config "apiUrl")) with
  | [] => Throw "MORPHEUS_RUNTIME_URL or NITRO_API_URL is not configured"
  | apiUrls => try_nitro apiUrls path (VObj (decorateWorkerPayload payload)) "null"
  end.

(** ** Fees *)

(** [None]: the top-up is disabled. *)
Definition getNeoN3FeeTopUpSettings : option fee_settings :=
  let raw := v_or (neo "feeTopUp") (VObj []) in
  if negb (truthy (get raw "enabled")) then None
  else Some (FeeSettings (parseNonNegativeBigInt (get raw "minBalance") DEFAULT_FEE_TOP_UP_MIN_BALANCE)
               (parseNonNegativeBigInt (get raw "topUpAmount") DEFAULT_FEE_TOP_UP_AMOUNT)
               (parseNonNegativeBigInt (get raw "maxTopUpAmount") DEFAULT_FEE_TOP_UP_MAX_AMOUNT)
               (trimString (get raw "funderWif")) (trimString (get raw "funderPrivateKey"))).

(** A blank secret has no account. *)
Definition buildLocalNeoN3AccountFromSecret (wif privateKey : string) : string + option neo_account :=
  let secret := trim wif ||s trim privateKey in
  if (secret =? "")%string then inr None else account <-e nl_account L secret ;; inr (Some account).

Definition readNeoN3GasBalance (scriptHash : string) : cprog Z :=
  let normalized := normalizeHash160 (VStr scriptHash) in
  if (normalized =? "")%string then Throw "Neo N3 GAS balance read failed: invalid account"
  else
    balance <-- invoke_read (VStr GAS_CONTRACT_HASH) "balanceOf" [typed "Hash160" (VStr normalized)]
                  "Neo N3 GAS balance read faulted" ;;
    throw_err (val_BigInt (v_or balance (VStr "0"))).

(** The clock of a wait: [Date.now() + timeout], and [Date.now() < deadline]. *)
Definition deadline_after (timeout : jsnum) : cprog jsnum := now <-- clock ;; Ret (num_add timeout now).

Definition fee_wait_timeout : jsnum := numeric (v_or (get (neo "feeTopUp") "waitTimeoutMs") (VNum 45000)).

(** [fuel] bounds the polls. *)
Fixpoint poll_halt (fuel : nat) (txHash label : string) (deadline : jsnum) (lastError : string) : cprog unit :=
  match fuel with
  | O => Throw "still waiting"
  | S fuel =>
      now <-- clock ;;
      if negb (num_lt (Fin now) deadline) then
        Throw (label +:+ " was not confirmed before timeout (" +:+ txHash +:+ ")"
               +:+ (if (lastError =? "")%string then "" else ": " +:+ lastError))
      else
        log <-- attempt (neoRpcCall "getapplicationlog" [VStr txHash]) ;;
        let again lastError := await (Sleep 1000) ;;; poll_halt fuel txHash label deadline lastError in
        match log with
        | inl error => again error
        | inr appLog =>
            let '(execution, vmState) := vm_state_of appLog in
            if (vmState =? "HALT")%string then Ret tt
            else if negb (vmState =? "")%string then
              Throw (label +:+ " faulted (" +:+ txHash +:+ "): " +:+ error_or (get execution "exception") vmState)
            else again lastError
        end
  end.

Definition waitForNeoN3TransactionHalt (fuel : nat) (txHash label : string) : cprog unit :=
  deadline <-- deadline_after fee_wait_timeout ;; poll_halt fuel txHash label deadline "".

(** ** Building and sending *)

(** [Math.floor(Math.random() * 2 ** 32)] *)
Definition draw_nonce : cprog Z := local (fun _ rng s => (Qnum rng * 2 ^ 32 / Zpos (Qden rng), s)).

Definition call_signer (account : string) : val :=
  VArr [VObj [("account", VStr account); ("scopes", VStr "CalledByEntry")]].

Definition system_fee (headroom : bool) (gasConsumed : Z) : Z :=
  if headroom then gasConsumed + Z.quot gasConsumed NEO_N3_SYSTEM_FEE_HEADROOM_DIVISOR + NEO_N3_FEE_PADDING
  else gasConsumed + NEO_N3_FEE_PADDING.

(** [BigInt(value || '0')] *)
Definition BigInt_or_0 (value : val) : string + Z := val_BigInt (v_or value (VStr "0")).

Definition network_fee_of (response : val) : val :=
  match response with
  | VStr _ => response
  | _ => v_or (get response "networkfee") (v_or (get response "network_fee") (VStr "0"))
  end.

Definition signed_base64 (t : n3_tx) : cprog val :=
  hex <-- throw_err (nl_serialize L t) ;; Ret (VStr (hex_to_base64 hex)).

(** The transaction with both fees, unsigned, and the fee it requires. *)
Definition price_transaction (script : string) (A : signer_adapter) (O : tx_options) : cprog (n3_tx * Z) :=
  let signerAccount := strip0x_lower (VStr (sa_scriptHash A)) in
  blockCount <-- neoRpcCall "getblockcount" [] ;;
  nonce <-- draw_nonce ;;
  let transaction := N3Tx nonce script (num_add (numeric blockCount) NEO_N3_TX_VALID_BLOCKS) signerAccount 0 0 [] in
  testInvoke <-- neoRpcCall "invokescript" [VStr (hex_to_base64 script); call_signer signerAccount] ;;
  if (upper_text (get testInvoke "state") =? "FAULT")%string then
    Throw (to_buildTestInvokeFaultError O (get testInvoke "exception"))
  else
    gasConsumed <-- throw_err (BigInt_or_0 (v_or (get testInvoke "gasconsumed") (get testInvoke "gas_consumed"))) ;;
    let systemFee := system_fee (to_systemFeeHeadroom O) gasConsumed in
    transaction <-- sa_sign A (set_system_fee systemFee transaction) ;;
    unsigned <-- signed_base64 transaction ;;
    networkFeeResponse <-- neoRpcCall "calculatenetworkfee" [unsigned] ;;
    networkFee <-- throw_err (BigInt_or_0 (network_fee_of networkFeeResponse)) ;;
    Ret (set_network_fee (networkFee + NEO_N3_FEE_PADDING) transaction, systemFee + networkFee + NEO_N3_FEE_PADDING).

Definition buildSignAndBroadcastNeoN3Tx (script : string) (A : signer_adapter) (O : tx_options) : cprog string :=
  priced <-- price_transaction script A O ;;
  to_ensureFeeBalance O priced.2 ;;;
  transaction <-- sa_sign A priced.1 ;;
  throw_err (sa_verifyWitness A transaction) ;;;
  hash <-- throw_err (nl_hash L transaction) ;;
  signed <-- signed_base64 transaction ;;
  neoRpcCall "sendrawtransaction" [signed] ;;;
  Ret ("0x" +:+ hash).

(** ** The fee top-up *)

Definition transfer_params (from to : string) (amount : Z) : list contract_param :=
  [CHash160 ("0x" +:+ from); CHash160 to; CInteger (num_to_string amount); CAny VNull].

Definition local_adapter (account : neo_account) : signer_adapter :=
  SignerAdapter (na_scriptHash account) (fun t => throw_err (nl_sign L t account (neo "networkMagic"))) (fun _ => inr tt).

Definition TOP_UP_LABEL : string := "Neo N3 updater fee top-up".

Definition sendNeoN3GasTransfer (fuel : nat) (funder : neo_account) (toScriptHash : string) (amount : Z) : cprog string :=
  let to := normalizeHash160 (VStr toScriptHash) in
  script <-- throw_err (nl_script L (strip0x_lower (VStr GAS_CONTRACT_HASH)) "transfer"
                          (transfer_params (na_scriptHash funder) to amount)) ;;
  txHash <-- buildSignAndBroadcastNeoN3Tx script (local_adapter funder)
    (TxOptions false (fun _ => Ret tt)
       (fun exception => TOP_UP_LABEL +:+ " test invoke faulted: " +:+ error_or exception "unknown error")) ;;
  waitForNeoN3TransactionHalt fuel txHash TOP_UP_LABEL ;;;
  Ret txHash.

Definition top_up_amount (settings : fee_settings) (deficit : Z) : Z := Z.max deficit (fs_topUpAmount settings).

(** From the balance of the target on. *)
Definition top_up_target (fuel : nat) (settings : fee_settings) (targetHash : string) (requiredBalance currentBalance : Z)
    : cprog top_up :=
  funder <-- throw_err (buildLocalNeoN3AccountFromSecret (fs_funderWif settings) (fs_funderPrivateKey settings)) ;;
  match funder with
  | None => Throw "Neo N3 updater fee balance is below reserve; configure MORPHEUS_RELAYER_NEO_N3_FEE_FUNDER_WIF for auto top-up"
  | Some funder =>
      let funderHash := normalizeHash160 (VStr ("0x" +:+ na_scriptHash funder)) in
      if (funderHash =? targetHash)%string then
        Throw "Neo N3 updater fee top-up funder cannot be the same account as the updater"
      else
        let amount := top_up_amount settings (requiredBalance - currentBalance) in
        if (0 <? fs_maxTopUpAmount settings) && (fs_maxTopUpAmount settings <? amount) then
          Throw ("Neo N3 updater fee top-up amount " +:+ num_to_string amount +:+ " exceeds configured max "
                 +:+ num_to_string (fs_maxTopUpAmount settings))
        else
          funderBalance <-- readNeoN3GasBalance funderHash ;;
          if funderBalance <? amount + fs_minBalance settings then
            Throw "Neo N3 updater fee top-up funder has insufficient GAS reserve"
          else
            txHash <-- sendNeoN3GasTransfer fuel funder targetHash amount ;;
            Ret (TopUpSent txHash amount currentBalance requiredBalance)
  end.

(** [target] is the script hash or the address of an account. *)
Definition ensureNeoN3FeeBalance (fuel : nat) (target : string) (requiredFee : Z) : cprog top_up :=
  match getNeoN3FeeTopUpSettings with
  | None => Ret (TopUpSkipped "disabled")
  | Some settings =>
      let targetHash := normalizeHash160 (VStr target) in
      if (targetHash =? "")%string then Ret (TopUpSkipped "invalid-target")
      else
        let requiredBalance := requiredFee + fs_minBalance settings in
        currentBalance <-- readNeoN3GasBalance targetHash ;;
        if requiredBalance <=? currentBalance then Ret (TopUpSkipped "sufficient")
        else top_up_target fuel settings targetHash requiredBalance currentBalance
  end.
End submit.

(** ** Delivery *)

(** The state of the VM and the exception that a confirmation reports. *)
Record confirmation := Confirmation {
  cf_vm_state : string;
  cf_exception : string;
}.

Definition fault_text (requestId txHash detail : string) : string :=
  "Neo N3 fulfillRequest faulted for request " +:+ requestId +:+ " (" +:+ txHash +:+ "): " +:+ detail.

Definition timeout_text (requestId txHash detail : string) : string :=
  "Neo N3 fulfillRequest confirmation timed out for request " +:+ requestId +:+ " (" +:+ txHash +:+ "): " +:+ detail.

(** A missing state counts as [HALT]. *)
Definition assertNeoN3HaltExecution (requestId txHash : string) (execution : val) : string + confirmation :=
  let vmState := toUpperCase (trimString (v_or (get execution "vmstate") (VStr "HALT"))) ||s "HALT" in
  let exception := trimString (v_or (get execution "exception") (VStr "")) in
  if (vmState =? "HALT")%string then inr (Confirmation vmState exception)
  else inl (fault_text requestId txHash (exception ||s ("VM state " +:+ vmState))).

(** An error that is rethrown at once. *)
Definition is_fault_text (error : string) : bool := includes error "Neo N3 fulfillRequest faulted".

(** What one look at the application log decides: nothing yet, or a verdict. *)
Definition confirm_once (requestId txHash : string) (appLog : val) : option (string + confirmation) :=
  let '(execution, vmState) := vm_state_of appLog in
  if (vmState =? "")%string then None else Some (assertNeoN3HaltExecution requestId txHash execution).

(** A transaction of the updater, as neon-js or the enclave's key made it. *)
Record fulfill_request := FulfillRequest {
  fr_requestId : string;
  fr_success : bool;
  fr_resultHex : string;
  fr_error : string;
  fr_verificationSignature : string;
}.

(** [.replace(/^0x/i, '')] of a trimmed text *)
Definition buildFulfillRequestParams (r : fulfill_request) : list contract_param :=
  [CInteger (fr_requestId r); CBoolean (fr_success r); CBytesHex (fr_resultHex r); CString (fr_error r);
   CBytesHex (strip0x (fr_verificationSignature r))].

Record fulfilled := Fulfilled {
  fd_request_id : string;
  fd_tx_hash : string;
  fd_vm_state : string;
  fd_exception : string;
}.

Record automation_request := AutomationRequest {
  aq_requester : string;
  aq_requestType : string;
  aq_payloadText : string;
  aq_callbackContract : string;
  aq_callbackMethod : string;
}.

Section fulfill.
Context (config : val) (process_env : string -> string) (L : n3_lib).
#[local] Abbreviation neo := (neo_n3 config).

(** ** The enclave's updater key *)

Definition resolveRuntimeDerivedUpdater : cprog runtime_updater :=
  response <-- callNitro config "/keys/derived"
    [("role", VStr "updater"); ("key_role", VStr "updater"); ("dstack_key_role", VStr "updater");
     ("target_chain", VStr "neo_n3"); ("use_derived_keys", VBool true)] (nitro config "signerUrl") ;;
  if negb (wr_ok response) then
    Throw ("runtime derived updater lookup failed with status " +:+ num_to_string (wr_status response))
  else
    let keys := v_or (get (get (wr_body response) "derived") "neo_n3") (v_or (get (wr_body response) "neo_n3") (VObj [])) in
    publicKey <-- throw_err (normalizePublicKey (v_or (get keys "public_key") (v_or (get keys "publicKey") (VStr "")))) ;;
    let named := normalizeHash160 L (get keys "script_hash") ||s normalizeHash160 L (get keys "address") in
    if negb (named =? "")%string then Ret (RuntimeUpdater publicKey named)
    else
      hash <-- throw_err (nl_public_hash L publicKey) ;;
      Ret (RuntimeUpdater publicKey (toLowerCase ("0x" +:+ hash))).

Definition sign_request (messageHex : string) : list (string * val) :=
  [("target_chain", VStr "neo_n3"); ("key_role", VStr "updater"); ("dstack_key_role", VStr "updater");
   ("data_hex", VStr (strip0x messageHex)); ("use_derived_keys", VBool true)].

(** The signature of a message by that key, with the key that made it. *)
Definition signNeoN3TransactionWithRuntimeUpdater (messageHex : string) (expectedPublicKey : string)
    : cprog (string * string) :=
  response <-- callNitro config "/sign/payload" (sign_request messageHex) (nitro config "signerUrl") ;;
  if negb (wr_ok response) then
    Throw ("runtime derived updater signing failed with status " +:+ num_to_string (wr_status response))
  else
    let body := wr_body response in
    signature <-- throw_err (normalizeSignature (v_or (get body "signature") (v_or (get body "signature_hex") (VStr "")))) ;;
    publicKey <-- throw_err (normalizePublicKey (v_or (get body "public_key") (v_or (get body "publicKey") (VStr "")))) ;;
    expected <-- throw_err (normalizePublicKey (VStr expectedPublicKey)) ;;
    if negb (toLowerCase publicKey =? toLowerCase expected)%string then
      Throw "runtime derived updater signing key changed between lookup and signing"
    else Ret (signature, publicKey).

Definition buildSignatureWitness (signature publicKey : string) : string + witness :=
  signature <-e normalizeSignature (VStr signature) ;;
  publicKey <-e normalizePublicKey (VStr publicKey) ;;
  verification <-e nl_verification_script L publicKey ;;
  inr (Witness ("0c40" +:+ signature) verification).

Definition buildRuntimeDerivedUpdaterSignerAdapter (updater : runtime_updater) : signer_adapter :=
  SignerAdapter (ru_scriptHash updater)
    (fun transaction =>
       message <-- throw_err (nl_message L transaction (neo "networkMagic")) ;;
       signed <-- signNeoN3TransactionWithRuntimeUpdater message (ru_publicKey updater) ;;
       w <-- throw_err (buildSignatureWitness signed.1 signed.2) ;;
       Ret (set_witnesses [w] transaction))
    (fun transaction =>
       match tx_witnesses transaction with
       | w :: _ =>
           let witnessHash := normalizeHash160 L (VStr ("0x" +:+ nl_witness_hash L w)) in
           if (witnessHash =? ru_scriptHash updater)%string then inr tt
           else inl ("runtime derived updater witness mismatch: expected " +:+ ru_scriptHash updater +:+ ", got " +:+ witnessHash)
       | [] => inl "Cannot read properties of undefined (reading 'scriptHash')"
       end).

(** A call of the oracle contract, sent with that key. *)
Definition send_with_runtime_updater (fuel : nat) (operation : string) (args : list contract_param) (fault : val -> string)
    : cprog string :=
  updater <-- resolveRuntimeDerivedUpdater ;;
  script <-- throw_err (nl_script L (strip0x_lower (neo "oracleContract")) operation args) ;;
  buildSignAndBroadcastNeoN3Tx L script (buildRuntimeDerivedUpdaterSignerAdapter updater)
    (TxOptions true
       (fun requiredFee => ensureNeoN3FeeBalance config L fuel (ru_scriptHash updater) requiredFee ;;; Ret tt)
       fault).

Definition fulfillNeoN3RequestWithRuntimeDerivedUpdater (fuel : nat) (r : fulfill_request) : cprog string :=
  send_with_runtime_updater fuel "fulfillRequest" (buildFulfillRequestParams r)
    (fun exception => "Neo N3 fulfillRequest test invoke faulted for request " +:+ fr_requestId r +:+ ": "
                      +:+ error_or exception "unknown error").

(** ** Confirmation *)

Definition positive_number (v : val) : option Z :=
  match numeric v with Fin n => if 0 <? n then Some n else None | _ => None end.

Definition getNeoN3FulfillConfirmTimeoutMs : Z :=
  match positive_number (neo "fulfillConfirmTimeoutMs") with
  | Some explicit => explicit
  | None => default DEFAULT_FULFILL_CONFIRM_TIMEOUT_MS (positive_number (get (neo "feeTopUp") "waitTimeoutMs"))
  end.

Definition shouldThrowOnNeoN3FulfillConfirmTimeout : bool :=
  match neo "fulfillConfirmThrowOnTimeout" with VUndef | VNull => true | v => truthy v end.

(** No verdict yet: another poll in a second, until the deadline; [lastError] is
    empty when there is none. *)
Definition wait_or_time_out (requestId txHash : string) (deadline : Z) (lastError : string) (again : cprog confirmation)
    : cprog confirmation :=
  now <-- clock ;;
  if deadline <=? now then
    let detail := lastError ||s "fulfillRequest application log unavailable before timeout" in
    if shouldThrowOnNeoN3FulfillConfirmTimeout then Throw (timeout_text requestId txHash detail)
    else Ret (Confirmation "UNKNOWN" detail)
  else await (Sleep 1000) ;;; again.

(** [fuel] bounds the polls. *)
Fixpoint poll_confirm (fuel : nat) (requestId txHash : string) (deadline : Z) (lastError : string) : cprog confirmation :=
  match fuel with
  | O => Throw "still waiting"
  | S fuel =>
      log <-- attempt (neoRpcCall "getapplicationlog" [VStr txHash]) ;;
      let wait lastError := wait_or_time_out requestId txHash deadline lastError (poll_confirm fuel requestId txHash deadline lastError) in
      match log with
      | inl error => if is_fault_text error then Throw error else wait error
      | inr appLog =>
          match confirm_once requestId txHash appLog with
          | Some verdict => throw_err verdict
          | None => wait lastError
          end
      end
  end.

Definition confirmNeoN3FulfillExecution (fuel : nat) (requestId txHash : string) : cprog confirmation :=
  now <-- clock ;;
  poll_confirm fuel requestId txHash (now + getNeoN3FulfillConfirmTimeoutMs) "".

(** ** The updater's own key *)

(** The fields a signer is named by, and the secret. *)
Definition resolveNeoN3UpdaterPayload : cprog (string * val) :=
  if truthy (neo "updaterWif") then Ret ("wif", neo "updaterWif")
  else if truthy (neo "updaterPrivateKey") then Ret ("private_key", neo "updaterPrivateKey")
  else if shouldUseDerivedKeys config process_env then
    key <-- await DerivedKey ;; Ret ("private_key", VStr key)
  else Throw "Neo N3 updater signing material is not configured".

Definition signer_account (signer : string * val) : string + neo_account := nl_account L (js_String signer.2).

(** The top-up before a submission; its failure is ignored. *)
Definition best_effort_top_up (fuel : nat) (account : neo_account) : cprog unit :=
  attempt (ensureNeoN3FeeBalance config L fuel (na_scriptHash account) 0) ;;; Ret tt.

Definition prefixed_hash (raw : val) : string :=
  let t := trimString raw in if startsWith t "0x" then t else "0x" +:+ t.

(** The [try] block of [fulfillNeoN3Request]. *)
Definition submit_with_own_key (fuel : nat) (r : fulfill_request) : cprog string :=
  signer <-- resolveNeoN3UpdaterPayload ;;
  account <-- throw_err (signer_account signer) ;;
  best_effort_top_up fuel account ;;;
  rpcUrl <-- reads rs_rpcUrl ;;
  txHashRaw <-- await (ContractInvoke rpcUrl (neo "networkMagic") account (js_String (neo "oracleContract"))
                         "fulfillRequest" (buildFulfillRequestParams r)) ;;
  Ret (prefixed_hash txHashRaw).

(** A failure of [p] is thrown unless the enclave's key may be used instead. *)
Definition or_derived {A} (p : cprog A) (fallback : cprog A) : cprog A :=
  outcome <-- attempt p ;;
  match outcome with
  | inr x => Ret x
  | inl localError => if shouldUseDerivedKeys config process_env then fallback else Throw localError
  end.

Definition buildNeoN3RelayRequestId (scope requestId : string) : cprog string :=
  uuid <-- await NewUUID ;;
  Ret ("relayer:n3:" +:+ (trim scope ||s "invoke") +:+ ":" +:+ requestId +:+ ":" +:+ uuid).

Definition result_hex (result resultBytesBase64 : string) : string :=
  if (trim resultBytesBase64 =? "")%string then hex_encode (utf8 result) else base64ToHex resultBytesBase64.

Definition fulfillNeoN3Request (fuel : nat) (requestId : string) (success : bool) (result error : string)
    (verificationSignature resultBytesBase64 : string) : cprog fulfilled :=
  let r := FulfillRequest requestId success (result_hex result resultBytesBase64) error verificationSignature in
  txHash <-- or_derived (submit_with_own_key fuel r) (fulfillNeoN3RequestWithRuntimeDerivedUpdater fuel r) ;;
  outcome <-- confirmNeoN3FulfillExecution fuel requestId txHash ;;
  relayId <-- buildNeoN3RelayRequestId "fulfill" requestId ;;
  Ret (Fulfilled relayId txHash (cf_vm_state outcome) (cf_exception outcome)).

(** ** Automation requests *)

(** [/request_id already used/i.test(text)] *)
Definition already_used (text : string) : bool := includes (toLowerCase text) "request_id already used".

Definition duplicate_reply (requestId : string) : val :=
  VObj [("duplicate", VBool true); ("request_id", VStr requestId); ("target_chain", VStr "neo_n3")].

Definition queue_params (q : automation_request) : list contract_param :=
  [CHash160 (aq_requester q); CString (aq_requestType q); CBytesText (base64_encode (utf8 (aq_payloadText q)));
   CHash160 (aq_callbackContract q); CString (aq_callbackMethod q)].

Definition queueNeoN3AutomationRequestWithRuntimeDerivedUpdater (fuel : nat) (q : automation_request) (requestId : string)
    : cprog val :=
  txHash <-- send_with_runtime_updater fuel "queueAutomationRequest" (queue_params q)
    (fun exception => error_or exception ("Neo N3 automation queue test invoke faulted for " +:+ aq_requester q)) ;;
  Ret (VObj [("tx_hash", VStr txHash); ("request_id", VStr requestId); ("vm_state", VStr "UNKNOWN");
             ("target_chain", VStr "neo_n3"); ("signer_source", VStr "runtime_derived_updater")]).

(** The payload of the relayed invocation. *)
Definition queue_invocation (q : automation_request) (requestId rpcUrl : string) (signer : string * val) : val :=
  VObj (spread
    [("request_id", VStr requestId); ("contract_hash", neo "oracleContract"); ("method", VStr "queueAutomationRequest");
     ("params", VArr [typed "Hash160" (VStr (aq_requester q)); typed "String" (VStr (aq_requestType q));
                      typed "ByteArray" (VStr (encodeUtf8ByteArrayParamValue (VStr (aq_payloadText q))));
                      typed "Hash160" (VStr (aq_callbackContract q)); typed "String" (VStr (aq_callbackMethod q))]);
     ("wait", VBool true); ("rpc_url", VStr rpcUrl); ("network_magic", neo "networkMagic")] [signer]).

Definition relay_with_own_key (fuel : nat) (q : automation_request) (requestId : string) : cprog (Z * val) :=
  signer <-- resolveNeoN3UpdaterPayload ;;
  attempt (account <-- throw_err (signer_account signer) ;; ensureNeoN3FeeBalance config L fuel (na_scriptHash account) 0) ;;;
  rpcUrl <-- reads rs_rpcUrl ;;
  await (RelayInvocation (queue_invocation q requestId rpcUrl signer)).

(** What the status and the body of the relay mean. *)
Definition read_invocation (requester requestId : string) (invoke : Z * val) : string + val :=
  let '(status, body) := invoke in
  if 400 <=? status then
    if already_used (js_String (v_or (get body "error") (VStr ""))) then inr (duplicate_reply requestId)
    else inl (error_or (get body "error") ("Neo N3 automation queue failed for " +:+ requester))
  else if (upper_text (get body "vm_state") =? "FAULT")%string then
    inl (error_or (v_or (get body "exception") (get body "error")) ("Neo N3 automation queue faulted for " +:+ requester))
  else inr (VObj (spread (own_fields body)
    [("request_id", v_or (get body "request_id") (VStr requestId)); ("target_chain", VStr "neo_n3")])).

Definition queue_with_runtime_key (fuel : nat) (q : automation_request) (requestId : string) : cprog val :=
  outcome <-- attempt (queueNeoN3AutomationRequestWithRuntimeDerivedUpdater fuel q requestId) ;;
  match outcome with
  | inr invoke => Ret invoke
  | inl runtimeError => if already_used runtimeError then Ret (duplicate_reply requestId) else Throw runtimeError
  end.

Definition queueNeoN3AutomationRequest (fuel : nat) (q : automation_request) (requestIdOverride : string) : cprog val :=
  now <-- clock ;;
  let requestId := trim requestIdOverride ||s ("automation:n3:" +:+ num_to_string now) in
  outcome <-- attempt (relay_with_own_key fuel q requestId) ;;
  match outcome with
  | inr invoke => throw_err (read_invocation (aq_requester q) requestId invoke)
  | inl localError =>
      if shouldUseDerivedKeys config process_env then queue_with_runtime_key fuel q requestId else Throw localError
  end.
End fulfill.
