(* ===== verification/N3ClientSpec.v ===== *)
(** * What the reading side of the Neo N3 client guarantees

    A call to the node fails over and keeps every URL, also in a pool; a scan that
    returns covers its window, and texts are read verbatim. *)
From stdpp Require Import strings.
From S2P Require Import Prelude Numbers Strings Values Text Effects Encoding Envelope Doubles Upkeep WorkerCore Allowlist Signers Buffers FeedRegistry N3Client.
From Stdlib Require Import QArith.
#[local] Open Scope list_scope.
#[local] Open Scope Z_scope.

Abbreviation cobs := (obs rpc_state n3call).

(** ** The URLs *)

Definition solid (url : string) : Prop := url <> "" /\ trim url = url.

(** The list has no blank, padded or repeated URL and starts with the current
    one; [createRelayerConfig] builds it so. *)
Definition urls_ok (s : rpc_state) : Prop :=
  NoDup (rs_rpcUrls s) /\ Forall solid (rs_rpcUrls s) /\ head (rs_rpcUrls s) = Some (rs_rpcUrl s).

Lemma NoDup_unique_from {A} `{EqDecision A} (seen l : list A) : NoDup (unique_from seen l).
Proof.
  revert seen. induction l as [|x l IH]; intros seen; cbn [unique_from]; [constructor|]. case_decide; [done|].
  apply NoDup_cons. split; [|done]. rewrite unique_from_spec. set_solver.
Qed.

Lemma NoDup_uniqueUrls urls : NoDup (uniqueUrls urls).
Proof. apply NoDup_unique_from. Qed.

Lemma elem_of_uniqueUrls url urls : Forall solid urls -> url ∈ uniqueUrls urls <-> url ∈ urls.
Proof.
  intros Hs. unfold uniqueUrls. rewrite uniqueOrdered_spec, list_elem_of_filter, list_elem_of_fmap.
  rewrite Forall_forall in Hs. split.
  - intros (_ & y & -> & Hy). by rewrite (proj2 (Hs y Hy)).
  - intros Hin. destruct (Hs url Hin) as [Hne Ht]. split; [done|]. by exists url.
Qed.

Lemma uniqueUrls_cons url urls : solid url -> head (uniqueUrls (url :: urls)) = Some url.
Proof.
  intros [Hne Ht]. unfold uniqueUrls. rewrite fmap_cons, Ht, filter_cons_True by done.
  unfold uniqueOrdered. cbn [unique_from]. by rewrite decide_False by apply not_elem_of_nil.
Qed.

Lemma urls_configured s : urls_ok s -> getNeoN3RpcUrls s ≡ₚ rs_rpcUrls s.
Proof.
  intros (Hnd & Hs & Hh). assert (rs_rpcUrl s ∈ rs_rpcUrls s) as Hin by (destruct (rs_rpcUrls s); [done|]; injection Hh as ->; left).
  apply NoDup_Permutation; [apply NoDup_uniqueUrls|done|]. intros url. unfold getNeoN3RpcUrls.
  rewrite elem_of_uniqueUrls by (constructor; [exact (proj1 (Forall_forall _ _) Hs _ Hin)|done]). set_solver.
Qed.

(** A promotion loses and adds no URL. *)
Lemma promote_ok url s :
  urls_ok s -> url ∈ rs_rpcUrls s ->
  urls_ok (promoteNeoN3RpcUrl url s) /\ rs_rpcUrls (promoteNeoN3RpcUrl url s) ≡ₚ rs_rpcUrls s /\
  rs_rpcUrl (promoteNeoN3RpcUrl url s) = url.
Proof.
  intros (Hnd & Hs & Hh) Hin. pose proof (proj1 (Forall_forall _ _) Hs _ Hin) as [Hne Ht].
  unfold promoteNeoN3RpcUrl. rewrite Ht, (proj2 (String.eqb_neq _ _) Hne). cbn [rs_rpcUrls rs_rpcUrl].
  assert (Forall solid (url :: rs_rpcUrls s)) as Hs' by by constructor.
  unfold urls_ok. cbn [rs_rpcUrls rs_rpcUrl]. split_and!; [apply NoDup_uniqueUrls| |by apply uniqueUrls_cons| |done].
  - apply Forall_forall. intros x Hx. rewrite elem_of_uniqueUrls in Hx by done. exact (proj1 (Forall_forall _ _) Hs' x Hx).
  - apply NoDup_Permutation; [apply NoDup_uniqueUrls|done|]. intros x. rewrite elem_of_uniqueUrls by done. set_solver.
Qed.

(** ** Answers *)

(** What a reply of a node to a call is worth. *)
Definition reply_value (url method : string) (r : string + http_response) : string + val :=
  match r with inl e => inl e | inr response => body <-e rpc_body url method response ;; getp body "result" end.

(** A node answered [v] to a call, within the observations [tr]. *)
Definition answered (tr : list cobs) (method : string) (params : list val) (v : val) : Prop :=
  exists url r, OCall (RpcPost url method params) r ∈ tr /\ reply_value url method r = inr v.

Lemma answered_mono t tr method params v : answered tr method params v -> answered (t ++ tr) method params v.
Proof. intros (url & r & Hin & Hv). exists url, r. split; [set_solver|done]. Qed.

Definition post_of (method : string) (params : list val) (p : string * (string + http_response)) : cobs :=
  OCall (RpcPost p.1 method params) p.2.

Definition refused (method : string) (p : string * (string + http_response)) : Prop :=
  exists e, reply_value p.1 method p.2 = inl e.

Lemma post_run en url method params s tr :
  let r := env_reply en _ tr (RpcPost url method params) in
  exists s', run en (post_rpc url method params) s tr = (reply_value url method r, s', post_of method params (url, r) :: tr) /\
    (s' = s \/ s' = promoteNeoN3RpcUrl url s) /\ (forall v, reply_value url method r = inr v -> s' = promoteNeoN3RpcUrl url s).
Proof.
  intros r. unfold post_rpc. cbn [await bind run]. fold r. destruct r as [e|response]; cbn [throw_err bind run reply_value].
  { exists s. split_and!; [done|by left|done]. }
  destruct (rpc_body url method response) as [e|body]; cbn [throw_err bind run bind_err modify].
  { exists s. split_and!; [done|by left|done]. }
  exists (promoteNeoN3RpcUrl url s). split_and!; [by destruct (getp body "result")|by right|done].
Qed.

Lemma try_urls_run en method params urls e0 s tr :
  urls_ok s -> Forall (fun url => url ∈ rs_rpcUrls s) urls ->
  let '(o, s', tr') := run en (try_urls urls method params e0) s tr in
  urls_ok s' /\ rs_rpcUrls s' ≡ₚ rs_rpcUrls s /\
  match o with
  | inr v => exists failed url r rest,
      urls = failed.*1 ++ url :: rest /\ Forall (refused method) failed /\ reply_value url method r = inr v /\
      tr' = post_of method params (url, r) :: rev (post_of method params <$> failed) ++ tr /\ rs_rpcUrl s' = url
  | inl e => exists failed, urls = failed.*1 /\ Forall (refused method) failed /\
      tr' = rev (post_of method params <$> failed) ++ tr
  end.
Proof.
  intros Hok Hin. revert s tr e0 Hok Hin. induction urls as [|url urls IH]; intros s tr e0 Hok Hin; cbn [try_urls].
  { cbn. split_and!; [done..|]. by exists []. }
  apply Forall_cons in Hin as [Hurl Hurls]. rewrite run_bind, run_attempt.
  destruct (post_run en url method params s tr) as (s1 & -> & Hs1 & Hv). set (r := env_reply en _ _ _) in *.
  assert (urls_ok s1 /\ rs_rpcUrls s1 ≡ₚ rs_rpcUrls s) as [Hok1 Hp1].
  { destruct Hs1 as [-> | ->]; [done|]. by destruct (promote_ok url s Hok Hurl) as (? & ? & _). }
  destruct (reply_value url method r) as [e|v] eqn:Hr; cbn [run].
  - specialize (IH s1 (post_of method params (url, r) :: tr) e Hok1).
    destruct (run en (try_urls urls method params e) s1 _) as [[o s'] tr'].
    destruct IH as (Hok' & Hp & Hout). { eapply Forall_impl; [exact Hurls|]. intros u Hu. cbn in Hu |- *. by rewrite Hp1. }
    split_and!; [done|by rewrite Hp|]. destruct o as [e'|v].
    + destruct Hout as (failed & -> & Hf & ->). exists ((url, r) :: failed). split_and!; [done|constructor; [by exists e|done]|].
      rewrite fmap_cons. cbn [rev]. by rewrite <-app_assoc.
    + destruct Hout as (failed & u & r' & rest & -> & Hf & Hv' & -> & Hu). exists ((url, r) :: failed), u, r', rest.
      split_and!; [done|constructor; [by exists e|done]|done| |done]. rewrite fmap_cons. cbn [rev]. by rewrite <-app_assoc.
  - split_and!; [done..|]. exists [], url, r, urls. split_and!; [done|constructor|done|done|].
    rewrite (Hv v eq_refl). by destruct (promote_ok url s Hok Hurl) as (_ & _ & ?).
Qed.

(** C32.  A call to the node fails over.  However the endpoints answer, the
    configured URLs are tried in order, the current one first, each once and only
    after the earlier ones failed; the value returned is the result of the first
    good reply, whose URL becomes the current one; a call fails only when every
    URL did.  No URL is lost or added. *)
Theorem rpc_fails_over : forall en method params s tr,
  urls_ok s ->
  let '(o, s', tr') := run en (neoRpcCall method params) s tr in
  let urls := getNeoN3RpcUrls s in
  urls_ok s' /\ rs_rpcUrls s' ≡ₚ rs_rpcUrls s /\ head urls = Some (rs_rpcUrl s) /\
  match o with
  | inr v => exists failed url r rest,
      urls = failed.*1 ++ url :: rest /\ Forall (refused method) failed /\ reply_value url method r = inr v /\
      tr' = post_of method params (url, r) :: rev (post_of method params <$> failed) ++ tr /\ rs_rpcUrl s' = url
  | inl e => exists failed, urls = failed.*1 /\ Forall (refused method) failed /\
      tr' = rev (post_of method params <$> failed) ++ tr
  end.
Proof.
  intros en method params s tr Hok. pose proof (urls_configured s Hok) as Hperm. unfold neoRpcCall. cbn [reads bind run].
  assert (head (getNeoN3RpcUrls s) = Some (rs_rpcUrl s)) as Hhead.
  { destruct Hok as (_ & Hs & Hh). apply uniqueUrls_cons. destruct (rs_rpcUrls s); [done|]. injection Hh as ->. by apply Forall_cons in Hs as [? _]. }
  destruct (getNeoN3RpcUrls s) as [|url urls] eqn:Hu; [done|].
  pose proof (try_urls_run en method params (url :: urls) ("Neo RPC " +:+ method +:+ " failed") s tr Hok) as H.
  destruct (run en (try_urls _ _ _ _) s tr) as [[o s'] tr']. destruct H as (H1 & H2 & H3); [|done].
  apply Forall_forall. intros u. by rewrite Hperm.
Qed.

(** ** Consequences for the callers *)

Lemma rpc_answered en method params s tr v s' tr' :
  run en (neoRpcCall method params) s tr = (inr v, s', tr') -> answered tr' method params v.
Proof.
  unfold neoRpcCall. cbn [reads bind run]. destruct (getNeoN3RpcUrls s) as [|url urls]; [done|].
  generalize (url :: urls) ("Neo RPC " +:+ method +:+ " failed"). clear url urls. intros urls e. revert s tr e.
  induction urls as [|url urls IH]; intros s tr e; cbn [try_urls]; [done|]. rewrite run_bind, run_attempt.
  destruct (post_run en url method params s tr) as (s1 & -> & _). set (r := env_reply en _ _ _).
  destruct (reply_value url method r) as [e'|v'] eqn:Hr; cbn [run]; [apply IH|]. intros [= <- <- <-].
  exists url, r. split; [left|done].
Qed.

(** A call of the node only adds its own posts. *)
Lemma stable_rpc (J : list cobs -> Prop) method params :
  (forall url r tr, J tr -> J (OCall (RpcPost url method params) r :: tr)) ->
  stable (fun _ => J) (neoRpcCall method params).
Proof.
  intros HJ. unfold neoRpcCall. apply stable_bind; [apply stable_reads|]. intros [|url urls]; [apply stable_throw|].
  generalize (url :: urls) ("Neo RPC " +:+ method +:+ " failed"). clear url urls. intros urls. induction urls as [|url urls IH]; intros e;
    cbn [try_urls]; [apply stable_throw|]. apply stable_bind; [apply stable_attempt|].
  - unfold post_rpc. apply stable_bind; [by apply stable_await; auto|intros response]. apply stable_bind.
    { destruct (rpc_body url method response); [apply stable_throw|apply stable_ret]. }
    intros body. apply stable_bind; [by apply stable_local|intros _]. destruct (getp body "result"); [apply stable_throw|apply stable_ret].
  - intros [e'|v]; [apply IH|apply stable_ret].
Qed.

(** In a pool the URLs change at every await of any program; none is lost. *)
Definition urls_are (urls : list string) (s : rpc_state) : Prop := urls_ok s /\ rs_rpcUrls s ≡ₚ urls.

Lemma safe_rpc urls method params : safe (urls_are urls) (neoRpcCall method params).
Proof.
  unfold neoRpcCall. cbn [reads bind safe]. intros now rng s [Hok Hp]. split; [done|]. cbn [fst].
  assert (Forall (fun url => url ∈ urls) (getNeoN3RpcUrls s)) as Hin.
  { apply Forall_forall. intros u. by rewrite urls_configured, Hp. }
  destruct (getNeoN3RpcUrls s) as [|url l]; [done|]. revert Hin.
  generalize (url :: l) ("Neo RPC " +:+ method +:+ " failed"). clear. intros l. induction l as [|url l IH]; intros e Hin; cbn [try_urls]; [done|].
  apply Forall_cons in Hin as [Hurl Hl]. apply safe_bind; [apply safe_attempt|by intros [e'|v]; [apply IH|]].
  unfold post_rpc. apply safe_bind; [apply safe_await|intros response]. apply safe_bind; [by destruct (rpc_body _ _ _)|intros body].
  apply safe_bind; [|by intros _; destruct (getp body "result")]. apply safe_modify. intros s' [Hok' Hp'].
  destruct (promote_ok url s' Hok') as (? & Hpp & _); [by rewrite Hp'|]. split; [done|by rewrite Hpp].
Qed.

(** Any number of calls, interleaved anyhow, keep the configured URLs. *)
Theorem rpc_pool_keeps_urls : forall urls (calls : list (string * list val)) s c',
  urls_are urls s -> rtc par_step ((fun c => neoRpcCall c.1 c.2) <$> calls, s) c' -> urls_are urls c'.2.
Proof.
  intros urls calls s c' Hs Hr. apply (par_steps_safe (urls_are urls) _ _ Hr); [|done].
  apply Forall_fmap, Forall_true. intros [m ps]. apply safe_rpc.
Qed.

(** ** Samples *)

Definition good_reply (result : val) : http_response := HttpResponse true 200 "OK" "" (Some (VObj [("result", result)])).

(** The first endpoint is down, the second one answers. *)
Definition failing_env : Effects.env rpc_state n3call :=
  Env (fun tr => 1000 * Z.of_nat (length tr)) (fun _ => 0%Q)
    (fun X _ c => match c in n3call X return string + X with
                  | RpcPost url _ _ => if (url =? "https://a")%string then inl "fetch failed" else inr (good_reply (VNum 7))
                  | _ => inl "unexpected call"
                  end).

Lemma rpc_fails_over_witness :
  let '(o, s', tr) := run failing_env (neoRpcCall "getblockcount" []) (RpcState "https://a" ["https://a"; "https://b"]) [] in
  o = inr (VNum 7) /\ rs_rpcUrls s' ≡ₚ ["https://a"; "https://b"] /\ length tr = 2%nat.
Proof.
  pose proof (rpc_fails_over failing_env "getblockcount" [] (RpcState "https://a" ["https://a"; "https://b"]) []) as H.
  revert H. set (r := run failing_env _ _ _). assert (r.1.1 = inr (VNum 7) /\ length r.2 = 2%nat) as [Ho Hl] by by vm_compute.
  destruct r as [[o s'] tr]. cbn [fst snd] in Ho, Hl. intros H. destruct H as (_ & Hp & _).
  - split_and!; [|repeat constructor|done]; [|by vm_compute..]. apply (bool_decide_unpack _). by vm_compute.
  - done.
Defined.

Lemma rpc_pool_keeps_urls_witness : forall c',
  rtc par_step ((fun c => neoRpcCall c.1 c.2) <$> [("getblockcount", []); ("getblock", [VNum 3; VNum 1])],
                RpcState "https://a" ["https://a"; "https://b"]) c' -> urls_are ["https://a"; "https://b"] c'.2.
Proof.
  intros c'. apply rpc_pool_keeps_urls. split; [|done].
  split_and!; [|repeat constructor|done]; [|by vm_compute..]. apply (bool_decide_unpack _). by vm_compute.
Defined.

(** ** Decoding and scans *)

(** ** Texts *)

(** A byte string as a node serves it. *)
Definition byte_string (bs : bytes) : val := VObj [("type", VStr "ByteString"); ("value", VStr (base64_encode bs))].

Definition printable (s : string) : bool := str_forall (fun a => printable_point (code a)) s.

Fixpoint codes (s : string) : list Z := match s with "" => [] | String a s => code a :: codes s end.

Lemma text_of_codes s : text_of (codes s) = s.
Proof. induction s as [|a s IH]; cbn; [done|]. by rewrite IH, chr_code. Qed.

Lemma codes_printable s : forallb printable_point (codes s) = printable s.
Proof. induction s as [|a s IH]; cbn; [done|]. by rewrite IH. Qed.

(** The two bytes of a character from 128 on. *)
Lemma high_char c : 128 <= c < 256 -> 2 <= c / 64 <= 3 /\ 0 <= c mod 64 < 64 /\ c = c / 64 * 64 + c mod 64.
Proof.
  intros Hc. pose proof (Z.mod_pos_bound c 64 ltac:(lia)). pose proof (Z.div_mod c 64 ltac:(lia)).
  assert (2 <= c / 64 <= 3); [|lia]. split; [apply Z.div_le_lower_bound; lia|]. assert (c / 64 < 4); [apply Z.div_lt_upper_bound|]; lia.
Qed.

Lemma utf8_points_utf8 s : utf8_points 0 128 191 0 (utf8 s) = Some (codes s).
Proof.
  induction s as [|a s IH]; [done|]. cbn [utf8 codes]. unfold utf8_char. pose proof (code_range a) as Ha.
  destruct (code a <? 128) eqn:Hc; cbn [app utf8_points].
  - by rewrite Hc, IH.
  - destruct (high_char (code a)) as (H1 & H2 & H3); [lia|].
    replace (192 + code a / 64 <? 128) with false by lia.
    replace ((194 <=? 192 + code a / 64) && (192 + code a / 64 <=? 223)) with true by lia. cbn [utf8_points].
    replace ((128 <=? 128 + code a mod 64) && (128 + code a mod 64 <=? 191)) with true by lia.
    rewrite IH. cbn. do 2 f_equal. lia.
Qed.

Lemma utf8_no_bom s : strip_bom (utf8 s) = utf8 s.
Proof.
  destruct s as [|a s]; [done|]. cbn [utf8]. unfold utf8_char. pose proof (code_range a) as Ha.
  destruct (code a <? 128) eqn:Hc; cbn [app].
  - assert (code a <> 239) as Hne by lia. unfold strip_bom. by repeat case_match.
  - destruct (high_char (code a)) as (H1 & _); [lia|]. assert (192 + code a / 64 <> 239) as Hne by lia.
    unfold strip_bom. by repeat case_match.
Qed.

Lemma utf8_decode_utf8 s : utf8_decode (utf8 s) = s.
Proof.
  induction s as [|a s IH]; [done|]. cbn [utf8]. unfold utf8_char. pose proof (code_range a) as Ha.
  destruct (code a <? 128) eqn:Hc; cbn [app utf8_decode].
  - by rewrite Hc, IH, chr_code.
  - destruct (high_char (code a)) as (H1 & H2 & H3); [lia|].
    replace (192 + code a / 64 <? 128) with false by lia.
    replace (((192 + code a / 64 =? 194) || (192 + code a / 64 =? 195)) && (128 <=? 128 + code a mod 64)
             && (128 + code a mod 64 <? 192)) with true by lia.
    rewrite IH. f_equal. rewrite <-(chr_code a) at 3. f_equal. lia.
Qed.

Lemma decode_byte_string bs :
  Forall is_byte bs -> decodeNeoItem "base64" (byte_string bs) = VStr (decode_bytes bs (length bs =? 20)%nat).
Proof.
  intros Hb. change (decodeNeoItem "base64" (byte_string bs)) with (decode_scalar "base64" (byte_string bs)).
  unfold decode_scalar. change (item_type (byte_string bs)) with "bytestring".
  change (get (byte_string bs) "value") with (VStr (base64_encode bs)).
  change (bool_decide ("bytestring" ∈ ["string"; "hash160"; "hash256"])) with false.
  change (bool_decide ("bytestring" ∈ ["bytestring"; "bytearray"])) with true.
  change ("bytestring" =? "integer")%string with false. change ("bytestring" =? "boolean")%string with false.
  cbn [trimString]. rewrite trim_no_space by by apply base64_encode_no_space.
  destruct (decide (bs = [])) as [->|Hne]; [done|].
  rewrite (proj2 (String.eqb_neq _ _) (base64_encode_ne bs Hne)). cbn. unfold decodeByteStringFromBase64. by rewrite base64_decode_encode.
Qed.

Lemma hash_text_printable bs : Forall is_byte bs -> printable ("0x" +:+ hex_encode bs) = true.
Proof.
  intros Hb. unfold printable. rewrite str_forall_app. apply andb_true_iff. split; [done|].
  apply (str_forall_impl hash_digit); [|by apply hex_digits_hash]. intros a.
  assert (negb (hash_digit a) || printable_point (code a) = true) as Ha by (revert a; apply ascii_all; by vm_compute).
  by destruct (hash_digit a).
Qed.

(** Bytes of printable ASCII. *)
Definition ascii_text (bs : bytes) : bool := forallb printable_point bs.

Lemma points_high bs : forall need lo hi acc points, utf8_points (S need) lo hi acc bs = Some points ->
  128 <= lo -> 128 <= (acc * 64 + (lo - 128)) * 64 ^ Z.of_nat need -> exists c rest, points = c :: rest /\ 128 <= c.
Proof.
  induction bs as [|b bs IH]; intros need lo hi acc points; [done|]. cbn [utf8_points].
  destruct ((lo <=? b) && (b <=? hi)) eqn:Hb; [|done]. cbv zeta. intros H Hlo Hmin.
  apply andb_true_iff in Hb as [Hb _]. apply Z.leb_le in Hb.
  assert (128 <= (acc * 64 + (b - 128)) * 64 ^ Z.of_nat need) as Hacc.
  { etransitivity; [exact Hmin|]. apply Z.mul_le_mono_nonneg_r; [by apply Z.pow_nonneg|lia]. }
  destruct need as [|need].
  - apply fmap_Some in H as (rest & _ & ->). eexists _, rest. split; [done|]. cbn in Hacc. lia.
  - apply IH in H; [done|lia|]. rewrite Nat2Z.inj_succ, Z.pow_succ_r in Hacc by lia. lia.
Qed.

Lemma printable_ascii bs : Forall is_byte bs ->
  isPrintableText (utf8_points 0 128 191 0 bs) = ascii_text bs /\
  (ascii_text bs = true -> utf8_points 0 128 191 0 bs = Some bs).
Proof.
  induction 1 as [|b bs Hb _ [IH1 IH2]]; [done|]. cbn [utf8_points ascii_text forallb]. unfold is_byte in Hb.
  destruct (Z.ltb_spec b 128) as [Hlt|Hge].
  - fold (ascii_text bs). rewrite <-IH1 in IH2 |- *. destruct (utf8_points 0 128 191 0 bs) as [points|]; cbn.
    + split; [done|]. intros [_ H]%andb_true_iff. by injection (IH2 H) as ->.
    + split; [by rewrite andb_false_r|]. by rewrite andb_false_r.
  - assert (printable_point b = false) as -> by (unfold printable_point; lia). cbn [andb]. split; [|done].
    assert (forall need lo hi acc, 128 <= lo -> 128 <= (acc * 64 + (lo - 128)) * 64 ^ Z.of_nat need ->
      isPrintableText (utf8_points (S need) lo hi acc bs) = false) as Hhigh.
    { intros need lo hi acc Hlo Hmin. destruct (utf8_points (S need) lo hi acc bs) as [points|] eqn:E; [|done].
      destruct (points_high _ _ _ _ _ _ E Hlo Hmin) as (c & rest & -> & Hc). cbn.
      by replace (printable_point c) with false by (unfold printable_point; lia). }
    repeat case_match; (done || apply Hhigh; cbn; lia).
Qed.

Lemma strip_bom_bytes bs : Forall is_byte bs -> Forall is_byte (strip_bom bs).
Proof. intros H. unfold strip_bom. repeat case_match; try done. by repeat apply Forall_inv_tail in H. Qed.



(** A script hash is read as its text, unless all of its bytes are printable. *)
Lemma hash_read bs : Forall is_byte bs -> length bs = 20%nat -> isPrintableText (tryDecodeUtf8 bs) = false ->
  decodeNeoItem "base64" (byte_string bs) = VStr ("0x" +:+ hex_encode (rev bs)).
Proof. intros Hb Hl Hp. rewrite decode_byte_string by done. unfold decode_bytes. by rewrite Hp, Hl. Qed.

(** Twenty bytes that are not printable read as a hash, also when they are the
    text of an identifier; a hash of printable bytes reads as a text. *)
Example twenty_bytes_ex :
  decodeNeoItem "base64" (byte_string (utf8 (String (chr 233) "234567890123456789")))
  = VStr "0x393837363534333231303938373635343332a9c3" /\
  decodeNeoItem "base64" (byte_string (replicate 20 65)) = VStr "AAAAAAAAAAAAAAAAAAAA".
Proof. by vm_compute. Qed.

(** ** Blocks *)

Lemma map_err_forall {A B} (f : A -> string + B) l ys : map_err f l = inr ys -> Forall2 (fun x y => f x = inr y) l ys.
Proof.
  revert ys. induction l as [|x l IH]; intros ys; cbn; [by intros [= <-]|]. destruct (f x) as [|y] eqn:Hx; [done|]. cbn [bind_err].
  destruct (map_err f l) as [|ys']; [done|]. intros [= <-]. constructor; [done|by apply IH].
Qed.

Lemma elem_of_concat_forall2 {A B} (f : A -> string + list B) l yss e :
  Forall2 (fun x ys => f x = inr ys) l yss ->
  e ∈ concat yss <-> exists x ys, x ∈ l /\ f x = inr ys /\ e ∈ ys.
Proof.
  induction 1 as [|x ys l yss Hx H IH]; cbn.
  - split; [by intros ?%not_elem_of_nil|]. by intros (? & ? & ?%not_elem_of_nil & _).
  - rewrite elem_of_app, IH. split.
    + intros [He|(x' & ys' & ? & ? & ?)]; [exists x, ys; split_and!; [left|done..]|exists x', ys'; split_and!; [by right|done..]].
    + intros (x' & ys' & [->|Hin]%elem_of_cons & Hf & He); [left; congruence|right; eauto].
Qed.

(** The application log [log] of the transaction [txHash] of block [height] holds
    the request notification that reads as [event]. *)
Definition emits (target : string) (height : Z) (txHash log event : val) : Prop :=
  exists execution i notification eventName,
    execution ∈ list_of (get log "executions") /\ list_of (get execution "notifications") !! i = Some notification /\
    strip0x_lower (get notification "contract") = target /\
    trimString (get notification "eventname") = eventName /\ eventName ∈ NEO_N3_REQUEST_EVENT_NAMES /\
    buildNeoN3EventFromNotificationState eventName (decodeNeoItem "base64" <$> list_of (get (get notification "state") "value"))
      (EventMeta (VNum height) txHash (VNum (Z.of_nat i))) = Some event.

Lemma getp_inr v k x : getp v k = inr x -> x = get v k.
Proof. destruct v; by intros [= <-]. Qed.

Lemma notification_event_spec target height txHash i n event :
  notification_event target height txHash i n = inr (Some event) <->
  strip0x_lower (get n "contract") = target /\ trimString (get n "eventname") ∈ NEO_N3_REQUEST_EVENT_NAMES /\
  buildNeoN3EventFromNotificationState (trimString (get n "eventname"))
    (decodeNeoItem "base64" <$> list_of (get (get n "state") "value")) (EventMeta (VNum height) txHash (VNum (Z.of_nat i))) = Some event.
Proof.
  assert (forall contract, contract = get n "contract" ->
    (if negb (strip0x_lower contract =? target)%string then inr None
     else if negb (bool_decide (trimString (get n "eventname") ∈ NEO_N3_REQUEST_EVENT_NAMES)) then inr None
     else inr (buildNeoN3EventFromNotificationState (trimString (get n "eventname"))
       (decodeNeoItem "base64" <$> list_of (get (get n "state") "value")) (EventMeta (VNum height) txHash (VNum (Z.of_nat i)))))
    = (inr (Some event) : string + option val) <->
    strip0x_lower (get n "contract") = target /\ trimString (get n "eventname") ∈ NEO_N3_REQUEST_EVENT_NAMES /\
    buildNeoN3EventFromNotificationState (trimString (get n "eventname"))
      (decodeNeoItem "base64" <$> list_of (get (get n "state") "value")) (EventMeta (VNum height) txHash (VNum (Z.of_nat i))) = Some event) as H.
  { intros contract ->. destruct (String.eqb_spec (strip0x_lower (get n "contract")) target); cbn [negb]; [|split; [done|by intros (? & _)]].
    case_bool_decide; cbn [negb]; split; [by intros [= ->]|by intros (_ & _ & ->)|done|by intros (_ & ? & _)]. }
  unfold notification_event. assert (n <> VUndef -> n <> VNull -> getp n "contract" = inr (get n "contract")) as Hg by (destruct n; done).
  destruct (decide (n = VUndef \/ n = VNull)) as [Hn|Hn].
  - assert (trimString (get n "eventname") = "") as -> by by destruct Hn as [-> | ->].
    split; [by destruct Hn as [-> | ->]|]. intros (_ & He & _). by apply (bool_decide_pack _) in He.
  - rewrite Hg by tauto. cbn [bind_err]. by apply H.
Qed.

Lemma notification_events_spec target height txHash i l es event :
  notification_events target height txHash i l = inr es ->
  event ∈ es <-> exists k n, l !! k = Some n /\ notification_event target height txHash (i + k) n = inr (Some event).
Proof.
  revert i es. induction l as [|n l IH]; intros i es; cbn [notification_events].
  { intros [= <-]. split; [by intros ?%not_elem_of_nil|]. by intros (? & ? & ? & _). }
  destruct (notification_event target height txHash i n) as [|o] eqn:Ho; [done|]. cbn [bind_err].
  destruct (notification_events target height txHash (S i) l) as [|es'] eqn:Hes; [done|]. cbn [bind_err]. intros [= <-].
  specialize (IH _ _ Hes).
  assert (event ∈ (match o with Some x => x :: es' | None => es' end) <-> o = Some event \/ event ∈ es') as ->.
  { destruct o; [rewrite elem_of_cons|]; naive_solver. }
  rewrite IH. split.
  - intros [->|(k & n' & Hk & Hn)]; [exists 0%nat, n; by rewrite Nat.add_0_r|]. exists (S k), n'. split; [done|]. by rewrite Nat.add_succ_r.
  - intros ([|k] & n' & Hk & Hn); cbn in Hk.
    + injection Hk as ->. rewrite Nat.add_0_r in Hn. left. congruence.
    + right. exists k, n'. split; [done|]. by rewrite Nat.add_succ_r in Hn.
Qed.

Lemma log_events_spec target height txHash log es event :
  log_events target height txHash log = inr es -> event ∈ es <-> emits target height txHash log event.
Proof.
  unfold log_events. destruct (map_err _ _) as [|ess] eqn:Hm; [done|]. cbn [bind_err]. intros [= <-].
  rewrite (elem_of_concat_forall2 _ _ _ _ (map_err_forall _ _ _ Hm)). apply map_err_forall in Hm. unfold emits. split.
  - intros (execution & es & Hin & Hes & He). apply (notification_events_spec _ _ _ _ _ _ _ Hes) in He as (k & n & Hk & Hn).
    apply notification_event_spec in Hn as (? & ? & ?). by exists execution, k, n, (trimString (get n "eventname")).
  - intros (execution & k & n & name & Hin & Hk & Ht & <- & Hname & Hb).
    destruct (proj1 (list_elem_of_lookup _ _) Hin) as [j Hj]. destruct (Forall2_lookup_l _ _ _ _ _ Hm Hj) as (es & _ & Hes).
    exists execution, es. split_and!; [done..|]. apply (notification_events_spec _ _ _ _ _ _ _ Hes). exists k, n. split; [done|].
    by apply notification_event_spec.
Qed.

Lemma block_events_spec target height logs es event :
  block_events target height logs = inr es ->
  event ∈ es <-> exists txHash log, (txHash, log) ∈ logs /\ emits target height txHash log event.
Proof.
  unfold block_events. destruct (map_err _ _) as [|ess] eqn:Hm; [done|]. cbn [bind_err]. intros [= <-].
  rewrite (elem_of_concat_forall2 _ _ _ _ (map_err_forall _ _ _ Hm)). apply map_err_forall in Hm. split.
  - intros ([txHash log] & es & Hin & Hes & He). apply (log_events_spec _ _ _ _ _ _ Hes) in He. eauto.
  - intros (txHash & log & Hin & He). destruct (proj1 (list_elem_of_lookup _ _) Hin) as [j Hj].
    destruct (Forall2_lookup_l _ _ _ _ _ Hm Hj) as (es & _ & Hes). exists (txHash, log), es. split_and!; [done..|].
    by apply (log_events_spec _ _ _ _ _ _ Hes).
Qed.

(** ** Runs *)

Lemma answered_extends {A} en (p : cprog A) s tr method params v :
  answered tr method params v -> answered (run en p s tr).2 method params v.
Proof. intros H. destruct (run_extends en p s tr) as [t ->]. by apply answered_mono. Qed.

(** What each item of a scan established still holds at its end. *)
Lemma map_in_order_run {A B} (P : list cobs -> A -> B -> Prop) en (f : A -> cprog B) l :
  (forall t tr x y, P tr x y -> P (t ++ tr) x y) ->
  (forall x s tr y s' tr', run en (f x) s tr = (inr y, s', tr') -> P tr' x y) ->
  forall s tr ys s' tr', run en (map_in_order f l) s tr = (inr ys, s', tr') -> Forall2 (P tr') l ys.
Proof.
  intros Hmono Hf. induction l as [|x l IH]; intros s tr ys s' tr'; cbn [map_in_order]; [by intros [= <- _ _]|].
  rewrite run_bind. destruct (run en (f x) s tr) as [[[e|y] s1] tr1] eqn:Hx; [done|]. rewrite run_bind.
  destruct (run en (map_in_order f l) s1 tr1) as [[[e|ys'] s2] tr2] eqn:Hl; [done|]. intros [= <- <- <-].
  constructor; [|by eapply IH]. pose proof (run_extends en (map_in_order f l) s1 tr1) as [t Ht]. rewrite Hl in Ht. cbn in Ht.
  subst tr2. apply Hmono. by eapply Hf.
Qed.

(** The events of a block, as the nodes answered: all of its transactions that
    have a hash were read, and [es] holds exactly the requests they emitted. *)
Definition block_read (target : string) (tr : list cobs) (height : Z) (es : list val) : Prop :=
  exists block hashes logs,
    answered tr "getblock" [VNum height; VNum 1] block /\ tx_hashes block = inr hashes /\
    Forall2 (fun txHash log => answered tr "getapplicationlog" [txHash] log) hashes logs /\
    block_events target height (zip hashes logs) = inr es /\
    (forall event, event ∈ es <-> exists txHash log, (txHash, log) ∈ zip hashes logs /\ emits target height txHash log event).

Lemma block_read_mono target t tr height es : block_read target tr height es -> block_read target (t ++ tr) height es.
Proof.
  intros (block & hashes & logs & Hb & Hh & Hl & He & Hes). exists block, hashes, logs. split_and!; [by apply answered_mono|done| |done..].
  eapply Forall2_impl; [exact Hl|]. intros txHash log. apply answered_mono.
Qed.

Lemma block_scan en target height s tr es s' tr' :
  run en (scanNeoN3OracleRequestBlock target height) s tr = (inr es, s', tr') -> block_read target tr' height es.
Proof.
  unfold scanNeoN3OracleRequestBlock. rewrite run_bind.
  destruct (run en (neoRpcCall "getblock" _) s tr) as [[[e|block] s1] tr1] eqn:Hb; [done|]. apply rpc_answered in Hb.
  destruct (tx_hashes block) as [e|hashes] eqn:Hh; [done|]. cbn [throw_err bind run]. rewrite run_bind.
  destruct (run en (map_in_order _ hashes) s1 tr1) as [[[e|logs] s2] tr2] eqn:Hl; [done|].
  apply (answered_extends en (map_in_order (fun txHash => neoRpcCall "getapplicationlog" [txHash]) hashes) s1) in Hb. rewrite Hl in Hb.
  apply (map_in_order_run (fun tr txHash log => answered tr "getapplicationlog" [txHash] log)) in Hl;
    [|intros; by apply answered_mono|intros x ? ? ? ? ? Hx; by eapply rpc_answered].
  destruct (block_events target height (zip hashes logs)) as [e|es'] eqn:He; [done|]. intros [= <- <- <-].
  exists block, hashes, logs. split_and!; [done..|]. intros event. by apply block_events_spec.
Qed.

(** C14.  No request of a window is missed.  Whatever the nodes answer, a scan
    that returns has read every block of the window and the log of every
    transaction of each; its events, in the order of the blocks, are exactly the
    requests the oracle contract emitted in them.  Otherwise the scan throws. *)
Theorem scan_covers_window : forall config en fromBlock toBlock s tr events s' tr',
  run en (scanNeoN3OracleRequests config fromBlock toBlock) s tr = (inr events, s', tr') ->
  exists perBlock, events = concat perBlock /\
    Forall2 (block_read (strip0x_lower (neo_n3 config "oracleContract")) tr') (range fromBlock toBlock) perBlock.
Proof.
  intros config en fromBlock toBlock s tr events s' tr'. unfold scanNeoN3OracleRequests.
  destruct (toBlock <? fromBlock) eqn:Hlt.
  - intros [= <- _ _]. exists []. split; [done|]. unfold range. rewrite seqZ_nil by lia. constructor.
  - rewrite run_bind. destruct (run en (map_in_order _ _) s tr) as [[[e|per] s1] tr1] eqn:Hr; [done|]. intros [= <- <- <-].
    exists per. split; [done|]. eapply map_in_order_run; [|intros x ? ? ? ? ?; apply block_scan|exact Hr].
    intros. by apply block_read_mono.
Qed.

(** A scan by request id reads every id: its events are those of the records
    that are still open. *)
Definition request_read (contract : val) (tr : list cobs) (requestId : Z) (o : option val) : Prop :=
  exists result record,
    answered tr "invokefunction" [contract; VStr "getRequest"; VArr [typed "Integer" (VStr (num_to_string requestId))]] result /\
    upper_text (get result "state") <> "FAULT" /\ record = decodeNeoItem "base64" (at0 (get result "stack")) /\
    o = buildNeoN3EventFromRequestRecord record requestId.

Theorem id_scan_covers_window : forall config en fromId toId s tr events s' tr',
  run en (scanNeoN3OracleRequestsById config fromId toId) s tr = (inr events, s', tr') ->
  exists perId, events = omap id perId /\ Forall2 (request_read (neo_n3 config "oracleContract") tr') (range fromId toId) perId.
Proof.
  intros config en fromId toId s tr events s' tr'. unfold scanNeoN3OracleRequestsById. destruct (toId <? fromId) eqn:Hlt.
  - intros [= <- _ _]. exists []. split; [done|]. unfold range. rewrite seqZ_nil by lia. constructor.
  - rewrite run_bind. destruct (run en (map_in_order _ _) s tr) as [[[e|per] s1] tr1] eqn:Hr; [done|]. intros [= <- <- <-].
    exists per. split; [done|]. eapply map_in_order_run; [| |exact Hr].
    + intros t tr0 x y (result & record & Ha & Hrest). exists result, record. split; [by apply answered_mono|done].
    + intros x s0 tr0 y s2 tr2. unfold request_event, invoke_read. rewrite !run_bind.
      destruct (run en (neoRpcCall _ _) s0 tr0) as [[[e|result] s3] tr3] eqn:Hc; [done|]. apply rpc_answered in Hc.
      unfold first_stack_item. destruct (String.eqb_spec (upper_text (get result "state")) "FAULT") as [|Hf]; [done|].
      intros [= <- <- <-]. by exists result, (decodeNeoItem "base64" (at0 (get result "stack"))).
Qed.

(** ** Samples *)

(** A chain of two blocks; the second holds a request. *)
Definition request_log : val :=
  VObj [("executions", VArr [VObj [("notifications", VArr [
    VObj [("contract", VStr "0xAA"); ("eventname", VStr "Transfer")];
    VObj [("contract", VStr "0xAA"); ("eventname", VStr "OracleRequested");
          ("state", VObj [("value", VArr [VObj [("type", VStr "Integer"); ("value", VStr "12")];
             byte_string (utf8 "oracle"); byte_string (replicate 20 1); byte_string (replicate 20 2);
             byte_string (utf8 "onOracleResult"); byte_string (utf8 "{}")])])]])]])].

Definition chain_reply (method : string) (params : list val) : val :=
  if (method =? "getblock")%string then
    match params with
    | VNum 8 :: _ => VObj [("tx", VArr [VObj [("hash", VStr "0xt1")]; VObj [("txid", VStr "0xt2")]])]
    | _ => VObj []
    end
  else if (method =? "getapplicationlog")%string then
    match params with [VStr "0xt2"] => request_log | _ => VObj [("executions", VArr [])] end
  else VObj [("state", VStr "HALT"); ("stack", VArr [])].

Definition chain_env : Effects.env rpc_state n3call :=
  Env (fun tr => 1000 * Z.of_nat (length tr)) (fun _ => 0%Q)
    (fun X _ c => match c in n3call X return string + X with
                  | RpcPost _ method params => inr (good_reply (chain_reply method params))
                  | _ => inl "unexpected call"
                  end).

Definition chain_config : val := VObj [("neo_n3", VObj [("oracleContract", VStr "0xaa")])].
Definition chain_urls : rpc_state := RpcState "https://a" ["https://a"].

Lemma scan_covers_window_witness : exists events perBlock,
  (run chain_env (scanNeoN3OracleRequests chain_config 7 8) chain_urls []).1.1 = inr events /\
  length events = 1%nat /\ events = concat perBlock /\
  Forall2 (block_read "aa" (run chain_env (scanNeoN3OracleRequests chain_config 7 8) chain_urls []).2) (range 7 8) perBlock.
Proof.
  set (r := run chain_env (scanNeoN3OracleRequests chain_config 7 8) chain_urls []).
  assert (match r.1.1 with inr events => length events = 1%nat | inl _ => False end) as Hl by by vm_compute.
  destruct r as [[[e|events] s'] tr'] eqn:Hr; [done|].
  destruct (scan_covers_window chain_config chain_env 7 8 chain_urls [] events s' tr' Hr) as (per & He & Hf).
  exists events, per. done.
Defined.

Lemma id_scan_covers_window_witness : exists perId,
  Forall2 (request_read (VStr "0xaa") (run chain_env (scanNeoN3OracleRequestsById chain_config 3 4) chain_urls []).2) (range 3 4) perId.
Proof.
  set (r := run chain_env (scanNeoN3OracleRequestsById chain_config 3 4) chain_urls []).
  assert (match r.1.1 with inr _ => True | inl _ => False end) as Hl by by vm_compute.
  destruct r as [[[e|events] s'] tr'] eqn:Hr; [done|].
  destruct (id_scan_covers_window chain_config chain_env 3 4 chain_urls [] events s' tr' Hr) as (per & _ & Hf). by exists per.
Defined.

(** The indexer serves its newest rows first and at most [index_limit] of them:
    when that many rows follow the window, the scan finds none of its requests,
    and reports success. *)
Definition newest_rows : list val := replicate 500 (VObj [("block_index", VNum 900); ("event_name", VStr "OracleRequested")]).

Example index_scan_misses :
  let en := Env (fun _ => 0) (fun _ => 0%Q)
    (fun X _ c => match c in n3call X return string + X with
                  | IndexerGet _ _ _ => inr (HttpResponse true 200 "OK" "" (Some (VArr newest_rows)))
                  | _ => inl "unexpected call"
                  end) in
  index_limit chain_config = NaN /\
  index_limit (VObj [("maxBlocksPerTick", VNum 50)]) = Fin 500 /\
  (run en (scanNeoN3OracleRequestsViaN3Index chain_config 100 149) chain_urls []).1.1 = inr [].
Proof. by vm_compute. Qed.
