(* ===== verification/N3SubmitSpec.v ===== *)
(** * What the Neo N3 client broadcasts

    A program logic for the transactions a program sends, the transactions that
    are built, and the bounds of the fee top-up. *)
From stdpp Require Import strings.
From S2P Require Import Prelude Numbers Strings Values Text Effects Encoding Envelope Doubles Upkeep WorkerCore Allowlist Signers Buffers FeedRegistry N3Client N3Fulfill N3ClientSpec.
From Stdlib Require Import QArith.
#[local] Open Scope list_scope.
#[local] Open Scope Z_scope.

Abbreviation SEND := "sendrawtransaction".

(** ** Facts of a trace that last *)

Class Lasting (K : list cobs -> Prop) : Prop := lasting : forall t tr, K tr -> K (t ++ tr).

#[export] Instance lasting_true : Lasting (fun _ => True).
Proof. done. Qed.

#[export] Instance lasting_and K K' `{!Lasting K, !Lasting K'} : Lasting (fun tr => K tr /\ K' tr).
Proof. intros t tr [H H']. split; by apply lasting. Qed.

#[export] Instance lasting_answered method params v : Lasting (fun tr => answered tr method params v).
Proof. intros t tr. apply answered_mono. Qed.

(** A call had the reply [x]. *)
Definition replied {X} (c : n3call X) (x : X) (tr : list cobs) : Prop := OCall c (inr x) ∈ tr.

#[export] Instance lasting_replied {X} (c : n3call X) x : Lasting (replied c x).
Proof. intros t tr H. unfold replied in *. set_solver. Qed.

(** ** Broadcasts *)

(** What may be sent, given what precedes it, and which other calls may be made;
    reading and sleeping are free. *)
Record policy := Policy {
  may_send : list cobs -> list val -> Prop;
  may_call : forall X, n3call X -> Prop;
}.

Definition broadcast_ok (P : policy) (o : cobs) (before : list cobs) : Prop :=
  match o with
  | @OCall _ _ X c _ =>
      match c with
      | RpcPost _ method params => method = SEND -> may_send P before params
      | Sleep _ => True
      | _ => may_call P X c
      end
  | OSave _ => True
  end.

Definition is_rpc {X} (c : n3call X) : bool := match c with RpcPost _ _ _ => true | _ => false end.

Section logic.
Context (P : policy).

Definition Inv (K : list cobs -> Prop) (_ : rpc_state) (tr : list cobs) : Prop := K tr /\ trace_ok (broadcast_ok P) tr.

(** Where [K] is known, [p] does only what [P] allows. *)
Definition sends {A} (K : list cobs -> Prop) (p : cprog A) : Prop := hoare (Inv K) p (fun _ _ tr => trace_ok (broadcast_ok P) tr).

Lemma sends_stable {A} K `{!Lasting K} (p : cprog A) : sends K p -> stable (Inv K) p.
Proof.
  intros Hp en s tr [HK HT]. specialize (Hp en s tr (conj HK HT)). destruct (run_extends en p s tr) as [t Ht].
  destruct (run en p s tr) as [[o s'] tr']. cbn in Ht. subst tr'. split; [by apply lasting|done].
Qed.

Lemma sends_weaken {A} K K' (p : cprog A) : (forall tr, K' tr -> K tr) -> sends K p -> sends K' p.
Proof. intros HK Hp en s tr [H1 H2]. apply Hp. split; auto. Qed.

Lemma sends_ret {A} K (a : A) : sends K (Ret a).
Proof. apply hoare_ret. by intros s tr [_ ?]. Qed.

Lemma sends_throw {A} K m : sends K (Throw m : cprog A).
Proof. apply hoare_throw. by intros s tr [_ ?]. Qed.

Lemma sends_knowing {A} K (fact : Prop) (p : cprog A) : (forall tr, K tr -> fact) -> (fact -> sends K p) -> sends K p.
Proof. intros Hf Hp en s tr [HK HT]. apply (Hp (Hf tr HK)). by split. Qed.

(** A part that learns [fact] of its result, then the rest. *)
Lemma sends_learn {A B} K (fact : A -> list cobs -> Prop) (p : cprog A) (k : A -> cprog B) :
  Lasting K -> hoare (Inv K) p (fun o _ tr => trace_ok (broadcast_ok P) tr /\ forall a, o = inr a -> fact a tr) ->
  (forall a, sends (fun tr => K tr /\ fact a tr) (k a)) -> sends K (bind p k).
Proof.
  intros HL Hp Hk en s tr [HK HT]. rewrite run_bind. specialize (Hp en s tr (conj HK HT)).
  destruct (run_extends en p s tr) as [t Ht]. destruct (run en p s tr) as [[[m|a] s'] tr']; [by destruct Hp|].
  destruct Hp as [HT' Hf]. cbn in Ht. subst tr'. apply Hk. split; [split; [by apply lasting|by apply Hf]|done].
Qed.

Lemma sends_bind {A B} K `{!Lasting K} (p : cprog A) (k : A -> cprog B) :
  sends K p -> (forall a, sends K (k a)) -> sends K (bind p k).
Proof.
  intros Hp Hk. apply (sends_learn K (fun _ _ => True)); [done| |].
  - eapply hoare_conseq; [exact Hp|done|]. by intros o s tr H.
  - intros a. eapply sends_weaken; [|apply Hk]. by intros tr [].
Qed.

Lemma sends_attempt {A} K `{!Lasting K} (p : cprog A) : sends K p -> sends K (attempt p).
Proof. intros Hp. by apply hoare_attempt. Qed.

Lemma sends_throw_err {A} K (r : string + A) : sends K (throw_err r).
Proof. destruct r; [apply sends_throw|apply sends_ret]. Qed.

(** The value of a pure computation that may throw. *)
Lemma sends_try {A B} K (r : string + A) (k : A -> cprog B) :
  (forall x, r = inr x -> sends K (k x)) -> sends K (bind (throw_err r) k).
Proof. intros Hk. destruct r as [e|x]; [apply sends_throw|]. by apply Hk. Qed.

Lemma sends_local {X} K (f : Z -> QArith_base.Q -> rpc_state -> X * rpc_state) : sends K (local f).
Proof. apply hoare_local. by intros ? ? ? ? [_ ?]. Qed.

(** A call to the node that is not a broadcast. *)
Lemma trace_rpc en method params K s tr :
  Lasting K -> Inv K s tr -> (method = SEND -> forall tr, K tr -> may_send P tr params) ->
  trace_ok (broadcast_ok P) (run en (neoRpcCall method params) s tr).2.
Proof.
  intros HL [HK HT] HA. assert (stable (fun _ tr => K tr /\ trace_ok (broadcast_ok P) tr) (neoRpcCall method params)) as Hs.
  { apply (stable_rpc (fun tr => K tr /\ trace_ok (broadcast_ok P) tr)). intros url r tr0 [HK0 HT0]. split; [by apply (lasting [_])|].
    split; [|done]. intros ->. by apply HA. }
  exact (proj2 (stable_run _ en _ s tr Hs (conj HK HT))).
Qed.

Lemma sends_rpc_only K `{!Lasting K} method params : method <> SEND -> sends K (neoRpcCall method params).
Proof.
  intros Hm en s tr HI. pose proof (trace_rpc en method params K s tr ltac:(done) HI ltac:(done)) as HT.
  by destruct (run en _ s tr) as [[o s'] tr'].
Qed.

Lemma sends_rpc {B} K `{!Lasting K} method params (k : val -> cprog B) :
  method <> SEND -> (forall v, sends (fun tr => K tr /\ answered tr method params v) (k v)) -> sends K (bind (neoRpcCall method params) k).
Proof.
  intros Hm Hk. apply (sends_learn K (fun v tr => answered tr method params v)); [done| |done].
  intros en s tr HI. pose proof (trace_rpc en method params K s tr ltac:(done) HI ltac:(done)) as HT.
  destruct (run en _ s tr) as [[o s'] tr'] eqn:Hr. split; [done|]. intros v ->. by eapply rpc_answered.
Qed.

Lemma sends_broadcast {B} K `{!Lasting K} params (k : val -> cprog B) :
  (forall tr, K tr -> may_send P tr params) -> (forall v, sends K (k v)) -> sends K (bind (neoRpcCall SEND params) k).
Proof.
  intros HA Hk. apply sends_bind; [done| |done]. intros en s tr HI.
  pose proof (trace_rpc en SEND params K s tr ltac:(done) HI (fun _ => HA)) as HT. by destruct (run en _ s tr) as [[o s'] tr'].
Qed.

Lemma await_ok {X} (c : n3call X) r tr : is_rpc c = false -> may_call P X c -> broadcast_ok P (OCall c r) tr.
Proof. by destruct c. Qed.

Lemma sends_await {X B} K `{!Lasting K} (c : n3call X) (k : X -> cprog B) :
  is_rpc c = false -> may_call P X c -> (forall x, sends (fun tr => K tr /\ replied c x tr) (k x)) -> sends K (bind (await c) k).
Proof.
  intros Hc Hp Hk. apply (sends_learn K (fun x => replied c x)); [done| |done]. apply hoare_await. intros r s tr [HK HT]. split.
  - split; [by apply await_ok|done].
  - intros x ->. unfold replied. left.
Qed.

Lemma sends_sleep K ms : sends K (await (Sleep ms)).
Proof. apply hoare_await. by intros r s tr [HK HT]. Qed.
End logic.

(** [p] returns only values in [post]. *)
Definition yields {A} (post : A -> Prop) (p : cprog A) : Prop :=
  forall en s tr a s' tr', run en p s tr = (inr a, s', tr') -> post a.

Lemma yields_bind {A B} (mid : A -> Prop) (post : B -> Prop) (p : cprog A) (k : A -> cprog B) :
  yields mid p -> (forall a, mid a -> yields post (k a)) -> yields post (bind p k).
Proof.
  intros Hp Hk en s tr b s' tr'. rewrite run_bind. destruct (run en p s tr) as [[[m|a] s1] tr1] eqn:Hr; [done|].
  intros H. eapply (Hk a); [by eapply Hp|exact H].
Qed.

Lemma yields_any {A} (p : cprog A) : yields (fun _ => True) p.
Proof. done. Qed.

Lemma yields_after {A B} (post : B -> Prop) (p : cprog A) (k : A -> cprog B) :
  (forall a, yields post (k a)) -> yields post (bind p k).
Proof. intros Hk. apply (yields_bind (fun _ => True)); [apply yields_any|auto]. Qed.

Lemma yields_ret {A} (post : A -> Prop) a : post a -> yields post (Ret a : cprog A).
Proof. intros H en s tr a' s' tr'. by intros [= <- _ _]. Qed.

Lemma yields_throw {A} (post : A -> Prop) m : yields post (Throw m : cprog A).
Proof. done. Qed.

Lemma yields_throw_err {A} (post : A -> Prop) (r : string + A) : (forall x, r = inr x -> post x) -> yields post (throw_err r).
Proof. intros H. destruct r; [apply yields_throw|]. by apply yields_ret, H. Qed.

Lemma learn_value {A} P K (post : A -> Prop) (p : cprog A) :
  sends P K p -> yields post p ->
  hoare (Inv P K) p (fun o _ tr => trace_ok (broadcast_ok P) tr /\ forall a, o = inr a -> post a).
Proof.
  intros Hs Hy en s tr HI. specialize (Hs en s tr HI). destruct (run en p s tr) as [[o s'] tr'] eqn:Hr. split; [done|].
  intros a ->. by eapply Hy.
Qed.

(** ** Built transactions *)

(** Signing adds witnesses and changes nothing else. *)
Definition same_body (t t' : n3_tx) : Prop := set_witnesses [] t' = set_witnesses [] t.

Record built (A : signer_adapter) (O : tx_options) (script : string) (t : n3_tx) : Prop := {
  built_script : tx_script t = script;
  built_signer : tx_signer t = strip0x_lower (VStr (sa_scriptHash A));
  built_fee : exists gasConsumed, tx_systemFee t = system_fee (to_systemFeeHeadroom O) gasConsumed;
}.

Lemma built_same A O script t t' : same_body t t' -> built A O script t -> built A O script t'.
Proof. unfold same_body, set_witnesses. intros [= _ Hs _ Hi Hf _] [? ? ?]. split; by rewrite ?Hs, ?Hi, ?Hf. Qed.

Lemma built_network_fee A O script t fee : built A O script t -> built A O script (set_network_fee fee t).
Proof. intros [H1 H2 H3]. by split. Qed.

Section built.
Context (L : n3_lib) (P : policy) (K : list cobs -> Prop) {HK : Lasting K}.
Context (A : signer_adapter) (O : tx_options) (script : string) (W : n3_tx -> list cobs -> Prop) {HW : forall t, Lasting (W t)}.
#[local] Set Default Proof Using "All".
Hypothesis Hbody : forall t, yields (same_body t) (sa_sign A t).
Hypothesis Hsign : forall t, hoare (Inv P K) (sa_sign A t)
  (fun o _ tr => trace_ok (broadcast_ok P) tr /\ forall t', o = inr t' -> W t' tr).
Hypothesis Hensure : forall fee, sends P K (to_ensureFeeBalance O fee).

Lemma sends_sign t : sends P K (sa_sign A t).
Proof. eapply hoare_conseq; [apply Hsign|done|]. by intros o s tr []. Qed.

Lemma priced_built : yields (fun p => built A O script p.1) (price_transaction L script A O).
Proof.
  unfold price_transaction. apply yields_after. intros blockCount. apply yields_after. intros nonce. apply yields_after. intros testInvoke.
  destruct (_ =? _)%string; [apply yields_throw|]. apply yields_after. intros gas.
  eapply yields_bind; [apply Hbody|]. intros t Ht. apply yields_after. intros unsigned. apply yields_after. intros response.
  apply yields_after. intros fee. apply yields_ret. cbn [fst]. apply built_network_fee. eapply built_same; [exact Ht|]. split; [done..|]. by exists gas.
Qed.

Lemma sends_signed_base64 K' t : sends P K' (signed_base64 L t).
Proof. unfold signed_base64. destruct (nl_serialize L t); [apply sends_throw|apply sends_ret]. Qed.

Lemma sends_price : sends P K (price_transaction L script A O).
Proof.
  unfold price_transaction. apply sends_bind; [done|by apply sends_rpc_only|intros blockCount].
  apply sends_bind; [done|apply sends_local|intros nonce]. apply sends_bind; [done|by apply sends_rpc_only|intros testInvoke].
  destruct (_ =? _)%string; [apply sends_throw|]. apply sends_try. intros gas _. apply sends_bind; [done|apply sends_sign|intros t].
  apply sends_bind; [done|apply sends_signed_base64|intros unsigned]. apply sends_rpc; [done|done|]. intros response.
  apply sends_try. intros fee _. apply sends_ret.
Qed.

(** What [buildSignAndBroadcastNeoN3Tx] sends is a verified transaction of the
    script it was given, in the name of its signer. *)
Lemma sends_build :
  (forall t hex tr, K tr -> built A O script t -> W t tr -> sa_verifyWitness A t = inr tt -> nl_serialize L t = inr hex ->
     may_send P tr [VStr (hex_to_base64 hex)]) ->
  sends P K (buildSignAndBroadcastNeoN3Tx L script A O).
Proof.
  intros HA. unfold buildSignAndBroadcastNeoN3Tx.
  apply (sends_learn P K (fun p _ => built A O script p.1)); [done|by apply learn_value; [apply sends_price|apply priced_built]|].
  intros [t0 fee]. cbn [fst snd]. eapply sends_knowing; [intros tr [_ Hb]; exact Hb|]. intros Hb.
  apply (sends_weaken P K); [by intros tr []|]. apply sends_bind; [done|apply Hensure|intros _].
  apply (sends_learn P K (fun t tr => same_body t0 t /\ W t tr)); [done| |].
  { intros en s tr HI. pose proof (Hsign t0 en s tr HI) as Hs. destruct (run en (sa_sign A t0) s tr) as [[o s'] tr'] eqn:Hr.
    destruct Hs as [HT Hw]. split; [done|]. intros t ->. split; [by eapply Hbody|by apply Hw]. }
  intros t. eapply sends_knowing; [intros tr (_ & Hsame & _); exact Hsame|]. intros Hsame.
  apply (sends_weaken P (fun tr => K tr /\ W t tr)); [by intros tr (? & _ & ?)|].
  apply sends_try. intros [] Hv. apply sends_try. intros hash _. unfold signed_base64.
  destruct (nl_serialize L t) as [e|hex] eqn:Hhex; [apply sends_throw|]. cbn [throw_err bind].
  apply sends_broadcast; [apply _| |intros; apply sends_ret]. intros tr [H1 H2]. eapply HA; [done| |done..]. by eapply built_same.
Qed.
End built.

(** ** The fee top-up *)

Section top_up.
Context (config : val) (L : n3_lib).
#[local] Set Default Proof Using "Type".

(** What is documented of [transaction.sign]: it adds witnesses. *)
Definition signing_ok : Prop := forall t account magic t', nl_sign L t account magic = inr t' -> same_body t t'.

(** The node answered [balance] for the account, within [tr]. *)
Definition balance_of (account : string) (balance : Z) (tr : list cobs) : Prop :=
  exists result item,
    answered tr "invokefunction"
      [VStr GAS_CONTRACT_HASH; VStr "balanceOf"; VArr [typed "Hash160" (VStr (normalizeHash160 L (VStr account)))]] result /\
    first_stack_item result "Neo N3 GAS balance read faulted" = inr item /\ val_BigInt (v_or item (VStr "0")) = inr balance.

#[export] Instance lasting_balance account balance : Lasting (balance_of account balance).
Proof. intros t tr (result & item & Ha & H). exists result, item. split; [by apply answered_mono|done]. Qed.

Lemma balance_learned P K `{!Lasting K} account :
  hoare (Inv P K) (readNeoN3GasBalance L account)
    (fun o _ tr => trace_ok (broadcast_ok P) tr /\ forall balance, o = inr balance -> balance_of account balance tr).
Proof.
  intros en s tr HI. unfold readNeoN3GasBalance. destruct (_ =? _)%string; [by destruct HI|]. unfold invoke_read. rewrite !run_bind.
  set (ps := [_; _; _]). pose proof (trace_rpc P en "invokefunction" ps K s tr ltac:(done) HI ltac:(done)) as HT.
  destruct (run en (neoRpcCall "invokefunction" ps) s tr) as [[[e|result] s1] tr1] eqn:Hr; [done|]. apply rpc_answered in Hr.
  destruct (first_stack_item result _) as [e|item] eqn:Hi; [done|]. cbn [throw_err run].
  destruct (val_BigInt _) as [e|balance] eqn:Hb; cbn [throw_err run]; (split; [exact HT|]); intros b; [done|]. intros [= <-].
  by exists result, item.
Qed.

(** A transfer that a top-up may broadcast: from the configured funder, another
    account than the target, to the target, whose balance the node showed below
    what it needs; of the missing amount or the configured step, whichever is
    more, within the configured maximum, and covered by the funder's balance with
    its own reserve to spare. *)
Definition top_up_allowed (target : string) (requiredFee : Z) (before : list cobs) (params : list val) : Prop :=
  exists settings funder current funds script t hex,
    getNeoN3FeeTopUpSettings config = Some settings /\
    buildLocalNeoN3AccountFromSecret L (fs_funderWif settings) (fs_funderPrivateKey settings) = inr (Some funder) /\
    let targetHash := normalizeHash160 L (VStr target) in
    let funderHash := normalizeHash160 L (VStr ("0x" +:+ na_scriptHash funder)) in
    let required := requiredFee + fs_minBalance settings in
    let amount := top_up_amount settings (required - current) in
    balance_of targetHash current before /\ current < required /\ funderHash <> targetHash /\
    balance_of funderHash funds before /\ fs_minBalance settings <= funds - amount /\
    (0 < fs_maxTopUpAmount settings -> amount <= fs_maxTopUpAmount settings) /\
    nl_script L (strip0x_lower (VStr GAS_CONTRACT_HASH)) "transfer"
      (transfer_params (na_scriptHash funder) (normalizeHash160 L (VStr targetHash)) amount) = inr script /\
    tx_script t = script /\ tx_signer t = strip0x_lower (VStr (na_scriptHash funder)) /\
    nl_serialize L t = inr hex /\ params = [VStr (hex_to_base64 hex)].

Lemma sends_poll_halt P K `{!Lasting K} fuel txHash label deadline e : sends P K (poll_halt fuel txHash label deadline e).
Proof.
  revert e. induction fuel as [|fuel IH]; intros e; cbn [poll_halt]; [apply sends_throw|].
  apply sends_bind; [done|apply sends_local|intros now]. destruct (negb _); [apply sends_throw|].
  apply sends_bind; [done|by apply sends_attempt, sends_rpc_only|]. intros [e'|appLog].
  - apply sends_bind; [done|apply sends_sleep|intros _; apply IH].
  - destruct (vm_state_of appLog) as [execution vmState]. destruct (_ =? _)%string; [apply sends_ret|].
    destruct (negb _); [apply sends_throw|]. apply sends_bind; [done|apply sends_sleep|intros _; apply IH].
Qed.

Lemma sends_transfer P K `{!Lasting K} fuel funder to amount :
  signing_ok ->
  (forall tr script t hex, K tr ->
     nl_script L (strip0x_lower (VStr GAS_CONTRACT_HASH)) "transfer"
       (transfer_params (na_scriptHash funder) (normalizeHash160 L (VStr to)) amount) = inr script ->
     tx_script t = script -> tx_signer t = strip0x_lower (VStr (na_scriptHash funder)) -> nl_serialize L t = inr hex ->
     may_send P tr [VStr (hex_to_base64 hex)]) ->
  sends P K (sendNeoN3GasTransfer config L fuel funder to amount).
Proof.
  intros Hsign HA. unfold sendNeoN3GasTransfer. apply sends_try. intros script Hscript. apply sends_bind; [done| |intros txHash].
  - apply (sends_build L P K _ _ _ (fun _ _ => True)).
    + intros t. apply yields_throw_err. intros t'. apply Hsign.
    + intros t. eapply hoare_conseq; [apply (sends_throw_err P K)|done|]. intros o s tr HT. by split.
    + intros fee. apply sends_ret.
    + intros t hex tr HK0 [Hs Hi _] _ _ Hhex. by apply (HA tr script t hex).
  - apply sends_bind; [done| |intros _; apply sends_ret]. unfold waitForNeoN3TransactionHalt. apply sends_bind; [done| |intros d; by apply sends_poll_halt].
    unfold deadline_after. apply sends_bind; [done|apply sends_local|intros; apply sends_ret].
Qed.

Lemma sends_top_up P K `{!Lasting K} fuel target requiredFee :
  signing_ok -> (forall tr params, K tr -> top_up_allowed target requiredFee tr params -> may_send P tr params) ->
  sends P K (ensureNeoN3FeeBalance config L fuel target requiredFee).
Proof.
  intros Hsign HA. unfold ensureNeoN3FeeBalance. destruct (getNeoN3FeeTopUpSettings config) as [settings|] eqn:Hset; [|apply sends_ret].
  destruct (_ =? _)%string; [apply sends_ret|].
  apply (sends_learn P K (balance_of (normalizeHash160 L (VStr target)))); [done|by apply balance_learned|intros current].
  destruct (Z.leb_spec (requiredFee + fs_minBalance settings) current) as [|Hcur]; [apply sends_ret|].
  unfold top_up_target. apply sends_try. intros [funder|] Hfunder; [|apply sends_throw].
  destruct (String.eqb_spec (normalizeHash160 L (VStr ("0x" +:+ na_scriptHash funder))) (normalizeHash160 L (VStr target))) as [|Hne]; [apply sends_throw|].
  set (amount := top_up_amount _ _). destruct ((0 <? _) && _) eqn:Hmax; [apply sends_throw|].
  apply (sends_learn P _ (balance_of (normalizeHash160 L (VStr ("0x" +:+ na_scriptHash funder))))); [apply _|apply balance_learned, _|intros funds].
  destruct (Z.ltb_spec funds (amount + fs_minBalance settings)) as [|Hfunds]; [apply sends_throw|].
  apply sends_bind; [apply _| |intros txHash; apply sends_ret]. apply sends_transfer; [apply _|done|].
  intros tr script t hex [[HK0 Hc] Hf] Hscript Hs Hi Hhex. apply HA; [done|].
  exists settings, funder, current, funds, script, t, hex. subst amount. cbv zeta. split_and!; first [done|lia].
Qed.

(** C30.  The fee top-up stays within its bounds.  Whatever the nodes answer, a
    top-up calls nothing but the nodes, and broadcasts nothing but the transfer
    [top_up_allowed] describes: only when top-ups are enabled and the node showed
    the target below its reserve, never more than the configured maximum, never to
    the funder itself, and never leaving the funder below its reserve. *)
Theorem top_up_bounded : forall fuel target requiredFee en s,
  signing_ok ->
  trace_ok (broadcast_ok (Policy (top_up_allowed target requiredFee) (fun _ _ => False)))
    (run en (ensureNeoN3FeeBalance config L fuel target requiredFee) s []).2.
Proof.
  intros fuel target requiredFee en s Hsign.
  pose proof (sends_top_up (Policy (top_up_allowed target requiredFee) (fun _ _ => False)) (fun _ => True) fuel target requiredFee Hsign
    ltac:(done) en s []) as H.
  destruct (run en _ s []) as [[o s'] tr']. by apply H.
Qed.
End top_up.

(** ** Samples *)

Definition sample_hash (a : ascii) : string := repeat_char 40 a.

Definition sample_n3 : n3_lib := {|
  nl_account secret := inr (NeoAccountOf secret secret "" (sample_hash (if (secret =? "funder")%string then "b" else "a")) "");
  nl_address_hash _ := None;
  nl_public_hash _ := inr (sample_hash "a");
  nl_verification_script publicKey := inr publicKey;
  nl_witness_hash _ := sample_hash "a";
  nl_script _ _ _ := inr "0102";
  nl_sign t _ _ := inr (set_witnesses [Witness "00" "00"] t);
  nl_message _ _ := inr "aabb";
  nl_serialize _ := inr "c0ffee";
  nl_hash _ := inr "77";
|}.

Definition sample_neo_config : val :=
  VObj [("neo_n3", VObj [("oracleContract", VStr ("0x" +:+ sample_hash "c")); ("updaterWif", VStr "updater");
    ("networkMagic", VNum 860833102); ("fulfillConfirmTimeoutMs", VNum 3000);
    ("feeTopUp", VObj [("enabled", VBool true); ("funderWif", VStr "funder")])])].

(** The funder has 10 GAS, the updater none. *)
Definition sample_result (method : string) (params : list val) : val :=
  let integer n := VObj [("state", VStr "HALT"); ("stack", VArr [VObj [("type", VStr "Integer"); ("value", VStr n)]])] in
  if (method =? "invokefunction")%string then
    integer (if bool_decide (params = [VStr GAS_CONTRACT_HASH; VStr "balanceOf"; VArr [typed "Hash160" (VStr ("0x" +:+ sample_hash "b"))]])
             then "1000000000" else "0")
  else if (method =? "getblockcount")%string then VNum 100
  else if (method =? "invokescript")%string then VObj [("state", VStr "HALT"); ("gasconsumed", VStr "1000")]
  else if (method =? "calculatenetworkfee")%string then VObj [("networkfee", VStr "2000")]
  else if (method =? "getapplicationlog")%string then VObj [("executions", VArr [VObj [("vmstate", VStr "HALT")]])]
  else VObj [].

(** The application log of [pending] is not there yet. *)
Definition sample_chain (pending : string) : Effects.env rpc_state n3call :=
  Env (fun tr => 1000 * Z.of_nat (length tr)) (fun _ => 0%Q)
    (fun X _ c => match c in n3call X return string + X with
                  | RpcPost _ method params =>
                      if bool_decide (method = "getapplicationlog" /\ params = [VStr pending]) then inl "fetch failed"
                      else inr (good_reply (sample_result method params))
                  | ContractInvoke _ _ _ _ _ _ => inr (VStr "0xabc")
                  | NewUUID => inr "5"
                  | Sleep _ => inr tt
                  | _ => inl "unexpected call"
                  end).

Definition sample_urls : rpc_state := RpcState "https://a" ["https://a"].

Lemma sample_signing : signing_ok sample_n3.
Proof. by intros t account magic t' [= <-]. Qed.

Definition is_send (o : cobs) : bool :=
  match o with OCall (RpcPost _ method _) _ => (method =? SEND)%string | _ => false end.

Lemma top_up_bounded_witness :
  let tr := (run (sample_chain "") (ensureNeoN3FeeBalance sample_neo_config sample_n3 5 (sample_hash "a") 0) sample_urls []).2 in
  trace_ok (broadcast_ok (Policy (top_up_allowed sample_neo_config sample_n3 (sample_hash "a") 0) (fun _ _ => False))) tr /\
  length (filter (fun o => is_send o = true) tr) = 1%nat.
Proof.
  split; [|by vm_compute].
  exact (top_up_bounded sample_neo_config sample_n3 5 (sample_hash "a") 0 (sample_chain "") sample_urls sample_signing).
Defined.
