(* ===== verification/N3FulfillSpec.v ===== *)
(** * What a delivery on Neo N3 guarantees

    Nothing but the fulfillment asked for is submitted, a delivery counts only
    when the chain executed it, and the wait for its verdict ends. *)
From stdpp Require Import strings.
From S2P Require Import Prelude Numbers Strings Values Text Effects Encoding Envelope Doubles Upkeep WorkerCore Allowlist Signers Buffers FeedRegistry Errors N3Client N3Fulfill N3ClientSpec N3SubmitSpec.
From Stdlib Require Import QArith.
#[local] Open Scope list_scope.
#[local] Open Scope Z_scope.

Section fulfill_spec.
Context (config : val) (process_env : string -> string) (L : n3_lib).
#[local] Set Default Proof Using "Type".
#[local] Abbreviation neo := (neo_n3 config).

(** ** The enclave's key *)

(** The enclave server answered [r] to a request. *)
Definition nitro_answered (path : string) (payload : list (string * val)) (r : worker_response) (tr : list cobs) : Prop :=
  exists url response,
    replied (NitroPost (url +:+ path) (VObj (decorateWorkerPayload config payload)) (nitro config "token") (nitro_timeout config)) response tr /\
    r = WorkerResponse (http_ok response) (http_status response) (nitro_body response).

#[export] Instance lasting_nitro path payload r : Lasting (nitro_answered path payload r).
Proof. intros t tr (url & response & Hr & ->). exists url, response. split; [by apply lasting_replied|done]. Qed.

Definition allows_nitro (P : policy) : Prop := forall url payload token timeout, may_call P _ (NitroPost url payload token timeout).

Lemma nitro_learned P K `{!Lasting K} path payload baseUrl :
  allows_nitro P ->
  hoare (Inv P K) (callNitro config path payload baseUrl)
    (fun o _ tr => trace_ok (broadcast_ok P) tr /\ forall r, o = inr r -> nitro_answered path payload r tr).
Proof.
  intros HP. unfold callNitro. destruct (resolveCandidateApiUrls _) as [|url urls].
  { apply hoare_throw. by intros s tr [_ HT]. }
  generalize (url :: urls) "null". clear url urls. intros urls. induction urls as [|url urls IH]; intros e; cbn [try_nitro].
  { apply hoare_throw. by intros s tr [_ HT]. }
  intros en s tr [HK HT]. rewrite run_bind. cbn [await attempt run bind].
  set (c := NitroPost _ _ _ _). destruct (env_reply en _ tr c) as [e'|response]; cbn [run attempt].
  - apply (IH e' en). split; [by apply (lasting [_])|]. split; [apply HP|done].
  - split; [split; [apply HP|done]|]. intros r [= <-]. exists url, response. split; [left|done].
Qed.

(** A witness of [t] that the enclave made for the message of the same body. *)
Definition enclave_witness (t : n3_tx) (w : witness) (tr : list cobs) : Prop :=
  exists t0 message response signature publicKey,
    same_body t0 t /\ nl_message L t0 (neo "networkMagic") = inr message /\
    nitro_answered "/sign/payload" (sign_request message) response tr /\ wr_ok response = true /\
    normalizeSignature (v_or (get (wr_body response) "signature") (v_or (get (wr_body response) "signature_hex") (VStr ""))) = inr signature /\
    buildSignatureWitness L signature publicKey = inr w.

#[export] Instance lasting_witness t w : Lasting (enclave_witness t w).
Proof.
  intros t' tr (t0 & m & r & sg & pk & H1 & H2 & H3 & H). exists t0, m, r, sg, pk. split_and!; [done|done|by apply lasting_nitro|apply H..].
Qed.

Definition enclave_signed (t : n3_tx) (tr : list cobs) : Prop := exists w, tx_witnesses t = [w] /\ enclave_witness t w tr.

#[export] Instance lasting_signed t : Lasting (enclave_signed t).
Proof. intros t' tr (w & H1 & H2). exists w. split; [done|by apply lasting_witness]. Qed.

#[local] Abbreviation adapter updater := (buildRuntimeDerivedUpdaterSignerAdapter config L updater).

Lemma adapter_body updater t : yields (same_body t) (sa_sign (adapter updater) t).
Proof.
  cbn [sa_sign buildRuntimeDerivedUpdaterSignerAdapter]. apply yields_after. intros message. apply yields_after. intros signed.
  apply yields_after. intros w. by apply yields_ret.
Qed.

Lemma adapter_signs P K `{!Lasting K} updater t :
  allows_nitro P ->
  hoare (Inv P K) (sa_sign (adapter updater) t)
    (fun o _ tr => trace_ok (broadcast_ok P) tr /\ forall t', o = inr t' -> enclave_signed t' tr).
Proof.
  intros HP en s tr HI. cbn [sa_sign buildRuntimeDerivedUpdaterSignerAdapter]. pose proof HI as [_ HT0].
  destruct (nl_message L t _) as [e|message] eqn:Hm; [done|]. cbn [throw_err bind]. rewrite run_bind.
  unfold signNeoN3TransactionWithRuntimeUpdater. rewrite run_bind.
  pose proof (nitro_learned P K "/sign/payload" (sign_request message) (nitro config "signerUrl") HP en s tr HI) as Hn.
  destruct (run en (callNitro _ _ _ _) s tr) as [[[e|response] s1] tr1]; [by destruct Hn|]. destruct Hn as [HT Ha].
  specialize (Ha response eq_refl). destruct (wr_ok response) eqn:Hok; cbn [negb]; [|done].
  destruct (normalizeSignature _) as [e|signature] eqn:Hs; [done|]. cbn [throw_err bind].
  destruct (normalizePublicKey _) as [e|publicKey]; [done|]. cbn [throw_err bind].
  destruct (normalizePublicKey (VStr _)) as [e|expected]; [done|]. cbn [throw_err bind].
  destruct (negb _); [done|]. cbn [run bind fst snd]. destruct (buildSignatureWitness L signature publicKey) as [e|w] eqn:Hw; [done|].
  cbn [throw_err bind run]. split; [done|]. intros t' [= <-]. exists w. split; [done|].
  exists t, message, response, signature, publicKey. by split_and!.
Qed.

(** A transaction of the oracle contract under the enclave's key: the operation
    and arguments given, one witness, of the account that signs. *)
Definition enclave_transaction (operation : string) (args : list contract_param) (before : list cobs) (params : list val) : Prop :=
  exists account script t w hex,
    nl_script L (strip0x_lower (neo "oracleContract")) operation args = inr script /\
    tx_script t = script /\ tx_signer t = strip0x_lower (VStr account) /\ tx_witnesses t = [w] /\
    normalizeHash160 L (VStr ("0x" +:+ nl_witness_hash L w)) = account /\ enclave_witness t w before /\
    nl_serialize L t = inr hex /\ params = [VStr (hex_to_base64 hex)].

Lemma sends_with_runtime_updater P fuel operation args fault :
  signing_ok L -> allows_nitro P ->
  (forall target fee before params, top_up_allowed config L target fee before params -> may_send P before params) ->
  (forall before params, enclave_transaction operation args before params -> may_send P before params) ->
  sends P (fun _ => True) (send_with_runtime_updater config L fuel operation args fault).
Proof.
  intros Hsign HP Htop Htx. unfold send_with_runtime_updater. apply sends_bind; [done| |intros updater].
  - unfold resolveRuntimeDerivedUpdater. apply sends_bind; [done| |intros response].
    { eapply hoare_conseq; [by apply (nitro_learned P (fun _ => True))|done|]. by intros o s tr []. }
    destruct (negb _); [apply sends_throw|]. apply sends_try. intros publicKey _. destruct (negb _); [apply sends_ret|].
    apply sends_try. intros hash _. apply sends_ret.
  - apply sends_try. intros script Hscript. apply (sends_build L P (fun _ => True) _ _ _ enclave_signed).
    + apply adapter_body.
    + intros t. by apply (adapter_signs P (fun _ => True)).
    + intros fee. cbn [to_ensureFeeBalance]. apply sends_bind; [done| |intros; apply sends_ret].
      apply sends_top_up; [done..|]. intros tr params _. apply Htop.
    + intros t hex tr _ [Hs Hi _] (w & Hw & Hew) Hv Hhex. apply Htx. exists (ru_scriptHash updater), script, t, w, hex.
      cbn [sa_verifyWitness buildRuntimeDerivedUpdaterSignerAdapter] in Hv. rewrite Hw in Hv. cbn [sa_scriptHash] in Hi.
      destruct (String.eqb_spec (normalizeHash160 L (VStr ("0x" +:+ nl_witness_hash L w))) (ru_scriptHash updater)); [|done]. by split_and!.
Qed.

(** ** What a delivery submits *)

(** The updater's own key: the configured one, or the derived one. *)
Definition own_account (account : neo_account) : Prop :=
  exists secret, nl_account L secret = inr account /\
    (secret = js_String (neo "updaterWif") \/ secret = js_String (neo "updaterPrivateKey") \/ shouldUseDerivedKeys config process_env = true).

(** Besides top-ups: the fulfillment [r], with the updater's own key through
    neon-js, or with the enclave's. *)
Definition delivery_policy (r : fulfill_request) : policy :=
  Policy
    (fun before params =>
       (exists target fee, top_up_allowed config L target fee before params) \/
       (shouldUseDerivedKeys config process_env = true /\
        enclave_transaction "fulfillRequest" (buildFulfillRequestParams r) before params))
    (fun X c =>
       match c with
       | ContractInvoke _ magic account contract method params =>
           own_account account /\ magic = neo "networkMagic" /\ contract = js_String (neo "oracleContract") /\
           method = "fulfillRequest" /\ params = buildFulfillRequestParams r
       | RelayInvocation _ | IndexerGet _ _ _ => False
       | _ => True
       end).

Lemma delivery_nitro r : allows_nitro (delivery_policy r).
Proof. done. Qed.

Lemma own_payload : yields (fun signer => forall account, signer_account L signer = inr account -> own_account account)
  (resolveNeoN3UpdaterPayload config process_env).
Proof.
  unfold resolveNeoN3UpdaterPayload, own_account. destruct (truthy (neo "updaterWif")); [apply yields_ret; intros a Ha; eauto|].
  destruct (truthy (neo "updaterPrivateKey")); [apply yields_ret; intros a Ha; eauto 6|].
  destruct (shouldUseDerivedKeys config process_env) eqn:Hd; [|apply yields_throw]. apply yields_after. intros key. apply yields_ret.
  intros a Ha. eauto 6.
Qed.

Lemma sends_own_payload r : sends (delivery_policy r) (fun _ => True) (resolveNeoN3UpdaterPayload config process_env).
Proof.
  unfold resolveNeoN3UpdaterPayload. repeat (case_match; try apply sends_ret; try apply sends_throw).
  apply sends_await; [done..|]. intros key. apply sends_ret.
Qed.

Lemma sends_own_key r fuel : signing_ok L -> sends (delivery_policy r) (fun _ => True) (submit_with_own_key config process_env L fuel r).
Proof.
  intros Hsign. unfold submit_with_own_key.
  apply (sends_learn _ _ (fun signer _ => forall account, signer_account L signer = inr account -> own_account account)); [done| |].
  { apply learn_value; [apply sends_own_payload|apply own_payload]. }
  intros signer. eapply sends_knowing; [intros tr [_ H]; exact H|]. intros Hown. apply (sends_weaken _ (fun _ => True)); [done|].
  apply sends_try. intros account Ha. unfold best_effort_top_up. apply sends_bind; [done| |intros _].
  { apply sends_bind; [done| |intros; apply sends_ret]. apply sends_attempt, sends_top_up; [done..|]. intros tr params _ Ht. left. eauto. }
  apply sends_bind; [done|apply sends_local|intros rpcUrl]. apply sends_await; [done|done| |intros raw; apply sends_ret].
  split_and!; [by apply Hown|done..].
Qed.

Lemma sends_confirm P K `{!Lasting K} fuel requestId txHash deadline e : sends P K (poll_confirm config fuel requestId txHash deadline e).
Proof.
  revert e. induction fuel as [|fuel IH]; intros e; cbn [poll_confirm]; [apply sends_throw|].
  apply sends_bind; [done|by apply sends_attempt, sends_rpc_only|intros log].
  assert (forall e', sends P K (wait_or_time_out config requestId txHash deadline e' (poll_confirm config fuel requestId txHash deadline e'))) as Hwait.
  { intros e'. apply sends_bind; [done|apply sends_local|intros now]. case_match; [case_match; [apply sends_throw|apply sends_ret]|].
    apply sends_bind; [done|apply sends_sleep|intros _; apply IH]. }
  destruct log as [e'|appLog]; [destruct (is_fault_text e'); [apply sends_throw|apply Hwait]|].
  destruct (confirm_once requestId txHash appLog) as [v|]; [apply sends_throw_err|apply Hwait].
Qed.

(** C12.  Only the fulfillment asked for is submitted.  Whatever the nodes, neon-js
    and the enclave answer, a delivery submits no call of a contract but
    [fulfillRequest] of the configured oracle with exactly the given request,
    outcome and verification signature: through neon-js with the updater's own
    key, or, when derived keys are in use, in a transaction the enclave signed
    for the account that sends it.  Beyond that it sends at most fee top-ups. *)
Theorem delivery_submits_request : forall fuel requestId success result error signature bytes64 en s,
  signing_ok L ->
  let r := FulfillRequest requestId success (result_hex result bytes64) error signature in
  trace_ok (broadcast_ok (delivery_policy r))
    (run en (fulfillNeoN3Request config process_env L fuel requestId success result error signature bytes64) s []).2.
Proof.
  intros fuel requestId success result error signature bytes64 en s Hsign r.
  assert (sends (delivery_policy r) (fun _ => True)
    (fulfillNeoN3Request config process_env L fuel requestId success result error signature bytes64)) as H.
  { unfold fulfillNeoN3Request. fold r. apply sends_bind; [done| |intros txHash].
    - unfold or_derived. apply sends_bind; [done|by apply sends_attempt, sends_own_key|]. intros [e|x]; [|apply sends_ret].
      destruct (shouldUseDerivedKeys config process_env) eqn:Hd; [|apply sends_throw].
      apply sends_with_runtime_updater; [done|apply delivery_nitro| |]; [intros; left; eauto|by intros; right].
    - apply sends_bind; [done| |intros outcome].
      + unfold confirmNeoN3FulfillExecution. apply sends_bind; [done|apply sends_local|intros now]. by apply sends_confirm.
      + apply sends_bind; [done| |intros; apply sends_ret]. unfold buildNeoN3RelayRequestId. apply sends_await; [done..|].
        intros uuid. apply sends_ret. }
  specialize (H en s []). destruct (run en _ s []) as [[o s'] tr']. by apply H.
Qed.

(** ** Confirmation *)

(** The chain executed the transaction: a node answered an application log whose
    execution halted. *)
Definition halted (txHash : string) (tr : list cobs) : Prop :=
  exists appLog, answered tr "getapplicationlog" [VStr txHash] appLog /\ (vm_state_of appLog).2 = "HALT".

Definition confirmed (txHash : string) (c : confirmation) (tr : list cobs) : Prop :=
  (cf_vm_state c = "HALT" /\ halted txHash tr) \/
  (cf_vm_state c = "UNKNOWN" /\ shouldThrowOnNeoN3FulfillConfirmTimeout config = false).

#[export] Instance lasting_confirmed txHash c : Lasting (confirmed txHash c).
Proof.
  intros t tr [[H (log & Hl & Hv)]|H]; [left|by right]. split; [done|]. exists log. split; [by apply answered_mono|done].
Qed.

Lemma assert_halt requestId txHash appLog c :
  confirm_once requestId txHash appLog = Some (inr c) -> cf_vm_state c = "HALT" /\ (vm_state_of appLog).2 = "HALT".
Proof.
  unfold confirm_once, vm_state_of. cbn [fst snd]. set (execution := at0 _). unfold assertNeoN3HaltExecution, v_or.
  destruct (truthy (get execution "vmstate")); [|done].
  destruct (String.eqb_spec (toUpperCase (trimString (get execution "vmstate"))) "") as [|Hne]; [done|]. rewrite or_str_nonempty by done.
  destruct (String.eqb_spec (toUpperCase (trimString (get execution "vmstate"))) "HALT") as [->|]; [|done]. by intros [= <-].
Qed.

Lemma wait_yields en requestId txHash deadline e again s tr c s' tr' :
  run en (wait_or_time_out config requestId txHash deadline e again) s tr = (inr c, s', tr') ->
  confirmed txHash c tr' \/ exists s1 tr1, run en again s1 tr1 = (inr c, s', tr').
Proof.
  unfold wait_or_time_out. cbn [clock bind run]. destruct (deadline <=? _).
  - destruct (shouldThrowOnNeoN3FulfillConfirmTimeout config) eqn:Hopt; [done|]. intros [= <- _ _]. by left; right.
  - cbn [await bind run]. destruct (env_reply en _ _ _); [done|]. eauto.
Qed.

Lemma confirm_yields fuel requestId txHash deadline e en s tr c s' tr' :
  run en (poll_confirm config fuel requestId txHash deadline e) s tr = (inr c, s', tr') -> confirmed txHash c tr'.
Proof.
  revert e s tr. induction fuel as [|fuel IH]; intros e s tr; cbn [poll_confirm]; [done|]. rewrite run_bind, run_attempt.
  destruct (run en (neoRpcCall _ _) s tr) as [[log s1] tr1] eqn:Hr. cbn [run].
  destruct log as [e'|appLog]; [destruct (is_fault_text e'); [done|]|].
  { intros [?|(s2 & tr2 & ?)]%wait_yields; [done|by eapply IH]. }
  destruct (confirm_once requestId txHash appLog) as [[e'|c']|] eqn:Hc; [done| |intros [?|(s2 & tr2 & ?)]%wait_yields; [done|by eapply IH]].
  intros [= <- _ <-]. apply assert_halt in Hc as [Hs Hv]. left. split; [done|]. exists appLog. split; [by eapply rpc_answered|done].
Qed.

(** C13.  A delivery counts only when the chain executed it.  A fulfillment is
    reported with the state HALT only if a node showed an application log in which
    that very transaction halted; unless the operator opted out of it, nothing
    else is reported as a success: a faulted transaction and one whose log does
    not appear in time are errors. *)
Theorem delivery_confirmed : forall fuel requestId success result error signature bytes64 en s tr f s' tr',
  run en (fulfillNeoN3Request config process_env L fuel requestId success result error signature bytes64) s tr = (inr f, s', tr') ->
  (fd_vm_state f = "HALT" /\ halted (fd_tx_hash f) tr') \/
  (fd_vm_state f = "UNKNOWN" /\ shouldThrowOnNeoN3FulfillConfirmTimeout config = false).
Proof.
  intros fuel requestId success result error signature bytes64 en s tr f s' tr'. unfold fulfillNeoN3Request. rewrite run_bind.
  destruct (run en (or_derived _ _ _ _) s tr) as [[[e|txHash] s1] tr1]; [done|]. rewrite run_bind.
  destruct (run en (confirmNeoN3FulfillExecution _ _ _ _) s1 tr1) as [[[e|c] s2] tr2] eqn:Hc; [done|].
  assert (confirmed txHash c tr2) as H by (revert Hc; unfold confirmNeoN3FulfillExecution; cbn [clock bind run]; apply confirm_yields).
  unfold buildNeoN3RelayRequestId. cbn [await bind run]. destruct (env_reply en _ tr2 NewUUID) as [e|uuid]; [done|]. cbn [bind run].
  intros [= <- <- <-]. cbn [fd_vm_state fd_tx_hash]. exact (lasting [_] _ H).
Qed.

(** ** The wait ends *)

(** Time does not run backwards, a sleep of a second takes at least a second, and
    a sleep is never rejected. *)
Definition clock_runs (en : Effects.env rpc_state n3call) : Prop :=
  (forall o tr, env_now en tr <= env_now en (o :: tr)) /\
  (forall r tr, env_now en tr + 1000 <= env_now en (OCall (Sleep 1000) r :: tr)) /\
  (forall tr, env_reply en _ tr (Sleep 1000) = inr tt).

(** A verdict, or one of the two errors of a confirmation. *)
Definition verdict (requestId txHash : string) (o : string + confirmation) : Prop :=
  match o with
  | inr _ => True
  | inl e => is_fault_text e = true \/ exists detail, e = fault_text requestId txHash detail \/ e = timeout_text requestId txHash detail
  end.

Lemma now_extends en t tr : clock_runs en -> env_now en tr <= env_now en (t ++ tr).
Proof. intros (Hm & _). induction t as [|o t IH]; [done|]. etransitivity; [exact IH|apply Hm]. Qed.

Lemma once_verdict requestId txHash appLog v : confirm_once requestId txHash appLog = Some v -> verdict requestId txHash v.
Proof.
  unfold confirm_once. destruct (vm_state_of appLog) as [execution vm]. destruct (vm =? "")%string; [done|]. intros [= <-].
  unfold assertNeoN3HaltExecution. case_match; cbn; eauto.
Qed.

(** At the deadline, and before it: one poll more per second that is left. *)
Lemma wait_enough en requestId txHash deadline e again again' s tr :
  clock_runs en ->
  (deadline <= env_now en tr \/
   run en again s (OCall (Sleep 1000) (inr tt) :: tr) = run en again' s (OCall (Sleep 1000) (inr tt) :: tr) /\
   verdict requestId txHash (run en again' s (OCall (Sleep 1000) (inr tt) :: tr)).1.1) ->
  let wait p := run en (wait_or_time_out config requestId txHash deadline e p) s tr in
  wait again = wait again' /\ verdict requestId txHash (wait again').1.1.
Proof.
  intros (_ & _ & Hwake) H wait. subst wait. cbn beta. unfold wait_or_time_out. cbn [clock bind run].
  destruct (Z.leb_spec deadline (env_now en tr)) as [|Hlt]; [case_match; cbn; eauto|]. cbn [await bind run]. rewrite Hwake.
  destruct H as [?|H]; [lia|exact H].
Qed.

Lemma confirm_enough en requestId txHash deadline n k e s tr :
  clock_runs en -> deadline - env_now en tr <= 1000 * Z.of_nat k ->
  let poll fuel := run en (poll_confirm config fuel requestId txHash deadline e) s tr in
  poll (S k + n)%nat = poll (S k) /\ verdict requestId txHash (poll (S k)).1.1.
Proof.
  intros Hc. pose proof Hc as (_ & Hsleep & _). revert e s tr. induction k as [|k IH]; intros e s tr Hd; cbv zeta;
    cbn [Nat.add poll_confirm]; rewrite !run_bind, !run_attempt;
    destruct (run_extends en (neoRpcCall "getapplicationlog" [VStr txHash]) s tr) as [t Ht];
    destruct (run en (neoRpcCall "getapplicationlog" [VStr txHash]) s tr) as [[log s1] tr1]; cbn in Ht; cbn [run];
    pose proof (now_extends en t tr Hc) as Hnow; rewrite <-Ht in Hnow; pose proof (Hsleep (inr tt) tr1) as Hlater.
  - destruct log as [e'|appLog]; [destruct (is_fault_text e') eqn:Hf; [cbn; auto|apply wait_enough; [done|left; lia]]|].
    destruct (confirm_once requestId txHash appLog) as [v|] eqn:Ho; [|apply wait_enough; [done|left; lia]].
    split; [done|]. apply once_verdict in Ho. by destruct v.
  - destruct log as [e'|appLog]; [destruct (is_fault_text e') eqn:Hf; [cbn; auto|]|].
    { apply wait_enough; [done|right]. apply IH. lia. }
    destruct (confirm_once requestId txHash appLog) as [v|] eqn:Ho; [|apply wait_enough; [done|right; apply IH; lia]].
    split; [done|]. apply once_verdict in Ho. by destruct v.
Qed.

(** C31.  Waiting for the verdict of a delivery ends.  While time passes, the loop
    polls at most once a second of its timeout and once more: with that many polls
    or more, however the nodes answer, it ends with a verdict, a fault or the
    timeout, and more polls change nothing. *)
Theorem confirmation_ends : forall en requestId txHash s tr fuel,
  clock_runs en ->
  let enough := (Z.to_nat (getNeoN3FulfillConfirmTimeoutMs config / 1000) + 2)%nat in
  let confirm fuel := run en (confirmNeoN3FulfillExecution config fuel requestId txHash) s tr in
  (enough <= fuel)%nat -> confirm fuel = confirm enough /\ verdict requestId txHash (confirm enough).1.1.
Proof.
  intros en requestId txHash s tr fuel Hc enough confirm Hf. subst confirm. cbn beta. unfold confirmNeoN3FulfillExecution. cbn [clock bind run].
  set (T := getNeoN3FulfillConfirmTimeoutMs config) in *. replace fuel with (enough + (fuel - enough))%nat by lia.
  subst enough. replace (Z.to_nat (T / 1000) + 2)%nat with (S (S (Z.to_nat (T / 1000)))) by lia.
  apply confirm_enough; [done|]. assert (0 < T) as HT.
  { subst T. unfold getNeoN3FulfillConfirmTimeoutMs, positive_number. repeat case_match; simplify_eq; cbn; try lia; reflexivity. }
  pose proof (Z.div_mod T 1000 ltac:(lia)). pose proof (Z.mod_pos_bound T 1000 ltac:(lia)). pose proof (Z.div_pos T 1000 ltac:(lia) ltac:(lia)). lia.
Qed.
(** ** The wait for a top-up ends *)

(** The two errors of that wait. *)
Definition halt_outcome (txHash label : string) (o : string + unit) : Prop :=
  match o with
  | inr _ => True
  | inl e => exists detail, e = label +:+ " faulted (" +:+ txHash +:+ "): " +:+ detail
                         \/ e = label +:+ " was not confirmed before timeout (" +:+ txHash +:+ ")" +:+ detail
  end.

Lemma halt_enough en txHash label deadline n k e s tr :
  clock_runs en -> deadline - env_now en tr <= 1000 * Z.of_nat k ->
  let poll fuel := run en (poll_halt fuel txHash label (Fin deadline) e) s tr in
  poll (S k + n)%nat = poll (S k) /\ halt_outcome txHash label (poll (S k)).1.1.
Proof.
  intros Hc. pose proof Hc as (_ & Hsleep & Hwake). revert e s tr. induction k as [|k IH]; intros e s tr Hd; cbv zeta;
    cbn [Nat.add poll_halt clock bind run num_lt]; destruct (Z.ltb_spec (env_now en tr) deadline) as [Hlt|_]; cbn [negb run]; try lia;
    try (split; [done|]; cbn; eauto).
  rewrite !run_bind, !run_attempt.
  destruct (run_extends en (neoRpcCall "getapplicationlog" [VStr txHash]) s tr) as [t Ht].
  destruct (run en (neoRpcCall "getapplicationlog" [VStr txHash]) s tr) as [[log s1] tr1]; cbn in Ht; cbn [run].
  pose proof (now_extends en t tr Hc) as Hnow; rewrite <-Ht in Hnow; pose proof (Hsleep (inr tt) tr1) as Hlater.
  destruct log as [e'|appLog]; [cbn [await bind run]; rewrite Hwake; apply IH; lia|].
  destruct (vm_state_of appLog) as [execution vm]. destruct (vm =? "HALT")%string; [done|].
  destruct (vm =? "")%string; cbn [negb]; [cbn [await bind run]; rewrite Hwake; apply IH; lia|].
  split; [done|]. cbn. eauto.
Qed.

(** The wait for a top-up ends as well, when its timeout is a finite number. *)
Theorem halt_wait_ends : forall en txHash label T s tr fuel,
  clock_runs en -> fee_wait_timeout config = Fin T ->
  let enough := (Z.to_nat (T / 1000) + 2)%nat in
  let wait fuel := run en (waitForNeoN3TransactionHalt config fuel txHash label) s tr in
  (enough <= fuel)%nat -> wait fuel = wait enough /\ halt_outcome txHash label (wait enough).1.1.
Proof.
  intros en txHash label T s tr fuel Hc HT enough wait Hf. subst wait. cbn beta. unfold waitForNeoN3TransactionHalt, deadline_after.
  rewrite HT. cbn [clock bind run num_add]. replace fuel with (enough + (fuel - enough))%nat by lia.
  subst enough. replace (Z.to_nat (T / 1000) + 2)%nat with (S (S (Z.to_nat (T / 1000)))) by lia.
  apply halt_enough; [done|]. pose proof (Z.div_mod T 1000 ltac:(lia)). pose proof (Z.mod_pos_bound T 1000 ltac:(lia)). lia.
Qed.
End fulfill_spec.

(** ** A timeout is retried *)

Lemma startsWith_self p r : startsWith (p +:+ r) p = true.
Proof. induction p as [|a p IH]; [by destruct r|]. rewrite str_cons_app. by apply startsWith_cons. Qed.

Lemma includes_middle s p r : includes (s +:+ p +:+ r) p = true.
Proof.
  induction s as [|a s IH].
  - rewrite str_nil_app. destruct (p +:+ r) as [|b t] eqn:Hp; cbn [includes]; rewrite <-?Hp, startsWith_self; done.
  - rewrite str_cons_app. cbn [includes]. by rewrite IH, orb_true_r.
Qed.

(** An unconfirmed delivery is submitted again: the relayer's classifier takes
    the timeout for a transient failure, unless the detail the node gave reads as
    a settled request or a terminal configuration error. *)
Theorem timeout_retried : forall requestId txHash detail,
  let e := timeout_text requestId txHash detail in
  isAlreadyFulfilledError e = false -> isTerminalConfigurationError e = false -> classifyError e = Transient.
Proof.
  intros requestId txHash detail e H1 H2. unfold classifyError. rewrite isAlreadyFulfilled_lower, isTerminal_lower, H1, H2.
  assert (includes (toLowerCase e) "timed out" = true) as Hin.
  { change e with ("Neo N3 fulfillRequest confirmation " +:+ ("timed out" +:+ (" for request " +:+ requestId +:+ " (" +:+ txHash +:+ "): " +:+ detail))).
    rewrite !toLowerCase_app. apply includes_middle. }
  unfold any_of at 2. cbn [existsb]. rewrite Hin. by rewrite !orb_true_r.
Qed.

(** ** Samples *)

Definition sample_settings (_ : string) : string := "".

Abbreviation sample_delivery pending :=
  (run (sample_chain pending) (fulfillNeoN3Request sample_neo_config sample_settings sample_n3 5 "12" true "ok" "" "0xaa" "") sample_urls []).

Definition is_invocation (o : cobs) : bool := match o with OCall (ContractInvoke _ _ _ _ _ _) _ => true | _ => false end.

Lemma delivery_submits_request_witness :
  trace_ok (broadcast_ok (delivery_policy sample_neo_config sample_settings sample_n3 (FulfillRequest "12" true "6f6b" "" "0xaa")))
    (sample_delivery "").2 /\
  length (filter (fun o => is_invocation o = true) (sample_delivery "").2) = 1%nat.
Proof.
  split; [|by vm_compute].
  exact (delivery_submits_request sample_neo_config sample_settings sample_n3 5 "12" true "ok" "" "0xaa" "" (sample_chain "") sample_urls sample_signing).
Defined.

Lemma sample_delivered : exists f s' tr',
  sample_delivery "" = (inr f, s', tr') /\ fd_tx_hash f = "0xabc" /\ fd_vm_state f = "HALT".
Proof. eexists _, _, _. split; [vm_compute; reflexivity|]. split; reflexivity. Qed.

Lemma delivery_confirmed_witness : exists f s' tr',
  sample_delivery "" = (inr f, s', tr') /\ fd_tx_hash f = "0xabc" /\ fd_vm_state f = "HALT" /\ halted "0xabc" tr'.
Proof.
  destruct sample_delivered as (f & s' & tr' & Hr & Hh & Hs). exists f, s', tr'. split; [exact Hr|]. split; [exact Hh|]. split; [exact Hs|].
  destruct (delivery_confirmed sample_neo_config sample_settings sample_n3 5 "12" true "ok" "" "0xaa" "" (sample_chain "") sample_urls [] f s' tr' Hr)
    as [[_ H]|[H _]]; [rewrite Hh in H; exact H|congruence].
Defined.

(** A transaction whose log never appears: three polls, the timeout, and the
    error the relayer retries. *)
Lemma confirmation_ends_witness :
  let confirm fuel := run (sample_chain "0xabc") (confirmNeoN3FulfillExecution sample_neo_config fuel "12" "0xabc") sample_urls [] in
  confirm 9%nat = confirm 5%nat /\ verdict "12" "0xabc" (confirm 5%nat).1.1 /\
  (confirm 5%nat).1.1 = inl (timeout_text "12" "0xabc" "fetch failed").
Proof.
  pose proof (confirmation_ends sample_neo_config (sample_chain "0xabc") "12" "0xabc" sample_urls [] 9) as H. cbv beta zeta in H.
  destruct H as [He Hv]; [|by apply Nat.leb_le|split_and!; [exact He|exact Hv|by vm_compute]].
  split_and!; [intros o tr; cbn; lia|intros r tr; cbn; lia|done].
Defined.

Lemma halt_wait_ends_witness :
  let wait fuel := run (sample_chain "0xabc") (waitForNeoN3TransactionHalt sample_neo_config fuel "0xabc" TOP_UP_LABEL) sample_urls [] in
  fee_wait_timeout sample_neo_config = Fin 45000 /\ wait 60%nat = wait 47%nat /\ halt_outcome "0xabc" TOP_UP_LABEL (wait 47%nat).1.1 /\
  (wait 47%nat).1.1 = inl "Neo N3 updater fee top-up was not confirmed before timeout (0xabc): fetch failed".
Proof.
  assert (fee_wait_timeout sample_neo_config = Fin 45000) as HT by reflexivity.
  pose proof (halt_wait_ends sample_neo_config (sample_chain "0xabc") "0xabc" TOP_UP_LABEL 45000 sample_urls [] 60) as H. cbv beta zeta in H.
  destruct H as [He Hv]; [|done|by apply Nat.leb_le|split_and!; [exact HT|exact He|exact Hv|by vm_compute]].
  split_and!; [intros o tr; cbn; lia|intros r tr; cbn; lia|done].
Defined.

Example timeout_class : classifyError (timeout_text "12" "0xabc" "fetch failed") = Transient.
Proof. by vm_compute. Qed.

(** The node's own text can steer the class of a timeout: a detail that speaks of
    a fulfilled request settles a request whose transaction was never seen. *)
Example timeout_steered :
  classifyError (timeout_text "12" "0xabc" "Neo RPC getapplicationlog failed via https://a (503): already fulfilled from cache") = Settled.
Proof. by vm_compute. Qed.
